(** * S3 <-> local file tree reconciliation: the two sync scripts

    A shallow embedding of [scripts/aws/s3/sync_to_s3.py] (module [Upload])
    and [scripts/aws/s3/sync_from_s3.py] (module [Download]).

    Python dictionaries are association lists in insertion order, the
    order in which the scripts iterate over them.  The scan of the local
    file tree and the listing of the bucket are inputs, and so is what a
    later look at the tree finds; every call that changes the local file
    tree or the bucket, every line read from the terminal and the messages
    the properties mention are recorded in a trace.  A string is a
    sequence of code points below 256. *)

From Stdlib Require Import String Ascii List ZArith QArith Bool Lia Sorted.
From Stdlib Require Import Qround Qabs DecimalString Lqa.
Import ListNotations.

Local Open Scope string_scope.
Local Open Scope list_scope.

Set Implicit Arguments.
Set Warnings "-register-all".

(** ** Python strings *)

Definition chars (s : string) : list ascii := list_ascii_of_string s.
Definition str (l : list ascii) : string := string_of_list_ascii l.

Definition slash : ascii := "/"%char.
Definition backslash : ascii := "092"%char.
Definition dot : ascii := "."%char.
Definition dquote : ascii := "034"%char.

(** [s.startswith(p)] *)
Fixpoint startswith (s p : string) : bool :=
  match p, s with
  | EmptyString, _ => true
  | String _ _, EmptyString => false
  | String b p', String a s' => Ascii.eqb a b && startswith s' p'
  end.

Definition reverse (s : string) : string := str (rev (chars s)).

(** [s.endswith(p)]: [p] is [s] or ends the tail of [s]. *)
Fixpoint endswith (s p : string) : bool :=
  (s =? p)
  || match s with
     | EmptyString => false
     | String _ s' => endswith s' p
     end.

(** [c in s] for a one-character [c] *)
Fixpoint contains (c : ascii) (s : string) : bool :=
  match s with
  | EmptyString => false
  | String a s' => Ascii.eqb a c || contains c s'
  end.

(** [s.lstrip(c)] for a one-character [c] *)
Fixpoint lstrip (s : string) (c : ascii) : string :=
  match s with
  | EmptyString => EmptyString
  | String a s' => if Ascii.eqb a c then lstrip s' c else s
  end.

Definition rstrip (s : string) (c : ascii) : string := reverse (lstrip (reverse s) c).

(** [s.strip(c)] *)
Definition strip (s : string) (c : ascii) : string := rstrip (lstrip s c) c.

(** [s.replace(a, b)] for one-character [a] and [b] *)
Fixpoint replace (s : string) (a b : ascii) : string :=
  match s with
  | EmptyString => EmptyString
  | String x s' => String (if Ascii.eqb x a then b else x) (replace s' a b)
  end.

(** A character of a string is a code point below 256.  Of these
    [str.lower] changes the capital letters: [A] to [Z], and the accented
    ones from 192 to 222 without the multiplication sign 215; each goes 32
    up. *)
Definition lower_char (a : ascii) : ascii :=
  let n := nat_of_ascii a in
  if ((65 <=? n)%nat && (n <=? 90)%nat)
     || ((192 <=? n)%nat && (n <=? 222)%nat && negb (n =? 215)%nat)
  then ascii_of_nat (n + 32) else a.

(** [s.lower()] *)
Fixpoint lower (s : string) : string :=
  match s with
  | EmptyString => EmptyString
  | String a s' => String (lower_char a) (lower s')
  end.

(** The part of [s] after the last [c], or all of [s] without a [c]:
    [s.split(c)[-1]] and [s[s.rfind(c)+1:]]. *)
Fixpoint after_last (c : ascii) (s : string) : string :=
  match s with
  | EmptyString => EmptyString
  | String a s' =>
      if contains c s' then after_last c s'
      else if Ascii.eqb a c then s' else s
  end.

(** [s.strip()]: white space off both ends.  Below 256 the white space
    of [str] is the space, the controls 9 to 13 and 28 to 31, the next-line
    control 133 and the no-break space 160. *)
Definition is_space (a : ascii) : bool :=
  let n := nat_of_ascii a in
  (n =? 32)%nat || ((9 <=? n)%nat && (n <=? 13)%nat)
  || ((28 <=? n)%nat && (n <=? 31)%nat) || (n =? 133)%nat || (n =? 160)%nat.

Fixpoint lstrip_ws (s : string) : string :=
  match s with
  | EmptyString => EmptyString
  | String a s' => if is_space a then lstrip_ws s' else s
  end.

Definition strip_ws (s : string) : string :=
  reverse (lstrip_ws (reverse (lstrip_ws s))).

(** Python truth value of a string and of an optional string ([None] and
    the empty string are false). *)
Definition nonempty (s : string) : bool := negb (s =? "").

Definition truthy (o : option string) : bool :=
  match o with
  | Some s => nonempty s
  | None => false
  end.

(** ** [os.path] on POSIX path strings *)

(** [os.path.basename] *)
Definition basename (p : string) : string := after_last slash p.

(** [p[:p.rfind(c) + 1]] *)
Fixpoint up_to_last (c : ascii) (s : string) : string :=
  match s with
  | EmptyString => EmptyString
  | String a s' =>
      if contains c s' then String a (up_to_last c s')
      else if Ascii.eqb a c then String a EmptyString
      else EmptyString
  end.

(** [posixpath.dirname]: the head up to the last slash, without its
    trailing slashes unless it consists of slashes only. *)
Definition dirname (p : string) : string :=
  let head := up_to_last slash p in
  if nonempty head && negb (lstrip head slash =? "") then rstrip head slash else head.

(** The extension of a file name without separator, as
    [os.path.splitext(...)[1]] finds it: from the last dot on, provided
    some earlier character of the name is not a dot. *)
Fixpoint ext_of_name (seen_other : bool) (n : string) : string :=
  match n with
  | EmptyString => EmptyString
  | String a n' =>
      if Ascii.eqb a dot then
        if contains dot n' then ext_of_name seen_other n'
        else if seen_other then n else EmptyString
      else ext_of_name true n'
  end.

(** [os.path.splitext(p)[1]] *)
Definition splitext_ext (p : string) : string := ext_of_name false (basename p).

(** What the scripts need from [os.path] beyond pure string surgery.
    [relpath] is partial: on Windows it raises [ValueError] for paths on
    different drives. *)
Class OsPath := {
  os_path_join : string -> string -> string;
  os_path_normpath : string -> string;
  os_path_relpath : string -> string -> option string;
  os_path_normpath_idem :
    forall p, os_path_normpath (os_path_normpath p) = os_path_normpath p
}.

(** ** Dictionaries in insertion order *)

Section Dict.
Variable V : Type.

Definition dict := list (string * V).

Fixpoint dict_get (d : dict) (k : string) : option V :=
  match d with
  | [] => None
  | (k', v) :: d' => if k' =? k then Some v else dict_get d' k
  end.

Definition dict_mem (k : string) (d : dict) : bool :=
  match dict_get d k with
  | Some _ => true
  | None => false
  end.

(** [d[k] = v]: an existing key keeps its place. *)
Fixpoint dict_set (d : dict) (k : string) (v : V) : dict :=
  match d with
  | [] => [(k, v)]
  | (k', v') :: d' => if k' =? k then (k, v) :: d' else (k', v') :: dict_set d' k v
  end.

Definition keys (d : dict) : list string := map fst d.
End Dict.

(** A set of strings, as a list. *)
Definition str_in (x : string) (l : list string) : bool := existsb (String.eqb x) l.

Definition set_add (x : string) (l : list string) : list string :=
  if str_in x l then l else l ++ [x].

(** ** Data *)

(** One entry of a local scan: [{'hash': .., 'size': .., 'path': ..}]. *)
Record file_info := {
  file_hash : string;
  file_size : Z;
  file_path : string
}.

(** One entry of a bucket listing.  An absent ['ETag'] reads as the empty
    string and an absent ['Size'] as [0], the defaults of [obj.get]. *)
Record s3_object := {
  Key : string;
  ETag : string;
  Size : Z
}.

(** The local file tree.  A file carries what [calculate_local_etag]
    returns for it ([None] when it cannot be read) and its size. *)
Inductive node :=
| File (etag : option string) (size : Z)
| Dir (entries : list (string * node)).

(** What is found at an absolute path, if anything. *)
Definition filesystem := string -> option node.

Definition exists_ (fs : filesystem) (p : string) : bool :=
  match fs p with Some _ => true | None => false end.

Definition isfile (fs : filesystem) (p : string) : bool :=
  match fs p with Some (File _ _) => true | _ => false end.

Definition isdir (fs : filesystem) (p : string) : bool :=
  match fs p with Some (Dir _) => true | _ => false end.

(** ** Configuration ([aws_config.py], [s3_config.py]) *)

Definition BUCKET : string := "llg-games".
Definition S3_PREFIX : string := "games/pull-tabs/".

(** [key.endswith('/') and obj.get('Size', 0) == 0] *)
Definition is_folder_marker (obj : s3_object) : bool :=
  endswith (Key obj) "/" && (Size obj =? 0)%Z.

(** [key[len(s3_prefix):]] *)
Fixpoint drop_prefix (p s : string) : string :=
  match p, s with
  | String _ p', String _ s' => drop_prefix p' s'
  | _, _ => s
  end.

(** The relative path of a key: the key without the prefix when it starts
    with the (non-empty) prefix, else the key itself. *)
Definition rel_path_of (s3_prefix key : string) : string :=
  if nonempty s3_prefix && startswith key s3_prefix
  then drop_prefix s3_prefix key
  else key.

(** [obj.get('ETag', '')] stripped of double quotes at both ends *)
Definition etag_of (obj : s3_object) : string := strip (ETag obj) dquote.

(** ** [parse_project_path] and the file-or-directory decision
    (the same text in both scripts) *)

Section Paths.
Context {os : OsPath}.

(** [project_path.lstrip('/').lstrip('\\')] *)
Definition strip_leading (project_path : string) : string :=
  lstrip (lstrip project_path slash) backslash.

Definition with_trailing_slash (s : string) : string :=
  if endswith s "/" then s else s ++ "/".

Definition parse_project_path (fs : filesystem) (project_root project_path : string)
    (bucket_override prefix_override : option string) : string * string * string :=
  let project_path := strip_leading project_path in
  let local_path := os_path_normpath (os_path_join project_root project_path) in
  let bucket_name :=
    match bucket_override with
    | Some b => if nonempty b then b else BUCKET
    | None => BUCKET
    end in
  let s3_prefix :=
    if truthy prefix_override then
      match prefix_override with
      | Some p => with_trailing_slash p
      | None => S3_PREFIX
      end
    else if exists_ fs local_path && isdir fs local_path then
      with_trailing_slash (S3_PREFIX ++ replace project_path backslash slash)
    else if exists_ fs local_path && isfile fs local_path then
      S3_PREFIX
    else
      let project_path_clean := replace project_path backslash slash in
      let basename_ := basename project_path_clean in
      let last_piece := after_last dot basename_ in
      let has_extension :=
        contains dot basename_ && negb ((last_piece =? "") || (last_piece =? "/")) in
      let is_likely_file := has_extension && negb (contains slash basename_) in
      if is_likely_file then S3_PREFIX
      else with_trailing_slash (S3_PREFIX ++ project_path_clean) in
  (bucket_name, s3_prefix, local_path).

(** The [is_file] decision at the head of [sync_single_path]. *)
Definition path_is_file (fs : filesystem) (local_path project_path : string) : bool :=
  if exists_ fs local_path then isfile fs local_path
  else
    let project_path_clean := strip_leading project_path in
    contains dot (basename project_path_clean)
    && negb (contains slash (replace project_path_clean backslash slash)).

(** The name of the single file of a file-scoped sync. *)
Definition scope_filename (fs : filesystem) (local_path project_path : string) : string :=
  if exists_ fs local_path then basename local_path
  else basename (strip_leading project_path).

(** [sync_scope_prefix] as [sync_single_path] derives it. *)
Definition scope_of (is_file : bool) (s3_prefix filename : string) : string :=
  if is_file then s3_prefix ++ filename else s3_prefix.

(** The local path, the remote prefix and the scope of the run that
    [sync_single_path] makes for a project path. *)
Definition run_local_path (fs : filesystem) (project_root project_path : string)
    (bucket_override prefix_override : option string) : string :=
  snd (parse_project_path fs project_root project_path bucket_override prefix_override).

Definition run_prefix (fs : filesystem) (project_root project_path : string)
    (bucket_override prefix_override : option string) : string :=
  snd (fst (parse_project_path fs project_root project_path bucket_override
              prefix_override)).

Definition run_scope (fs : filesystem) (project_root project_path : string)
    (bucket_override prefix_override : option string) : string :=
  let local_path :=
    run_local_path fs project_root project_path bucket_override prefix_override in
  scope_of (path_is_file fs local_path project_path)
    (run_prefix fs project_root project_path bucket_override prefix_override)
    (scope_filename fs local_path project_path).
End Paths.

(** ** The outside world *)

(** Calls that change the bucket or the local file tree: [upload_file],
    [delete_object] and [download_file] of the client, the helper
    [create_local_directory], [os.remove] and [os.rmdir]. *)
Inductive call :=
| S3UploadFile (local_path bucket key : string)
| S3DeleteObject (bucket key : string)
| S3DownloadFile (bucket key local_path : string)
| MakeLocalDirectory (file_path : string)
| RemoveLocalFile (local_path : string)
| RemoveDirectory (directory : string).

Inductive question :=
| AskProceed (project_path : string)
| AskDeleteLocalFiles.

(** The lines of the report that the properties speak about. *)
Inductive message :=
| MsgUpdating (rel_path : string)
| MsgSkippedUnchanged (rel_path : string)
| MsgTransferNew (rel_path : string)
| MsgRenaming (old_filename new_filename : string) (similarity : Q)
| MsgDeleting (rel_path : string)
| MsgDeletingFolder (key : string)
| MsgWillDeleteLocal (count : nat)
| MsgSkippingDeletions
| MsgSkippedPath (project_path : string)
| MsgNoChanges (project_path : string)
| MsgPreview (new_files changed_files : list string)
    (renames : list (string * string)) (orphaned_files : list string)
    (folders_to_delete folders_to_add : list string).

(** [Asked q None] is a read that ended in [EOFError] or
    [KeyboardInterrupt]. *)
Inductive event :=
| Called (c : call) (ok : bool)
| Asked (q : question) (answer : option string)
| Printed (m : message).

(** The terminal input still to come: each read takes the head, [None]
    being an interrupted read; reading past the end is end of file. *)
Record world := {
  trace : list event;
  stdin : list (option string)
}.

(** Whether a call succeeds is decided outside, possibly depending on
    everything that happened before. *)
Class Outcomes := call_succeeds : list event -> call -> bool.

(** So is what a look at the local file tree finds during the run:
    [os.path.exists(path)], and [not os.listdir(path)], which is [None]
    when [os.listdir] raises. *)
Class LiveTree := {
  path_exists : list event -> string -> bool;
  listdir_empty : list event -> string -> option bool
}.

Definition io (A : Type) : Type := world -> A * world.

Definition ret {A} (a : A) : io A := fun w => (a, w).

Definition bind {A B} (m : io A) (k : A -> io B) : io B :=
  fun w => let (a, w') := m w in k a w'.

Notation "x <- m ;; k" := (bind m (fun x => k))
  (at level 61, m at next level, right associativity).
Notation "m ;;; k" := (bind m (fun _ => k))
  (at level 61, right associativity).

Definition emit (e : event) : io unit :=
  fun w => (tt, {| trace := trace w ++ [e]; stdin := stdin w |}).

Definition print (m : message) : io unit := emit (Printed m).

Definition perform {oc : Outcomes} (c : call) : io bool :=
  fun w =>
    let ok := call_succeeds (trace w) c in
    (ok, {| trace := trace w ++ [Called c ok]; stdin := stdin w |}).

(** A look at what is outside: it leaves no trace. *)
Definition look {A} (f : list event -> A) : io A := fun w => (f (trace w), w).

(** [input(...)]: [None] stands for both exceptions the scripts catch. *)
Definition input (q : question) : io (option string) :=
  fun w =>
    match stdin w with
    | [] => (None, {| trace := trace w ++ [Asked q None]; stdin := [] |})
    | a :: rest => (a, {| trace := trace w ++ [Asked q a]; stdin := rest |})
    end.

(** [for x in l: s = body x s] *)
Fixpoint for_each {A S} (l : list A) (body : A -> S -> io S) (s : S) : io S :=
  match l with
  | [] => ret s
  | x :: l' => s' <- body x s ;; for_each l' body s'
  end.

(** What a computation returns and what it adds to the trace. *)
Definition value {A} (m : io A) (w : world) : A := fst (m w).

Definition emitted {A} (m : io A) (w : world) : list event :=
  skipn (length (trace w)) (trace (snd (m w))).

(** [response.strip().lower() in ['yes', 'y']] *)
Definition is_yes (response : string) : bool :=
  let r := lower (strip_ws response) in
  (r =? "yes") || (r =? "y").

(** ** Reading the bucket *)

Inductive head_result :=
| HeadFound (etag : string) (content_length : Z)
| HeadNotFound
| HeadError.

(** [head_object bucket key] and the paginated [list_objects_v2 bucket
    prefix], [None] when the listing fails. *)
Record s3_client := {
  head_object : string -> string -> head_result;
  list_objects_v2 : string -> option string -> option (list s3_object)
}.

Definition list_all_objects (s3 : s3_client) (bucket_name prefix : string)
  : option (list s3_object) :=
  list_objects_v2 s3 bucket_name (if nonempty prefix then Some prefix else None).

(** [etag[1:-1]] when the tag is wrapped in double quotes *)
Definition unquote (etag : string) : string :=
  if startswith etag (String dquote "") && endswith etag (String dquote "")
  then match etag with
       | String _ rest => reverse (match reverse rest with String _ r => r | EmptyString => EmptyString end)
       | EmptyString => EmptyString
       end
  else etag.

(** The listing of a file-scoped sync: the one object, if it is there;
    [None] when the probe fails for another reason than absence. *)
Definition probe_single_key (s3 : s3_client) (bucket_name s3_key : string)
  : option (list s3_object) :=
  match head_object s3 bucket_name s3_key with
  | HeadFound etag len => Some [ {| Key := s3_key; ETag := unquote etag; Size := len |} ]
  | HeadNotFound => Some []
  | HeadError => None
  end.

(** The bucket side of a comparison: [{'key': .., 'hash': .., 'size': ..}]. *)
Record s3_info := {
  s3_key : string;
  s3_hash : string;
  s3_size : Z
}.

(** [sync_scope_prefix is None or key.startswith(sync_scope_prefix)] *)
Definition in_scope (sync_scope_prefix : option string) (key : string) : bool :=
  match sync_scope_prefix with
  | None => true
  | Some p => startswith key p
  end.

(** The first loop of [sync_to_s3] and of [sync_from_s3]: the files of the
    listing by relative path, and the folder markers within scope. *)
Fixpoint build_s3_files (s3_objects : list s3_object) (s3_prefix : string)
    (sync_scope_prefix : option string)
    (s3_files : dict s3_info) (s3_folder_markers : list string)
  : dict s3_info * list string :=
  match s3_objects with
  | [] => (s3_files, s3_folder_markers)
  | obj :: rest =>
      if is_folder_marker obj then
        build_s3_files rest s3_prefix sync_scope_prefix s3_files
          (if in_scope sync_scope_prefix (Key obj)
           then s3_folder_markers ++ [Key obj] else s3_folder_markers)
      else
        build_s3_files rest s3_prefix sync_scope_prefix
          (dict_set s3_files (rel_path_of s3_prefix (Key obj))
             {| s3_key := Key obj; s3_hash := etag_of obj; s3_size := Size obj |})
          s3_folder_markers
  end.

(** [already_matched_files]: same relative path and same hash on both
    sides. *)
Definition hash_matches {V} (hash_of : V -> string) (s3_files : dict V)
    (rel_path : string) (file_info_ : file_info) : bool :=
  match dict_get s3_files rel_path with
  | Some i => file_hash file_info_ =? hash_of i
  | None => false
  end.

Definition matched_files {V} (hash_of : V -> string) (local_files : dict file_info)
    (s3_files : dict V) : list string :=
  fold_left (fun acc item =>
               if hash_matches hash_of s3_files (fst item) (snd item)
               then set_add (fst item) acc else acc)
            local_files [].

(** [project_path.lstrip('/').lstrip('\\').split('/')[-1].split('\\')[-1]] *)
Definition folder_name_of (project_path : string) : string :=
  after_last backslash (after_last slash (strip_leading project_path)).

(** ** Rename detection: what both scripts share *)

(** [difflib.SequenceMatcher(None, name1, name2).ratio()] *)
Class Similarity := ratio : string -> string -> Q.

Definition calculate_filename_similarity {sm : Similarity} (name1 name2 : string) : Q :=
  ratio name1 name2.

Definition default_similarity_threshold : Q := 7 # 10.

(** [d[k].append(x)], creating the list at the first use of [k] *)
Definition dict_append {X} (d : dict (list X)) (k : string) (x : X) : dict (list X) :=
  match dict_get d k with
  | Some l => dict_set d k (l ++ [x])
  | None => dict_set d k [x]
  end.

(** [l.sort(key=similarity, reverse=True)]: highest first, equal scores
    in their original order. *)
Section Sort.
Variable C : Type.
Variable similarity_of : C -> Q.

Fixpoint insert_by_similarity (x : C) (l : list C) : list C :=
  match l with
  | [] => [x]
  | y :: l' =>
      if Qle_bool (similarity_of y) (similarity_of x) then x :: l
      else y :: insert_by_similarity x l'
  end.

Fixpoint sort_by_similarity (l : list C) : list C :=
  match l with
  | [] => []
  | x :: l' => insert_by_similarity x (sort_by_similarity l')
  end.
End Sort.

(** * [sync_to_s3.py]: local tree to bucket *)

Module Upload.

(** File extensions that never take part in a sync. *)
Definition SKIP_EXTENSIONS : list string := [".psd"].

Definition skip_files : list string :=
  [".s3-sync-metadata.json"; "generate-index.js"; "README.md"].

(** The tallies a sync returns. *)
Record result := {
  uploaded : nat;
  updated : nat;
  deleted : nat;
  renamed : nat;
  folders_deleted : nat;
  folders_added : nat;
  failed : nat
}.

Definition zero : result := Build_result 0 0 0 0 0 0 0.
Definition one_failure : result := Build_result 0 0 0 0 0 0 1.

Record preview_entry := { entry_path : string; entry_size : Z }.

Record preview_info := {
  new_files : list preview_entry;
  changed_files : list preview_entry;
  renames : list (string * string);
  orphaned_files : list preview_entry;
  folders_to_delete : list string;
  folders_to_add : list string;
  bucket_name : string;
  s3_prefix : string;
  project_path : string
}.

(** The change lists [sync_single_path] works out before it does
    anything, by relative path. *)
Record plan := {
  plan_new : list string;
  plan_changed : list string;
  plan_renames : list (string * string);
  plan_orphaned : list string;
  plan_folders_to_delete : list string;
  plan_folders_to_add : list string
}.

Section WithHost.
Context {os : OsPath} {oc : Outcomes}.

(** *** [scan_local_files] *)

Definition add_scanned (key full_path : string) (etag : option string) (size : Z)
    (local_files : dict file_info) : dict file_info :=
  match etag with
  | Some h =>
      if nonempty h
      then dict_set local_files key {| file_hash := h; file_size := size; file_path := full_path |}
      else local_files
  | None => local_files
  end.

Definition rel_join (rel name : string) : string :=
  if nonempty rel then rel ++ "/" ++ name else name.

(** One directory of [os.walk]: its files first, then its
    sub-directories in turn, [archive] pruned.  [rel] is the path of
    the directory below the scan root, so that [rel_join rel file] is
    what [os.path.relpath(file_path, local_path)] gives for a file met
    by the walk. *)
Fixpoint walk (n : node) (root rel : string) (local_files : dict file_info)
    {struct n} : dict file_info :=
  match n with
  | File _ _ => local_files
  | Dir entries =>
      let scan_file acc (e : string * node) :=
        match snd e with
        | File etag size =>
            if str_in (fst e) skip_files then acc
            else if str_in (lower (splitext_ext (fst e))) SKIP_EXTENSIONS then acc
            else add_scanned (replace (rel_join rel (fst e)) backslash slash)
                   (os_path_join root (fst e)) etag size acc
        | Dir _ => acc
        end in
      (fix descend (es : list (string * node)) (acc : dict file_info) : dict file_info :=
         match es with
         | [] => acc
         | (name, child) :: es' =>
             match child with
             | Dir _ =>
                 if name =? "archive" then descend es' acc
                 else descend es'
                        (walk child (os_path_join root name) (rel_join rel name) acc)
             | File _ _ => descend es' acc
             end
         end) entries (fold_left scan_file entries local_files)
  end.

Definition scan_local_files (fs : filesystem) (local_path : string) : dict file_info :=
  let local_path := os_path_normpath local_path in
  match fs local_path with
  | None => []
  | Some (File etag size) =>
      let filename := basename local_path in
      let file_ext := lower (splitext_ext filename) in
      if negb (str_in filename skip_files) && negb (str_in file_ext SKIP_EXTENSIONS)
      then add_scanned filename local_path etag size []
      else []
  | Some (Dir entries) => walk (Dir entries) local_path "" []
  end.

(** *** [detect_renames] (kept in the script, no longer called) *)

Record rename_candidate := {
  cand_s3_key : string;
  cand_s3_filename : string;
  cand_local_path : string;
  cand_local_filename : string;
  cand_similarity : Q
}.

Record rename_info := {
  new_local_path : string;
  similarity : Q;
  old_filename : string;
  new_filename : string
}.

Context {sm : Similarity}.

Definition local_hash_map (local_files : dict file_info)
    (already_matched_files : list string) : dict (list (string * string)) :=
  fold_left (fun acc item =>
               if str_in (fst item) already_matched_files then acc
               else dict_append acc (file_hash (snd item))
                      (fst item, basename (fst item)))
            local_files [].

Definition all_local_hash_to_paths (local_files : dict file_info) : dict (list string) :=
  fold_left (fun acc item => dict_append acc (file_hash (snd item)) (fst item))
            local_files [].

Definition s3_hash_map (local_files : dict file_info) (s3_objects : list s3_object)
    (s3_prefix_ : string) (already_matched_files : list string)
  : dict (list (string * string * string)) :=
  fold_left (fun acc obj =>
               if is_folder_marker obj then acc
               else
                 let rel_path := rel_path_of s3_prefix_ (Key obj) in
                 if str_in rel_path (keys local_files) then acc
                 else if nonempty (etag_of obj) then
                   match dict_get (all_local_hash_to_paths local_files) (etag_of obj) with
                   | Some matching_local_paths =>
                       if existsb (fun path => str_in path already_matched_files)
                            matching_local_paths
                       then acc
                       else dict_append acc (etag_of obj)
                              (Key obj, rel_path, basename rel_path)
                   | None =>
                       dict_append acc (etag_of obj) (Key obj, rel_path, basename rel_path)
                   end
                 else acc)
            s3_objects [].

Definition potential_renames (s3_map : dict (list (string * string * string)))
    (local_map : dict (list (string * string))) (similarity_threshold : Q)
  : list rename_candidate :=
  flat_map (fun entry : string * list (string * string * string) =>
    match dict_get local_map (fst entry) with
    | Some local_entries =>
        flat_map (fun s3_entry : string * string * string =>
          let '(key, _, s3_filename) := s3_entry in
          flat_map (fun local_entry : string * string =>
            let (local_rel_path, local_filename) := local_entry in
            let sim := calculate_filename_similarity s3_filename local_filename in
            if Qle_bool similarity_threshold sim
            then [ {| cand_s3_key := key; cand_s3_filename := s3_filename;
                      cand_local_path := local_rel_path;
                      cand_local_filename := local_filename;
                      cand_similarity := sim |} ]
            else []) local_entries) (snd entry)
    | None => []
    end) s3_map.

(** The second pass: a candidate is taken when its bucket key has no
    rename yet and its local file is not claimed yet. *)
Definition rename_of (c : rename_candidate) : rename_info :=
  {| new_local_path := cand_local_path c;
     similarity := cand_similarity c;
     old_filename := cand_s3_filename c;
     new_filename := cand_local_filename c |}.

Definition assign (st : dict rename_info * list string) (c : rename_candidate)
  : dict rename_info * list string :=
  let (renames_, claimed_local_files) := st in
  if negb (dict_mem (cand_s3_key c) renames_)
     && negb (str_in (cand_local_path c) claimed_local_files)
  then (dict_set renames_ (cand_s3_key c) (rename_of c),
        set_add (cand_local_path c) claimed_local_files)
  else st.

Definition sorted_candidates (local_files : dict file_info) (s3_objects : list s3_object)
    (s3_prefix_ : string) (similarity_threshold : Q) (already_matched_files : list string)
  : list rename_candidate :=
  sort_by_similarity cand_similarity
    (potential_renames
       (s3_hash_map local_files s3_objects s3_prefix_ already_matched_files)
       (local_hash_map local_files already_matched_files)
       similarity_threshold).

Definition detect_renames (local_files : dict file_info) (s3_objects : list s3_object)
    (s3_prefix_ : string) (similarity_threshold : Q) (already_matched_files : list string)
  : dict rename_info :=
  fst (fold_left assign
         (sorted_candidates local_files s3_objects s3_prefix_ similarity_threshold
            already_matched_files)
         ([], [])).

(** *** [upload_file], [delete_s3_object] *)

Definition upload_file (bucket_name local_path s3_key : string) (dry_run : bool) : io bool :=
  if dry_run then ret true
  else perform (S3UploadFile local_path bucket_name s3_key).

Definition delete_s3_object (bucket_name s3_key : string) (dry_run : bool) : io bool :=
  if dry_run then ret true
  else perform (S3DeleteObject bucket_name s3_key).

(** *** [sync_to_s3] *)

(** The loop over the local files. *)
Definition process_local_file (bucket_name s3_prefix : string) (s3_files : dict s3_info)
    (already_matched_files : list string) (force dry_run folder_is_new : bool)
    (item : string * file_info) (r : result) : io result :=
  let (rel_path, file_info_) := item in
  if str_in rel_path already_matched_files && negb force then ret r
  else
    let key := if nonempty s3_prefix then (s3_prefix ++ rel_path)%string else rel_path in
    match dict_get s3_files rel_path with
    | Some info =>
        if force || negb (file_hash file_info_ =? s3_hash info) then
          print (MsgUpdating rel_path) ;;;
          ok <- upload_file bucket_name (file_path file_info_) key dry_run ;;
          ret (if ok : bool
               then Build_result (uploaded r) (S (updated r)) (deleted r) (renamed r)
                      (folders_deleted r) (folders_added r) (failed r)
               else Build_result (uploaded r) (updated r) (deleted r) (renamed r)
                      (folders_deleted r) (folders_added r) (S (failed r)))
        else
          print (MsgSkippedUnchanged rel_path) ;;; ret r
    | None =>
        print (MsgTransferNew rel_path) ;;;
        ok <- upload_file bucket_name (file_path file_info_) key dry_run ;;
        ret (if ok : bool
             then Build_result (S (uploaded r)) (updated r) (deleted r) (renamed r)
                    (folders_deleted r)
                    (if folder_is_new && (S (uploaded r) =? 1)%nat then 1%nat
                     else folders_added r)
                    (failed r)
             else Build_result (uploaded r) (updated r) (deleted r) (renamed r)
                    (folders_deleted r) (folders_added r) (S (failed r)))
    end.

(** [orphaned_keys]: in the bucket, not local, extension not skipped,
    within scope. *)
Definition orphaned_keys (local_files : dict file_info) (s3_files : dict s3_info)
    (sync_scope_prefix : option string) : list (string * string * Z) :=
  flat_map (fun item : string * s3_info =>
              let (rel_path, info) := item in
              if str_in (lower (splitext_ext rel_path)) SKIP_EXTENSIONS then []
              else if negb (dict_mem rel_path local_files)
                      && in_scope sync_scope_prefix (s3_key info)
              then [(s3_key info, rel_path, s3_size info)]
              else [])
           s3_files.

Definition delete_orphan (bucket_name : string) (dry_run : bool)
    (o : string * string * Z) (r : result) : io result :=
  let '(key, rel_path, _) := o in
  print (MsgDeleting rel_path) ;;;
  ok <- delete_s3_object bucket_name key dry_run ;;
  ret (if ok : bool
       then Build_result (uploaded r) (updated r) (S (deleted r)) (renamed r)
              (folders_deleted r) (folders_added r) (failed r)
       else Build_result (uploaded r) (updated r) (deleted r) (renamed r)
              (folders_deleted r) (folders_added r) (S (failed r))).

Definition delete_folder_marker (bucket_name : string) (dry_run : bool)
    (folder_marker_key : string) (r : result) : io result :=
  print (MsgDeletingFolder folder_marker_key) ;;;
  ok <- delete_s3_object bucket_name folder_marker_key dry_run ;;
  ret (if ok : bool
       then Build_result (uploaded r) (updated r) (deleted r) (renamed r)
              (S (folders_deleted r)) (folders_added r) (failed r)
       else Build_result (uploaded r) (updated r) (deleted r) (renamed r)
              (folders_deleted r) (folders_added r) (S (failed r))).

Definition is_directory_scope (sync_scope_prefix : option string) : bool :=
  match sync_scope_prefix with
  | Some p => nonempty p && endswith p "/"
  | None => false
  end.

Definition sync_to_s3 (bucket_name local_dir : string) (local_files : dict file_info)
    (s3_objects : list s3_object) (s3_prefix : string) (force dry_run : bool)
    (sync_scope_prefix : option string) : io result :=
  let (s3_files, s3_folder_markers) :=
    build_s3_files s3_objects s3_prefix sync_scope_prefix [] [] in
  let already_matched_files := matched_files s3_hash local_files s3_files in
  (* Rename detection removed - renamed files are a delete and an upload *)
  let folder_is_new :=
    match local_files, s3_files with
    | _ :: _, [] => is_directory_scope sync_scope_prefix
    | _, _ => false
    end in
  r <- for_each local_files
         (process_local_file bucket_name s3_prefix s3_files already_matched_files
            force dry_run folder_is_new) zero ;;
  let orphans := orphaned_keys local_files s3_files sync_scope_prefix in
  r <- for_each orphans (delete_orphan bucket_name dry_run) r ;;
  match local_files, orphans with
  | [], _ :: _ =>
      r <- for_each s3_folder_markers (delete_folder_marker bucket_name dry_run) r ;;
      ret (if (folders_deleted r =? 0)%nat && is_directory_scope sync_scope_prefix
           then Build_result (uploaded r) (updated r) (deleted r) (renamed r)
                  1 (folders_added r) (failed r)
           else r)
  | _, _ => ret r
  end.

(** *** [sync_single_path] *)

(** The bucket side of the preview: hash by relative path, folder
    markers and keys outside the scope left out. *)
Definition preview_s3_files (s3_objects : list s3_object)
    (s3_prefix sync_scope_prefix : string) : dict string :=
  fold_left (fun acc obj =>
               if is_folder_marker obj then acc
               else if nonempty sync_scope_prefix
                       && negb (startswith (Key obj) sync_scope_prefix) then acc
               else dict_set acc (rel_path_of s3_prefix (Key obj)) (etag_of obj))
            s3_objects [].

Definition preview_folder_markers (s3_objects : list s3_object)
    (sync_scope_prefix : string) : list string :=
  map Key (filter (fun obj => is_folder_marker obj
                              && startswith (Key obj) sync_scope_prefix) s3_objects).

Definition marker_folder_name (s3_prefix folder_marker_key : string) : string :=
  after_last slash (rstrip (rel_path_of s3_prefix folder_marker_key) slash).

(** The block [Preview changes] of [sync_single_path]. *)
Definition preview (project_path : string) (s3_prefix sync_scope_prefix : string)
    (is_file force : bool) (local_files : dict file_info)
    (s3_objects : list s3_object) : plan :=
  let s3_files := preview_s3_files s3_objects s3_prefix sync_scope_prefix in
  let new_files_ :=
    filter (fun p => negb (dict_mem p s3_files)) (keys local_files) in
  let changed_files_ :=
    flat_map (fun item : string * file_info =>
                match dict_get s3_files (fst item) with
                | Some h =>
                    if force || negb (file_hash (snd item) =? h) then [fst item] else []
                | None => []
                end) local_files in
  (* Rename detection removed - renamed files are a delete and an upload *)
  let orphaned_files_ :=
    filter (fun p => negb (dict_mem p local_files)
                     && negb (str_in (lower (splitext_ext p)) SKIP_EXTENSIONS))
           (keys s3_files) in
  let folder_markers := preview_folder_markers s3_objects sync_scope_prefix in
  let folders_to_delete_ :=
    match local_files, orphaned_files_ with
    | [], _ :: _ =>
        fold_left (fun acc marker =>
                     let folder_name := marker_folder_name s3_prefix marker in
                     if nonempty folder_name && negb (str_in folder_name acc)
                     then acc ++ [folder_name] else acc)
                  folder_markers
                  (if negb is_file && nonempty (folder_name_of project_path)
                   then [folder_name_of project_path] else [])
    | _, _ => []
    end in
  let folders_to_add_ :=
    match local_files, s3_files, new_files_ with
    | _ :: _, [], _ :: _ =>
        if negb is_file && nonempty (folder_name_of project_path)
        then [folder_name_of project_path] else []
    | _, _, _ => []
    end in
  {| plan_new := new_files_;
     plan_changed := changed_files_;
     plan_renames := [];
     plan_orphaned := orphaned_files_;
     plan_folders_to_delete := folders_to_delete_;
     plan_folders_to_add := folders_to_add_ |}.

Definition full_path (project_path : string) (is_file : bool) (file_path_ : string)
  : string :=
  if is_file then project_path
  else if nonempty file_path_ then (project_path ++ "/" ++ file_path_)%string
       else project_path.

Definition local_size (local_files : dict file_info) (p : string) : Z :=
  match dict_get local_files p with
  | Some i => file_size i
  | None => 0%Z
  end.

Definition listed_size (s3_objects : list s3_object) (key : string) : Z :=
  match find (fun obj => Key obj =? key) s3_objects with
  | Some obj => Size obj
  | None => 0%Z
  end.

Definition make_preview_info (pl : plan) (project_path_ bucket_name_ s3_prefix_ : string)
    (is_file : bool) (local_files : dict file_info) (s3_objects : list s3_object)
  : preview_info :=
  {| new_files :=
       map (fun p => {| entry_path := full_path project_path_ is_file p;
                        entry_size := local_size local_files p |}) (plan_new pl);
     changed_files :=
       map (fun p => {| entry_path := full_path project_path_ is_file p;
                        entry_size := local_size local_files p |}) (plan_changed pl);
     renames := [];
     orphaned_files :=
       map (fun p => {| entry_path := full_path project_path_ is_file p;
                        entry_size :=
                          listed_size s3_objects
                            (if nonempty s3_prefix_ then (s3_prefix_ ++ p)%string else p) |})
           (plan_orphaned pl);
     folders_to_delete := plan_folders_to_delete pl;
     folders_to_add := plan_folders_to_add pl;
     bucket_name := bucket_name_;
     s3_prefix := s3_prefix_;
     project_path := project_path_ |}.

Definition show_preview (pl : plan) : io unit :=
  print (MsgPreview (plan_new pl) (plan_changed pl) (plan_renames pl)
           (plan_orphaned pl) (plan_folders_to_delete pl) (plan_folders_to_add pl)).

Definition has_changes (pl : plan) : bool :=
  negb (length (plan_new pl) =? 0)%nat || negb (length (plan_changed pl) =? 0)%nat
  || negb (length (plan_orphaned pl) =? 0)%nat
  || negb (length (plan_folders_to_delete pl) =? 0)%nat
  || negb (length (plan_folders_to_add pl) =? 0)%nat.

(** The three modes at the end of [sync_single_path], [sync dry] being
    the call of the sync function: with [--dry-run] the dry pass alone;
    with [--yes] the real pass at once; else, when the preview shows a
    change, a dry pass, the question, and the real pass after a yes. *)
Definition run_sync (project_path_ : string) (changes dry_run yes : bool)
    (sync : bool -> io result) : io result :=
  if dry_run then sync true
  else if yes then sync false
  else if changes then
    sync true ;;;
    response <- input (AskProceed project_path_) ;;
    match response with
    | Some line =>
        if is_yes line then sync false
        else print (MsgSkippedPath project_path_) ;;; ret zero
    | None => print (MsgSkippedPath project_path_) ;;; ret zero
    end
  else
    print (MsgNoChanges project_path_) ;;; ret zero.

Definition sync_single_path (s3 : s3_client) (fs : filesystem)
    (project_root project_path_ : string) (bucket_override prefix_override : option string)
    (force dry_run yes return_preview_info : bool) : io (result * option preview_info) :=
  let '(bucket_name_, s3_prefix_, local_path) :=
    parse_project_path fs project_root project_path_ bucket_override prefix_override in
  let local_path_exists := exists_ fs local_path in
  let is_file := path_is_file fs local_path project_path_ in
  let local_files := if local_path_exists then scan_local_files fs local_path else [] in
  let filename := scope_filename fs local_path project_path_ in
  let sync_scope_prefix := scope_of is_file s3_prefix_ filename in
  let listing :=
    if is_file then probe_single_key s3 bucket_name_ (s3_prefix_ ++ filename)
    else list_all_objects s3 bucket_name_ s3_prefix_ in
  match listing with
  | None => ret (one_failure, None)
  | Some s3_objects =>
      let pl := preview project_path_ s3_prefix_ sync_scope_prefix is_file force
                  local_files s3_objects in
      let preview_info_ :=
        if return_preview_info
        then Some (make_preview_info pl project_path_ bucket_name_ s3_prefix_ is_file
                     local_files s3_objects)
        else None in
      show_preview pl ;;;
      r <- run_sync project_path_ (has_changes pl) dry_run yes
             (fun dry => sync_to_s3 bucket_name_ local_path local_files s3_objects s3_prefix_
                           force dry (Some sync_scope_prefix)) ;;
      ret (r, preview_info_)
  end.
End WithHost.
End Upload.

(** * [sync_from_s3.py]: bucket to local tree *)

Module Download.

Definition skip_files : list string :=
  [".s3-sync-metadata.json"; "generate-index.js"; "README.md"].

Record result := {
  downloaded : nat;
  updated : nat;
  deleted : nat;
  renamed : nat;
  folders_deleted : nat;
  folders_added : nat;
  failed : nat
}.

Definition zero : result := Build_result 0 0 0 0 0 0 0.
Definition one_failure : result := Build_result 0 0 0 0 0 0 1.

Record rename_candidate := {
  cand_local_path : string;
  cand_local_filename : string;
  cand_s3_key : string;
  cand_s3_rel_path : string;
  cand_s3_filename : string;
  cand_similarity : Q
}.

Record rename_info := {
  new_s3_key : string;
  new_s3_rel_path : string;
  similarity : Q;
  old_filename : string;
  new_filename : string
}.

Record preview_entry := { entry_path : string; entry_size : Z }.

Record preview_rename := {
  old_path : string;
  new_path : string;
  preview_old_filename : string;
  preview_new_filename : string;
  preview_similarity : Q
}.

Record preview_info := {
  new_files : list preview_entry;
  changed_files : list preview_entry;
  renames : list preview_rename;
  orphaned_files : list preview_entry;
  folders_to_delete : list string;
  folders_to_add : list string;
  bucket_name : string;
  s3_prefix : string;
  project_path : string
}.

Record plan := {
  plan_new : list string;
  plan_changed : list string;
  plan_renames : dict rename_info;
  plan_orphaned : list string;
  plan_folders_to_delete : list string;
  plan_folders_to_add : list string
}.

Section WithHost.
Context {os : OsPath} {oc : Outcomes} {sm : Similarity} {lt : LiveTree}.

(** *** [scan_local_files] *)

Definition add_scanned (key full_path : string) (etag : option string) (size : Z)
    (local_files : dict file_info) : dict file_info :=
  match etag with
  | Some h =>
      if nonempty h
      then dict_set local_files key {| file_hash := h; file_size := size; file_path := full_path |}
      else local_files
  | None => local_files
  end.

Definition rel_join (rel name : string) : string :=
  if nonempty rel then rel ++ "/" ++ name else name.

(** One directory of [os.walk]: its files, then its sub-directories;
    [rel_join rel file] is [os.path.relpath(file_path, local_path)]. *)
Fixpoint walk (n : node) (root rel : string) (local_files : dict file_info)
    {struct n} : dict file_info :=
  match n with
  | File _ _ => local_files
  | Dir entries =>
      let scan_file acc (e : string * node) :=
        match snd e with
        | File etag size =>
            if str_in (fst e) skip_files then acc
            else add_scanned (replace (rel_join rel (fst e)) backslash slash)
                   (os_path_join root (fst e)) etag size acc
        | Dir _ => acc
        end in
      (fix descend (es : list (string * node)) (acc : dict file_info) : dict file_info :=
         match es with
         | [] => acc
         | (name, child) :: es' =>
             match child with
             | Dir _ =>
                 descend es' (walk child (os_path_join root name) (rel_join rel name) acc)
             | File _ _ => descend es' acc
             end
         end) entries (fold_left scan_file entries local_files)
  end.

Definition scan_local_files (fs : filesystem) (local_path : string) : dict file_info :=
  let local_path := os_path_normpath local_path in
  match fs local_path with
  | None => []
  | Some (File etag size) =>
      let filename := basename local_path in
      if negb (str_in filename skip_files)
      then add_scanned filename local_path etag size []
      else []
  | Some (Dir entries) => walk (Dir entries) local_path "" []
  end.

(** *** [download_file], [delete_local_file] *)

Definition download_file (bucket_name_ key local_path : string) (dry_run : bool)
  : io bool :=
  if dry_run then ret true
  else
    made <- perform (MakeLocalDirectory local_path) ;;
    if made : bool then perform (S3DownloadFile bucket_name_ key local_path)
    else ret false.

(** The inner [try] of [delete_local_file]: the parent directory is
    removed when it is named, there and empty; how [os.rmdir] ends is
    ignored, and so is an [os.listdir] that raises. *)
Definition remove_empty_parent (local_path : string) : io unit :=
  let parent_dir := dirname local_path in
  if nonempty parent_dir then
    there <- look (fun t => path_exists t parent_dir) ;;
    if there : bool then
      empty <- look (fun t => listdir_empty t parent_dir) ;;
      match empty with
      | Some true => perform (RemoveDirectory parent_dir) ;;; ret tt
      | _ => ret tt
      end
    else ret tt
  else ret tt.

(** A file that is not there counts as deleted; [os.remove] raising
    is the failure. *)
Definition delete_local_file (local_path : string) (dry_run : bool) : io bool :=
  if dry_run then ret true
  else
    present <- look (fun t => path_exists t local_path) ;;
    if present : bool then
      removed <- perform (RemoveLocalFile local_path) ;;
      if removed : bool then remove_empty_parent local_path ;;; ret true
      else ret false
    else ret true.

(** *** [detect_renames]: the local name is the old one, the bucket
    has the new one *)

Definition s3_hash_map (s3_objects : list s3_object) (s3_prefix_ : string)
  : dict (list (string * string * string)) :=
  fold_left (fun acc obj =>
               if is_folder_marker obj then acc
               else
                 let rel_path := rel_path_of s3_prefix_ (Key obj) in
                 if nonempty (etag_of obj)
                 then dict_append acc (etag_of obj) (Key obj, rel_path, basename rel_path)
                 else acc)
            s3_objects [].

Definition s3_paths_set (s3_objects : list s3_object) (s3_prefix_ : string)
  : list string :=
  fold_left (fun acc obj =>
               if is_folder_marker obj then acc
               else set_add (rel_path_of s3_prefix_ (Key obj)) acc)
            s3_objects [].

Definition local_hash_map (local_files : dict file_info) (s3_paths : list string)
    (already_matched_files : list string) : dict (list (string * string)) :=
  fold_left (fun acc item =>
               if str_in (fst item) already_matched_files then acc
               else if str_in (fst item) s3_paths then acc
               else dict_append acc (file_hash (snd item))
                      (fst item, basename (fst item)))
            local_files [].

Definition all_s3_hash_to_paths (s3_objects : list s3_object) (s3_prefix_ : string)
  : dict (list string) :=
  fold_left (fun acc obj =>
               if is_folder_marker obj then acc
               else if nonempty (etag_of obj)
               then dict_append acc (etag_of obj) (rel_path_of s3_prefix_ (Key obj))
               else acc)
            s3_objects [].

Definition potential_renames (local_map : dict (list (string * string)))
    (s3_map : dict (list (string * string * string)))
    (all_s3 : dict (list string)) (already_matched_files : list string)
    (similarity_threshold : Q) : list rename_candidate :=
  flat_map (fun entry : string * list (string * string) =>
    let local_hash := fst entry in
    match dict_get s3_map local_hash with
    | Some s3_entries =>
        flat_map (fun local_entry : string * string =>
          let (local_rel_path, local_filename) := local_entry in
          let same_as_matched :=
            match dict_get all_s3 local_hash with
            | Some matching_s3_paths =>
                existsb (fun path => str_in path already_matched_files) matching_s3_paths
            | None => false
            end in
          if same_as_matched then []
          else
            flat_map (fun s3_entry : string * string * string =>
              let '(key, s3_rel_path, s3_filename) := s3_entry in
              let sim := calculate_filename_similarity local_filename s3_filename in
              if Qle_bool similarity_threshold sim
              then [ {| cand_local_path := local_rel_path;
                        cand_local_filename := local_filename;
                        cand_s3_key := key;
                        cand_s3_rel_path := s3_rel_path;
                        cand_s3_filename := s3_filename;
                        cand_similarity := sim |} ]
              else []) s3_entries) (snd entry)
    | None => []
    end) local_map.

(** The second pass: a candidate is taken when its local path has no
    rename yet and is not claimed yet. *)
Definition rename_of (c : rename_candidate) : rename_info :=
  {| new_s3_key := cand_s3_key c;
     new_s3_rel_path := cand_s3_rel_path c;
     similarity := cand_similarity c;
     old_filename := cand_local_filename c;
     new_filename := cand_s3_filename c |}.

Definition assign (st : dict rename_info * list string) (c : rename_candidate)
  : dict rename_info * list string :=
  let (renames_, claimed_local_files) := st in
  if negb (dict_mem (cand_local_path c) renames_)
     && negb (str_in (cand_local_path c) claimed_local_files)
  then (dict_set renames_ (cand_local_path c) (rename_of c),
        set_add (cand_local_path c) claimed_local_files)
  else st.

Definition sorted_candidates (local_files : dict file_info) (s3_objects : list s3_object)
    (s3_prefix_ : string) (similarity_threshold : Q) (already_matched_files : list string)
  : list rename_candidate :=
  sort_by_similarity cand_similarity
    (potential_renames
       (local_hash_map local_files (s3_paths_set s3_objects s3_prefix_)
          already_matched_files)
       (s3_hash_map s3_objects s3_prefix_)
       (all_s3_hash_to_paths s3_objects s3_prefix_)
       already_matched_files similarity_threshold).

Definition detect_renames (local_files : dict file_info) (s3_objects : list s3_object)
    (s3_prefix_ : string) (similarity_threshold : Q) (already_matched_files : list string)
  : dict rename_info :=
  fst (fold_left assign
         (sorted_candidates local_files s3_objects s3_prefix_ similarity_threshold
            already_matched_files)
         ([], [])).

(** *** [sync_from_s3] *)

Definition is_directory_scope (sync_scope_prefix : option string) : bool :=
  match sync_scope_prefix with
  | Some p => nonempty p && endswith p "/"
  | None => false
  end.

(** Where a bucket file lands locally. *)
Definition local_target (is_file_sync : bool) (local_base_path rel_path : string)
  : string :=
  if is_file_sync then local_base_path
  else os_path_normpath (os_path_join local_base_path rel_path).

(** The loop over the bucket files. *)
Definition process_s3_file (bucket_name_ local_base_path : string)
    (local_files : dict file_info) (rename_new_paths : list string)
    (force dry_run folder_is_new is_file_sync : bool)
    (item : string * s3_info) (r : result) : io result :=
  let (rel_path, info) := item in
  if str_in rel_path rename_new_paths then ret r
  else
    let local_file_path := local_target is_file_sync local_base_path rel_path in
    match dict_get local_files rel_path with
    | Some local_info =>
        if force || negb (file_hash local_info =? s3_hash info) then
          print (MsgUpdating rel_path) ;;;
          ok <- download_file bucket_name_ (s3_key info) local_file_path dry_run ;;
          ret (if ok : bool
               then Build_result (downloaded r) (S (updated r)) (deleted r) (renamed r)
                      (folders_deleted r) (folders_added r) (failed r)
               else Build_result (downloaded r) (updated r) (deleted r) (renamed r)
                      (folders_deleted r) (folders_added r) (S (failed r)))
        else
          print (MsgSkippedUnchanged rel_path) ;;; ret r
    | None =>
        print (MsgTransferNew rel_path) ;;;
        ok <- download_file bucket_name_ (s3_key info) local_file_path dry_run ;;
        ret (if ok : bool
             then Build_result (S (downloaded r)) (updated r) (deleted r) (renamed r)
                    (folders_deleted r)
                    (if folder_is_new && (S (downloaded r) =? 1)%nat then 1%nat
                     else folders_added r)
                    (failed r)
             else Build_result (downloaded r) (updated r) (deleted r) (renamed r)
                    (folders_deleted r) (folders_added r) (S (failed r)))
    end.

(** One rename: remove the old local file, then download under the
    new name.  The keys of [renames] are keys of [local_files], so
    the lookup finds the old file. *)
Definition process_rename (bucket_name_ local_base_path : string)
    (local_files : dict file_info) (dry_run is_file_sync : bool)
    (item : string * rename_info) (r : result) : io result :=
  let (old_local_path, info) := item in
  let new_local_path := local_target is_file_sync local_base_path (new_s3_rel_path info) in
  match dict_get local_files old_local_path with
  | None => ret r
  | Some old_file_info =>
      print (MsgRenaming (old_filename info) (new_filename info) (similarity info)) ;;;
      removed <- delete_local_file (file_path old_file_info) dry_run ;;
      if removed : bool then
        ok <- download_file bucket_name_ (new_s3_key info) new_local_path dry_run ;;
        ret (if ok : bool
             then Build_result (downloaded r) (updated r) (deleted r) (S (renamed r))
                    (folders_deleted r) (folders_added r) (failed r)
             else Build_result (downloaded r) (updated r) (deleted r) (renamed r)
                    (folders_deleted r) (folders_added r) (S (failed r)))
      else
        ret (Build_result (downloaded r) (updated r) (deleted r) (renamed r)
               (folders_deleted r) (folders_added r) (S (failed r)))
  end.

(** [orphaned_local_files]: local, not in the bucket, not the old name
    of a rename, within scope. *)
Definition orphaned_local_files (local_files : dict file_info) (s3_files : dict s3_info)
    (rename_old_paths : list string) (s3_prefix_ local_base_path : string)
    (is_file_sync : bool) (sync_scope_prefix : option string)
  : list (string * string * Z) :=
  flat_map (fun item : string * file_info =>
              let (rel_path, info) := item in
              if str_in rel_path rename_old_paths then []
              else if dict_mem rel_path s3_files then []
              else
                match sync_scope_prefix with
                | None => [(file_path info, rel_path, file_size info)]
                | Some scope =>
                    if negb is_file_sync then
                      match os_path_relpath (file_path info) local_base_path with
                      | Some rel_to_base =>
                          if startswith (s3_prefix_ ++ replace rel_to_base backslash slash)
                               scope
                          then [(file_path info, rel_path, file_size info)]
                          else []
                      | None => [(file_path info, rel_path, file_size info)]
                      end
                    else [(file_path info, rel_path, file_size info)]
                end)
           local_files.

Definition delete_orphan (dry_run : bool) (o : string * string * Z) (r : result)
  : io result :=
  let '(local_file_path, rel_path, _) := o in
  print (MsgDeleting rel_path) ;;;
  ok <- delete_local_file local_file_path dry_run ;;
  ret (if ok : bool
       then Build_result (downloaded r) (updated r) (S (deleted r)) (renamed r)
              (folders_deleted r) (folders_added r) (failed r)
       else Build_result (downloaded r) (updated r) (deleted r) (renamed r)
              (folders_deleted r) (folders_added r) (S (failed r))).

(** The deletion gate: outside a dry run, local files are deleted
    only after a yes at the terminal. *)
Definition confirm_deletions (dry_run : bool) (orphans : list (string * string * Z))
  : io (list (string * string * Z)) :=
  match orphans with
  | [] => ret orphans
  | _ :: _ =>
      if dry_run then ret orphans
      else
        print (MsgWillDeleteLocal (length orphans)) ;;;
        response <- input AskDeleteLocalFiles ;;
        match response with
        | Some line =>
            if is_yes line then ret orphans
            else print MsgSkippingDeletions ;;; ret []
        | None => print MsgSkippingDeletions ;;; ret []
        end
  end.

(** The first two steps of [sync_from_s3]: the downloads, then the
    renames. *)
Definition transfer_and_rename (bucket_name_ local_base_path : string)
    (local_files : dict file_info) (s3_files : dict s3_info) (renames_ : dict rename_info)
    (rename_new_paths : list string) (force dry_run folder_is_new is_file_sync : bool)
  : io result :=
  r <- for_each s3_files
         (process_s3_file bucket_name_ local_base_path local_files rename_new_paths
            force dry_run folder_is_new is_file_sync) zero ;;
  for_each renames_
    (process_rename bucket_name_ local_base_path local_files dry_run is_file_sync) r.

Definition sync_from_s3 (fs : filesystem) (bucket_name_ project_root : string)
    (local_files : dict file_info) (s3_objects : list s3_object)
    (s3_prefix_ local_base_path : string) (force dry_run : bool)
    (sync_scope_prefix : option string) : io result :=
  let (s3_files, s3_folder_markers) :=
    build_s3_files s3_objects s3_prefix_ sync_scope_prefix [] [] in
  let already_matched_files := matched_files s3_hash local_files s3_files in
  let renames_ :=
    detect_renames local_files s3_objects s3_prefix_ default_similarity_threshold
      already_matched_files in
  let rename_old_paths := keys renames_ in
  let rename_new_paths := map (fun item => new_s3_rel_path (snd item)) renames_ in
  let folder_is_new :=
    match s3_files, local_files with
    | _ :: _, [] => is_directory_scope sync_scope_prefix
    | _, _ => false
    end in
  let is_file_sync :=
    if exists_ fs local_base_path then isfile fs local_base_path
    else negb (is_directory_scope sync_scope_prefix) in
  r <- transfer_and_rename bucket_name_ local_base_path local_files s3_files renames_
         rename_new_paths force dry_run folder_is_new is_file_sync ;;
  orphans <- confirm_deletions dry_run
               (orphaned_local_files local_files s3_files rename_old_paths s3_prefix_
                  local_base_path is_file_sync sync_scope_prefix) ;;
  r <- for_each orphans (delete_orphan dry_run) r ;;
  ret (match local_files, s3_files, orphans with
       | _ :: _, [], _ :: _ =>
           if is_directory_scope sync_scope_prefix
           then Build_result (downloaded r) (updated r) (deleted r) (renamed r)
                  1 (folders_added r) (failed r)
           else r
       | _, _, _ => r
       end).

(** *** [sync_single_path] *)

Definition preview_s3_files (s3_objects : list s3_object)
    (s3_prefix_ sync_scope_prefix : string) : dict (string * Z) :=
  fold_left (fun acc obj =>
               if is_folder_marker obj then acc
               else if nonempty sync_scope_prefix
                       && negb (startswith (Key obj) sync_scope_prefix) then acc
               else dict_set acc (rel_path_of s3_prefix_ (Key obj))
                      (etag_of obj, Size obj))
            s3_objects [].

(** The block [Preview changes] of [sync_single_path]. *)
Definition preview (project_path_ : string) (s3_prefix_ sync_scope_prefix : string)
    (is_file : bool) (local_files : dict file_info)
    (s3_objects : list s3_object) : plan :=
  let s3_files := preview_s3_files s3_objects s3_prefix_ sync_scope_prefix in
  let new_files_ :=
    filter (fun p => negb (dict_mem p local_files)) (keys s3_files) in
  let changed_files_ :=
    flat_map (fun item : string * file_info =>
                match dict_get s3_files (fst item) with
                | Some i =>
                    if negb (file_hash (snd item) =? fst i) then [fst item] else []
                | None => []
                end) local_files in
  let already_matched_files_preview := matched_files fst local_files s3_files in
  let all_renames :=
    detect_renames local_files s3_objects s3_prefix_ default_similarity_threshold
      already_matched_files_preview in
  let renames_ :=
    filter (fun item : string * rename_info =>
              if nonempty sync_scope_prefix
              then startswith (new_s3_key (snd item)) sync_scope_prefix
              else true) all_renames in
  let orphaned_files_ :=
    filter (fun p => negb (dict_mem p s3_files) && negb (dict_mem p renames_))
           (keys local_files) in
  let folders_to_delete_ :=
    match s3_files, orphaned_files_ with
    | [], _ :: _ =>
        if negb is_file && nonempty (folder_name_of project_path_)
        then [folder_name_of project_path_] else []
    | _, _ => []
    end in
  let folders_to_add_ :=
    match s3_files, local_files, new_files_ with
    | _ :: _, [], _ :: _ =>
        if negb is_file && nonempty (folder_name_of project_path_)
        then [folder_name_of project_path_] else []
    | _, _, _ => []
    end in
  {| plan_new := new_files_;
     plan_changed := changed_files_;
     plan_renames := renames_;
     plan_orphaned := orphaned_files_;
     plan_folders_to_delete := folders_to_delete_;
     plan_folders_to_add := folders_to_add_ |}.

Definition full_path (project_path_ : string) (is_file : bool) (file_path_ : string)
  : string :=
  if is_file then project_path_
  else if nonempty file_path_ then (project_path_ ++ "/" ++ file_path_)%string
       else project_path_.

Definition make_preview_info (pl : plan) (project_path_ bucket_name_ s3_prefix_ : string)
    (sync_scope_prefix : string) (is_file : bool) (local_files : dict file_info)
    (s3_objects : list s3_object) : preview_info :=
  let s3_files := preview_s3_files s3_objects s3_prefix_ sync_scope_prefix in
  let s3_size_of p :=
    match dict_get s3_files p with Some i => snd i | None => 0%Z end in
  let local_size_of p :=
    match dict_get local_files p with Some i => file_size i | None => 0%Z end in
  {| new_files :=
       map (fun p => {| entry_path := full_path project_path_ is_file p;
                        entry_size := s3_size_of p |}) (plan_new pl);
     changed_files :=
       map (fun p => {| entry_path := full_path project_path_ is_file p;
                        entry_size := s3_size_of p |}) (plan_changed pl);
     renames :=
       map (fun item : string * rename_info =>
              {| old_path := full_path project_path_ is_file (old_filename (snd item));
                 new_path := full_path project_path_ is_file (new_filename (snd item));
                 preview_old_filename := old_filename (snd item);
                 preview_new_filename := new_filename (snd item);
                 preview_similarity := similarity (snd item) |}) (plan_renames pl);
     orphaned_files :=
       map (fun p => {| entry_path := full_path project_path_ is_file p;
                        entry_size := local_size_of p |}) (plan_orphaned pl);
     folders_to_delete := plan_folders_to_delete pl;
     folders_to_add := plan_folders_to_add pl;
     bucket_name := bucket_name_;
     s3_prefix := s3_prefix_;
     project_path := project_path_ |}.

Definition show_preview (pl : plan) : io unit :=
  print (MsgPreview (plan_new pl) (plan_changed pl)
           (map (fun item : string * rename_info =>
                   (old_filename (snd item), new_filename (snd item))) (plan_renames pl))
           (plan_orphaned pl) (plan_folders_to_delete pl) (plan_folders_to_add pl)).

Definition has_changes (pl : plan) : bool :=
  negb (length (plan_new pl) =? 0)%nat || negb (length (plan_changed pl) =? 0)%nat
  || negb (length (plan_orphaned pl) =? 0)%nat
  || negb (length (plan_renames pl) =? 0)%nat
  || negb (length (plan_folders_to_delete pl) =? 0)%nat
  || negb (length (plan_folders_to_add pl) =? 0)%nat.

(** The three modes at the end of [sync_single_path], [sync dry] being
    the call of the sync function: with [--dry-run] the dry pass alone;
    with [--yes] the real pass at once; else, when the preview shows a
    change, a dry pass, the question, and the real pass after a yes. *)
Definition run_sync (project_path_ : string) (changes dry_run yes : bool)
    (sync : bool -> io result) : io result :=
  if dry_run then sync true
  else if yes then sync false
  else if changes then
    sync true ;;;
    response <- input (AskProceed project_path_) ;;
    match response with
    | Some line =>
        if is_yes line then sync false
        else print (MsgSkippedPath project_path_) ;;; ret zero
    | None => print (MsgSkippedPath project_path_) ;;; ret zero
    end
  else
    print (MsgNoChanges project_path_) ;;; ret zero.

Definition sync_single_path (s3 : s3_client) (fs : filesystem)
    (project_root project_path_ : string) (bucket_override prefix_override : option string)
    (force dry_run yes return_preview_info : bool) : io (result * option preview_info) :=
  let '(bucket_name_, s3_prefix_, local_path) :=
    parse_project_path fs project_root project_path_ bucket_override prefix_override in
  let local_path_exists := exists_ fs local_path in
  let is_file := path_is_file fs local_path project_path_ in
  let local_files := if local_path_exists then scan_local_files fs local_path else [] in
  let filename := scope_filename fs local_path project_path_ in
  let sync_scope_prefix := scope_of is_file s3_prefix_ filename in
  let listing :=
    if is_file then probe_single_key s3 bucket_name_ (s3_prefix_ ++ filename)
    else list_all_objects s3 bucket_name_ s3_prefix_ in
  match listing with
  | None => ret (one_failure, None)
  | Some s3_objects =>
      let pl := preview project_path_ s3_prefix_ sync_scope_prefix is_file
                  local_files s3_objects in
      let preview_info_ :=
        if return_preview_info
        then Some (make_preview_info pl project_path_ bucket_name_ s3_prefix_
                     sync_scope_prefix is_file local_files s3_objects)
        else None in
      show_preview pl ;;;
      r <- run_sync project_path_ (has_changes pl) dry_run yes
             (fun dry => sync_from_s3 fs bucket_name_ project_root local_files s3_objects
                           s3_prefix_ local_path force dry (Some sync_scope_prefix)) ;;
      ret (r, preview_info_)
  end.
End WithHost.
End Download.

(** * Hosts for concrete runs *)

(** [difflib.SequenceMatcher(None, a, b).ratio()] for names shorter than
    200 characters, where the matcher drops no frequent character: twice
    the number of matched characters over the total length, the matched
    characters being counted by taking the longest common block (of those
    the earliest in [a], then the earliest in [b]) and going on to the
    left and to the right of it. *)
Module Difflib.

Fixpoint common_prefix (a b : list ascii) : nat :=
  match a, b with
  | x :: a', y :: b' => if Ascii.eqb x y then S (common_prefix a' b') else 0
  | _, _ => 0
  end.

(** The best block of [a] against the tails of [b]: (start in [b],
    size), [j] counting the characters of [b] already passed. *)
Fixpoint best_in_b (a b : list ascii) (j : nat) (best : nat * nat) : nat * nat :=
  match b with
  | [] => best
  | _ :: b' =>
      let k := common_prefix a b in
      best_in_b a b' (S j) (if (snd best <? k)%nat then (j, k) else best)
  end.

(** [find_longest_match]: (start in [a], start in [b], size). *)
Fixpoint find_longest_match (a b : list ascii) (i : nat) (best : nat * nat * nat)
  : nat * nat * nat :=
  match a with
  | [] => best
  | _ :: a' =>
      let (j, k) := best_in_b a b 0 (0, 0)%nat in
      find_longest_match a' b (S i) (if (snd best <? k)%nat then (i, j, k) else best)
  end.

Fixpoint matches (fuel : nat) (a b : list ascii) : nat :=
  match fuel with
  | O => 0
  | S fuel' =>
      let '(i, j, k) := find_longest_match a b 0 (0, 0, 0)%nat in
      if (k =? 0)%nat then 0
      else (matches fuel' (firstn i a) (firstn j b) + k
            + matches fuel' (skipn (i + k) a) (skipn (j + k) b))%nat
  end.

Definition sequence_matcher_ratio (a b : string) : Q :=
  let la := chars a in
  let lb := chars b in
  let total := (length la + length lb)%nat in
  if (total =? 0)%nat then 1
  else Z.of_nat (2 * matches (S (length la)) la lb) # Pos.of_nat total.

End Difflib.

Module Host.

(** [posixpath.join] of two paths *)
Definition join (a b : string) : string :=
  if startswith b "/" then b
  else if (a =? "") || endswith a "/" then (a ++ b)%string
  else (a ++ "/" ++ b)%string.

(** [relpath] of a path below its base *)
Definition below (p base : string) : option string :=
  if startswith p (base ++ "/") then Some (drop_prefix (base ++ "/") p) else None.

(** A host whose paths are already in normal form. *)
#[export] Instance normal_paths : OsPath := {|
  os_path_join := join;
  os_path_normpath := fun p => p;
  os_path_relpath := below;
  os_path_normpath_idem := fun p => eq_refl
|}.

#[export] Instance difflib : Similarity := Difflib.sequence_matcher_ratio.

(** A world in which every call succeeds. *)
Definition all_succeed : Outcomes := fun _ _ => true.

(** A local tree in which whatever is looked for is found and no
    directory is found empty, and one in which every directory looked into
    is found empty. *)
Definition files_stay : LiveTree := {|
  path_exists := fun _ _ => true;
  listdir_empty := fun _ _ => Some false
|}.

Definition directories_empty : LiveTree := {|
  path_exists := fun _ _ => true;
  listdir_empty := fun _ _ => Some true
|}.

Definition quiet (lines : list (option string)) : world :=
  {| trace := []; stdin := lines |}.

(** A file tree given by the nodes found at some absolute paths. *)
Definition tree (nodes : list (string * node)) : filesystem :=
  fun p => dict_get nodes p.

(** A bucket that answers from a list of objects. *)
Definition bucket (objs : list s3_object) : s3_client := {|
  head_object := fun _ key =>
    match find (fun o => Key o =? key) objs with
    | Some o => HeadFound (ETag o) (Size o)
    | None => HeadNotFound
    end;
  list_objects_v2 := fun _ prefix =>
    Some (filter (fun o => match prefix with
                           | Some p => startswith (Key o) p
                           | None => true
                           end) objs)
|}.

(** The project of the examples: [/proj/img] holds [logo.png]; the
    bucket holds the same content as [img/logo-old.png]. *)
Definition logo_tree : filesystem :=
  tree [("/proj/img", Dir [("logo.png", File (Some "H1") 10)])].

Definition logo_bucket : s3_client :=
  bucket [ {| Key := "games/pull-tabs/img/logo-old.png"; ETag := "H1"; Size := 10 |} ].

(** Two local copies of one content, [logo-old.png] and [logo-new.png],
    and the bucket holding it once, as [logo.png]. *)
Definition two_copies : dict file_info :=
  [ ("logo-old.png", {| file_hash := "H1"; file_size := 10; file_path := "/proj/img/logo-old.png" |});
    ("logo-new.png", {| file_hash := "H1"; file_size := 10; file_path := "/proj/img/logo-new.png" |}) ].

Definition one_object : list s3_object :=
  [ {| Key := "games/pull-tabs/img/logo.png"; ETag := "H1"; Size := 10 |} ].

(** An entry page that is the same on both sides. *)
Definition page_tree : filesystem :=
  tree [("/proj/index.html", File (Some "H0") 5)].

(** Nothing local, and a bucket with the site's entry page. *)
Definition empty_tree : filesystem := tree [].

Definition site_bucket : s3_client :=
  bucket [ {| Key := "games/pull-tabs/index.html"; ETag := "H0"; Size := 5 |} ].

End Host.

(** ** [get_content_type] (the same text in both scripts) *)

Definition mime_types : dict string :=
  [ (".js", "application/javascript");
    (".json", "application/json");
    (".scene", "application/json");
    (".html", "text/html");
    (".css", "text/css");
    (".png", "image/png");
    (".jpg", "image/jpeg");
    (".jpeg", "image/jpeg");
    (".gif", "image/gif");
    (".svg", "image/svg+xml");
    (".webp", "image/webp");
    (".ico", "image/x-icon");
    (".woff", "font/woff");
    (".woff2", "font/woff2");
    (".ttf", "font/ttf");
    (".otf", "font/otf");
    (".ogg", "audio/ogg");
    (".mp3", "audio/mpeg");
    (".wav", "audio/wav") ].

(** [mime_types.get(ext, 'application/octet-stream')] for the lower-cased
    extension of the path. *)
Definition get_content_type (file_path : string) : string :=
  match dict_get mime_types (lower (splitext_ext file_path)) with
  | Some mime => mime
  | None => "application/octet-stream"
  end.

(** * [main]: the paths of one invocation *)

(** ** What [main] adds to a run of [sync_single_path] *)

Module Session.

(** The lines of [main] that the properties speak about. *)
Inductive main_message :=
| MsgNoProjectRoot
| MsgUploadSummary (new_files changed_files orphaned_files
                    folders_to_delete folders_to_add : nat)
| MsgDownloadSummary (new_files changed_files renames orphaned_files
                      folders_to_delete folders_to_add : nat)
| MsgNoChangesDetected (paths : nat)
| MsgCancelled
| MsgDryRunCompleted
| MsgCompleted
| MsgCompletedWithFailures (total_failed : nat).

(** What happens during [main]: an event of a [sync_single_path]; a
    line that [sync_single_path] printed while the standard output was
    redirected to a buffer; the question about all the paths, with its
    answer; a line of [main] itself. *)
Inductive main_event :=
| Sync (e : event)
| Captured (m : message)
| AskedAll (paths : nat) (answer : option string)
| Said (m : main_message).

Record session := {
  log : list main_event;
  keyboard : list (option string)
}.

Definition mio (A : Type) : Type := session -> A * session.

Definition mret {A} (a : A) : mio A := fun s => (a, s).

Definition mbind {A B} (m : mio A) (k : A -> mio B) : mio B :=
  fun s => let (a, s') := m s in k a s'.

Definition say (m : main_message) : mio unit :=
  fun s => (tt, {| log := log s ++ [Said m]; keyboard := keyboard s |}).

(** [input("Proceed with syncing all N path(s)? (yes/no): ")] *)
Definition ask_all (paths : nat) : mio (option string) :=
  fun s =>
    match keyboard s with
    | [] => (None, {| log := log s ++ [AskedAll paths None]; keyboard := [] |})
    | a :: rest => (a, {| log := log s ++ [AskedAll paths a]; keyboard := rest |})
    end.

Fixpoint mfor_each {A S} (l : list A) (body : A -> S -> mio S) (s : S) : mio S :=
  match l with
  | [] => mret s
  | x :: l' => mbind (body x s) (fun s' => mfor_each l' body s')
  end.

(** The events of the runs of [sync_single_path] so far. *)
Definition sync_events (l : list main_event) : list event :=
  flat_map (fun e => match e with
                     | Sync e => [e]
                     | Captured m => [Printed m]
                     | _ => []
                     end) l.

Definition record (shown : bool) (e : event) : main_event :=
  match e with
  | Printed m => if shown then Sync e else Captured m
  | _ => Sync e
  end.

(** A run of [sync_single_path] within [main], under
    [redirect_stdout] when [shown] is false.  The run meets the bucket and
    the local tree as everything that happened before has left them. *)
Definition sync_path {A} (client_at : list main_event -> s3_client)
    (tree_at : list main_event -> filesystem) (shown : bool)
    (run : s3_client -> filesystem -> io A) : mio A :=
  fun s =>
    let w := {| trace := sync_events (log s); stdin := keyboard s |} in
    let m := run (client_at (log s)) (tree_at (log s)) in
    (value m w,
     {| log := log s ++ map (record shown) (emitted m w);
        keyboard := stdin (snd (m w)) |}).

(** [DEFAULT_PATHS] *)
Definition DEFAULT_PATHS : list string :=
  ["assets"; "css"; "phaserjs_editor_scripts_base"; "src"; "Themes"; "index.html";
   "favicon.ico"].

End Session.

(** ** [main] of [sync_to_s3.py] *)

Module UploadMain.
Import Session.

(** The arguments of the command line; [--region] goes to the client
    only and [--verbose] adds report lines only. *)
Record args := {
  paths : list string;
  bucket : option string;
  prefix : option string;
  dry_run : bool;
  yes : bool;
  force : bool;
  preview_paths : bool
}.

Definition add (total r : Upload.result) : Upload.result :=
  {| Upload.uploaded := Upload.uploaded total + Upload.uploaded r;
     Upload.updated := Upload.updated total + Upload.updated r;
     Upload.deleted := Upload.deleted total + Upload.deleted r;
     Upload.renamed := Upload.renamed total + Upload.renamed r;
     Upload.folders_deleted := Upload.folders_deleted total + Upload.folders_deleted r;
     Upload.folders_added := Upload.folders_added total + Upload.folders_added r;
     Upload.failed := Upload.failed total + Upload.failed r |}.

Definition has_changes (all_preview_info : list Upload.preview_info) : bool :=
  negb (length (flat_map Upload.new_files all_preview_info) =? 0)%nat
  || negb (length (flat_map Upload.changed_files all_preview_info) =? 0)%nat
  || negb (length (flat_map Upload.orphaned_files all_preview_info) =? 0)%nat
  || negb (length (flat_map Upload.folders_to_delete all_preview_info) =? 0)%nat
  || negb (length (flat_map Upload.folders_to_add all_preview_info) =? 0)%nat.

Section WithHost.
Context {os : OsPath} {oc : Outcomes}.
Variable client_at : list main_event -> s3_client.
Variable tree_at : list main_event -> filesystem.

(** The first pass of the default mode: a dry run of every path that
    collects the preview records. *)
Definition preview_all (a : args) (project_root : string) (paths_to_sync : list string)
  : mio (list Upload.preview_info) :=
  mfor_each paths_to_sync
    (fun path all_preview_info =>
       mbind
         (sync_path client_at tree_at (preview_paths a)
            (fun s3 fs =>
               Upload.sync_single_path s3 fs project_root path (bucket a) (prefix a)
                 (force a) true true true))
         (fun result =>
            mret (match snd result with
                  | Some preview_info => all_preview_info ++ [preview_info]
                  | None => all_preview_info
                  end)))
    [].

(** The loop over the paths that adds up the tallies. *)
Definition sync_all (a : args) (project_root : string) (paths_to_sync : list string)
    (dry_run_ yes_ : bool) : mio Upload.result :=
  mfor_each paths_to_sync
    (fun path total =>
       mbind
         (sync_path client_at tree_at true
            (fun s3 fs =>
               Upload.sync_single_path s3 fs project_root path (bucket a) (prefix a)
                 (force a) dry_run_ yes_ false))
         (fun result => mret (add total (fst result))))
    Upload.zero.

Definition final_summary (a : args) (total : Upload.result) : mio bool :=
  mbind
    (say (if dry_run a then MsgDryRunCompleted
          else if (Upload.failed total =? 0)%nat then MsgCompleted
               else MsgCompletedWithFailures (Upload.failed total)))
    (fun _ => mret (Upload.failed total =? 0)%nat).

(** [main], given what [find_project_root] returned and whether
    [get_s3_client] returned a client. *)
Definition main (a : args) (project_root : option string) (connected : bool) : mio bool :=
  match project_root with
  | None => mbind (say MsgNoProjectRoot) (fun _ => mret false)
  | Some root =>
      if negb (nonempty root) then mbind (say MsgNoProjectRoot) (fun _ => mret false)
      else
        let paths_to_sync := match paths a with [] => DEFAULT_PATHS | _ => paths a end in
        if negb connected then mret false
        else if negb (dry_run a) && negb (yes a) then
          mbind (preview_all a root paths_to_sync) (fun all_preview_info =>
          mbind (say (MsgUploadSummary
                        (length (flat_map Upload.new_files all_preview_info))
                        (length (flat_map Upload.changed_files all_preview_info))
                        (length (flat_map Upload.orphaned_files all_preview_info))
                        (length (flat_map Upload.folders_to_delete all_preview_info))
                        (length (flat_map Upload.folders_to_add all_preview_info))))
            (fun _ =>
          if negb (has_changes all_preview_info) then
            mbind (say (MsgNoChangesDetected (length paths_to_sync))) (fun _ => mret true)
          else
            mbind (ask_all (length paths_to_sync)) (fun response =>
            match response with
            | Some line =>
                if is_yes line then
                  mbind (sync_all a root paths_to_sync false true) (final_summary a)
                else mbind (say MsgCancelled) (fun _ => mret false)
            | None => mbind (say MsgCancelled) (fun _ => mret false)
            end)))
        else
          mbind (sync_all a root paths_to_sync (dry_run a) (yes a)) (final_summary a)
  end.
End WithHost.
End UploadMain.

(** ** [main] of [sync_from_s3.py] *)

Module DownloadMain.
Import Session.

Record args := {
  paths : list string;
  bucket : option string;
  prefix : option string;
  dry_run : bool;
  yes : bool;
  force : bool
}.

Definition add (total r : Download.result) : Download.result :=
  {| Download.downloaded := Download.downloaded total + Download.downloaded r;
     Download.updated := Download.updated total + Download.updated r;
     Download.deleted := Download.deleted total + Download.deleted r;
     Download.renamed := Download.renamed total + Download.renamed r;
     Download.folders_deleted := Download.folders_deleted total + Download.folders_deleted r;
     Download.folders_added := Download.folders_added total + Download.folders_added r;
     Download.failed := Download.failed total + Download.failed r |}.

Section WithHost.
Context {os : OsPath} {oc : Outcomes} {sm : Similarity} {lt : LiveTree}.
Variable client_at : list main_event -> s3_client.
Variable tree_at : list main_event -> filesystem.

Definition preview_all (a : args) (project_root : string) (paths_to_sync : list string)
  : mio (list Download.preview_info) :=
  mfor_each paths_to_sync
    (fun path all_preview_info =>
       mbind
         (sync_path client_at tree_at true
            (fun s3 fs =>
               Download.sync_single_path s3 fs project_root path (bucket a) (prefix a)
                 (force a) true true true))
         (fun result =>
            mret (match snd result with
                  | Some preview_info => all_preview_info ++ [preview_info]
                  | None => all_preview_info
                  end)))
    [].

Definition sync_all (a : args) (project_root : string) (paths_to_sync : list string)
    (dry_run_ yes_ : bool) : mio Download.result :=
  mfor_each paths_to_sync
    (fun path total =>
       mbind
         (sync_path client_at tree_at true
            (fun s3 fs =>
               Download.sync_single_path s3 fs project_root path (bucket a) (prefix a)
                 (force a) dry_run_ yes_ false))
         (fun result => mret (add total (fst result))))
    Download.zero.

Definition final_summary (a : args) (total : Download.result) : mio bool :=
  mbind
    (say (if dry_run a then MsgDryRunCompleted
          else if (Download.failed total =? 0)%nat then MsgCompleted
               else MsgCompletedWithFailures (Download.failed total)))
    (fun _ => mret (Download.failed total =? 0)%nat).

Definition main (a : args) (project_root : option string) (connected : bool) : mio bool :=
  match project_root with
  | None => mbind (say MsgNoProjectRoot) (fun _ => mret false)
  | Some root =>
      if negb (nonempty root) then mbind (say MsgNoProjectRoot) (fun _ => mret false)
      else
        let paths_to_sync := match paths a with [] => DEFAULT_PATHS | _ => paths a end in
        if negb connected then mret false
        else if negb (dry_run a) && negb (yes a) then
          mbind (preview_all a root paths_to_sync) (fun all_preview_info =>
          mbind (say (MsgDownloadSummary
                        (length (flat_map Download.new_files all_preview_info))
                        (length (flat_map Download.changed_files all_preview_info))
                        (length (flat_map Download.renames all_preview_info))
                        (length (flat_map Download.orphaned_files all_preview_info))
                        (length (flat_map Download.folders_to_delete all_preview_info))
                        (length (flat_map Download.folders_to_add all_preview_info))))
            (fun _ =>
          mbind (ask_all (length paths_to_sync)) (fun response =>
          match response with
          | Some line =>
              if is_yes line then
                mbind (sync_all a root paths_to_sync false true) (final_summary a)
              else mbind (say MsgCancelled) (fun _ => mret false)
          | None => mbind (say MsgCancelled) (fun _ => mret false)
          end)))
        else
          mbind (sync_all a root paths_to_sync (dry_run a) (yes a)) (final_summary a)
  end.
End WithHost.
End DownloadMain.

(** Invocations for concrete runs. *)
Module Desk.

(** A client whose every request fails. *)
Definition dead_client : s3_client := {|
  head_object := fun _ _ => HeadError;
  list_objects_v2 := fun _ _ => None
|}.

(** [sync_to_s3.py img] and [sync_to_s3.py index.html --yes] *)
Definition upload_img : UploadMain.args := {|
  UploadMain.paths := ["img"];
  UploadMain.bucket := None;
  UploadMain.prefix := None;
  UploadMain.dry_run := false;
  UploadMain.yes := false;
  UploadMain.force := false;
  UploadMain.preview_paths := false
|}.


(** [sync_to_s3.py img --dry-run] *)
Definition upload_img_dry : UploadMain.args := {|
  UploadMain.paths := ["img"];
  UploadMain.bucket := None;
  UploadMain.prefix := None;
  UploadMain.dry_run := true;
  UploadMain.yes := false;
  UploadMain.force := false;
  UploadMain.preview_paths := false
|}.

(** [sync_from_s3.py index.html] and [sync_from_s3.py img --dry-run] *)
Definition download_page : DownloadMain.args := {|
  DownloadMain.paths := ["index.html"];
  DownloadMain.bucket := None;
  DownloadMain.prefix := None;
  DownloadMain.dry_run := false;
  DownloadMain.yes := false;
  DownloadMain.force := false
|}.

Definition download_img_dry : DownloadMain.args := {|
  DownloadMain.paths := ["img"];
  DownloadMain.bucket := None;
  DownloadMain.prefix := None;
  DownloadMain.dry_run := true;
  DownloadMain.yes := false;
  DownloadMain.force := false
|}.

(** A session that starts with the given lines at the keyboard. *)
Definition typing (lines : list (option string)) : Session.session :=
  {| Session.log := []; Session.keyboard := lines |}.

End Desk.

(** * [find_project_root] (the same text in both scripts) *)

Section FindProjectRoot.
Context {os : OsPath}.
Variable os_path_dirname : string -> string.

(** The loop of [find_project_root], for at most [fuel] directories;
    [None] when the fuel runs out before the loop ends. *)
Fixpoint climb (fuel : nat) (fs : filesystem) (current_dir : string)
  : option (option string) :=
  match fuel with
  | O => None
  | S fuel' =>
      if exists_ fs (os_path_join current_dir "index.html") then Some (Some current_dir)
      else
        let parent_dir := os_path_dirname current_dir in
        if parent_dir =? current_dir then Some None
        else climb fuel' fs parent_dir
  end.

(** [find_project_root], started in the directory of the script. *)
Definition find_project_root (fs : filesystem) (script_dir : string)
  : option (option string) :=
  climb (S (String.length script_dir)) fs script_dir.
End FindProjectRoot.

(** * [aws_sso_auth.py] and [get_s3_client] *)

Module SsoAuth.

(** The two commands the module runs, both with [--profile llg-dev]:
    [aws sts get-caller-identity] and [aws sso login]. *)
Inductive command :=
| GetCallerIdentity
| SsoLogin.

(** How [subprocess.run] ends: with the exit code of the command, or
    with one of the exceptions the module tells apart. *)
Inductive outcome :=
| Exited (returncode : Z)
| TimeoutExpired
| FileNotFound
| OtherError.

Inductive sso_message :=
| MsgCheckTimedOut
| MsgCliNotFound
| MsgCheckError
| MsgAttemptingLogin
| MsgLoggedIn
| MsgLoginFailed (returncode : Z)
| MsgLoginTimedOut
| MsgLoginError
| MsgSessionNotValid
| MsgLoginNotConfirmed
| MsgFailedToAuthenticate
| MsgSetupIncomplete
| MsgConnectionError.

Inductive sso_event :=
| Ran (c : command) (o : outcome)
| Told (m : sso_message).

(** How a command ends is decided outside, possibly depending on
    everything that happened before. *)
Class Shell := subprocess_run : list sso_event -> command -> outcome.

Definition sso (A : Type) : Type := list sso_event -> A * list sso_event.

Definition sret {A} (a : A) : sso A := fun t => (a, t).

Definition sbind {A B} (m : sso A) (k : A -> sso B) : sso B :=
  fun t => let (a, t') := m t in k a t'.

Definition tell (m : sso_message) : sso unit := fun t => (tt, t ++ [Told m]).

Definition run {sh : Shell} (c : command) : sso outcome :=
  fun t => let o := subprocess_run t c in (o, t ++ [Ran c o]).

Section WithShell.
Context {sh : Shell}.

Definition check_sso_session_valid : sso bool :=
  sbind (run GetCallerIdentity) (fun result =>
    match result with
    | Exited returncode => sret (returncode =? 0)%Z
    | TimeoutExpired => sbind (tell MsgCheckTimedOut) (fun _ => sret false)
    | FileNotFound => sbind (tell MsgCliNotFound) (fun _ => sret false)
    | OtherError => sbind (tell MsgCheckError) (fun _ => sret false)
    end).

Definition login_sso : sso bool :=
  sbind (tell MsgAttemptingLogin) (fun _ =>
  sbind (run SsoLogin) (fun result =>
    match result with
    | Exited returncode =>
        if (returncode =? 0)%Z then sbind (tell MsgLoggedIn) (fun _ => sret true)
        else sbind (tell (MsgLoginFailed returncode)) (fun _ => sret false)
    | TimeoutExpired => sbind (tell MsgLoginTimedOut) (fun _ => sret false)
    | FileNotFound => sbind (tell MsgCliNotFound) (fun _ => sret false)
    | OtherError => sbind (tell MsgLoginError) (fun _ => sret false)
    end)).

Definition ensure_sso_authenticated : sso bool :=
  sbind check_sso_session_valid (fun valid =>
    if valid : bool then sret true
    else
      sbind (tell MsgSessionNotValid) (fun _ =>
      sbind login_sso (fun logged_in =>
        if logged_in : bool then
          sbind check_sso_session_valid (fun valid_now =>
            if valid_now : bool then sret true
            else sbind (tell MsgLoginNotConfirmed) (fun _ => sret false))
        else sbind (tell MsgFailedToAuthenticate) (fun _ => sret false)))).

(** [get_s3_client]: whether it returns a client; [session_client]
    tells whether [get_boto3_session().client('s3', ...)] returns rather
    than raises. *)
Definition get_s3_client (session_client : bool) : sso bool :=
  sbind ensure_sso_authenticated (fun authenticated =>
    if negb authenticated then sbind (tell MsgSetupIncomplete) (fun _ => sret false)
    else if session_client then sret true
    else sbind (tell MsgConnectionError) (fun _ => sret false)).
End WithShell.

End SsoAuth.

(** * [format_size] (the same text in both scripts) *)

(** [size_bytes < 1024.0] *)
Definition below_1024 (size_bytes : Q) : bool := negb (Qle_bool 1024 size_bytes).

(** The loop over the units: the number that is then written with two
    decimals, and the unit written after it.  The numbers are those of the
    script as long as its floats are exact, which they are for a size
    below 2^53, a division by 1024 only changing the exponent. *)
Fixpoint scale (units : list string) (size_bytes : Q) : Q * string :=
  match units with
  | [] => (size_bytes, "PB")
  | unit :: rest =>
      if below_1024 size_bytes then (size_bytes, unit)
      else scale rest (size_bytes / 1024)
  end.

(** The integer nearest to [x], the even one of the two when [x] is half
    way between them: the rounding of the format [.2f]. *)
Definition round_half_even (x : Q) : Z :=
  let below := Qfloor x in
  match (x - inject_Z below ?= 1 # 2)%Q with
  | Lt => below
  | Gt => (below + 1)%Z
  | Eq => if Z.even below then below else (below + 1)%Z
  end.

(** The hundredths that [.2f] writes for [x]. *)
Definition hundredths (x : Q) : Z := round_half_even (x * 100).

Definition decimal (n : Z) : string := NilZero.string_of_uint (N.to_uint (Z.to_N n)).

(** [f"{x:.2f}"]: the sign of a negative number, the integer part, a
    dot and two digits. *)
Definition two_decimals (x : Q) : string :=
  let h := Z.abs (hundredths x) in
  ((if Qle_bool 0 x then "" else "-")
   ++ decimal (h / 100) ++ "." ++ decimal ((h / 10) mod 10) ++ decimal (h mod 10))%string.

Definition format_size (size_bytes : Z) : string :=
  let (number, unit) := scale ["B"; "KB"; "MB"; "GB"; "TB"] (inject_Z size_bytes) in
  (two_decimals number ++ " " ++ unit)%string.

(** * Vocabulary of the statements *)

(** [emits P m]: [m] only adds to the trace, and only events with [P]. *)
Definition emits {A} (P : event -> Prop) (m : io A) : Prop :=
  forall w, exists evs, trace (snd (m w)) = trace w ++ evs /\ Forall P evs.

(** [returns Q m]: whatever the world, the value of [m] has [Q]. *)
Definition returns {A} (Q : A -> Prop) (m : io A) : Prop :=
  forall w, Q (fst (m w)).

(** An event of an upload run stays within the scope: a deleted key and
    the key of every file listed for deletion start with the scope
    prefix. *)
Definition upload_within (s3_prefix scope : string) (e : event) : Prop :=
  match e with
  | Called (S3DeleteObject _ key) _ => startswith key scope = true
  | Printed (MsgPreview _ _ _ orphaned _ _) =>
      forall p, In p orphaned -> startswith (s3_prefix ++ p) scope = true
  | _ => True
  end.

(** The same for a download run, where the entries are local files: a
    removed file and every file listed for deletion is a scanned file
    whose key in the bucket starts with the scope prefix, and a removed
    directory is the one such a file is in. *)
Definition download_within (local_files : dict file_info) (s3_prefix scope : string)
    (e : event) : Prop :=
  match e with
  | Called (RemoveLocalFile path) _ =>
      exists rel info, In (rel, info) local_files /\ file_path info = path
                       /\ startswith (s3_prefix ++ rel) scope = true
  | Called (RemoveDirectory directory) _ =>
      exists rel info, In (rel, info) local_files /\ dirname (file_path info) = directory
                       /\ startswith (s3_prefix ++ rel) scope = true
  | Printed (MsgPreview _ _ _ orphaned _ _) =>
      forall p, In p orphaned ->
                In p (keys local_files) /\ startswith (s3_prefix ++ p) scope = true
  | _ => True
  end.

(** The kinds of events. *)
Definition is_call (e : event) : bool :=
  match e with Called _ _ => true | _ => false end.

Definition is_question (e : event) : bool :=
  match e with Asked _ _ => true | _ => false end.

Definition is_preview (e : event) : bool :=
  match e with Printed (MsgPreview _ _ _ _ _ _) => true | _ => false end.

(** The plan as the run reports it. *)
Definition reported_plan (evs : list event) : list event := filter is_preview evs.

(** A list of candidates in descending order of similarity. *)
Definition descending {C} (similarity_of : C -> Q) (l : list C) : Prop :=
  StronglySorted (fun a b => (similarity_of b <= similarity_of a)%Q) l.

(** A candidate of the download script is claimed when a chosen rename of
    at least its similarity has its local path, the only thing that
    script's second pass books. *)
Definition download_claimed (renames : dict Download.rename_info)
    (q : Download.rename_candidate) : Prop :=
  exists old info,
    In (old, info) renames
    /\ (Download.cand_similarity q <= Download.similarity info)%Q
    /\ old = Download.cand_local_path q.

(** A candidate of the upload script is claimed when a chosen rename of
    at least its similarity has its bucket key or its local path. *)
Definition upload_claimed (renames : dict Upload.rename_info)
    (q : Upload.rename_candidate) : Prop :=
  exists key info,
    In (key, info) renames
    /\ (Upload.cand_similarity q <= Upload.similarity info)%Q
    /\ (key = Upload.cand_s3_key q \/ Upload.new_local_path info = Upload.cand_local_path q).

(** No condition on an event. *)
Definition anything (e : event) : Prop := True.

(** An upload to, or a download of, a given key. *)
Definition uploads_key (key : string) (e : event) : bool :=
  match e with
  | Called (S3UploadFile _ _ k) _ => k =? key
  | _ => false
  end.

Definition downloads_key (key : string) (e : event) : bool :=
  match e with
  | Called (S3DownloadFile _ k _) _ => k =? key
  | _ => false
  end.

Definition failed_directory (e : event) : bool :=
  match e with
  | Called (MakeLocalDirectory _) false => true
  | _ => false
  end.



(** What the next read from the terminal gives. *)
Definition next_line (w : world) : option string :=
  match stdin w with
  | [] => None
  | a :: _ => a
  end.

(** The number of calls that failed, the removal of an emptied
    directory apart, which the script tries without minding how it
    ends. *)
Definition count_failed (evs : list event) : nat :=
  length (filter (fun e => match e with
                           | Called (RemoveDirectory _) _ => false
                           | Called _ false => true
                           | _ => false
                           end) evs).









(** [attempt m]: [m] returns false exactly when one of its calls fails,
    and then only one does. *)
Definition attempt (m : io bool) : Prop :=
  emits anything m
  /\ forall w, count_failed (emitted m w) = if value m w then 0%nat else 1%nat.

(** [silent m]: [m] reads nothing from the terminal. *)
Definition silent {A} (m : io A) : Prop :=
  forall w, stdin (snd (m w)) = stdin w.

(** A relative path whose extension is one of those the upload leaves
    alone. *)
Definition skipped (p : string) : bool :=
  str_in (lower (splitext_ext p)) Upload.SKIP_EXTENSIONS.

(** Every entry of the lists kept under the keys of a dictionary. *)
Definition entries_all {X} (P : string -> X -> Prop) (d : dict (list X)) : Prop :=
  forall h l x, In (h, l) d -> In x l -> P h x.

(** A scan without any such path. *)
Definition no_skipped_key (d : dict file_info) : Prop :=
  forall k, In k (keys d) -> skipped k = false.

(** An event of an upload run that leaves such files alone: no upload to
    and no deletion of a key with such a relative path, and no such path
    in the lists of the preview. *)
Definition upload_spares_skipped (s3_prefix : string) (e : event) : Prop :=
  match e with
  | Called (S3UploadFile _ _ key) _ => skipped (rel_path_of s3_prefix key) = false
  | Called (S3DeleteObject _ key) _ => skipped (rel_path_of s3_prefix key) = false
  | Printed (MsgPreview new_files changed_files _ orphaned_files _ _) =>
      forall p, In p new_files \/ In p changed_files \/ In p orphaned_files ->
                skipped p = false
  | _ => True
  end.

(** The bucket of the run that [sync_single_path] makes. *)
Definition run_bucket {os : OsPath} (fs : filesystem) (project_root project_path : string)
    (bucket_override prefix_override : option string) : string :=
  fst (fst (parse_project_path fs project_root project_path bucket_override prefix_override)).

(** [args.bucket if args.bucket else BUCKET] and
    [args.prefix if args.prefix else S3_PREFIX], as [main] prints them. *)
Definition bucket_or_default (bucket_override : option string) : string :=
  match bucket_override with
  | Some b => if nonempty b then b else BUCKET
  | None => BUCKET
  end.

Definition s3_base_prefix (prefix_override : option string) : string :=
  match prefix_override with
  | Some p => if nonempty p then p else S3_PREFIX
  | None => S3_PREFIX
  end.

(** An event of an upload run: its calls are uploads to and deletions
    of keys below a prefix in one bucket, nothing else. *)
Definition upload_call_on (bucket prefix : string) (e : event) : Prop :=
  match e with
  | Called (S3UploadFile _ b key) _ => b = bucket /\ startswith key prefix = true
  | Called (S3DeleteObject b key) _ => b = bucket /\ startswith key prefix = true
  | Called _ _ => False
  | _ => True
  end.

(** An event of an upload sync that deletes nothing with a local
    counterpart: a deleted key is that of a listed file whose relative path
    is not local, or that of a listed folder marker when there is no local
    file at all. *)
Definition deletes_remote_only (local_files : dict file_info) (s3_objects : list s3_object)
    (s3_prefix : string) (e : event) : Prop :=
  match e with
  | Called (S3DeleteObject _ key) _ =>
      exists obj,
        In obj s3_objects /\ Key obj = key
        /\ if is_folder_marker obj then local_files = []
           else dict_mem (rel_path_of s3_prefix key) local_files = false
  | _ => True
  end.

(** The number of calls of a kind that succeeded. *)
Definition count_ok (kind : call -> bool) (evs : list event) : nat :=
  length (filter (fun e => match e with Called c true => kind c | _ => false end) evs).

Definition is_upload (c : call) : bool :=
  match c with S3UploadFile _ _ _ => true | _ => false end.

Definition is_delete_object (c : call) : bool :=
  match c with S3DeleteObject _ _ => true | _ => false end.



(** [upload_account r0 r evs]: going from the tallies [r0] to [r], the
    events [evs] are accounted for: each failed call in the failure
    tally, each successful upload as uploaded or updated, each
    successful deletion as a deleted file or a deleted folder; nothing
    is counted as renamed. *)
Definition upload_account (r0 r : Upload.result) (evs : list event) : Prop :=
  Upload.failed r = (Upload.failed r0 + count_failed evs)%nat
  /\ (Upload.uploaded r + Upload.updated r
      = Upload.uploaded r0 + Upload.updated r0 + count_ok is_upload evs)%nat
  /\ (Upload.deleted r + Upload.folders_deleted r
      = Upload.deleted r0 + Upload.folders_deleted r0 + count_ok is_delete_object evs)%nat
  /\ (Upload.deleted r0 <= Upload.deleted r)%nat
  /\ (Upload.folders_deleted r0 <= Upload.folders_deleted r)%nat
  /\ Upload.renamed r = Upload.renamed r0.

Definition upload_accounts (r0 : Upload.result) (m : io Upload.result) : Prop :=
  emits anything m /\ forall w, upload_account r0 (value m w) (emitted m w).

(** The same with the folders that [sync_to_s3] counts as deleted
    without deleting a marker: the deleted files are at most the
    successful deletions, which are at most the deleted files and
    folders. *)
Definition upload_summary (r0 r : Upload.result) (evs : list event) : Prop :=
  Upload.failed r = (Upload.failed r0 + count_failed evs)%nat
  /\ (Upload.uploaded r + Upload.updated r
      = Upload.uploaded r0 + Upload.updated r0 + count_ok is_upload evs)%nat
  /\ (Upload.deleted r0 <= Upload.deleted r)%nat
  /\ (Upload.folders_deleted r0 <= Upload.folders_deleted r)%nat
  /\ (Upload.deleted r - Upload.deleted r0 <= count_ok is_delete_object evs)%nat
  /\ (count_ok is_delete_object evs
      <= (Upload.deleted r - Upload.deleted r0)
         + (Upload.folders_deleted r - Upload.folders_deleted r0))%nat
  /\ Upload.renamed r = Upload.renamed r0.

Definition upload_summarises (r0 : Upload.result) (m : io Upload.result) : Prop :=
  emits anything m /\ forall w, upload_summary r0 (value m w) (emitted m w).

(** Two computations that return the same value, whatever the worlds
    they run in. *)
Definition same_value {A} (m m' : io A) : Prop :=
  forall w w', value m w = value m' w'.

Definition deletes_key (key : string) (e : event) : bool :=
  match e with
  | Called (S3DeleteObject _ k) _ => k =? key
  | _ => false
  end.

(** An event of a download sync: it downloads only keys of listed
    files, from one bucket, and removes only scanned files whose relative
    path no listed file has, and the directories such files are in; it
    never uploads and never deletes an object. *)
Definition download_touches (bucket : string) (local_files : dict file_info)
    (s3_objects : list s3_object) (s3_prefix : string) (e : event) : Prop :=
  match e with
  | Called (S3DownloadFile b key _) _ =>
      b = bucket
      /\ exists obj, In obj s3_objects /\ is_folder_marker obj = false /\ Key obj = key
  | Called (RemoveLocalFile path) _ =>
      exists rel info,
        In (rel, info) local_files /\ file_path info = path
        /\ forall obj, In obj s3_objects -> is_folder_marker obj = false ->
                       rel_path_of s3_prefix (Key obj) <> rel
  | Called (RemoveDirectory directory) _ =>
      exists rel info,
        In (rel, info) local_files /\ dirname (file_path info) = directory
        /\ forall obj, In obj s3_objects -> is_folder_marker obj = false ->
                       rel_path_of s3_prefix (Key obj) <> rel
  | Called (MakeLocalDirectory _) _ => True
  | Called _ _ => False
  | _ => True
  end.

(** An event of a download run: no call changes the bucket. *)
Definition download_call_from (bucket : string) (e : event) : Prop :=
  match e with
  | Called (S3DownloadFile b _ _) _ => b = bucket
  | Called (MakeLocalDirectory _) _ => True
  | Called (RemoveLocalFile _) _ => True
  | Called (RemoveDirectory _) _ => True
  | Called _ _ => False
  | _ => True
  end.

(** A local file and a listed file with the same content hash. *)
Definition same_content (local_files : dict file_info) (s3_objects : list s3_object)
    (local_path key : string) : Prop :=
  exists info obj,
    In (local_path, info) local_files
    /\ In obj s3_objects /\ is_folder_marker obj = false /\ Key obj = key
    /\ etag_of obj = file_hash info.




(** An answer that is not a yes: another line, or a read that was
    interrupted or met the end of the input. *)
Definition declines (answer : option string) : bool :=
  match answer with
  | Some line => negb (is_yes line)
  | None => true
  end.

(** The listing contract of S3: asked with a prefix, the listing holds
    only keys that start with it. *)
Definition lists_by_prefix (s3 : s3_client) : Prop :=
  forall bucket prefix objs,
    list_objects_v2 s3 bucket (Some prefix) = Some objs ->
    Forall (fun obj => startswith (Key obj) prefix = true) objs.

(** A dictionary with a function applied to its values. *)
Definition dict_map {V W} (f : V -> W) (d : dict V) : dict W :=
  map (fun item => (fst item, f (snd item))) d.

(** A computation that does nothing and returns [a]. *)
Definition does_nothing {A} (a : A) (m : io A) : Prop := forall w, m w = (a, w).

(** A computation that only reports: it makes no call, asks nothing and
    returns [a]. *)
Definition only_reports {A} (a : A) (m : io A) : Prop :=
  emits (fun e => is_call e = false /\ is_question e = false) m
  /\ returns (fun x => x = a) m.

(** A name as a directory listing gives it: without separator. *)
Definition plain (name : string) : bool :=
  negb (contains slash name) && negb (contains backslash name).

(** Every file name of a tree has [ok]. *)
Fixpoint file_names (ok : string -> bool) (n : node) : bool :=
  match n with
  | File _ _ => true
  | Dir entries =>
      forallb (fun e : string * node =>
                 match snd e with
                 | File _ _ => ok (fst e)
                 | Dir _ => file_names ok (snd e)
                 end) entries
  end.

(** A tree with every directory named [archive] emptied. *)
Fixpoint without_archive (n : node) : node :=
  match n with
  | File etag size => File etag size
  | Dir entries =>
      Dir (map (fun e : string * node =>
                  (fst e,
                   match snd e with
                   | File etag size => File etag size
                   | Dir _ => if fst e =? "archive" then Dir [] else without_archive (snd e)
                   end)) entries)
  end.

(** A scan as [scan_local_files] builds it: no key twice, no empty
    hash. *)
Definition well_formed_scan (d : dict file_info) : Prop :=
  NoDup (keys d) /\ forall k info, In (k, info) d -> nonempty (file_hash info) = true.

(** A scan without a file of one of the names that are left out. *)
Definition no_skipped_name (skip_files : list string) (d : dict file_info) : Prop :=
  forall k, In k (keys d) -> str_in (basename k) skip_files = false.

(** A file tree in which every directory named [archive], the scanned
    path itself apart, is empty. *)
Definition archives_emptied (fs : filesystem) : filesystem :=
  fun p => option_map without_archive (fs p).

(** A name with a character that is not a dot. *)
Fixpoint has_other_than_dot (s : string) : bool :=
  match s with
  | EmptyString => false
  | String a s' => negb (Ascii.eqb a dot) || has_other_than_dot s'
  end.

(** What [main] adds to the log, and what it returns. *)
Definition main_log {A} (m : Session.mio A) (s : Session.session) : list Session.main_event :=
  skipn (length (Session.log s)) (Session.log (snd (m s))).

Definition main_value {A} (m : Session.mio A) (s : Session.session) : A := fst (m s).

(** [achieves m post]: [m] only adds to the log, and what it adds and
    what it returns satisfy [post]. *)
Definition achieves {A} (m : Session.mio A) (post : list Session.main_event -> A -> Prop)
  : Prop :=
  forall s, exists evs,
    Session.log (snd (m s)) = Session.log s ++ evs /\ post evs (fst (m s)).

(** The kinds of events of [main]. *)
Definition is_main_call (e : Session.main_event) : bool :=
  match e with Session.Sync (Called _ _) => true | _ => false end.

Definition is_main_question (e : Session.main_event) : bool :=
  match e with
  | Session.Sync (Asked _ _) => true
  | Session.AskedAll _ _ => true
  | _ => false
  end.

(** An event that changes nothing and asks nothing. *)
Definition prepares (e : Session.main_event) : Prop :=
  is_main_call e = false /\ is_main_question e = false.


(** The paths that [main] goes through. *)
Definition paths_to_sync (paths : list string) : list string :=
  match paths with [] => Session.DEFAULT_PATHS | _ => paths end.

(** An event of [main] that asks nothing. *)
Definition asks_nothing (e : Session.main_event) : Prop := is_main_question e = false.

(** An event of [main] that is no question, or the question about
    deleting local files. *)
Definition asks_about_deletions_only (e : Session.main_event) : Prop :=
  match e with
  | Session.AskedAll _ _ => False
  | Session.Sync (Asked (AskProceed _) _) => False
  | _ => True
  end.

(** The log of a [main] that asks before it changes anything: no call
    and no question before the one question about all the [n] paths, if
    it is asked at all; after an answer that is not a yes only the line
    about the cancellation, and the value [false]; after a yes only
    events with [later]. *)
Definition gated (n : nat) (later : Session.main_event -> Prop)
    (evs : list Session.main_event) (v : bool) : Prop :=
  exists before after,
    evs = before ++ after /\ Forall prepares before
    /\ (after = []
        \/ exists answer rest,
             after = Session.AskedAll n answer :: rest
             /\ Forall later rest
             /\ (declines answer = true -> rest = [Session.Said Session.MsgCancelled] /\ v = false)).

(** The question about all the paths and what follows it: the sync
    after a yes, the line about the cancellation otherwise. *)
Definition ask_then (n : nat) (go : Session.mio bool) : Session.mio bool :=
  Session.mbind (Session.ask_all n) (fun response =>
    match response with
    | Some line =>
        if is_yes line then go
        else Session.mbind (Session.say Session.MsgCancelled) (fun _ => Session.mret false)
    | None => Session.mbind (Session.say Session.MsgCancelled) (fun _ => Session.mret false)
    end).

Definition is_asked_all (e : Session.main_event) : bool :=
  match e with Session.AskedAll _ _ => true | _ => false end.

(** A preview, shown or captured, that lists a change. *)
Definition lists_change (e : Session.main_event) : bool :=
  match e with
  | Session.Sync (Printed (MsgPreview n c r o fd fa))
  | Session.Captured (MsgPreview n c r o fd fa) =>
      negb (length n =? 0)%nat || negb (length c =? 0)%nat || negb (length r =? 0)%nat
      || negb (length o =? 0)%nat || negb (length fd =? 0)%nat || negb (length fa =? 0)%nat
  | _ => false
  end.

(** A client that can list nothing. *)
Definition unreachable (s3 : s3_client) : Prop :=
  (forall bucket prefix, list_objects_v2 s3 bucket prefix = None)
  /\ (forall bucket key, head_object s3 bucket key = HeadError).

(** A [dirname] that returns its argument or something shorter, as
    those of [posixpath] and [ntpath] do. *)
Definition shortens (os_path_dirname : string -> string) : Prop :=
  forall p, os_path_dirname p <> p ->
            (String.length (os_path_dirname p) < String.length p)%nat.

(** Whether a directory holds [index.html]. *)
Definition has_index {os : OsPath} (fs : filesystem) (dir : string) : bool :=
  exists_ fs (os_path_join dir "index.html").

(** The [k]-th ancestor of a directory. *)
Definition ancestor (os_path_dirname : string -> string) (k : nat) (dir : string) : string :=
  Nat.iter k os_path_dirname dir.

(** What [find_project_root] is to return: the nearest ancestor with
    [index.html], the directory itself included, or nothing when no
    ancestor has it. *)
Definition nearest_root {os : OsPath} (os_path_dirname : string -> string) (fs : filesystem)
    (script_dir : string) (result : option string) : Prop :=
  match result with
  | Some d =>
      exists k, d = ancestor os_path_dirname k script_dir
                /\ has_index fs d = true
                /\ forall j, (j < k)%nat ->
                             has_index fs (ancestor os_path_dirname j script_dir) = false
  | None => forall k, has_index fs (ancestor os_path_dirname k script_dir) = false
  end.

(** The commands run, in order, each with whether it exited with 0. *)
Definition commands_run (t : list SsoAuth.sso_event) : list (SsoAuth.command * bool) :=
  flat_map (fun e =>
              match e with
              | SsoAuth.Ran c (SsoAuth.Exited code) => [(c, (code =? 0)%Z)]
              | SsoAuth.Ran c _ => [(c, false)]
              | SsoAuth.Told _ => []
              end) t.

(** What a computation of the module adds to the trace. *)
Definition sso_trace {A} (m : SsoAuth.sso A) (t : list SsoAuth.sso_event)
  : list SsoAuth.sso_event :=
  skipn (length t) (snd (m t)).

(** An event of an upload run all of whose calls are on one key of one
    bucket. *)
Definition upload_call_is (bucket key : string) (e : event) : Prop :=
  match e with
  | Called (S3UploadFile _ b k) _ => b = bucket /\ k = key
  | Called (S3DeleteObject b k) _ => b = bucket /\ k = key
  | Called _ _ => False
  | _ => True
  end.

(** An event of a download run all of whose calls are on one key of
    one bucket and on one local file. *)
Definition download_call_is (bucket key local_path : string) (e : event) : Prop :=
  match e with
  | Called (S3DownloadFile b k p) _ => b = bucket /\ k = key /\ p = local_path
  | Called (MakeLocalDirectory p) _ => p = local_path
  | Called (RemoveLocalFile p) _ => p = local_path
  | Called (RemoveDirectory directory) _ => directory = dirname local_path
  | Called _ _ => False
  | _ => True
  end.

(** An event of a download sync that writes to one local path only. *)
Definition download_lands_on (local_path : string) (e : event) : Prop :=
  match e with
  | Called (S3DownloadFile _ _ p) _ => p = local_path
  | Called (MakeLocalDirectory p) _ => p = local_path
  | _ => True
  end.

(** * Properties *)

(** ** Strings *)

Lemma startswith_nil (s : string) : startswith s "" = true.
Proof. destruct s; reflexivity. Qed.

Lemma startswith_refl (s : string) : startswith s s = true.
Proof. induction s as [|a s IH]; simpl; [reflexivity|]. now rewrite Ascii.eqb_refl. Qed.

Lemma startswith_app (p s : string) : startswith (p ++ s) p = true.
Proof.
  induction p as [|a p IH]; simpl; [apply startswith_nil|].
  now rewrite Ascii.eqb_refl.
Qed.

Lemma startswith_trans (a b c : string) :
  startswith a b = true -> startswith b c = true -> startswith a c = true.
Proof.
  revert a b. induction c as [|x c IH]; intros a b Hab Hbc; [apply startswith_nil|].
  destruct b as [|y b]; [discriminate|]. destruct a as [|z a]; [discriminate|].
  simpl in *. apply andb_true_iff in Hab as [Hzy Hab]. apply andb_true_iff in Hbc as [Hyx Hbc].
  apply Ascii.eqb_eq in Hzy, Hyx. subst. rewrite Ascii.eqb_refl. simpl. eauto.
Qed.

Lemma drop_prefix_restore (p k : string) :
  startswith k p = true -> (p ++ drop_prefix p k)%string = k.
Proof.
  revert k. induction p as [|a p IH]; intros k H; [reflexivity|].
  destruct k as [|b k]; [discriminate|]. simpl in *.
  apply andb_true_iff in H as [Hab H]. apply Ascii.eqb_eq in Hab. subst.
  now rewrite IH.
Qed.

Lemma drop_prefix_app (p s : string) : drop_prefix p (p ++ s) = s.
Proof. induction p as [|a p IH]; simpl; [now destruct s|assumption]. Qed.

Lemma nonempty_false (s : string) : nonempty s = false -> s = "".
Proof.
  unfold nonempty. intros H. apply negb_false_iff in H. now apply String.eqb_eq in H.
Qed.

Lemma rel_path_of_app (prefix rel : string) :
  rel_path_of prefix (if nonempty prefix then (prefix ++ rel)%string else rel) = rel.
Proof.
  unfold rel_path_of. destruct (nonempty prefix) eqn:E; simpl.
  - now rewrite startswith_app, drop_prefix_app.
  - reflexivity.
Qed.

(** A key within a scope that extends the prefix is the prefix followed
    by its relative path. *)
Lemma prefix_rel_path_in_scope (prefix scope key : string) :
  startswith scope prefix = true ->
  (nonempty scope = true -> startswith key scope = true) ->
  startswith (prefix ++ rel_path_of prefix key) scope = true.
Proof.
  intros Hsp Hks. unfold rel_path_of.
  destruct (nonempty scope) eqn:Hn.
  - specialize (Hks eq_refl).
    assert (Hkp : startswith key prefix = true) by (eapply startswith_trans; eauto).
    rewrite Hkp. destruct (nonempty prefix) eqn:Hp; simpl.
    + now rewrite drop_prefix_restore.
    + apply nonempty_false in Hp. now subst.
  - apply nonempty_false in Hn. subst. apply startswith_nil.
Qed.

Lemma str_in_In (x : string) (l : list string) : str_in x l = true <-> In x l.
Proof.
  unfold str_in. rewrite existsb_exists. split.
  - intros (y & Hy & E). apply String.eqb_eq in E. now subst.
  - intros H. exists x. split; [assumption|apply String.eqb_refl].
Qed.

(** ** Dictionaries *)

Section DictFacts.
Variable V : Type.
Implicit Types (d : dict V) (k : string) (v : V).

Lemma dict_get_In d k v : dict_get d k = Some v -> In (k, v) d.
Proof.
  induction d as [|[k' v'] d IH]; simpl; [discriminate|].
  destruct (k' =? k) eqn:E.
  - apply String.eqb_eq in E. intros [= ->]. subst. now left.
  - intros H. right. auto.
Qed.

Lemma dict_get_keys d k : dict_mem k d = true <-> In k (keys d).
Proof.
  unfold dict_mem. induction d as [|[k' v'] d IH]; simpl.
  - split; [discriminate|tauto].
  - destruct (k' =? k) eqn:E.
    + apply String.eqb_eq in E. subst. split; auto.
    + rewrite IH. apply String.eqb_neq in E. split; [auto|]. intros [H|H]; [contradiction|auto].
Qed.

Lemma In_keys d k : In k (keys d) <-> exists v, In (k, v) d.
Proof.
  unfold keys. rewrite in_map_iff. split.
  - intros ([k' v] & E & H). simpl in E. subst. eauto.
  - intros (v & H). exists (k, v). auto.
Qed.

Lemma dict_set_In d k v k' v' :
  In (k', v') (dict_set d k v) -> (k' = k /\ v' = v) \/ In (k', v') d.
Proof.
  induction d as [|[k0 v0] d IH]; simpl.
  - intros [[= <- <-]|[]]. now left.
  - destruct (k0 =? k) eqn:E; simpl.
    + intros [[= <- <-]|H]; [now left|right; now right].
    + intros [H|H]; [right; now left|]. destruct (IH H); [now left|right; now right].
Qed.

Lemma dict_get_set d k v k' :
  dict_get (dict_set d k v) k' = if k =? k' then Some v else dict_get d k'.
Proof.
  induction d as [|[k0 v0] d IH]; simpl.
  - reflexivity.
  - destruct (k0 =? k) eqn:E; simpl.
    + apply String.eqb_eq in E. subst. now destruct (k =? k').
    + rewrite IH. destruct (k0 =? k') eqn:E'; [|reflexivity].
      apply String.eqb_eq in E'. subst. now rewrite String.eqb_sym, E.
Qed.

Lemma NoDup_keys_dict_set d k v : NoDup (keys d) -> NoDup (keys (dict_set d k v)).
Proof.
  induction d as [|[k0 v0] d IH]; simpl; intros H.
  - constructor; [tauto|constructor].
  - inversion H as [|? ? Hn Hd]; subst.
    destruct (k0 =? k) eqn:E; simpl.
    + apply String.eqb_eq in E. subst. now constructor.
    + constructor; [|auto]. intros Hin. apply In_keys in Hin as [v' Hin].
      apply dict_set_In in Hin as [[-> _]|Hin].
      * now rewrite String.eqb_refl in E.
      * apply Hn. apply In_keys. eauto.
Qed.

Lemma NoDup_keys_get d k v : NoDup (keys d) -> In (k, v) d -> dict_get d k = Some v.
Proof.
  induction d as [|[k0 v0] d IH]; simpl; intros Hd Hin; [contradiction|].
  inversion Hd as [|? ? Hn Hd']; subst.
  destruct Hin as [[= -> ->]|Hin].
  - now rewrite String.eqb_refl.
  - destruct (k0 =? k) eqn:E; [|auto].
    apply String.eqb_eq in E. subst. exfalso. apply Hn. apply In_keys. eauto.
Qed.
End DictFacts.

(** ** Traces *)

Lemma emits_emitted {A} (P : event -> Prop) (m : io A) (w : world) :
  emits P m -> trace (snd (m w)) = trace w ++ emitted m w /\ Forall P (emitted m w).
Proof.
  intros H. destruct (H w) as (evs & E & HP). unfold emitted. rewrite E.
  replace (skipn (length (trace w)) (trace w ++ evs)) with evs; [auto|].
  rewrite skipn_app, skipn_all, Nat.sub_diag. reflexivity.
Qed.

Lemma emits_weaken {A} (P Q : event -> Prop) (m : io A) :
  (forall e, P e -> Q e) -> emits P m -> emits Q m.
Proof.
  intros HPQ H w. destruct (H w) as (evs & E & HP). exists evs. split; [assumption|].
  eapply Forall_impl; eauto.
Qed.

Lemma emits_ret {A} (P : event -> Prop) (a : A) : emits P (ret a).
Proof. intros w. exists []. simpl. now rewrite app_nil_r. Qed.

Lemma emits_bind {A B} (P : event -> Prop) (m : io A) (k : A -> io B) :
  emits P m -> (forall a, emits P (k a)) -> emits P (bind m k).
Proof.
  intros Hm Hk w. unfold bind. destruct (Hm w) as (e1 & E1 & P1).
  destruct (m w) as [a w1]. simpl in *. destruct (Hk a w1) as (e2 & E2 & P2).
  exists (e1 ++ e2). rewrite E2, E1, app_assoc. split; [reflexivity|].
  apply Forall_app. auto.
Qed.

Lemma emits_print (P : event -> Prop) (m : message) : P (Printed m) -> emits P (print m).
Proof. intros H w. exists [Printed m]. simpl. auto. Qed.

Lemma emits_perform {oc : Outcomes} (P : event -> Prop) (c : call) :
  (forall ok, P (Called c ok)) -> emits P (perform c).
Proof. intros H w. eexists [_]. simpl. split; [reflexivity|]. auto. Qed.

Lemma emits_input (P : event -> Prop) (q : question) :
  (forall a, P (Asked q a)) -> emits P (input q).
Proof.
  intros H w. unfold input. destruct (stdin w); eexists [_]; simpl; (split; [reflexivity|auto]).
Qed.

Lemma emits_for_each {A S} (P : event -> Prop) (l : list A) (body : A -> S -> io S) :
  (forall x s, In x l -> emits P (body x s)) -> forall s, emits P (for_each l body s).
Proof.
  induction l as [|x l IH]; intros H s; simpl.
  - apply emits_ret.
  - apply emits_bind; [apply H; now left|]. intros s'. apply IH. intros; apply H; now right.
Qed.

(** The two parts of the trace of [bind]. *)
Lemma emitted_bind {A B} (P : event -> Prop) (m : io A) (k : A -> io B) (w : world) :
  emits P m -> (forall a, emits P (k a)) ->
  emitted (bind m k) w = emitted m w ++ emitted (k (value m w)) (snd (m w))
  /\ value (bind m k) w = value (k (value m w)) (snd (m w)).
Proof.
  intros Hm Hk. destruct (emits_emitted w Hm) as [E1 _].
  destruct (emits_emitted (snd (m w)) (Hk (value m w))) as [E2 _].
  unfold emitted at 1, value at 1, bind. unfold value in *.
  destruct (m w) as [a w1]. simpl in *. split; [|reflexivity].
  rewrite E2, E1, <- app_assoc, skipn_app, skipn_all, Nat.sub_diag. reflexivity.
Qed.

Lemma emits_bind_returns {A B} (P : event -> Prop) (Q : A -> Prop) (m : io A)
    (k : A -> io B) :
  emits P m -> returns Q m -> (forall a, Q a -> emits P (k a)) -> emits P (bind m k).
Proof.
  intros Hm HQ Hk w. unfold bind. destruct (Hm w) as (e1 & E1 & P1). specialize (HQ w).
  destruct (m w) as [a w1]. simpl in *. destruct (Hk a HQ w1) as (e2 & E2 & P2).
  exists (e1 ++ e2). rewrite E2, E1, app_assoc. split; [reflexivity|].
  apply Forall_app. auto.
Qed.

Lemma emits_look {A} (P : event -> Prop) (f : list event -> A) : emits P (look f).
Proof. intros w. exists []. simpl. now rewrite app_nil_r. Qed.

(** [remove_empty_parent] makes at most the one call. *)
Lemma emits_remove_empty_parent {oc : Outcomes} {lt : LiveTree} (P : event -> Prop)
    (local_path : string) :
  (forall ok, P (Called (RemoveDirectory (dirname local_path)) ok)) ->
  emits P (Download.remove_empty_parent local_path).
Proof.
  intros H. unfold Download.remove_empty_parent.
  destruct (nonempty (dirname local_path)); [|apply emits_ret].
  apply emits_bind; [apply emits_look|]. intros [|]; [|apply emits_ret].
  apply emits_bind; [apply emits_look|]. intros [[|]|]; try apply emits_ret.
  apply emits_bind; [now apply emits_perform|]. intros _. apply emits_ret.
Qed.

Ltac emits_step :=
  match goal with
  | |- emits _ (ret _) => apply emits_ret
  | |- emits _ (look _) => apply emits_look
  | |- emits _ (Download.remove_empty_parent _) => apply emits_remove_empty_parent; intros ?
  | |- emits _ (bind _ _) => apply emits_bind; [|intros ?]
  | |- emits _ (print _) => apply emits_print
  | |- emits _ (emit _) => apply emits_print
  | |- emits _ (perform _) => apply emits_perform; intros ?
  | |- emits _ (input _) => apply emits_input; intros ?
  | |- emits _ (if ?b then _ else _) => destruct b eqn:?
  | |- emits _ (match ?x with Some _ => _ | None => _ end) => destruct x eqn:?
  end.

Ltac emits_auto := repeat emits_step; simpl; auto; try exact I.

(** The mode selection adds the question and two report lines to what
    the sync function emits; in a dry run only the dry pass runs. *)
Lemma upload_run_sync_emits {oc : Outcomes} (P : event -> Prop) (project_path : string)
    (changes dry_run yes : bool) (sync : bool -> io Upload.result) :
  (forall dry, (dry_run = true -> dry = true) -> emits P (sync dry)) ->
  (forall m, is_preview (Printed m) = false -> P (Printed m)) ->
  (dry_run = false -> forall a, P (Asked (AskProceed project_path) a)) ->
  emits P (Upload.run_sync project_path changes dry_run yes sync).
Proof.
  intros Hsync Hprint Hask. unfold Upload.run_sync.
  destruct dry_run; [apply Hsync; auto|].
  assert (forall dry, emits P (sync dry)) by (intros; apply Hsync; discriminate).
  emits_auto.
Qed.

Lemma download_run_sync_emits {oc : Outcomes} (P : event -> Prop) (project_path : string)
    (changes dry_run yes : bool) (sync : bool -> io Download.result) :
  (forall dry, (dry_run = true -> dry = true) -> emits P (sync dry)) ->
  (forall m, is_preview (Printed m) = false -> P (Printed m)) ->
  (dry_run = false -> forall a, P (Asked (AskProceed project_path) a)) ->
  emits P (Download.run_sync project_path changes dry_run yes sync).
Proof.
  intros Hsync Hprint Hask. unfold Download.run_sync.
  destruct dry_run; [apply Hsync; auto|].
  assert (forall dry, emits P (sync dry)) by (intros; apply Hsync; discriminate).
  emits_auto.
Qed.

(** ** Deletions stay within the scope *)

Section Scope.
Context {os : OsPath} {oc : Outcomes} {sm : Similarity} {lt : LiveTree}.

Lemma build_s3_files_markers (objs : list s3_object) (prefix : string)
    (scope : option string) :
  forall files markers files' markers',
    build_s3_files objs prefix scope files markers = (files', markers') ->
    (forall k, In k markers -> in_scope scope k = true) ->
    forall k, In k markers' -> in_scope scope k = true.
Proof.
  induction objs as [|obj objs IH]; simpl; intros files markers files' markers' E H k Hk.
  - injection E as <- <-. auto.
  - destruct (is_folder_marker obj).
    + eapply IH; [exact E| |exact Hk]. intros k' Hk'.
      destruct (in_scope scope (Key obj)) eqn:Es; [|auto].
      apply in_app_or in Hk' as [Hk'|[<-|[]]]; auto.
    + eapply IH; eauto.
Qed.

Lemma orphaned_keys_in_scope (local_files : dict file_info) (s3_files : dict s3_info)
    (scope : option string) (key rel : string) (size : Z) :
  In (key, rel, size) (Upload.orphaned_keys local_files s3_files scope) ->
  in_scope scope key = true.
Proof.
  unfold Upload.orphaned_keys. rewrite in_flat_map. intros ([rel' info] & _ & H).
  destruct (str_in _ Upload.SKIP_EXTENSIONS); [contradiction|].
  destruct (negb (dict_mem rel' local_files) && in_scope scope (s3_key info)) eqn:E;
    [|contradiction].
  destruct H as [[= <- <- <-]|[]]. now apply andb_true_iff in E.
Qed.

Lemma upload_sync_to_s3_within (bucket local_dir : string) (local_files : dict file_info)
    (s3_objects : list s3_object) (prefix : string) (force dry_run : bool)
    (shown scope : string) :
  emits (upload_within shown scope)
    (Upload.sync_to_s3 bucket local_dir local_files s3_objects prefix force dry_run
       (Some scope)).
Proof.
  unfold Upload.sync_to_s3.
  destruct (build_s3_files s3_objects prefix (Some scope) [] []) as [s3_files markers] eqn:B.
  apply emits_bind.
  { apply emits_for_each. intros [rel info] r _.
    unfold Upload.process_local_file, Upload.upload_file. emits_auto. }
  intros r. apply emits_bind.
  { apply emits_for_each. intros [[key rel] size] r' Hin.
    apply orphaned_keys_in_scope in Hin.
    unfold Upload.delete_orphan, Upload.delete_s3_object. emits_auto. }
  intros r'. destruct local_files; [|apply emits_ret].
  destruct (Upload.orphaned_keys _ _ _); [apply emits_ret|].
  apply emits_bind; [|intros; apply emits_ret].
  apply emits_for_each. intros key r'' Hin.
  assert (in_scope (Some scope) key = true)
    by (eapply build_s3_files_markers; [exact B| |exact Hin]; intros ? []).
  unfold Upload.delete_folder_marker, Upload.delete_s3_object. emits_auto.
Qed.

Lemma preview_s3_files_in_scope (s3_objects : list s3_object) (prefix scope : string) :
  startswith scope prefix = true ->
  forall p, In p (keys (Upload.preview_s3_files s3_objects prefix scope)) ->
            startswith (prefix ++ p) scope = true.
Proof.
  intros Hsp. unfold Upload.preview_s3_files.
  assert (G : forall acc : dict string,
             (forall p, In p (keys acc) -> startswith (prefix ++ p) scope = true) ->
             forall p,
               In p (keys (fold_left
                             (fun acc obj =>
                                if is_folder_marker obj then acc
                                else if nonempty scope && negb (startswith (Key obj) scope)
                                     then acc
                                     else dict_set acc (rel_path_of prefix (Key obj))
                                            (etag_of obj)) s3_objects acc)) ->
               startswith (prefix ++ p) scope = true).
  { induction s3_objects as [|obj objs IH]; simpl; intros acc Hacc p Hp; [auto|].
    eapply IH; [|exact Hp]. intros q Hq.
    destruct (is_folder_marker obj); [auto|].
    destruct (nonempty scope && negb (startswith (Key obj) scope)) eqn:E; [auto|].
    apply In_keys in Hq as [v Hq]. apply dict_set_In in Hq as [[-> _]|Hq].
    - apply prefix_rel_path_in_scope; [assumption|]. intros Hn. rewrite Hn in E.
      simpl in E. now apply negb_false_iff in E.
    - apply Hacc. apply In_keys. eauto. }
  apply G. intros p [].
Qed.

Lemma scope_extends_prefix (is_file : bool) (prefix filename : string) :
  startswith (scope_of is_file prefix filename) prefix = true.
Proof. destruct is_file; simpl; [apply startswith_app|apply startswith_refl]. Qed.

Lemma upload_run_within (s3 : s3_client) (fs : filesystem) (project_root project_path : string)
    (bucket_override prefix_override : option string)
    (force dry_run yes return_preview_info : bool) :
  emits (upload_within
           (run_prefix fs project_root project_path bucket_override prefix_override)
           (run_scope fs project_root project_path bucket_override prefix_override))
    (Upload.sync_single_path s3 fs project_root project_path bucket_override
       prefix_override force dry_run yes return_preview_info).
Proof.
  unfold Upload.sync_single_path, run_scope, run_prefix, run_local_path.
  destruct (parse_project_path fs project_root project_path bucket_override prefix_override)
    as [[bucket prefix] local_path]. simpl fst; simpl snd.
  set (is_file := path_is_file fs local_path project_path).
  set (filename := scope_filename fs local_path project_path).
  set (scope := scope_of is_file prefix filename).
  match goal with |- emits _ (match ?l with _ => _ end) => destruct l as [s3_objects|] end;
    [|apply emits_ret].
  apply emits_bind.
  { apply emits_print. simpl. intros p Hp. apply filter_In in Hp as [Hp _].
    eapply preview_s3_files_in_scope; [|exact Hp]. apply scope_extends_prefix. }
  intros _. apply emits_bind; [|intros; apply emits_ret].
  apply upload_run_sync_emits; simpl; auto.
  - intros dry _. apply upload_sync_to_s3_within.
  - intros [] Hm; simpl; auto; discriminate.
Qed.

Lemma download_scanned_in_scope (fs : filesystem) (project_root project_path : string)
    (bucket_override prefix_override : option string) (rel : string) (info : file_info) :
  let local_path :=
    run_local_path fs project_root project_path bucket_override prefix_override in
  In (rel, info)
     (if exists_ fs local_path then Download.scan_local_files fs local_path else []) ->
  startswith
    (run_prefix fs project_root project_path bucket_override prefix_override ++ rel)
    (run_scope fs project_root project_path bucket_override prefix_override) = true.
Proof.
  unfold run_scope, run_prefix, run_local_path, parse_project_path. simpl fst; simpl snd.
  set (local_path := os_path_normpath (os_path_join project_root (strip_leading project_path))).
  match goal with |- context [scope_of _ ?p _] => generalize p end. intros prefix.
  unfold Download.scan_local_files, path_is_file, scope_filename, exists_, isfile.
  assert (E : os_path_normpath local_path = local_path) by apply os_path_normpath_idem.
  rewrite E. destruct (fs local_path) as [[etag size|entries]|]; intros H.
  - match type of H with In _ (if ?b then _ else _) => destruct b end; [|contradiction].
    unfold Download.add_scanned in H. destruct etag as [h|]; [|contradiction].
    destruct (nonempty h); [|contradiction].
    destruct H as [[= <- <-]|[]]. apply startswith_refl.
  - apply startswith_app.
  - contradiction.
Qed.

Lemma confirm_deletions_returns (dry_run : bool) (orphans : list (string * string * Z)) :
  returns (fun l => incl l orphans) (Download.confirm_deletions dry_run orphans).
Proof.
  intros w. unfold Download.confirm_deletions.
  destruct orphans as [|o orphans]; [apply incl_refl|].
  destruct dry_run; [apply incl_refl|].
  unfold bind, print, emit, input. simpl.
  destruct (stdin w) as [|[line|] rest]; simpl;
    try destruct (is_yes line); simpl; auto using incl_refl, incl_nil_l.
Qed.

Lemma orphaned_local_files_In (local_files : dict file_info) (s3_files : dict s3_info)
    (olds : list string) (prefix base : string) (is_file_sync : bool)
    (scope : option string) (path rel : string) (size : Z) :
  In (path, rel, size)
     (Download.orphaned_local_files local_files s3_files olds prefix base is_file_sync scope) ->
  exists info, In (rel, info) local_files /\ file_path info = path.
Proof.
  unfold Download.orphaned_local_files. rewrite in_flat_map. intros ([rel' info] & Hin & H).
  assert (G : In (path, rel, size) [(file_path info, rel', file_size info)] ->
              exists info0, In (rel, info0) local_files /\ file_path info0 = path).
  { intros [[= <- <- <-]|[]]. eauto. }
  destruct (str_in rel' olds); [contradiction|].
  destruct (dict_mem rel' s3_files); [contradiction|].
  destruct scope as [sc|]; [|auto].
  destruct (negb is_file_sync); [|auto].
  destruct (os_path_relpath (file_path info) base); [|auto].
  destruct (startswith _ sc); [auto|contradiction].
Qed.

Lemma download_sync_from_s3_within (fs : filesystem) (bucket project_root : string)
    (local_files : dict file_info) (s3_objects : list s3_object) (prefix base : string)
    (force dry_run : bool) (sync_scope : option string) (shown scope : string) :
  (forall rel info, In (rel, info) local_files -> startswith (shown ++ rel) scope = true) ->
  emits (download_within local_files shown scope)
    (Download.sync_from_s3 fs bucket project_root local_files s3_objects prefix base
       force dry_run sync_scope).
Proof.
  intros Hscope. unfold Download.sync_from_s3.
  destruct (build_s3_files s3_objects prefix sync_scope [] []) as [s3_files markers].
  apply emits_bind.
  { unfold Download.transfer_and_rename. apply emits_bind.
    { apply emits_for_each. intros [rel info] r _.
      unfold Download.process_s3_file, Download.download_file. emits_auto. }
    intros r. apply emits_for_each. intros [old info] r' _.
    unfold Download.process_rename, Download.download_file, Download.delete_local_file.
    destruct (dict_get local_files old) as [old_info|] eqn:G; [|apply emits_ret].
    apply dict_get_In in G. emits_auto; simpl; eauto 6. }
  intros r'.
  eapply emits_bind_returns; [|apply confirm_deletions_returns|].
  { unfold Download.confirm_deletions. emits_auto;
      match goal with |- emits _ (match ?l with _ => _ end) => destruct l end; emits_auto. }
  intros orphans Hincl. apply emits_bind; [|intros; apply emits_ret].
  apply emits_for_each. intros [[path rel] size] r'' Hin.
  apply Hincl in Hin. apply orphaned_local_files_In in Hin as (info & Hin & <-).
  unfold Download.delete_orphan, Download.delete_local_file. emits_auto; simpl; eauto 6.
Qed.

Lemma download_run_within (s3 : s3_client) (fs : filesystem) (project_root project_path : string)
    (bucket_override prefix_override : option string)
    (force dry_run yes return_preview_info : bool) :
  let local_path :=
    run_local_path fs project_root project_path bucket_override prefix_override in
  emits (download_within
           (if exists_ fs local_path then Download.scan_local_files fs local_path else [])
           (run_prefix fs project_root project_path bucket_override prefix_override)
           (run_scope fs project_root project_path bucket_override prefix_override))
    (Download.sync_single_path s3 fs project_root project_path bucket_override
       prefix_override force dry_run yes return_preview_info).
Proof.
  intros local_path.
  pose proof (download_scanned_in_scope fs project_root project_path bucket_override
                prefix_override) as Hscan. simpl in Hscan. fold local_path in Hscan.
  revert Hscan. subst local_path.
  unfold Download.sync_single_path, run_scope, run_prefix, run_local_path.
  destruct (parse_project_path fs project_root project_path bucket_override prefix_override)
    as [[bucket prefix] local_path]. simpl fst; simpl snd.
  set (is_file := path_is_file fs local_path project_path).
  set (filename := scope_filename fs local_path project_path).
  set (scope := scope_of is_file prefix filename).
  set (local_files := if exists_ fs local_path then Download.scan_local_files fs local_path
                      else []).
  intros Hscan.
  match goal with |- emits _ (match ?l with _ => _ end) => destruct l as [s3_objects|] end;
    [|apply emits_ret].
  apply emits_bind.
  { apply emits_print. simpl. intros p Hp. apply filter_In in Hp as [Hp _].
    split; [assumption|]. apply In_keys in Hp as [info Hp]. eauto. }
  intros _. apply emits_bind; [|intros; apply emits_ret].
  apply download_run_sync_emits; simpl; auto.
  - intros dry _. apply download_sync_from_s3_within. assumption.
  - intros [] Hm; simpl; auto; discriminate.
Qed.
End Scope.

(** ** What the two sync functions can emit at all *)

Section Emit.
Context {os : OsPath} {oc : Outcomes} {sm : Similarity} {lt : LiveTree}.

Lemma returns_ret {A} (Q : A -> Prop) (a : A) : Q a -> returns Q (ret a).
Proof. intros H w. exact H. Qed.

Lemma returns_bind {A B} (Q : B -> Prop) (m : io A) (k : A -> io B) :
  (forall a, returns Q (k a)) -> returns Q (bind m k).
Proof. intros H w. unfold bind. destruct (m w) as [a w']. apply H. Qed.

Lemma emitted_ret {A} (a : A) (w : world) : emitted (ret a) w = [].
Proof. unfold emitted. simpl. apply skipn_all. Qed.

Lemma emitted_print (m : message) (w : world) : emitted (print m) w = [Printed m].
Proof.
  unfold emitted. simpl. rewrite skipn_app, skipn_all, Nat.sub_diag. reflexivity.
Qed.

(** [sync_to_s3] prints report lines and, outside a dry run, makes
    calls; it asks nothing. *)
Lemma upload_sync_to_s3_emits (P : event -> Prop) (bucket local_dir : string)
    (local_files : dict file_info) (s3_objects : list s3_object) (prefix : string)
    (force dry_run : bool) (scope : option string) :
  (forall m, is_preview (Printed m) = false -> P (Printed m)) ->
  (dry_run = false -> forall c ok, P (Called c ok)) ->
  emits P (Upload.sync_to_s3 bucket local_dir local_files s3_objects prefix force dry_run
             scope).
Proof.
  intros Hprint Hcall. unfold Upload.sync_to_s3.
  destruct (build_s3_files s3_objects prefix scope [] []) as [s3_files markers].
  assert (Hup : forall lp key, emits P (Upload.upload_file bucket lp key dry_run)).
  { intros. unfold Upload.upload_file. emits_auto. }
  assert (Hdel : forall key, emits P (Upload.delete_s3_object bucket key dry_run)).
  { intros. unfold Upload.delete_s3_object. emits_auto. }
  apply emits_bind.
  { apply emits_for_each. intros [rel info] r _. unfold Upload.process_local_file.
    emits_auto. }
  intros r. apply emits_bind.
  { apply emits_for_each. intros [[key rel] size] r' _. unfold Upload.delete_orphan.
    emits_auto. }
  intros r'. destruct local_files; [|apply emits_ret].
  destruct (Upload.orphaned_keys _ _ _); [apply emits_ret|].
  apply emits_bind; [|intros; apply emits_ret].
  apply emits_for_each. intros key r'' _. unfold Upload.delete_folder_marker. emits_auto.
Qed.

(** [sync_from_s3] prints report lines and, outside a dry run, makes
    calls and may ask the one question about deleting local files. *)
Lemma download_sync_from_s3_emits (P : event -> Prop) (fs : filesystem)
    (bucket project_root : string) (local_files : dict file_info)
    (s3_objects : list s3_object) (prefix base : string) (force dry_run : bool)
    (scope : option string) :
  (forall m, is_preview (Printed m) = false -> P (Printed m)) ->
  (dry_run = false -> forall c ok, P (Called c ok)) ->
  (dry_run = false -> forall a, P (Asked AskDeleteLocalFiles a)) ->
  emits P (Download.sync_from_s3 fs bucket project_root local_files s3_objects prefix base
             force dry_run scope).
Proof.
  intros Hprint Hcall Hask. unfold Download.sync_from_s3.
  destruct (build_s3_files s3_objects prefix scope [] []) as [s3_files markers].
  assert (Hdown : forall key lp, emits P (Download.download_file bucket key lp dry_run)).
  { intros. unfold Download.download_file. emits_auto. }
  assert (Hdel : forall lp, emits P (Download.delete_local_file lp dry_run)).
  { intros. unfold Download.delete_local_file. emits_auto. }
  apply emits_bind.
  { unfold Download.transfer_and_rename. apply emits_bind.
    { apply emits_for_each. intros [rel info] r _. unfold Download.process_s3_file.
      emits_auto. }
    intros r. apply emits_for_each. intros [old info] r' _. unfold Download.process_rename.
    emits_auto. }
  intros r'. apply emits_bind.
  { unfold Download.confirm_deletions.
    match goal with |- emits _ (match ?l with _ => _ end) => destruct l end; emits_auto. }
  intros orphans. apply emits_bind; [|intros; apply emits_ret].
  apply emits_for_each. intros [[path rel] size] r'' _. unfold Download.delete_orphan.
  emits_auto.
Qed.
End Emit.

(** C1.  In every sync run, in either direction and in every mode, what
    is proposed for deletion and what is deleted lies within the scope of
    the run.  Upload: every key handed to [delete_object] starts with the
    scope prefix, and so does the key of every file the preview lists as
    orphaned.  Download: every local file removed, and every file the
    preview lists as orphaned, is a file of the local scan whose key in
    the bucket starts with the scope prefix; a directory is removed only
    as the emptied directory of such a file. *)
Theorem deletion_candidates_within_scope {os : OsPath} {oc : Outcomes}
    {sm : Similarity} {lt : LiveTree}
    (s3 : s3_client) (fs : filesystem) (project_root project_path : string)
    (bucket_override prefix_override : option string)
    (force dry_run yes return_preview_info : bool) (w : world) :
  let local_path :=
    run_local_path fs project_root project_path bucket_override prefix_override in
  let prefix := run_prefix fs project_root project_path bucket_override prefix_override in
  let scope := run_scope fs project_root project_path bucket_override prefix_override in
  Forall (upload_within prefix scope)
    (emitted (Upload.sync_single_path s3 fs project_root project_path bucket_override
                prefix_override force dry_run yes return_preview_info) w)
  /\ Forall (download_within
               (if exists_ fs local_path then Download.scan_local_files fs local_path else [])
               prefix scope)
       (emitted (Download.sync_single_path s3 fs project_root project_path bucket_override
                   prefix_override force dry_run yes return_preview_info) w).
Proof.
  split.
  - eapply emits_emitted, upload_run_within.
  - eapply emits_emitted, download_run_within.
Qed.

(** ** Dry runs *)

Section DryRun.
Context {os : OsPath} {oc : Outcomes} {sm : Similarity} {lt : LiveTree}.

Lemma filter_nil_Forall {A} (f : A -> bool) (l : list A) :
  Forall (fun x => f x = false) l -> filter f l = [].
Proof.
  induction 1 as [|x l Hx _ IH]; simpl; [reflexivity|]. now rewrite Hx.
Qed.

Lemma upload_run_emits (P : event -> Prop) (s3 : s3_client) (fs : filesystem)
    (project_root project_path : string) (bucket_override prefix_override : option string)
    (force dry_run yes return_preview_info : bool) :
  (forall m, P (Printed m)) ->
  (dry_run = false -> forall c ok, P (Called c ok)) ->
  (dry_run = false -> forall a, P (Asked (AskProceed project_path) a)) ->
  emits P (Upload.sync_single_path s3 fs project_root project_path bucket_override
             prefix_override force dry_run yes return_preview_info).
Proof.
  intros Hprint Hcall Hask. unfold Upload.sync_single_path.
  destruct (parse_project_path _ _ _ _ _) as [[bucket prefix] local_path].
  match goal with |- emits _ (match ?l with _ => _ end) => destruct l as [s3_objects|] end;
    [|apply emits_ret].
  apply emits_bind; [apply emits_print, Hprint|]. intros _.
  apply emits_bind; [|intros; apply emits_ret].
  apply upload_run_sync_emits; auto.
  intros dry Hdry. apply upload_sync_to_s3_emits; auto.
  intros ->. destruct dry_run; [now specialize (Hdry eq_refl)|auto].
Qed.

Lemma download_run_emits (P : event -> Prop) (s3 : s3_client) (fs : filesystem)
    (project_root project_path : string) (bucket_override prefix_override : option string)
    (force dry_run yes return_preview_info : bool) :
  (forall m, P (Printed m)) ->
  (dry_run = false -> forall c ok, P (Called c ok)) ->
  (dry_run = false -> forall q a, P (Asked q a)) ->
  emits P (Download.sync_single_path s3 fs project_root project_path bucket_override
             prefix_override force dry_run yes return_preview_info).
Proof.
  intros Hprint Hcall Hask. unfold Download.sync_single_path.
  destruct (parse_project_path _ _ _ _ _) as [[bucket prefix] local_path].
  match goal with |- emits _ (match ?l with _ => _ end) => destruct l as [s3_objects|] end;
    [|apply emits_ret].
  apply emits_bind; [apply emits_print, Hprint|]. intros _.
  apply emits_bind; [|intros; apply emits_ret].
  apply download_run_sync_emits; auto.
  intros dry Hdry.
  assert (dry = false -> dry_run = false)
    by (intros ->; destruct dry_run; [now specialize (Hdry eq_refl)|auto]).
  apply download_sync_from_s3_emits; auto.
Qed.

Lemma snd_value_bind_ret {A B} (m : io A) (x : B) (w : world) :
  snd (value (bind m (fun r => ret (r, x))) w) = x.
Proof. unfold value, bind. destruct (m w). reflexivity. Qed.

(** The plan a run reports and the preview record it returns do not
    depend on the mode, nor on what the terminal or the calls answer. *)
Lemma upload_plan_fixed (s3 : s3_client) (fs : filesystem)
    (project_root project_path : string) (bucket_override prefix_override : option string)
    (force return_preview_info : bool) :
  exists plan_ info_,
    forall dry_run yes w,
      let run := Upload.sync_single_path s3 fs project_root project_path bucket_override
                   prefix_override force dry_run yes return_preview_info in
      reported_plan (emitted run w) = plan_ /\ snd (value run w) = info_.
Proof.
  unfold Upload.sync_single_path.
  destruct (parse_project_path _ _ _ _ _) as [[bucket prefix] local_path].
  match goal with |- context [match ?l with Some _ => _ | None => _ end] =>
    destruct l as [s3_objects|] end.
  - eexists _, _. intros dry_run yes w.
    match goal with |- context [bind (Upload.show_preview ?pl) ?k] =>
      destruct (@emitted_bind _ _ (fun _ => True) (Upload.show_preview pl) k w) as [E V]
    end.
    { apply emits_print. exact I. }
    { intros _. apply emits_bind; [|intros; apply emits_ret].
      apply upload_run_sync_emits; auto. intros. apply upload_sync_to_s3_emits; auto. }
    rewrite E, V. unfold reported_plan. rewrite filter_app.
    unfold Upload.show_preview at 1. rewrite emitted_print. simpl filter.
    rewrite (@filter_nil_Forall _ is_preview).
    + split; [reflexivity|]. apply snd_value_bind_ret.
    + eapply emits_emitted. apply emits_bind; [|intros; apply emits_ret].
      apply upload_run_sync_emits; auto. intros. apply upload_sync_to_s3_emits; auto.
  - exists [], None. intros. rewrite emitted_ret. auto.
Qed.

Lemma download_plan_fixed (s3 : s3_client) (fs : filesystem)
    (project_root project_path : string) (bucket_override prefix_override : option string)
    (force return_preview_info : bool) :
  exists plan_ info_,
    forall dry_run yes w,
      let run := Download.sync_single_path s3 fs project_root project_path bucket_override
                   prefix_override force dry_run yes return_preview_info in
      reported_plan (emitted run w) = plan_ /\ snd (value run w) = info_.
Proof.
  unfold Download.sync_single_path.
  destruct (parse_project_path _ _ _ _ _) as [[bucket prefix] local_path].
  match goal with |- context [match ?l with Some _ => _ | None => _ end] =>
    destruct l as [s3_objects|] end.
  - eexists _, _. intros dry_run yes w.
    match goal with |- context [bind (Download.show_preview ?pl) ?k] =>
      destruct (@emitted_bind _ _ (fun _ => True) (Download.show_preview pl) k w) as [E V]
    end.
    { apply emits_print. exact I. }
    { intros _. apply emits_bind; [|intros; apply emits_ret].
      apply download_run_sync_emits; auto. intros. apply download_sync_from_s3_emits; auto. }
    rewrite E, V. unfold reported_plan. rewrite filter_app.
    unfold Download.show_preview at 1. rewrite emitted_print. simpl filter.
    rewrite (@filter_nil_Forall _ is_preview).
    + split; [reflexivity|]. apply snd_value_bind_ret.
    + eapply emits_emitted. apply emits_bind; [|intros; apply emits_ret].
      apply download_run_sync_emits; auto. intros. apply download_sync_from_s3_emits; auto.
  - exists [], None. intros. rewrite emitted_ret. auto.
Qed.
End DryRun.

(** C5.  A dry run reports the same plan, and returns the same preview
    record, as a run without [--dry-run] on the same inputs, whatever else
    differs (the [--yes] flag, the terminal input, the outcome of the
    calls); and a dry run makes no call at all: no upload, download,
    deletion or directory creation.  Both directions. *)
Theorem dry_run_same_plan_no_calls {os : OsPath} {oc : Outcomes} {sm : Similarity} {lt : LiveTree}
    (s3 : s3_client) (fs : filesystem) (project_root project_path : string)
    (bucket_override prefix_override : option string)
    (force return_preview_info yes yes' : bool) (w w' : world) :
  let up dry_run yes :=
    Upload.sync_single_path s3 fs project_root project_path bucket_override
      prefix_override force dry_run yes return_preview_info in
  let down dry_run yes :=
    Download.sync_single_path s3 fs project_root project_path bucket_override
      prefix_override force dry_run yes return_preview_info in
  (reported_plan (emitted (up true yes) w) = reported_plan (emitted (up false yes') w')
   /\ snd (value (up true yes) w) = snd (value (up false yes') w')
   /\ Forall (fun e => is_call e = false) (emitted (up true yes) w))
  /\ (reported_plan (emitted (down true yes) w) = reported_plan (emitted (down false yes') w')
      /\ snd (value (down true yes) w) = snd (value (down false yes') w')
      /\ Forall (fun e => is_call e = false) (emitted (down true yes) w)).
Proof.
  intros up down. split.
  - destruct (upload_plan_fixed s3 fs project_root project_path bucket_override
                prefix_override force return_preview_info) as (pl & info & H).
    destruct (H true yes w) as [E1 V1]. destruct (H false yes' w') as [E2 V2].
    subst up. simpl in *. rewrite E1, E2, V1, V2. repeat split.
    eapply emits_emitted. apply upload_run_emits; auto; discriminate.
  - destruct (download_plan_fixed s3 fs project_root project_path bucket_override
                prefix_override force return_preview_info) as (pl & info & H).
    destruct (H true yes w) as [E1 V1]. destruct (H false yes' w') as [E2 V2].
    subst down. simpl in *. rewrite E1, E2, V1, V2. repeat split.
    eapply emits_emitted. apply download_run_emits; auto; discriminate.
Qed.

(** ** The two derivations of file or directory *)

(** C9.  The two places that decide between file and directory disagree
    on a path that does not exist locally and has a separator before a
    dotted last segment.  For [sub/file.txt], [parse_project_path] takes
    the path for a file and gives the bare base prefix, while
    [sync_single_path] takes it for a directory and makes that prefix the
    scope: the scope is the whole base prefix, and an upload run with
    [--yes] deletes the site's entry page. *)
Theorem file_or_directory_inconsistent :
  let fs := Host.empty_tree in
  let run :=
    Upload.sync_single_path (os := Host.normal_paths) (oc := Host.all_succeed)
      Host.site_bucket fs "/proj" "sub/file.txt" None None false false true false
      (Host.quiet []) in
  parse_project_path (os := Host.normal_paths) fs "/proj" "sub/file.txt" None None
  = ("llg-games", S3_PREFIX, "/proj/sub/file.txt")
  /\ path_is_file fs "/proj/sub/file.txt" "sub/file.txt" = false
  /\ run_scope (os := Host.normal_paths) fs "/proj" "sub/file.txt" None None = S3_PREFIX
  /\ trace (snd run)
     = [ Printed (MsgPreview [] [] [] ["index.html"] ["file.txt"] []);
         Printed (MsgDeleting "index.html");
         Called (S3DeleteObject "llg-games" "games/pull-tabs/index.html") true ].
Proof. vm_compute. repeat split; reflexivity. Qed.

(** ** One content under two names *)

(** The upload of [img], where the local [logo.png] and the bucket's
    [logo-old.png] have the same content, finds no rename: the plan has
    none and the tally of renames stays at zero. *)
Lemma upload_detects_no_rename :
  let run :=
    Upload.sync_single_path (os := Host.normal_paths) (oc := Host.all_succeed)
      Host.logo_bucket Host.logo_tree "/proj" "img" None None false false true true
      (Host.quiet []) in
  Upload.renamed (fst (fst run)) = 0%nat
  /\ option_map Upload.renames (snd (fst run)) = Some [].
Proof. vm_compute. split; reflexivity. Qed.

(** C4, as the code has it.  The local [logo.png] and the bucket's
    [logo-old.png] have the same content.  Download: the pair is a
    rename of similarity 16/20 = 0.8, carried out as the removal of the
    old local file followed by the download under the new name, and
    counted as one rename.  Upload: rename detection is switched off; the
    run uploads the new file and deletes the orphaned object, and counts
    no rename. *)
Theorem same_content_two_names :
  let down :=
    Download.sync_single_path (os := Host.normal_paths) (oc := Host.all_succeed)
      (sm := Host.difflib) (lt := Host.files_stay)
      Host.logo_bucket Host.logo_tree "/proj" "img" None None false false true false
      (Host.quiet []) in
  let up :=
    Upload.sync_single_path (os := Host.normal_paths) (oc := Host.all_succeed)
      Host.logo_bucket Host.logo_tree "/proj" "img" None None false false true false
      (Host.quiet []) in
  (trace (snd down)
   = [ Printed (MsgPreview ["logo-old.png"] [] [("logo.png", "logo-old.png")] [] [] []);
       Printed (MsgRenaming "logo.png" "logo-old.png" (16 # 20));
       Called (RemoveLocalFile "/proj/img/logo.png") true;
       Called (MakeLocalDirectory "/proj/img/logo-old.png") true;
       Called (S3DownloadFile "llg-games" "games/pull-tabs/img/logo-old.png"
                 "/proj/img/logo-old.png") true ]
   /\ 16 # 20 == 8 # 10
   /\ fst (fst down) = Download.Build_result 0 0 0 1 0 0 0)
  /\ (trace (snd up)
      = [ Printed (MsgPreview ["logo.png"] [] [] ["logo-old.png"] [] []);
          Printed (MsgTransferNew "logo.png");
          Called (S3UploadFile "/proj/img/logo.png" "llg-games"
                    "games/pull-tabs/img/logo.png") true;
          Printed (MsgDeleting "logo-old.png");
          Called (S3DeleteObject "llg-games" "games/pull-tabs/img/logo-old.png") true ]
      /\ fst (fst up) = Upload.Build_result 1 0 1 0 0 0 0).
Proof. vm_compute. repeat split; reflexivity. Qed.

(** C3, at a failing input.  Two local copies of one content,
    [logo-old.png] and [logo-new.png], and the bucket holding that content
    once as [logo.png]: the download script's [detect_renames] renames
    both local files to the one object, so a target appears in two
    renames.  The upload script's [detect_renames] gives one rename on the
    same input. *)
Theorem download_rename_target_shared :
  Download.detect_renames (sm := Host.difflib) Host.two_copies Host.one_object
    "games/pull-tabs/img/" default_similarity_threshold []
  = [ ("logo-old.png",
       {| Download.new_s3_key := "games/pull-tabs/img/logo.png";
          Download.new_s3_rel_path := "logo.png";
          Download.similarity := 16 # 20;
          Download.old_filename := "logo-old.png";
          Download.new_filename := "logo.png" |});
      ("logo-new.png",
       {| Download.new_s3_key := "games/pull-tabs/img/logo.png";
          Download.new_s3_rel_path := "logo.png";
          Download.similarity := 16 # 20;
          Download.old_filename := "logo-new.png";
          Download.new_filename := "logo.png" |}) ]
  /\ length (Upload.detect_renames (sm := Host.difflib) Host.two_copies Host.one_object
               "games/pull-tabs/img/" default_similarity_threshold []) = 1%nat.
Proof. vm_compute. split; reflexivity. Qed.

(** ** Auto-confirm *)


(** ** Files that are the same on both sides *)

(** With [--force], the upload preview lists as changed a file that is
    the same on both sides. *)
Lemma upload_force_lists_identical_file :
  let fs := Host.page_tree in
  let local_files := Upload.scan_local_files (os := Host.normal_paths) fs "/proj/index.html" in
  let s3_objects := [ {| Key := "games/pull-tabs/index.html"; ETag := "H0"; Size := 5 |} ] in
  let s3_files :=
    Upload.preview_s3_files s3_objects "games/pull-tabs/" "games/pull-tabs/index.html" in
  option_map file_hash (dict_get local_files "index.html") = Some "H0"
  /\ dict_get s3_files "index.html" = Some "H0"
  /\ In "index.html"
        (Upload.plan_changed
           (Upload.preview "index.html" "games/pull-tabs/" "games/pull-tabs/index.html"
              true true local_files s3_objects)).
Proof. vm_compute. repeat split; tauto. Qed.

(** ** Rename detection *)

Section SortFacts.
Variable C : Type.
Variable sim : C -> Q.

Lemma insert_by_similarity_In (x y : C) (l : list C) :
  In y (insert_by_similarity sim x l) <-> y = x \/ In y l.
Proof.
  induction l as [|z l IH]; simpl.
  - intuition.
  - destruct (Qle_bool (sim z) (sim x)); simpl; [intuition|]. rewrite IH. intuition.
Qed.

Lemma sort_by_similarity_In (y : C) (l : list C) :
  In y (sort_by_similarity sim l) <-> In y l.
Proof.
  induction l as [|x l IH]; simpl; [tauto|].
  rewrite insert_by_similarity_In, IH. intuition.
Qed.

Lemma insert_by_similarity_descending (x : C) (l : list C) :
  descending sim l -> descending sim (insert_by_similarity sim x l).
Proof.
  unfold descending. induction 1 as [|z l Hl IH Hz]; simpl.
  - repeat constructor.
  - destruct (Qle_bool (sim z) (sim x)) eqn:E.
    + apply Qle_bool_iff in E. constructor; [now constructor|].
      constructor; [assumption|]. eapply Forall_impl; [|exact Hz].
      intros a Ha. simpl in Ha. eapply Qle_trans; eauto.
    + constructor; [assumption|]. apply Forall_forall. intros a Ha.
      apply insert_by_similarity_In in Ha as [->|Ha].
      * apply Qlt_le_weak, Qnot_le_lt. intros H. apply Qle_bool_iff in H. congruence.
      * rewrite Forall_forall in Hz. auto.
Qed.

Lemma sort_by_similarity_descending (l : list C) :
  descending sim (sort_by_similarity sim l).
Proof.
  induction l as [|x l IH]; simpl; [constructor|].
  now apply insert_by_similarity_descending.
Qed.
End SortFacts.

(** Lists kept under the keys of a dictionary. *)
Section Entries.
Variable X : Type.

Lemma entries_all_nil (P : string -> X -> Prop) : entries_all P [].
Proof. intros h l x []. Qed.

Lemma entries_all_append (P : string -> X -> Prop) (d : dict (list X)) (h : string) (x : X) :
  entries_all P d -> P h x -> entries_all P (dict_append d h x).
Proof.
  intros Hd Hx h' l' x' Hin Hx'. unfold dict_append in Hin.
  destruct (dict_get d h) as [l|] eqn:G.
  - apply dict_set_In in Hin as [[-> ->]|Hin]; [|eauto].
    apply in_app_or in Hx' as [Hx'|[<-|[]]]; [|assumption].
    apply dict_get_In in G. eauto.
  - apply dict_set_In in Hin as [[-> ->]|Hin]; [|eauto].
    destruct Hx' as [<-|[]]. assumption.
Qed.

Lemma dict_append_keeps (d : dict (list X)) (h h' : string) (x x' : X) :
  (exists l, dict_get d h' = Some l /\ In x' l) ->
  exists l, dict_get (dict_append d h x) h' = Some l /\ In x' l.
Proof.
  intros (l & G & Hin). unfold dict_append.
  destruct (dict_get d h) as [l0|] eqn:G0; rewrite dict_get_set;
    destruct (h =? h') eqn:E; eauto.
  - apply String.eqb_eq in E. subst. rewrite G0 in G. injection G as ->.
    eexists. split; [reflexivity|]. apply in_or_app. now left.
  - apply String.eqb_eq in E. subst. congruence.
Qed.

Lemma dict_append_adds (d : dict (list X)) (h : string) (x : X) :
  exists l, dict_get (dict_append d h x) h = Some l /\ In x l.
Proof.
  unfold dict_append. destruct (dict_get d h) as [l0|]; rewrite dict_get_set, String.eqb_refl;
    eexists; (split; [reflexivity|]).
  - apply in_or_app. right. now left.
  - now left.
Qed.
End Entries.

Section DownloadRenames.
Context {sm : Similarity}.

Variable local_files : dict file_info.
Variable s3_objects : list s3_object.
Variable prefix : string.
Variable threshold : Q.
Variable matched : list string.

Let local_ok (h : string) (e : string * string) : Prop :=
  snd e = basename (fst e) /\ In (fst e) (keys local_files)
  /\ str_in (fst e) matched = false
  /\ str_in (fst e) (Download.s3_paths_set s3_objects prefix) = false.

Let s3_ok (h : string) (e : string * string * string) : Prop :=
  let '(key, rel, f) := e in
  rel = rel_path_of prefix key /\ f = basename rel
  /\ exists obj, In obj s3_objects /\ is_folder_marker obj = false
                 /\ nonempty (etag_of obj) = true /\ etag_of obj = h /\ Key obj = key.

Lemma download_local_hash_map_ok :
  entries_all local_ok
    (Download.local_hash_map local_files (Download.s3_paths_set s3_objects prefix) matched).
Proof.
  unfold Download.local_hash_map.
  assert (G : forall items acc,
             (forall i, In i items -> In i local_files) -> entries_all local_ok acc ->
             entries_all local_ok
               (fold_left (fun acc item =>
                             if str_in (fst item) matched then acc
                             else if str_in (fst item) (Download.s3_paths_set s3_objects prefix)
                                  then acc
                                  else dict_append acc (file_hash (snd item))
                                         (fst item, basename (fst item))) items acc)).
  { induction items as [|[p info] items IH]; simpl; intros acc Hsub Hacc; [assumption|].
    apply IH; [auto|].
    destruct (str_in p matched) eqn:E1; [assumption|].
    destruct (str_in p (Download.s3_paths_set s3_objects prefix)) eqn:E2; [assumption|].
    apply entries_all_append; [assumption|]. repeat split; simpl; auto.
    apply In_keys. exists info. apply Hsub. now left. }
  apply G; [auto|apply entries_all_nil].
Qed.

Lemma download_s3_hash_map_ok :
  entries_all s3_ok (Download.s3_hash_map s3_objects prefix).
Proof.
  unfold Download.s3_hash_map.
  assert (G : forall objs acc,
             (forall o, In o objs -> In o s3_objects) -> entries_all s3_ok acc ->
             entries_all s3_ok
               (fold_left (fun acc obj =>
                             if is_folder_marker obj then acc
                             else if nonempty (etag_of obj)
                                  then dict_append acc (etag_of obj)
                                         (Key obj, rel_path_of prefix (Key obj),
                                          basename (rel_path_of prefix (Key obj)))
                                  else acc) objs acc)).
  { induction objs as [|obj objs IH]; simpl; intros acc Hsub Hacc; [assumption|].
    apply IH; [auto|].
    destruct (is_folder_marker obj) eqn:E1; [assumption|].
    destruct (nonempty (etag_of obj)) eqn:E2; [|assumption].
    apply entries_all_append; [assumption|]. simpl. repeat split.
    exists obj. repeat split; auto. }
  apply G; [auto|apply entries_all_nil].
Qed.

Lemma download_all_s3_has (obj : s3_object) :
  In obj s3_objects -> is_folder_marker obj = false -> nonempty (etag_of obj) = true ->
  exists l, dict_get (Download.all_s3_hash_to_paths s3_objects prefix) (etag_of obj) = Some l
            /\ In (rel_path_of prefix (Key obj)) l.
Proof.
  unfold Download.all_s3_hash_to_paths. intros Hin Hm Hn.
  set (step := fun acc o =>
                 if is_folder_marker o then acc
                 else if nonempty (etag_of o)
                      then dict_append acc (etag_of o) (rel_path_of prefix (Key o))
                      else acc).
  assert (Keep : forall objs (acc : dict (list string)) h x,
             (exists l, dict_get acc h = Some l /\ In x l) ->
             exists l, dict_get (fold_left step objs acc) h = Some l /\ In x l).
  { induction objs as [|o objs IH]; simpl; intros acc h x H; [assumption|].
    apply IH. unfold step. destruct (is_folder_marker o); [assumption|].
    destruct (nonempty (etag_of o)); [|assumption]. now apply dict_append_keeps. }
  assert (G : forall objs acc,
             In obj objs ->
             exists l, dict_get (fold_left step objs acc) (etag_of obj) = Some l
                       /\ In (rel_path_of prefix (Key obj)) l).
  { induction objs as [|o objs IH]; simpl; intros acc H; [contradiction|].
    destruct H as [->|H]; [|auto].
    apply Keep. unfold step. rewrite Hm, Hn. apply dict_append_adds. }
  now apply G.
Qed.

(** What every candidate of the first pass satisfies. *)
Lemma download_candidate_ok (c : Download.rename_candidate) :
  In c (Download.potential_renames
          (Download.local_hash_map local_files (Download.s3_paths_set s3_objects prefix)
             matched)
          (Download.s3_hash_map s3_objects prefix)
          (Download.all_s3_hash_to_paths s3_objects prefix) matched threshold) ->
  (threshold <= Download.cand_similarity c)%Q
  /\ Download.cand_similarity c
     = calculate_filename_similarity (Download.cand_local_filename c)
         (Download.cand_s3_filename c)
  /\ Download.cand_local_filename c = basename (Download.cand_local_path c)
  /\ Download.cand_s3_filename c = basename (Download.cand_s3_rel_path c)
  /\ Download.cand_s3_rel_path c = rel_path_of prefix (Download.cand_s3_key c)
  /\ In (Download.cand_local_path c) (keys local_files)
  /\ str_in (Download.cand_local_path c) (Download.s3_paths_set s3_objects prefix) = false
  /\ str_in (Download.cand_local_path c) matched = false
  /\ str_in (Download.cand_s3_rel_path c) matched = false.
Proof.
  unfold Download.potential_renames. rewrite in_flat_map.
  intros ([h lentries] & Hl & H). simpl in H.
  destruct (dict_get (Download.s3_hash_map s3_objects prefix) h) as [sentries|] eqn:Gs;
    [|contradiction].
  apply dict_get_In in Gs. apply in_flat_map in H as ([lp lf] & Hle & H).
  pose proof (download_local_hash_map_ok _ _ _ Hl Hle) as (Hlf & Hkeys & Hnm & Hns). simpl in *.
  match type of H with In _ (if ?b then _ else _) => destruct b eqn:Same end; [contradiction|].
  apply in_flat_map in H as ([[key rel] f] & Hse & H).
  pose proof (download_s3_hash_map_ok _ _ _ Gs Hse) as (Hrel & Hf & obj & Hobj & Hm & Hne & Hh & Hk).
  destruct (Qle_bool threshold (calculate_filename_similarity lf f)) eqn:Q; [|contradiction].
  destruct H as [<-|[]]. simpl. apply Qle_bool_iff in Q. repeat split; auto.
  destruct (download_all_s3_has _ Hobj Hm Hne) as (paths & Gp & Hin).
  rewrite Hh in Gp. rewrite Gp in Same. rewrite Hk, <- Hrel in Hin.
  destruct (str_in rel matched) eqn:E; [|reflexivity].
  exfalso. rewrite <- not_true_iff_false in Same. apply Same.
  apply existsb_exists. eauto.
Qed.
End DownloadRenames.

Lemma dict_set_fresh {V} (d : dict V) (k : string) (v : V) :
  dict_mem k d = false -> dict_set d k v = d ++ [(k, v)].
Proof.
  unfold dict_mem. induction d as [|[k' v'] d IH]; simpl; [reflexivity|].
  destruct (k' =? k); [discriminate|]. intros H. now rewrite IH.
Qed.

Lemma dict_mem_In {V} (d : dict V) (k : string) :
  dict_mem k d = true -> exists v, In (k, v) d.
Proof.
  unfold dict_mem. destruct (dict_get d k) eqn:G; [|discriminate].
  intros _. eexists. eapply dict_get_In; eauto.
Qed.

Lemma set_add_In (x y : string) (l : list string) :
  In y (set_add x l) -> y = x \/ In y l.
Proof.
  unfold set_add. destruct (str_in x l); [auto|].
  intros H. apply in_app_or in H as [H|[<-|[]]]; auto.
Qed.

(** The second pass of the download script over a list in descending
    order: every candidate ends up with its local path renamed by a
    candidate at least as similar, and every rename is a candidate. *)
Lemma download_assign_fold (l : list Download.rename_candidate) :
  forall st,
    descending Download.cand_similarity l ->
    (forall k info, In (k, info) (fst st) ->
       forall c, In c l -> (Download.cand_similarity c <= Download.similarity info)%Q) ->
    (forall x, In x (snd st) -> dict_mem x (fst st) = true) ->
    NoDup (keys (fst st)) ->
    let st' := fold_left Download.assign l st in
    (forall c, In c l -> download_claimed (fst st') c)
    /\ (forall k info, In (k, info) (fst st) -> In (k, info) (fst st'))
    /\ (forall k info, In (k, info) (fst st') ->
          In (k, info) (fst st)
          \/ exists c, In c l /\ k = Download.cand_local_path c /\ info = Download.rename_of c)
    /\ NoDup (keys (fst st')).
Proof.
  induction l as [|c l IH]; intros [d claimed] Hsorted H1 H3 Hnd; simpl in *.
  - repeat split; auto. intros c [].
  - inversion Hsorted as [|? ? Hl Hc]; subst. rewrite Forall_forall in Hc.
    set (st1 := Download.assign (d, claimed) c).
    assert (Hst1 : (forall k info, In (k, info) d -> In (k, info) (fst st1))
                   /\ (forall k info, In (k, info) (fst st1) ->
                         In (k, info) d
                         \/ (k = Download.cand_local_path c /\ info = Download.rename_of c))
                   /\ (forall x, In x (snd st1) -> dict_mem x (fst st1) = true)
                   /\ NoDup (keys (fst st1))
                   /\ download_claimed (fst st1) c).
    { subst st1. unfold Download.assign.
      destruct (negb (dict_mem (Download.cand_local_path c) d)
                && negb (str_in (Download.cand_local_path c) claimed)) eqn:E; simpl.
      - apply andb_true_iff in E as [E _]. apply negb_true_iff in E.
        rewrite (@dict_set_fresh _ d _ (Download.rename_of c) E). repeat split.
        + intros. apply in_or_app. now left.
        + intros k info H. apply in_app_or in H as [H|[[= <- <-]|[]]]; auto.
        + intros x H. apply dict_get_keys. unfold keys. rewrite map_app. apply in_or_app.
          apply set_add_In in H as [->|H]; [right; now left|left].
          apply dict_get_keys. auto.
        + rewrite <- (@dict_set_fresh _ d _ (Download.rename_of c) E).
          now apply NoDup_keys_dict_set.
        + exists (Download.cand_local_path c), (Download.rename_of c). repeat split.
          * apply in_or_app. right. now left.
          * apply Qle_refl.
      - repeat split; auto.
        assert (M : dict_mem (Download.cand_local_path c) d = true).
        { apply andb_false_iff in E as [E|E]; apply negb_false_iff in E; [assumption|].
          apply H3. now apply str_in_In. }
        apply dict_mem_In in M as [info M]. exists (Download.cand_local_path c), info.
        repeat split; [assumption|]. eapply H1; eauto. }
    destruct Hst1 as (Keep1 & From1 & Claimed1 & Nd1 & Cl1).
    destruct (IH st1) as (A & B & Cc & D); auto.
    { intros k info Hin c' Hc'. destruct (From1 _ _ Hin) as [Hd|[-> ->]].
      - eapply H1; eauto.
      - simpl. auto. }
    repeat split; auto.
    + intros c' [<-|Hc']; [|auto].
      destruct Cl1 as (old & info & Hin & Hle & ->). exists (Download.cand_local_path c), info.
      auto.
    + intros k info Hin. destruct (Cc _ _ Hin) as [Hin1|(c' & Hc' & -> & ->)].
      * destruct (From1 _ _ Hin1) as [Hd|[-> ->]]; [auto|]. right. exists c. auto.
      * right. exists c'. auto.
Qed.

Section DownloadDetect.
Context {sm : Similarity}.
Variable local_files : dict file_info.
Variable s3_objects : list s3_object.
Variable prefix : string.
Variable threshold : Q.
Variable matched : list string.

Let candidates := Download.sorted_candidates local_files s3_objects prefix threshold matched.
Let renames := Download.detect_renames local_files s3_objects prefix threshold matched.

Lemma download_detect_renames_facts :
  (forall c, In c candidates -> download_claimed renames c)
  /\ (forall k info, In (k, info) renames ->
        exists c, In c candidates /\ k = Download.cand_local_path c
                  /\ info = Download.rename_of c)
  /\ NoDup (keys renames).
Proof.
  subst candidates renames. unfold Download.detect_renames.
  destruct (@download_assign_fold
              (Download.sorted_candidates local_files s3_objects prefix threshold matched)
              ([], [])) as (A & _ & C & D); simpl; try tauto.
  - apply sort_by_similarity_descending.
  - constructor.
  - repeat split; auto. intros k info H. destruct (C _ _ H) as [[]|]; assumption.
Qed.

(** Every rename of the download script: what its candidate gives. *)
Lemma download_rename_ok (old : string) (info : Download.rename_info) :
  In (old, info) renames ->
  (threshold <= Download.similarity info)%Q
  /\ Download.similarity info
     = calculate_filename_similarity (Download.old_filename info) (Download.new_filename info)
  /\ Download.old_filename info = basename old
  /\ Download.new_filename info = basename (Download.new_s3_rel_path info)
  /\ Download.new_s3_rel_path info = rel_path_of prefix (Download.new_s3_key info)
  /\ In old (keys local_files)
  /\ str_in old (Download.s3_paths_set s3_objects prefix) = false
  /\ str_in old matched = false
  /\ str_in (Download.new_s3_rel_path info) matched = false.
Proof.
  intros H. destruct download_detect_renames_facts as (_ & From & _).
  destruct (From _ _ H) as (c & Hc & -> & ->).
  subst candidates. unfold Download.sorted_candidates in Hc.
  apply sort_by_similarity_In in Hc. apply download_candidate_ok in Hc. exact Hc.
Qed.
End DownloadDetect.

Lemma NoDup_snoc {A} (l : list A) (x : A) : NoDup l -> ~ In x l -> NoDup (l ++ [x]).
Proof.
  induction 1 as [|y l Hy Hl IH]; simpl; intros Hx.
  - constructor; [tauto|constructor].
  - constructor.
    + intros H. apply in_app_or in H as [H|[->|[]]]; tauto.
    + apply IH. tauto.
Qed.

(** The second pass of the upload script: it books bucket keys and local
    paths, so no key and no local path is used twice. *)
Lemma upload_assign_fold (l : list Upload.rename_candidate) :
  forall st,
    descending Upload.cand_similarity l ->
    (forall k info, In (k, info) (fst st) ->
       forall c, In c l -> (Upload.cand_similarity c <= Upload.similarity info)%Q) ->
    (forall x, In x (snd st) <->
               exists k info, In (k, info) (fst st) /\ Upload.new_local_path info = x) ->
    NoDup (keys (fst st)) ->
    NoDup (map (fun item => Upload.new_local_path (snd item)) (fst st)) ->
    let st' := fold_left Upload.assign l st in
    (forall c, In c l -> upload_claimed (fst st') c)
    /\ (forall k info, In (k, info) (fst st) -> In (k, info) (fst st'))
    /\ (forall k info, In (k, info) (fst st') ->
          In (k, info) (fst st)
          \/ exists c, In c l /\ k = Upload.cand_s3_key c /\ info = Upload.rename_of c)
    /\ NoDup (keys (fst st'))
    /\ NoDup (map (fun item => Upload.new_local_path (snd item)) (fst st')).
Proof.
  induction l as [|c l IH]; intros [d claimed] Hsorted H1 H3 Hnd Hnt; simpl in *.
  - repeat split; auto. intros c [].
  - inversion Hsorted as [|? ? Hl Hc]; subst. rewrite Forall_forall in Hc.
    set (st1 := Upload.assign (d, claimed) c).
    assert (Hst1 : (forall k info, In (k, info) d -> In (k, info) (fst st1))
                   /\ (forall k info, In (k, info) (fst st1) ->
                         In (k, info) d
                         \/ (k = Upload.cand_s3_key c /\ info = Upload.rename_of c))
                   /\ (forall x, In x (snd st1) <->
                         exists k info, In (k, info) (fst st1)
                                        /\ Upload.new_local_path info = x)
                   /\ NoDup (keys (fst st1))
                   /\ NoDup (map (fun item => Upload.new_local_path (snd item)) (fst st1))
                   /\ upload_claimed (fst st1) c).
    { subst st1. unfold Upload.assign.
      destruct (negb (dict_mem (Upload.cand_s3_key c) d)
                && negb (str_in (Upload.cand_local_path c) claimed)) eqn:E; simpl.
      - apply andb_true_iff in E as [E E']. apply negb_true_iff in E, E'.
        rewrite (@dict_set_fresh _ d _ (Upload.rename_of c) E). repeat split.
        + intros. apply in_or_app. now left.
        + intros k info H. apply in_app_or in H as [H|[[= <- <-]|[]]]; auto.
        + intros H. apply set_add_In in H as [->|H].
          * exists (Upload.cand_s3_key c), (Upload.rename_of c). split; [|reflexivity].
            apply in_or_app. right. now left.
          * apply H3 in H as (k & info & Hin & <-). exists k, info. split; [|reflexivity].
            apply in_or_app. now left.
        + intros (k & info & Hin & <-). unfold set_add. rewrite E'.
          apply in_or_app. apply in_app_or in Hin as [Hin|[[= <- <-]|[]]].
          * left. apply H3. eauto.
          * right. now left.
        + rewrite <- (@dict_set_fresh _ d _ (Upload.rename_of c) E).
          now apply NoDup_keys_dict_set.
        + rewrite map_app. simpl. apply NoDup_snoc; [assumption|].
          intros Hin. apply in_map_iff in Hin as ([k info] & Hp & Hin).
          simpl in Hp. assert (In (Upload.cand_local_path c) claimed) by (apply H3; eauto).
          apply str_in_In in H. congruence.
        + exists (Upload.cand_s3_key c), (Upload.rename_of c). repeat split.
          * apply in_or_app. right. now left.
          * apply Qle_refl.
          * now left.
      - repeat split; auto; try apply H3.
        apply andb_false_iff in E as [E|E]; apply negb_false_iff in E.
        + apply dict_mem_In in E as [info M]. exists (Upload.cand_s3_key c), info.
          repeat split; [assumption| |now left]. eapply H1; eauto.
        + apply str_in_In, H3 in E as (k & info & Hin & Hp). exists k, info.
          repeat split; [assumption| |now right]. eapply H1; eauto. }
    destruct Hst1 as (Keep1 & From1 & Claimed1 & Nd1 & Nt1 & Cl1).
    destruct (IH st1) as (A & B & Cc & D & T); auto.
    { intros k info Hin c' Hc'. destruct (From1 _ _ Hin) as [Hd|[-> ->]].
      - eapply H1; eauto.
      - simpl. auto. }
    repeat split; auto.
    + intros c' [<-|Hc']; [|auto].
      destruct Cl1 as (key & info & Hin & Hle & Hshare). exists key, info. auto.
    + intros k info Hin. destruct (Cc _ _ Hin) as [Hin1|(c' & Hc' & -> & ->)].
      * destruct (From1 _ _ Hin1) as [Hd|[-> ->]]; [auto|]. right. exists c. auto.
      * right. exists c'. auto.
Qed.

Section UploadDetect.
Context {sm : Similarity}.
Variable local_files : dict file_info.
Variable s3_objects : list s3_object.
Variable prefix : string.
Variable threshold : Q.
Variable matched : list string.

Let candidates := Upload.sorted_candidates local_files s3_objects prefix threshold matched.
Let renames := Upload.detect_renames local_files s3_objects prefix threshold matched.

Lemma upload_local_hash_map_ok :
  entries_all (fun _ e => snd e = basename (fst e))
    (Upload.local_hash_map local_files matched).
Proof.
  unfold Upload.local_hash_map. generalize (@entries_all_nil (string * string)
                                              (fun _ e => snd e = basename (fst e))).
  generalize (@nil (string * list (string * string))).
  induction local_files as [|[p info] items IH]; simpl; intros acc Hacc; [assumption|].
  apply IH. destruct (str_in p matched); [assumption|].
  apply entries_all_append; [assumption|reflexivity].
Qed.

Lemma upload_s3_hash_map_ok :
  entries_all (fun _ e => snd e = basename (rel_path_of prefix (fst (fst e))))
    (Upload.s3_hash_map local_files s3_objects prefix matched).
Proof.
  unfold Upload.s3_hash_map.
  generalize (@entries_all_nil (string * string * string)
                (fun _ e => snd e = basename (rel_path_of prefix (fst (fst e))))).
  generalize (@nil (string * list (string * string * string))).
  induction s3_objects as [|obj objs IH]; simpl; intros acc Hacc; [assumption|].
  apply IH. destruct (is_folder_marker obj); [assumption|].
  destruct (str_in _ (keys local_files)); [assumption|].
  destruct (nonempty (etag_of obj)); [|assumption].
  destruct (dict_get _ (etag_of obj)) as [paths|].
  - destruct (existsb _ paths); [assumption|].
    apply entries_all_append; [assumption|reflexivity].
  - apply entries_all_append; [assumption|reflexivity].
Qed.

Lemma upload_candidate_ok (c : Upload.rename_candidate) :
  In c candidates ->
  (threshold <= Upload.cand_similarity c)%Q
  /\ Upload.cand_similarity c
     = calculate_filename_similarity (Upload.cand_s3_filename c) (Upload.cand_local_filename c)
  /\ Upload.cand_s3_filename c = basename (rel_path_of prefix (Upload.cand_s3_key c))
  /\ Upload.cand_local_filename c = basename (Upload.cand_local_path c).
Proof.
  subst candidates. unfold Upload.sorted_candidates. rewrite sort_by_similarity_In.
  unfold Upload.potential_renames. rewrite in_flat_map.
  intros ([h sentries] & Hs & H). simpl in H.
  destruct (dict_get (Upload.local_hash_map local_files matched) h) as [lentries|] eqn:Gl;
    [|contradiction].
  apply dict_get_In in Gl. apply in_flat_map in H as ([[key rel] f] & Hse & H).
  apply in_flat_map in H as ([lp lf] & Hle & H).
  pose proof (upload_local_hash_map_ok _ _ _ Gl Hle) as Hlf.
  pose proof (upload_s3_hash_map_ok _ _ _ Hs Hse) as Hf. simpl in *.
  destruct (Qle_bool threshold (calculate_filename_similarity f lf)) eqn:Q; [|contradiction].
  destruct H as [<-|[]]. simpl. apply Qle_bool_iff in Q. auto.
Qed.

Lemma upload_detect_renames_facts :
  (forall c, In c candidates -> upload_claimed renames c)
  /\ (forall k info, In (k, info) renames ->
        exists c, In c candidates /\ k = Upload.cand_s3_key c /\ info = Upload.rename_of c)
  /\ NoDup (keys renames)
  /\ NoDup (map (fun item => Upload.new_local_path (snd item)) renames).
Proof.
  subst candidates renames. unfold Upload.detect_renames.
  destruct (@upload_assign_fold
              (Upload.sorted_candidates local_files s3_objects prefix threshold matched)
              ([], [])) as (A & _ & C & D & T); simpl; try tauto.
  - apply sort_by_similarity_descending.
  - intros x. split; [tauto|]. intros (k & info & [] & _).
  - constructor.
  - constructor.
  - repeat split; auto. intros k info H. destruct (C _ _ H) as [[]|]; assumption.
Qed.
End UploadDetect.

(** C7.  In both scripts' [detect_renames]: every rename pairs names
    whose similarity, the ratio of the two base file names, is at least
    the threshold 0.7, and is made from one of the candidates, which are
    taken in descending order of similarity; no source has two renames
    (nor, in the upload script, a target); and no candidate is passed
    over while it is unclaimed: for every candidate, chosen or not, a
    chosen pair at least as similar holds what the script books for it
    (the local path in the download script; the bucket key or the local
    path in the upload script).  In the download script the rename of a
    source is therefore a most similar candidate of that source. *)
Theorem renames_above_threshold_and_greedy {sm : Similarity}
    (local_files : dict file_info) (s3_objects : list s3_object) (prefix : string)
    (matched : list string) :
  (let renames :=
     Download.detect_renames local_files s3_objects prefix default_similarity_threshold
       matched in
   let candidates :=
     Download.sorted_candidates local_files s3_objects prefix default_similarity_threshold
       matched in
   (forall old info, In (old, info) renames ->
      (7 # 10 <= Download.similarity info)%Q
      /\ Download.similarity info
         = ratio (basename old) (basename (Download.new_s3_rel_path info))
      /\ exists c, In c candidates /\ old = Download.cand_local_path c
                   /\ info = Download.rename_of c)
   /\ descending Download.cand_similarity candidates
   /\ NoDup (keys renames)
   /\ (forall q, In q candidates -> download_claimed renames q)
   /\ (forall old info q,
         In (old, info) renames -> In q candidates -> Download.cand_local_path q = old ->
         (Download.cand_similarity q <= Download.similarity info)%Q))
  /\ (let renames :=
        Upload.detect_renames local_files s3_objects prefix default_similarity_threshold
          matched in
      let candidates :=
        Upload.sorted_candidates local_files s3_objects prefix default_similarity_threshold
          matched in
      (forall key info, In (key, info) renames ->
         (7 # 10 <= Upload.similarity info)%Q
         /\ Upload.similarity info
            = ratio (basename (rel_path_of prefix key)) (basename (Upload.new_local_path info))
         /\ exists c, In c candidates /\ key = Upload.cand_s3_key c
                      /\ info = Upload.rename_of c)
      /\ descending Upload.cand_similarity candidates
      /\ NoDup (keys renames)
      /\ NoDup (map (fun item => Upload.new_local_path (snd item)) renames)
      /\ (forall q, In q candidates -> upload_claimed renames q)).
Proof.
  split.
  - intros renames candidates.
    destruct (download_detect_renames_facts local_files s3_objects prefix
                default_similarity_threshold matched) as (Claimed & From & Nd).
    split; [|split; [|split; [|split]]].
    + intros old info H. split; [|split].
      * now apply (download_rename_ok _ _ _ _ _ _ _ H).
      * pose proof (download_rename_ok _ _ _ _ _ _ _ H) as (_ & E & E1 & E2 & _).
        rewrite E, E1, E2. reflexivity.
      * exact (From _ _ H).
    + apply sort_by_similarity_descending.
    + exact Nd.
    + exact Claimed.
    + intros old info q H Hq E.
      destruct (Claimed _ Hq) as (old' & info' & H' & Hle & ->).
      rewrite E in H'. apply (NoDup_keys_get _ _ _ Nd) in H, H'.
      assert (info' = info) by congruence. now subst info'.
  - intros renames candidates.
    destruct (upload_detect_renames_facts local_files s3_objects prefix
                default_similarity_threshold matched) as (Claimed & From & Nd & Nt).
    split; [|split; [|split; [|split]]].
    + intros key info H. destruct (From _ _ H) as (c & Hc & -> & ->). split; [|split].
      * now apply upload_candidate_ok in Hc.
      * apply upload_candidate_ok in Hc as (_ & E & E1 & E2). simpl. rewrite E, E1, E2.
        reflexivity.
      * now exists c.
    + apply sort_by_similarity_descending.
    + exact Nd.
    + exact Nt.
    + exact Claimed.
Qed.

(** ** Files that are the same on both sides *)

Lemma set_add_keeps (x y : string) (l : list string) : In y l -> In y (set_add x l).
Proof. unfold set_add. destruct (str_in x l); [auto|]. intros. apply in_or_app. now left. Qed.

Lemma set_add_adds (x : string) (l : list string) : In x (set_add x l).
Proof.
  unfold set_add. destruct (str_in x l) eqn:E; [now apply str_in_In|].
  apply in_or_app. right. now left.
Qed.

Lemma matched_files_In {V} (hash_of : V -> string) (local_files : dict file_info)
    (s3_files : dict V) (p : string) (info : file_info) :
  In (p, info) local_files -> hash_matches hash_of s3_files p info = true ->
  str_in p (matched_files hash_of local_files s3_files) = true.
Proof.
  intros Hin Hm. apply str_in_In. unfold matched_files. generalize (@nil string).
  induction local_files as [|[q i] items IH]; simpl; intros acc; [contradiction|].
  destruct Hin as [[= -> ->]|Hin]; [|auto].
  rewrite Hm. clear IH. generalize (set_add_adds p acc). generalize (set_add p acc).
  induction items as [|[q i] items IH]; simpl; intros acc' H; [assumption|].
  apply IH. destruct (hash_matches hash_of s3_files q i); [now apply set_add_keeps|assumption].
Qed.

(** Both previews see the same hashes on the bucket side. *)
Lemma preview_s3_files_same (s3_objects : list s3_object) (prefix scope : string) (k : string) :
  option_map fst (dict_get (Download.preview_s3_files s3_objects prefix scope) k)
  = dict_get (Upload.preview_s3_files s3_objects prefix scope) k.
Proof.
  unfold Download.preview_s3_files, Upload.preview_s3_files.
  assert (G : forall (accD : dict (string * Z)) (accU : dict string),
             (forall k, option_map fst (dict_get accD k) = dict_get accU k) ->
             forall k,
               option_map fst
                 (dict_get
                    (fold_left
                       (fun acc obj =>
                          if is_folder_marker obj then acc
                          else if nonempty scope && negb (startswith (Key obj) scope) then acc
                          else dict_set acc (rel_path_of prefix (Key obj))
                                 (etag_of obj, Size obj)) s3_objects accD) k)
               = dict_get
                   (fold_left
                      (fun acc obj =>
                         if is_folder_marker obj then acc
                         else if nonempty scope && negb (startswith (Key obj) scope) then acc
                         else dict_set acc (rel_path_of prefix (Key obj)) (etag_of obj))
                      s3_objects accU) k).
  { induction s3_objects as [|obj objs IH]; simpl; intros accD accU H k'; [apply H|].
    apply IH. intros k''. destruct (is_folder_marker obj); [apply H|].
    destruct (nonempty scope && negb (startswith (Key obj) scope)); [apply H|].
    rewrite !dict_get_set. destruct (_ =? k''); [reflexivity|apply H]. }
  apply G. reflexivity.
Qed.

Lemma dict_mem_get {V} (d : dict V) (k : string) (v : V) :
  dict_get d k = Some v -> dict_mem k d = true.
Proof. unfold dict_mem. now intros ->. Qed.

(** C6, as the code has it.  A file with the same relative path and the
    same fingerprint on both sides is listed by neither preview as new,
    as orphaned or in a rename; the download preview never lists it as
    changed, and the upload preview lists it as changed only under
    [--force]. *)
Theorem identical_file_not_in_plan {sm : Similarity}
    (project_path prefix scope : string) (is_file force : bool)
    (local_files : dict file_info) (s3_objects : list s3_object)
    (p : string) (info : file_info) :
  NoDup (keys local_files) ->
  dict_get local_files p = Some info ->
  dict_get (Upload.preview_s3_files s3_objects prefix scope) p = Some (file_hash info) ->
  let up := Upload.preview project_path prefix scope is_file force local_files s3_objects in
  let down := Download.preview project_path prefix scope is_file local_files s3_objects in
  (~ In p (Upload.plan_new up)
   /\ (force = false -> ~ In p (Upload.plan_changed up))
   /\ ~ In p (Upload.plan_orphaned up)
   /\ Upload.plan_renames up = [])
  /\ (~ In p (Download.plan_new down)
      /\ ~ In p (Download.plan_changed down)
      /\ ~ In p (Download.plan_orphaned down)
      /\ forall old rename,
           In (old, rename) (Download.plan_renames down) ->
           old <> p /\ Download.new_s3_rel_path rename <> p).
Proof.
  intros Hnd Hl Hs up down.
  pose proof (preview_s3_files_same s3_objects prefix scope p) as Hd. rewrite Hs in Hd.
  destruct (dict_get (Download.preview_s3_files s3_objects prefix scope) p) as [[h size]|]
    eqn:Hsd; [|discriminate]. simpl in Hd. injection Hd as ->.
  assert (Hml : dict_mem p local_files = true) by (eapply dict_mem_get; eauto).
  split; [split; [|split; [|split]]|split; [|split; [|split]]].
  - subst up. simpl. rewrite filter_In. intros [_ H].
    rewrite (dict_mem_get _ _ Hs) in H. discriminate.
  - intros -> H. subst up. simpl in H. apply in_flat_map in H as ([q i] & Hin & H).
    simpl in H. destruct (dict_get _ q) as [h|] eqn:G; [|contradiction].
    destruct (negb (file_hash i =? h)) eqn:E; [|contradiction].
    destruct H as [->|[]]. rewrite (NoDup_keys_get _ _ _ Hnd Hin) in Hl.
    injection Hl as ->. rewrite G in Hs. injection Hs as ->.
    now rewrite String.eqb_refl in E.
  - subst up. simpl. rewrite filter_In. intros [_ H]. rewrite Hml in H. discriminate.
  - reflexivity.
  - subst down. simpl. rewrite filter_In. intros [_ H]. rewrite Hml in H. discriminate.
  - intros H. subst down. simpl in H. apply in_flat_map in H as ([q i] & Hin & H).
    simpl in H. destruct (dict_get _ q) as [[h size']|] eqn:G; [|contradiction].
    simpl in H. destruct (negb (file_hash i =? h)) eqn:E; [|contradiction].
    destruct H as [->|[]]. rewrite (NoDup_keys_get _ _ _ Hnd Hin) in Hl.
    injection Hl as ->. rewrite G in Hsd. injection Hsd as -> _.
    now rewrite String.eqb_refl in E.
  - subst down. simpl. rewrite filter_In. intros [_ H].
    rewrite (dict_mem_get _ _ Hsd) in H. discriminate.
  - intros old rename H. subst down. simpl in H. apply filter_In in H as [H _].
    apply download_rename_ok in H as (_ & _ & _ & _ & _ & _ & _ & Ho & Hn).
    assert (M : str_in p (matched_files fst local_files
                            (Download.preview_s3_files s3_objects prefix scope)) = true).
    { eapply matched_files_In; [eapply dict_get_In; eauto|].
      unfold hash_matches. rewrite Hsd. simpl. apply String.eqb_refl. }
    split; intros E; [rewrite E in Ho|rewrite E in Hn]; congruence.
Qed.

(** The entry page of the examples, the same on both sides, stays out of
    both plans without [--force]. *)
Lemma identical_file_not_in_plan_witness :
  let local_files :=
    [("index.html", {| file_hash := "H0"; file_size := 5; file_path := "/proj/index.html" |})] in
  let s3_objects := [ {| Key := "games/pull-tabs/index.html"; ETag := "H0"; Size := 5 |} ] in
  let up := Upload.preview "index.html" "games/pull-tabs/" "games/pull-tabs/index.html"
              true false local_files s3_objects in
  ~ In "index.html" (Upload.plan_new up)
  /\ ~ In "index.html" (Upload.plan_changed up).
Proof.
  intros local_files s3_objects up.
  destruct (@identical_file_not_in_plan Host.difflib "index.html" "games/pull-tabs/"
              "games/pull-tabs/index.html" true false local_files s3_objects "index.html"
              {| file_hash := "H0"; file_size := 5; file_path := "/proj/index.html" |})
    as [(N & C & _) _].
  - repeat constructor. simpl. tauto.
  - reflexivity.
  - reflexivity.
  - split; [exact N|exact (C eq_refl)].
Defined.

(** ** Force *)

Section Force.
Context {os : OsPath} {oc : Outcomes} {sm : Similarity} {lt : LiveTree}.

Lemma emitted_bind_app {A B} (m : io A) (k : A -> io B) (w : world) :
  emits anything m -> (forall a, emits anything (k a)) ->
  emitted (bind m k) w = emitted m w ++ emitted (k (value m w)) (snd (m w)).
Proof. intros Hm Hk. now destruct (@emitted_bind _ _ anything m k w Hm Hk). Qed.

Lemma emitted_perform (c : call) (w : world) :
  emitted (perform c) w = [Called c (call_succeeds (trace w) c)].
Proof.
  unfold emitted. simpl. rewrite skipn_app, skipn_all, Nat.sub_diag. reflexivity.
Qed.

(** What a loop emits contains what its body emits at each item. *)
Lemma for_each_emitted_In {A S} (l : list A) (body : A -> S -> io S) (x : A) :
  In x l -> (forall y s, emits anything (body y s)) ->
  forall s w, exists s0 w0, incl (emitted (body x s0) w0) (emitted (for_each l body s) w).
Proof.
  intros Hin Hbody. induction l as [|y l IH]; [contradiction|]. intros s w. simpl.
  rewrite emitted_bind_app; [|apply Hbody|intros; apply emits_for_each; auto].
  destruct Hin as [->|Hin].
  - exists s, w. apply incl_appl, incl_refl.
  - destruct (IH Hin (value (body y s) w) (snd (body y s w))) as (s0 & w0 & H).
    exists s0, w0. now apply incl_appr.
Qed.

Lemma build_s3_files_ok (objs : list s3_object) (prefix : string) (scope : option string) :
  forall files markers files' markers',
    build_s3_files objs prefix scope files markers = (files', markers') ->
    (forall rel i, In (rel, i) files -> rel = rel_path_of prefix (s3_key i)) ->
    NoDup (keys files) ->
    (forall rel i, In (rel, i) files' -> rel = rel_path_of prefix (s3_key i))
    /\ NoDup (keys files').
Proof.
  induction objs as [|obj objs IH]; simpl; intros files markers files' markers' E H Hnd.
  - injection E as <- <-. auto.
  - destruct (is_folder_marker obj); [eapply IH; eauto|].
    eapply IH; [exact E| |now apply NoDup_keys_dict_set].
    intros rel i Hin. apply dict_set_In in Hin as [[-> ->]|Hin]; auto.
Qed.

Lemma append_inj (a b c : string) : (a ++ b)%string = (a ++ c)%string -> b = c.
Proof. induction a as [|x a IH]; simpl; [auto|]. intros [= H]. auto. Qed.

Lemma existsb_false_Forall {A} (f : A -> bool) (l : list A) :
  Forall (fun x => f x = false) l -> existsb f l = false.
Proof. induction 1 as [|x l Hx _ IH]; simpl; [reflexivity|]. now rewrite Hx. Qed.

Lemma existsb_incl {A} (f : A -> bool) (l l' : list A) :
  incl l l' -> existsb f l = true -> existsb f l' = true.
Proof.
  intros Hincl H. apply existsb_exists in H as (x & Hx & Hf). apply existsb_exists. eauto.
Qed.

Variable bucket : string.
Variable local_files : dict file_info.
Variable s3_objects : list s3_object.
Variable prefix : string.
Variable scope : option string.
Variable p : string.
Variable info : file_info.
Variable remote : s3_info.

Hypothesis Hlocal : dict_get local_files p = Some info.
Hypothesis Hremote :
  dict_get (fst (build_s3_files s3_objects prefix scope [] [])) p = Some remote.
Hypothesis Hsame : file_hash info = s3_hash remote.

Let s3_files := fst (build_s3_files s3_objects prefix scope [] []).
Let key := if nonempty prefix then (prefix ++ p)%string else p.

Lemma same_file_matched :
  str_in p (matched_files s3_hash local_files s3_files) = true.
Proof.
  eapply matched_files_In; [eapply dict_get_In; eauto|].
  unfold hash_matches. subst s3_files. rewrite Hremote, Hsame. apply String.eqb_refl.
Qed.

Lemma upload_key_inj (q : string) :
  (if nonempty prefix then (prefix ++ q)%string else q) = key -> q = p.
Proof. subst key. destruct (nonempty prefix); [apply append_inj|auto]. Qed.

Lemma upload_not_forced (local_dir : string) (dry_run : bool) (w : world) :
  existsb (uploads_key key)
    (emitted (Upload.sync_to_s3 bucket local_dir local_files s3_objects prefix false dry_run
                scope) w) = false.
Proof.
  apply existsb_false_Forall. eapply emits_emitted. unfold Upload.sync_to_s3.
  pose proof same_file_matched as M. subst s3_files.
  destruct (build_s3_files s3_objects prefix scope [] []) as [files markers]. simpl in M.
  apply emits_bind.
  { apply emits_for_each. intros [q i] r _. unfold Upload.process_local_file.
    destruct (q =? p) eqn:E.
    - apply String.eqb_eq in E. subst q. rewrite M. simpl. apply emits_ret.
    - assert (K : ((if nonempty prefix then (prefix ++ q)%string else q) =? key) = false).
      { apply String.eqb_neq. intros H. apply upload_key_inj in H. subst q.
        now rewrite String.eqb_refl in E. }
      unfold Upload.upload_file. emits_auto. }
  intros r. apply emits_bind.
  { apply emits_for_each. intros [[k rel] size] r' _.
    unfold Upload.delete_orphan, Upload.delete_s3_object. emits_auto. }
  intros r'. destruct local_files; [|apply emits_ret].
  destruct (Upload.orphaned_keys _ _ _); [apply emits_ret|].
  apply emits_bind; [|intros; apply emits_ret].
  apply emits_for_each. intros k r'' _.
  unfold Upload.delete_folder_marker, Upload.delete_s3_object. emits_auto.
Qed.

Lemma upload_forced (local_dir : string) (w : world) :
  existsb (uploads_key key)
    (emitted (Upload.sync_to_s3 bucket local_dir local_files s3_objects prefix true false
                scope) w) = true.
Proof.
  unfold Upload.sync_to_s3. subst s3_files.
  destruct (build_s3_files s3_objects prefix scope [] []) as [files markers] eqn:B.
  simpl in Hremote.
  set (body := Upload.process_local_file bucket prefix files
                 (matched_files s3_hash local_files files) true false _).
  assert (Hbody : forall y s, emits anything (body y s)).
  { intros [q i] r. subst body. unfold Upload.process_local_file, Upload.upload_file.
    emits_auto. }
  rewrite emitted_bind_app; [|apply emits_for_each; auto|].
  2:{ intros r. apply emits_bind.
      { apply emits_for_each. intros [[k rel] size] r' _.
        unfold Upload.delete_orphan, Upload.delete_s3_object. emits_auto. }
      intros r'. destruct local_files; [|apply emits_ret].
      destruct (Upload.orphaned_keys _ _ _); [apply emits_ret|].
      apply emits_bind; [|intros; apply emits_ret].
      apply emits_for_each. intros k r'' _.
      unfold Upload.delete_folder_marker, Upload.delete_s3_object. emits_auto. }
  rewrite existsb_app. apply orb_true_iff. left.
  destruct (@for_each_emitted_In _ _ local_files body (p, info)
              (dict_get_In _ _ Hlocal) Hbody Upload.zero w) as (s0 & w0 & Hincl).
  eapply existsb_incl; [exact Hincl|].
  subst body. unfold Upload.process_local_file, Upload.upload_file.
  rewrite andb_false_r, Hremote. simpl orb. cbv iota.
  rewrite emitted_bind_app; [|apply emits_print; exact I|intros; emits_auto].
  rewrite existsb_app. apply orb_true_iff. right.
  rewrite emitted_bind_app; [|apply emits_perform; intros; exact I|intros; apply emits_ret].
  rewrite emitted_perform. simpl. fold key. now rewrite String.eqb_refl.
Qed.
End Force.

Section ForceDownload.
Context {os : OsPath} {oc : Outcomes} {sm : Similarity} {lt : LiveTree}.

Variable fs : filesystem.
Variable bucket project_root base : string.
Variable local_files : dict file_info.
Variable s3_objects : list s3_object.
Variable prefix : string.
Variable scope : option string.
Variable p : string.
Variable info : file_info.
Variable remote : s3_info.

Hypothesis Hlocal : dict_get local_files p = Some info.
Hypothesis Hremote :
  dict_get (fst (build_s3_files s3_objects prefix scope [] [])) p = Some remote.
Hypothesis Hsame : file_hash info = s3_hash remote.

Let s3_files := fst (build_s3_files s3_objects prefix scope [] []).
Let matched := matched_files s3_hash local_files s3_files.
Let renames :=
  Download.detect_renames local_files s3_objects prefix default_similarity_threshold matched.

Lemma s3_files_ok :
  (forall rel i, In (rel, i) s3_files -> rel = rel_path_of prefix (s3_key i))
  /\ NoDup (keys s3_files).
Proof.
  subst s3_files.
  destruct (build_s3_files s3_objects prefix scope [] []) as [files markers] eqn:B.
  eapply build_s3_files_ok; [exact B| |constructor]. intros rel i [].
Qed.

Lemma same_key_same_file (rel : string) (i : s3_info) :
  In (rel, i) s3_files -> s3_key i = s3_key remote -> rel = p /\ i = remote.
Proof.
  intros Hin Hk. destruct s3_files_ok as [Hrel Hnd].
  assert (rel = p).
  { rewrite (Hrel _ _ Hin), Hk. symmetry. apply Hrel. now apply dict_get_In. }
  subst rel. split; [reflexivity|].
  pose proof (NoDup_keys_get _ _ _ Hnd Hin) as G. subst s3_files. rewrite Hremote in G.
  now injection G.
Qed.

Lemma rename_misses_same_file (old : string) (rename : Download.rename_info) :
  In (old, rename) renames ->
  Download.new_s3_rel_path rename <> p /\ Download.new_s3_key rename <> s3_key remote.
Proof.
  intros H. apply download_rename_ok in H as (_ & _ & _ & _ & Hrel & _ & _ & _ & Hn).
  pose proof (same_file_matched _ _ _ _ _ Hlocal Hremote Hsame) as M.
  assert (N : Download.new_s3_rel_path rename <> p).
  { intros E. rewrite E in Hn. subst matched s3_files. congruence. }
  split; [assumption|]. intros E. apply N. rewrite Hrel, E. symmetry.
  destruct s3_files_ok as [Hok _]. apply Hok. now apply dict_get_In.
Qed.

Lemma download_file_attempt (key lp : string) (w : world) :
  existsb (downloads_key key) (emitted (Download.download_file bucket key lp false) w)
  || existsb failed_directory (emitted (Download.download_file bucket key lp false) w)
  = true.
Proof.
  unfold Download.download_file.
  rewrite emitted_bind_app; [|apply emits_perform; intros; exact I|intros; emits_auto].
  rewrite emitted_perform. unfold value. simpl.
  destruct (call_succeeds (trace w) (MakeLocalDirectory lp)); simpl.
  - rewrite emitted_perform. simpl. now rewrite String.eqb_refl.
  - apply orb_true_r.
Qed.

Lemma download_not_forced (dry_run : bool) (w : world) :
  existsb (downloads_key (s3_key remote))
    (emitted (Download.sync_from_s3 fs bucket project_root local_files s3_objects prefix base
                false dry_run scope) w) = false.
Proof.
  apply existsb_false_Forall. eapply emits_emitted. unfold Download.sync_from_s3.
  pose proof same_key_same_file as Same. pose proof rename_misses_same_file as Miss.
  subst renames matched s3_files.
  destruct (build_s3_files s3_objects prefix scope [] []) as [files markers].
  simpl in *.
  apply emits_bind.
  { unfold Download.transfer_and_rename. apply emits_bind.
    - apply emits_for_each. intros [rel i] r Hin. unfold Download.process_s3_file.
      destruct (s3_key i =? s3_key remote) eqn:E.
      + apply String.eqb_eq in E. destruct (Same _ _ Hin E) as [-> ->].
        rewrite Hlocal, Hsame, String.eqb_refl. simpl orb. cbv iota. emits_auto.
      + unfold Download.download_file. emits_auto.
    - intros r. apply emits_for_each. intros [old rename] r' Hin.
      destruct (Miss _ _ Hin) as [_ N]. apply String.eqb_neq in N.
      unfold Download.process_rename, Download.download_file, Download.delete_local_file.
      emits_auto. }
  intros r. apply emits_bind.
  { unfold Download.confirm_deletions.
    match goal with |- emits _ (match ?l with _ => _ end) => destruct l end; emits_auto. }
  intros orphans. apply emits_bind; [|intros; apply emits_ret].
  apply emits_for_each. intros [[path rel] size] r'' _.
  unfold Download.delete_orphan, Download.delete_local_file. emits_auto.
Qed.

Lemma download_forced (w : world) :
  let evs :=
    emitted (Download.sync_from_s3 fs bucket project_root local_files s3_objects prefix base
               true false scope) w in
  existsb (downloads_key (s3_key remote)) evs || existsb failed_directory evs = true.
Proof.
  intros evs. subst evs. unfold Download.sync_from_s3.
  pose proof rename_misses_same_file as Miss.
  assert (Hin : In (p, remote) s3_files) by now apply dict_get_In.
  subst renames matched s3_files.
  destruct (build_s3_files s3_objects prefix scope [] []) as [files markers].
  simpl in *.
  set (renames := Download.detect_renames _ _ _ _ _) in *.
  rewrite emitted_bind_app.
  2:{ unfold Download.transfer_and_rename. apply emits_bind.
      - apply emits_for_each. intros [rel i] r _.
        unfold Download.process_s3_file, Download.download_file. emits_auto.
      - intros r. apply emits_for_each. intros [old rename] r' _.
        unfold Download.process_rename, Download.download_file, Download.delete_local_file.
        emits_auto. }
  2:{ intros r. apply emits_bind.
      { unfold Download.confirm_deletions.
        match goal with |- emits _ (match ?l with _ => _ end) => destruct l end; emits_auto. }
      intros orphans. apply emits_bind; [|intros; apply emits_ret].
      apply emits_for_each. intros [[path rel] size] r'' _.
      unfold Download.delete_orphan, Download.delete_local_file. emits_auto. }
  rewrite !existsb_app.
  match goal with |- (?a || _) || (?b || _) = true =>
    assert (G : a || b = true); [|apply orb_true_iff in G as [-> | ->];
                                   rewrite ?orb_true_r; reflexivity] end.
  unfold Download.transfer_and_rename.
  set (body := Download.process_s3_file bucket base local_files _ true false _ _).
  assert (Hbody : forall y s, emits anything (body y s)).
  { intros [rel i] r. subst body.
    unfold Download.process_s3_file, Download.download_file. emits_auto. }
  rewrite emitted_bind_app; [|apply emits_for_each; auto|].
  2:{ intros r. apply emits_for_each. intros [old rename] r' _.
      unfold Download.process_rename, Download.download_file, Download.delete_local_file.
      emits_auto. }
  rewrite !existsb_app.
  match goal with |- (?a || _) || (?b || _) = true =>
    assert (G : a || b = true); [|apply orb_true_iff in G as [-> | ->];
                                   rewrite ?orb_true_r; reflexivity] end.
  destruct (@for_each_emitted_In _ _ files body (p, remote) Hin Hbody Download.zero w)
    as (s0 & w0 & Hincl).
  assert (G : existsb (downloads_key (s3_key remote)) (emitted (body (p, remote) s0) w0)
              || existsb failed_directory (emitted (body (p, remote) s0) w0) = true).
  { subst body. unfold Download.process_s3_file.
    assert (N : str_in p (map (fun item => Download.new_s3_rel_path (snd item)) renames)
                = false).
    { destruct (str_in p _) eqn:E; [|reflexivity]. exfalso.
      apply str_in_In, in_map_iff in E as ([old rename] & E & Hr). simpl in E.
      destruct (Miss _ _ Hr) as [N _]. contradiction. }
    rewrite N, Hlocal. simpl orb. cbv iota.
    rewrite emitted_bind_app; [|apply emits_print; exact I|].
    2:{ intros. unfold Download.download_file. emits_auto. }
    rewrite emitted_bind_app; [|unfold Download.download_file; emits_auto
                               |intros; apply emits_ret].
    rewrite !existsb_app.
    match goal with |- (_ || (?a || _)) || (_ || (?b || _)) = true =>
      assert (G : a || b = true) by apply download_file_attempt;
      apply orb_true_iff in G as [-> | ->]; rewrite ?orb_true_r; reflexivity end. }
  apply orb_true_iff in G as [G|G]; apply orb_true_iff; [left|right];
    eapply existsb_incl; eauto.
Qed.
End ForceDownload.

(** C8.  A file with the same fingerprint on both sides.  With [force]
    and outside a dry run, the upload calls [upload_file] for its key, and
    the download calls [download_file] for its key: the object is
    downloaded unless making the local directory fails.  Without [force],
    dry run or not, its key is neither uploaded nor downloaded. *)
Theorem force_decides_retransfer {os : OsPath} {oc : Outcomes} {sm : Similarity} {lt : LiveTree}
    (fs : filesystem) (bucket local_dir project_root base : string)
    (local_files : dict file_info) (s3_objects : list s3_object) (prefix : string)
    (scope : option string) (p : string) (info : file_info) (remote : s3_info)
    (dry_run : bool) (w : world) :
  dict_get local_files p = Some info ->
  dict_get (fst (build_s3_files s3_objects prefix scope [] [])) p = Some remote ->
  file_hash info = s3_hash remote ->
  let key := if nonempty prefix then (prefix ++ p)%string else p in
  let up force dry :=
    emitted (Upload.sync_to_s3 bucket local_dir local_files s3_objects prefix force dry
               scope) w in
  let down force dry :=
    emitted (Download.sync_from_s3 fs bucket project_root local_files s3_objects prefix base
               force dry scope) w in
  (existsb (uploads_key key) (up true false) = true
   /\ existsb (uploads_key key) (up false dry_run) = false)
  /\ (existsb (downloads_key (s3_key remote)) (down true false)
      || existsb failed_directory (down true false) = true
      /\ existsb (downloads_key (s3_key remote)) (down false dry_run) = false).
Proof.
  intros Hlocal Hremote Hsame key up down. repeat split.
  - eapply upload_forced; eauto.
  - eapply upload_not_forced; eauto.
  - eapply download_forced; eauto.
  - eapply download_not_forced; eauto.
Qed.

(** ** Auto-confirm *)

Section Tally.
Context {os : OsPath} {oc : Outcomes} {sm : Similarity} {lt : LiveTree}.

Lemma count_failed_app (l1 l2 : list event) :
  count_failed (l1 ++ l2) = (count_failed l1 + count_failed l2)%nat.
Proof. unfold count_failed. now rewrite filter_app, length_app. Qed.







Lemma attempt_perform (c : call) :
  match c with RemoveDirectory _ => False | _ => True end -> attempt (perform c).
Proof.
  intros Hc. split; [apply emits_perform; intros; exact I|]. intros w.
  rewrite emitted_perform. unfold value. simpl.
  destruct c; try contradiction; now destruct (call_succeeds (trace w) _).
Qed.

(** How [delete_local_file] runs outside a dry run: the file is not
    there, and nothing is done; or its removal fails; or it is removed,
    and then the parent directory may be. *)
Lemma delete_local_file_runs (lp : string) (w : world) :
  let m := Download.delete_local_file lp false in
  stdin (snd (m w)) = stdin w
  /\ ((emitted m w = [] /\ value m w = true /\ path_exists (trace w) lp = false)
      \/ (emitted m w = [Called (RemoveLocalFile lp) false] /\ value m w = false)
      \/ (value m w = true
          /\ (emitted m w = [Called (RemoveLocalFile lp) true]
              \/ exists ok, emitted m w = [Called (RemoveLocalFile lp) true;
                                           Called (RemoveDirectory (dirname lp)) ok]))).
Proof.
  unfold emitted, value, Download.delete_local_file, Download.remove_empty_parent, bind, look,
    perform, ret.
  cbn [fst snd trace stdin].
  destruct (path_exists (trace w) lp) eqn:Ex; cbn [fst snd trace stdin].
  2:{ split; [reflexivity|]. left. now rewrite skipn_all. }
  destruct (call_succeeds (trace w) (RemoveLocalFile lp)) eqn:Rm; cbn [fst snd trace stdin].
  2:{ split; [reflexivity|]. right; left.
      now rewrite skipn_app, skipn_all, Nat.sub_diag. }
  destruct (nonempty (dirname lp)); cbn [fst snd trace stdin].
  2:{ split; [reflexivity|]. right; right. split; [reflexivity|]. left.
      now rewrite skipn_app, skipn_all, Nat.sub_diag. }
  destruct (path_exists _ (dirname lp)); cbn [fst snd trace stdin].
  2:{ split; [reflexivity|]. right; right. split; [reflexivity|]. left.
      now rewrite skipn_app, skipn_all, Nat.sub_diag. }
  destruct (listdir_empty _ (dirname lp)) as [[|]|]; cbn [fst snd trace stdin];
    (split; [reflexivity|]); right; right; (split; [reflexivity|]).
  - right. eexists. rewrite <- app_assoc, skipn_app, skipn_all, Nat.sub_diag. reflexivity.
  - left. now rewrite skipn_app, skipn_all, Nat.sub_diag.
  - left. now rewrite skipn_app, skipn_all, Nat.sub_diag.
Qed.







End Tally.

Section Gate.
Context {os : OsPath} {oc : Outcomes} {sm : Similarity} {lt : LiveTree}.

Lemma silent_ret {A} (a : A) : silent (ret a).
Proof. intros w. reflexivity. Qed.

Lemma silent_bind {A B} (m : io A) (k : A -> io B) :
  silent m -> (forall a, silent (k a)) -> silent (bind m k).
Proof.
  intros Hm Hk w. unfold bind. specialize (Hm w). destruct (m w) as [a w1].
  simpl in *. now rewrite Hk.
Qed.

Lemma silent_print (m : message) : silent (print m).
Proof. intros w. reflexivity. Qed.

Lemma silent_perform (c : call) : silent (perform c).
Proof. intros w. reflexivity. Qed.

Lemma silent_for_each {A S} (l : list A) (body : A -> S -> io S) :
  (forall x s, silent (body x s)) -> forall s, silent (for_each l body s).
Proof.
  intros H. induction l as [|x l IH]; intros s; simpl; [apply silent_ret|].
  apply silent_bind; auto.
Qed.

Lemma silent_look {A} (f : list event -> A) : silent (look f).
Proof. intros w. reflexivity. Qed.

Lemma silent_delete_local_file (lp : string) (dry_run : bool) :
  silent (Download.delete_local_file lp dry_run).
Proof.
  destruct dry_run; [apply silent_ret|]. intros w. apply delete_local_file_runs.
Qed.

Ltac silent_step :=
  match goal with
  | |- silent (ret _) => apply silent_ret
  | |- silent (look _) => apply silent_look
  | |- silent (Download.delete_local_file _ _) => apply silent_delete_local_file
  | |- silent (bind _ _) => apply silent_bind; [|intros ?]
  | |- silent (print _) => apply silent_print
  | |- silent (perform _) => apply silent_perform
  | |- silent (if ?b then _ else _) => destruct b
  | |- silent (match ?x with Some _ => _ | None => _ end) => destruct x
  end.

Lemma silent_transfer_and_rename (bucket base : string) (local_files : dict file_info)
    (s3_files : dict s3_info) (renames : dict Download.rename_info)
    (new_paths : list string) (force dry_run folder_is_new is_file_sync : bool) :
  silent (Download.transfer_and_rename bucket base local_files s3_files renames new_paths
            force dry_run folder_is_new is_file_sync).
Proof.
  unfold Download.transfer_and_rename. apply silent_bind.
  - apply silent_for_each. intros [rel i] r.
    unfold Download.process_s3_file, Download.download_file. repeat silent_step.
  - intros r. apply silent_for_each. intros [old rename] r'.
    unfold Download.process_rename, Download.download_file. repeat silent_step.
Qed.






Lemma delete_orphans_emits (P : event -> Prop) (dry_run : bool)
    (orphans : list (string * string * Z)) (r : Download.result) :
  (forall m, is_preview (Printed m) = false -> P (Printed m)) ->
  (forall c ok, P (Called c ok)) ->
  emits P (for_each orphans (Download.delete_orphan dry_run) r).
Proof.
  intros Hprint Hcall. apply emits_for_each. intros [[path rel] size] r' _.
  unfold Download.delete_orphan, Download.delete_local_file. emits_auto.
Qed.





End Gate.



(** ** Skipped extensions *)

Lemma contains_app (c : ascii) (a b : string) :
  contains c (a ++ b) = contains c a || contains c b.
Proof. induction a as [|x a IH]; simpl; [reflexivity|]. now rewrite IH, orb_assoc. Qed.

Lemma after_last_without (c : ascii) (s : string) :
  contains c s = false -> after_last c s = s.
Proof.
  destruct s as [|a s]; simpl; [reflexivity|]. intros H.
  apply orb_false_iff in H as [Ha Hs]. now rewrite Hs, Ha.
Qed.

Lemma after_last_app_sep (c : ascii) (a b : string) :
  after_last c (a ++ String c b) = after_last c b.
Proof.
  induction a as [|x a IH]; simpl.
  - rewrite Ascii.eqb_refl. destruct (contains c b) eqn:E; [reflexivity|].
    symmetry. now apply after_last_without.
  - rewrite contains_app. simpl. rewrite Ascii.eqb_refl, orb_true_r. exact IH.
Qed.

Lemma replace_app (a b : string) (x y : ascii) :
  replace (a ++ b) x y = (replace a x y ++ replace b x y)%string.
Proof. induction a as [|c a IH]; simpl; [reflexivity|]. now rewrite IH. Qed.

Lemma contains_replace (s : string) :
  contains slash s = true -> contains slash (replace s backslash slash) = true.
Proof.
  induction s as [|a s IH]; simpl; [discriminate|]. intros H.
  apply orb_true_iff in H as [H|H].
  - apply Ascii.eqb_eq in H. subst a. reflexivity.
  - rewrite (IH H). apply orb_true_r.
Qed.

Lemma replace_without (s : string) :
  contains slash (replace s backslash slash) = false -> replace s backslash slash = s.
Proof.
  induction s as [|a s IH]; simpl; [reflexivity|]. intros H.
  apply orb_false_iff in H as [Ha Hs]. rewrite (IH Hs).
  destruct (Ascii.eqb a backslash); [discriminate|reflexivity].
Qed.

(** The base name of a path with its backslashes turned into slashes
    ends the base name of the path. *)
Lemma basename_replace_suffix (n : string) :
  exists t, basename n = (t ++ basename (replace n backslash slash))%string.
Proof.
  unfold basename. induction n as [|a n IH]; [now exists ""|].
  destruct IH as [t IH]. simpl.
  destruct (contains slash n) eqn:Cn.
  - rewrite (contains_replace _ Cn). now exists t.
  - rewrite (after_last_without _ _ Cn) in IH.
    destruct (contains slash (replace n backslash slash)) eqn:Cr.
    + destruct (Ascii.eqb a slash).
      * exists t. exact IH.
      * exists (String a t). simpl. now rewrite <- IH.
    + rewrite (replace_without _ Cr).
      destruct (Ascii.eqb a backslash) eqn:Eb.
      * apply Ascii.eqb_eq in Eb. subst a. simpl. now exists (String backslash "").
      * destruct (Ascii.eqb a slash); now exists "".
Qed.

Lemma ext_of_name_has_dot (b : bool) (v : string) :
  ext_of_name b v <> "" -> contains dot v = true.
Proof.
  revert b. induction v as [|a v IH]; simpl; intros b H; [congruence|].
  destruct (Ascii.eqb a dot); [reflexivity|]. simpl. eauto.
Qed.

Lemma ext_of_name_seen (v : string) :
  ext_of_name false v <> "" -> ext_of_name true v = ext_of_name false v.
Proof.
  induction v as [|a v IH]; simpl; intros H; [reflexivity|].
  destruct (Ascii.eqb a dot); [|reflexivity].
  destruct (contains dot v); [auto|congruence].
Qed.

Lemma ext_of_name_suffix (t v : string) (b : bool) :
  ext_of_name false v <> "" -> ext_of_name b (t ++ v) = ext_of_name false v.
Proof.
  intros H. revert b. induction t as [|a t IH]; intros b; simpl.
  - destruct b; [now apply ext_of_name_seen|reflexivity].
  - rewrite contains_app, (ext_of_name_has_dot _ _ H), orb_true_r.
    destruct (Ascii.eqb a dot); apply IH.
Qed.

Lemma skipped_has_ext (p : string) : skipped p = true -> splitext_ext p <> "".
Proof. unfold skipped. intros H E. rewrite E in H. discriminate. Qed.

(** A file that is not skipped by its name is not skipped by the key
    under which the scan records it. *)
Lemma scanned_key_not_skipped (rel name : string) :
  skipped name = false ->
  skipped (replace (Upload.rel_join rel name) backslash slash) = false.
Proof.
  intros Hname. destruct (skipped (replace _ backslash slash)) eqn:Hkey; [|reflexivity].
  exfalso. pose proof (skipped_has_ext _ Hkey) as Hext.
  assert (B : basename (replace (Upload.rel_join rel name) backslash slash)
              = basename (replace name backslash slash)).
  { unfold Upload.rel_join. destruct (nonempty rel); [|reflexivity].
    rewrite !replace_app. simpl. unfold basename.
    replace (if Ascii.eqb slash backslash then slash else slash) with slash by reflexivity.
    apply after_last_app_sep. }
  unfold skipped, splitext_ext in *. rewrite B in Hkey, Hext.
  destruct (basename_replace_suffix name) as [t E].
  rewrite E, (ext_of_name_suffix t _ false Hext) in Hname. congruence.
Qed.

Lemma endswith_slash_cases (b : ascii) (k : string) :
  endswith (String b k) "/" = true -> k = "" \/ endswith k "/" = true.
Proof.
  simpl. intros H. apply orb_true_iff in H as [H|H]; [|now right].
  left. destruct k; [reflexivity|]. apply andb_true_iff in H as [_ H]. discriminate.
Qed.

Lemma endswith_slash_contains (s : string) : endswith s "/" = true -> contains slash s = true.
Proof.
  induction s as [|a s IH]; [discriminate|]. intros H. simpl.
  destruct (endswith_slash_cases _ _ H) as [->|E].
  - simpl in H. rewrite orb_false_r in H. apply andb_true_iff in H as [H _].
    unfold slash. now rewrite H.
  - rewrite (IH E). apply orb_true_r.
Qed.

Lemma endswith_slash_basename (s : string) : endswith s "/" = true -> basename s = "".
Proof.
  unfold basename. induction s as [|a s IH]; [discriminate|]. intros H. simpl.
  destruct (endswith_slash_cases _ _ H) as [->|E].
  - simpl in *. rewrite orb_false_r in H. apply andb_true_iff in H as [H _].
    unfold slash. now rewrite H.
  - now rewrite (endswith_slash_contains _ E), IH.
Qed.

Lemma endswith_slash_drop_prefix (p k : string) :
  endswith k "/" = true -> drop_prefix p k = "" \/ endswith (drop_prefix p k) "/" = true.
Proof.
  revert k. induction p as [|a p IH]; intros k H; simpl; [now right|].
  destruct k as [|b k]; [now left|].
  destruct (endswith_slash_cases _ _ H) as [->|E]; [|auto].
  left. now destruct p.
Qed.

(** A folder marker has no extension. *)
Lemma marker_not_skipped (prefix key : string) :
  endswith key "/" = true -> skipped (rel_path_of prefix key) = false.
Proof.
  intros H. unfold skipped, splitext_ext.
  assert (B : basename (rel_path_of prefix key) = "").
  { unfold rel_path_of. destruct (nonempty prefix && startswith key prefix).
    - destruct (endswith_slash_drop_prefix prefix _ H) as [->|E]; [reflexivity|].
      now apply endswith_slash_basename.
    - now apply endswith_slash_basename. }
  now rewrite B.
Qed.

(** Induction over a file tree, with the property known for the
    entries of a directory. *)
Section NodeInduction.
Variable P : node -> Prop.
Hypothesis Hfile : forall etag size, P (File etag size).
Hypothesis Hdir :
  forall entries, Forall (fun e : string * node => P (snd e)) entries -> P (Dir entries).

Fixpoint node_tree_ind (n : node) : P n :=
  match n with
  | File etag size => Hfile etag size
  | Dir entries =>
      Hdir ((fix all (l : list (string * node)) : Forall (fun e => P (snd e)) l :=
               match l with
               | [] => Forall_nil _
               | e :: l' =>
                   Forall_cons e
                     (match e as e0 return P (snd e0) with
                      | (_, child) => node_tree_ind child
                      end)
                     (all l')
               end) entries)
  end.
End NodeInduction.

Section Skip.
Context {os : OsPath} {oc : Outcomes}.

Lemma add_scanned_no_skipped (key full : string) (etag : option string) (size : Z)
    (d : dict file_info) :
  skipped key = false -> no_skipped_key d ->
  no_skipped_key (Upload.add_scanned key full etag size d).
Proof.
  intros Hk Hd. unfold Upload.add_scanned. destruct etag as [h|]; [|assumption].
  destruct (nonempty h); [|assumption]. intros k Hin.
  apply In_keys in Hin as [v Hin]. apply dict_set_In in Hin as [[-> _]|Hin]; [assumption|].
  apply Hd, In_keys. eauto.
Qed.

Lemma walk_no_skipped :
  forall (n : node) (root rel : string) (d : dict file_info),
    no_skipped_key d -> no_skipped_key (Upload.walk n root rel d).
Proof.
  induction n as [etag size|entries IH] using node_tree_ind; intros root rel d Hd;
    [exact Hd|].
  simpl.
  match goal with
  | |- no_skipped_key (_ entries (fold_left ?f entries d)) =>
      assert (Hfiles : no_skipped_key (fold_left f entries d))
  end.
  { clear IH. revert d Hd. induction entries as [|[name child] es IHes]; intros d Hd;
      [exact Hd|].
    simpl. apply IHes. destruct child as [etag size|sub]; [|exact Hd].
    match goal with |- no_skipped_key (if ?b then _ else _) => destruct b end; [exact Hd|].
    match goal with |- no_skipped_key (if ?b then _ else _) => destruct b eqn:E end;
      [exact Hd|].
    apply add_scanned_no_skipped; [|exact Hd]. apply scanned_key_not_skipped. exact E. }
  revert Hfiles.
  match goal with
  | |- no_skipped_key ?acc0 -> no_skipped_key (_ entries ?acc0) => generalize acc0
  end.
  induction entries as [|[name child] es IHes]; intros acc Hacc; [exact Hacc|].
  inversion IH as [|? ? Hchild Hrest]; subst.
  simpl. destruct child as [etag size|sub].
  - now apply IHes.
  - destruct (name =? "archive"); [now apply IHes|]. apply IHes; [assumption|].
    now apply Hchild.
Qed.

Lemma scan_no_skipped (fs : filesystem) (local_path : string) :
  no_skipped_key (Upload.scan_local_files fs local_path).
Proof.
  unfold Upload.scan_local_files.
  destruct (fs (os_path_normpath local_path)) as [[etag size|entries]|].
  - destruct (negb (str_in _ Upload.skip_files)
              && negb (str_in _ Upload.SKIP_EXTENSIONS)) eqn:E; [|intros k []].
    apply andb_true_iff in E as [_ E]. apply negb_true_iff in E.
    apply add_scanned_no_skipped; [exact E|intros k []].
  - apply walk_no_skipped. intros k [].
  - intros k [].
Qed.
End Skip.

Section SkipRun.
Context {os : OsPath} {oc : Outcomes}.

Lemma build_s3_files_markers_end (objs : list s3_object) (prefix : string)
    (scope : option string) :
  forall files markers files' markers',
    build_s3_files objs prefix scope files markers = (files', markers') ->
    (forall k, In k markers -> endswith k "/" = true) ->
    forall k, In k markers' -> endswith k "/" = true.
Proof.
  induction objs as [|obj objs IH]; simpl; intros files markers files' markers' E H k Hk.
  - injection E as <- <-. auto.
  - destruct (is_folder_marker obj) eqn:M.
    + eapply IH; [exact E| |exact Hk]. intros k' Hk'.
      apply andb_true_iff in M as [M _].
      destruct (in_scope scope (Key obj)); [|auto].
      apply in_app_or in Hk' as [Hk'|[<-|[]]]; auto.
    + eapply IH; eauto.
Qed.

Lemma orphaned_keys_not_skipped (local_files : dict file_info) (s3_files : dict s3_info)
    (prefix : string) (scope : option string) (key rel : string) (size : Z) :
  (forall r i, In (r, i) s3_files -> r = rel_path_of prefix (s3_key i)) ->
  In (key, rel, size) (Upload.orphaned_keys local_files s3_files scope) ->
  skipped (rel_path_of prefix key) = false.
Proof.
  intros Hok. unfold Upload.orphaned_keys. rewrite in_flat_map.
  intros ([rel' i] & Hin & H).
  destruct (str_in (lower (splitext_ext rel')) Upload.SKIP_EXTENSIONS) eqn:E;
    [contradiction|].
  destruct (negb (dict_mem rel' local_files) && in_scope scope (s3_key i)); [|contradiction].
  destruct H as [[= <- <- <-]|[]]. now rewrite <- (Hok _ _ Hin).
Qed.

Lemma upload_sync_to_s3_spares (bucket local_dir : string) (local_files : dict file_info)
    (s3_objects : list s3_object) (prefix : string) (force dry_run : bool)
    (scope : option string) :
  no_skipped_key local_files ->
  emits (upload_spares_skipped prefix)
    (Upload.sync_to_s3 bucket local_dir local_files s3_objects prefix force dry_run scope).
Proof.
  intros Hscan. unfold Upload.sync_to_s3.
  destruct (build_s3_files s3_objects prefix scope [] []) as [s3_files markers] eqn:B.
  destruct (build_s3_files_ok _ _ _ _ _ B) as [Hok _]; [intros ? ? []|constructor|].
  apply emits_bind.
  { apply emits_for_each. intros [rel info] r Hin.
    assert (Hrel : skipped rel = false) by (apply Hscan, In_keys; eauto).
    unfold Upload.process_local_file, Upload.upload_file. emits_auto;
      now rewrite rel_path_of_app. }
  intros r. apply emits_bind.
  { apply emits_for_each. intros [[key rel] size] r' Hin.
    apply (orphaned_keys_not_skipped _ _ _ _ _ _ _ Hok) in Hin.
    unfold Upload.delete_orphan, Upload.delete_s3_object. emits_auto. }
  intros r'. destruct local_files; [|apply emits_ret].
  destruct (Upload.orphaned_keys _ _ _); [apply emits_ret|].
  apply emits_bind; [|intros; apply emits_ret].
  apply emits_for_each. intros key r'' Hin.
  assert (skipped (rel_path_of prefix key) = false).
  { apply marker_not_skipped.
    eapply build_s3_files_markers_end; [exact B| |exact Hin]. intros ? []. }
  unfold Upload.delete_folder_marker, Upload.delete_s3_object. emits_auto.
Qed.
End SkipRun.

(** C10.  In the upload direction a file with a skipped extension
    ([.psd], in any letter case) takes no part: the scan of the local tree
    records no such relative path, and in a run no key with such a
    relative path is uploaded to or deleted, and no such path is listed as
    new, changed or orphaned. *)
Theorem skipped_extension_never_synced {os : OsPath} {oc : Outcomes}
    (s3 : s3_client) (fs : filesystem) (project_root project_path : string)
    (bucket_override prefix_override : option string)
    (force dry_run yes return_preview_info : bool) (w : world) :
  no_skipped_key
    (Upload.scan_local_files fs
       (run_local_path fs project_root project_path bucket_override prefix_override))
  /\ Forall (upload_spares_skipped
               (run_prefix fs project_root project_path bucket_override prefix_override))
       (emitted (Upload.sync_single_path s3 fs project_root project_path bucket_override
                   prefix_override force dry_run yes return_preview_info) w).
Proof.
  split; [apply scan_no_skipped|].
  eapply emits_emitted. unfold Upload.sync_single_path, run_prefix.
  destruct (parse_project_path fs project_root project_path bucket_override prefix_override)
    as [[bucket prefix] local_path]. simpl fst; simpl snd.
  set (local_files := if exists_ fs local_path then Upload.scan_local_files fs local_path
                      else []).
  assert (Hscan : no_skipped_key local_files).
  { subst local_files. destruct (exists_ fs local_path); [apply scan_no_skipped|intros k []]. }
  match goal with |- emits _ (match ?l with _ => _ end) => destruct l as [s3_objects|] end;
    [|apply emits_ret].
  apply emits_bind.
  { apply emits_print. simpl. intros p [H|[H|H]].
    - apply filter_In in H as [H _]. now apply Hscan.
    - apply in_flat_map in H as ([q i] & Hin & H). simpl in H.
      destruct (dict_get _ q); [|contradiction].
      destruct (force || _); [|contradiction]. destruct H as [<-|[]].
      apply Hscan, In_keys. eauto.
    - apply filter_In in H as [_ H]. apply andb_true_iff in H as [_ H].
      now apply negb_true_iff in H. }
  intros _. apply emits_bind; [|intros; apply emits_ret].
  apply upload_run_sync_emits.
  - intros dry _. now apply upload_sync_to_s3_spares.
  - intros [] Hm; simpl; auto; discriminate.
  - intros; exact I.
Qed.

(** The entry page of the examples, the same on both sides: uploaded
    again with [--force], left alone without. *)
Lemma force_decides_retransfer_witness :
  let local_files :=
    [("index.html", {| file_hash := "H0"; file_size := 5; file_path := "/proj/index.html" |})] in
  let s3_objects := [ {| Key := "games/pull-tabs/index.html"; ETag := "H0"; Size := 5 |} ] in
  let up force :=
    emitted (Upload.sync_to_s3 (oc := Host.all_succeed) "llg-games" "/proj/index.html"
               local_files s3_objects "games/pull-tabs/" force false
               (Some "games/pull-tabs/index.html")) (Host.quiet []) in
  existsb (uploads_key "games/pull-tabs/index.html") (up true) = true
  /\ existsb (uploads_key "games/pull-tabs/index.html") (up false) = false.
Proof.
  intros local_files s3_objects up.
  exact (proj1 (@force_decides_retransfer Host.normal_paths Host.all_succeed Host.difflib Host.files_stay
                  Host.page_tree "llg-games" "/proj/index.html" "/proj" "/proj/index.html"
                  local_files s3_objects "games/pull-tabs/"
                  (Some "games/pull-tabs/index.html") "index.html"
                  {| file_hash := "H0"; file_size := 5; file_path := "/proj/index.html" |}
                  {| s3_key := "games/pull-tabs/index.html"; s3_hash := "H0"; s3_size := 5 |}
                  false (Host.quiet []) eq_refl eq_refl eq_refl)).
Defined.

(** * Beyond the claims *)

Lemma endswith_refl (s : string) : endswith s s = true.
Proof. destruct s; simpl; [reflexivity|]. now rewrite Ascii.eqb_refl, String.eqb_refl. Qed.

Lemma endswith_app (a b : string) : endswith (a ++ b) b = true.
Proof.
  induction a as [|x a IH]; simpl; [apply endswith_refl|].
  rewrite IH. apply orb_true_r.
Qed.

Lemma with_trailing_slash_ends (s : string) : endswith (with_trailing_slash s) "/" = true.
Proof.
  unfold with_trailing_slash. destruct (endswith s "/") eqn:E; [exact E|apply endswith_app].
Qed.

Lemma with_trailing_slash_starts (s : string) : startswith (with_trailing_slash s) s = true.
Proof.
  unfold with_trailing_slash. destruct (endswith s "/"); [apply startswith_refl|apply startswith_app].
Qed.

Lemma startswith_app_l (a b p : string) : startswith a p = true -> startswith (a ++ b) p = true.
Proof.
  revert a. induction p as [|c p IH]; intros a H; [apply startswith_nil|].
  destruct a as [|x a]; simpl in *; [discriminate|].
  apply andb_true_iff in H as [H1 H2]. rewrite H1. simpl. auto.
Qed.

Section Prefix.
Context {os : OsPath}.

Lemma run_prefix_shape (fs : filesystem) (project_root project_path : string)
    (bucket_override prefix_override : option string) :
  let prefix := run_prefix fs project_root project_path bucket_override prefix_override in
  endswith prefix "/" = true /\ startswith prefix (s3_base_prefix prefix_override) = true.
Proof.
  assert (B : endswith S3_PREFIX "/" = true) by reflexivity.
  assert (D : forall s, endswith (with_trailing_slash (S3_PREFIX ++ s)) "/" = true
                        /\ startswith (with_trailing_slash (S3_PREFIX ++ s)) S3_PREFIX = true).
  { intros s. split; [apply with_trailing_slash_ends|].
    eapply startswith_trans; [apply with_trailing_slash_starts|apply startswith_app]. }
  pose proof (startswith_refl S3_PREFIX) as R.
  unfold run_prefix, parse_project_path, s3_base_prefix. cbn [snd fst].
  destruct prefix_override as [p|]; cbn [truthy].
  - destruct (nonempty p) eqn:N.
    + split; [apply with_trailing_slash_ends|apply with_trailing_slash_starts].
    + repeat match goal with |- context [if ?b then _ else _] => destruct b end; auto.
  - repeat match goal with |- context [if ?b then _ else _] => destruct b end; auto.
Qed.

Lemma run_bucket_eq (fs : filesystem) (project_root project_path : string)
    (bucket_override prefix_override : option string) :
  run_bucket fs project_root project_path bucket_override prefix_override
  = bucket_or_default bucket_override.
Proof. reflexivity. Qed.
End Prefix.

Section UploadSync.
Context {os : OsPath} {oc : Outcomes}.

(** Where the entries of [s3_files] and the folder markers come from. *)
Lemma build_s3_files_sources (objs : list s3_object) (prefix : string) (scope : option string) :
  forall files markers files' markers',
    build_s3_files objs prefix scope files markers = (files', markers') ->
    (forall rel i, In (rel, i) files' ->
       In (rel, i) files
       \/ exists obj, In obj objs /\ is_folder_marker obj = false
                      /\ rel = rel_path_of prefix (Key obj)
                      /\ i = {| s3_key := Key obj; s3_hash := etag_of obj; s3_size := Size obj |})
    /\ (forall k, In k markers' ->
          In k markers
          \/ exists obj, In obj objs /\ is_folder_marker obj = true /\ Key obj = k).
Proof.
  induction objs as [|obj objs IH]; simpl; intros files markers files' markers' E.
  - injection E as <- <-. auto.
  - destruct (is_folder_marker obj) eqn:M.
    + apply IH in E as [F K]. split.
      * intros rel i H. apply F in H as [H|(o & Ho & R)]; [auto|]. right. exists o. tauto.
      * intros k H. apply K in H as [H|(o & Ho & R)].
        -- destruct (in_scope scope (Key obj)); [|auto].
           apply in_app_or in H as [H|[<-|[]]]; [auto|]. right. exists obj. auto.
        -- right. exists o. tauto.
    + apply IH in E as [F K]. split.
      * intros rel i H. apply F in H as [H|(o & Ho & R)].
        -- apply dict_set_In in H as [[-> ->]|H]; [|auto]. right. exists obj. auto.
        -- right. exists o. tauto.
      * intros k H. apply K in H as [H|(o & Ho & R)]; [auto|]. right. exists o. tauto.
Qed.

Lemma orphaned_keys_In (local_files : dict file_info) (s3_files : dict s3_info)
    (scope : option string) (key rel : string) (size : Z) :
  In (key, rel, size) (Upload.orphaned_keys local_files s3_files scope) ->
  exists info, In (rel, info) s3_files /\ s3_key info = key /\ s3_size info = size
               /\ dict_mem rel local_files = false /\ skipped rel = false
               /\ in_scope scope key = true.
Proof.
  unfold Upload.orphaned_keys. rewrite in_flat_map. intros ([rel' info] & Hin & H).
  unfold skipped.
  destruct (str_in (lower (splitext_ext rel')) Upload.SKIP_EXTENSIONS) eqn:S; [contradiction|].
  destruct (negb (dict_mem rel' local_files) && in_scope scope (s3_key info)) eqn:E;
    [|contradiction].
  destruct H as [[= <- <- <-]|[]]. apply andb_true_iff in E as [E1 E2].
  apply negb_true_iff in E1. exists info. auto 7.
Qed.

Lemma upload_sync_calls_on (bucket local_dir : string) (local_files : dict file_info)
    (s3_objects : list s3_object) (prefix : string) (force dry_run : bool)
    (scope : string) :
  startswith scope prefix = true ->
  emits (upload_call_on bucket prefix)
    (Upload.sync_to_s3 bucket local_dir local_files s3_objects prefix force dry_run
       (Some scope)).
Proof.
  intros Hsp. unfold Upload.sync_to_s3.
  destruct (build_s3_files s3_objects prefix (Some scope) [] []) as [s3_files markers] eqn:B.
  assert (K : forall rel, startswith (if nonempty prefix then (prefix ++ rel)%string else rel)
                            prefix = true).
  { intros rel. destruct (nonempty prefix) eqn:N; [apply startswith_app|].
    apply nonempty_false in N. subst prefix. apply startswith_nil. }
  apply emits_bind.
  { apply emits_for_each. intros [rel info] r _.
    unfold Upload.process_local_file, Upload.upload_file. emits_auto. }
  intros r. apply emits_bind.
  { apply emits_for_each. intros [[key rel] size] r' Hin.
    apply orphaned_keys_in_scope in Hin. simpl in Hin.
    unfold Upload.delete_orphan, Upload.delete_s3_object. emits_auto.
    split; [reflexivity|]. eapply startswith_trans; eauto. }
  intros r'. destruct local_files; [|apply emits_ret].
  destruct (Upload.orphaned_keys _ _ _); [apply emits_ret|].
  apply emits_bind; [|intros; apply emits_ret].
  apply emits_for_each. intros key r'' Hin.
  assert (in_scope (Some scope) key = true)
    by (eapply build_s3_files_markers; [exact B| |exact Hin]; intros ? []).
  simpl in H.
  unfold Upload.delete_folder_marker, Upload.delete_s3_object. emits_auto.
  split; [reflexivity|]. eapply startswith_trans; eauto.
Qed.

Lemma upload_sync_deletes_remote_only (bucket local_dir : string)
    (local_files : dict file_info) (s3_objects : list s3_object) (prefix : string)
    (force dry_run : bool) (scope : option string) :
  emits (deletes_remote_only local_files s3_objects prefix)
    (Upload.sync_to_s3 bucket local_dir local_files s3_objects prefix force dry_run scope).
Proof.
  unfold Upload.sync_to_s3.
  destruct (build_s3_files s3_objects prefix scope [] []) as [s3_files markers] eqn:B.
  destruct (build_s3_files_sources _ _ _ _ _ B) as [F K].
  apply emits_bind.
  { apply emits_for_each. intros [rel info] r _.
    unfold Upload.process_local_file, Upload.upload_file. emits_auto. }
  intros r. apply emits_bind.
  { apply emits_for_each. intros [[key rel] size] r' Hin.
    apply orphaned_keys_In in Hin as (info & Hin & <- & _ & Hl & _).
    apply F in Hin as [[]|(obj & Ho & M & -> & ->)]. simpl.
    unfold Upload.delete_orphan, Upload.delete_s3_object. emits_auto.
    exists obj. rewrite M. auto. }
  intros r'. destruct local_files; [|apply emits_ret].
  destruct (Upload.orphaned_keys _ _ _); [apply emits_ret|].
  apply emits_bind; [|intros; apply emits_ret].
  apply emits_for_each. intros key r'' Hin.
  apply K in Hin as [[]|(obj & Ho & M & <-)].
  unfold Upload.delete_folder_marker, Upload.delete_s3_object. emits_auto.
  exists obj. rewrite M. auto.
Qed.
End UploadSync.

Section UploadRun.
Context {os : OsPath} {oc : Outcomes}.

Lemma upload_run_calls_on (s3 : s3_client) (fs : filesystem) (project_root project_path : string)
    (bucket_override prefix_override : option string)
    (force dry_run yes return_preview_info : bool) :
  emits (upload_call_on
           (run_bucket fs project_root project_path bucket_override prefix_override)
           (run_prefix fs project_root project_path bucket_override prefix_override))
    (Upload.sync_single_path s3 fs project_root project_path bucket_override
       prefix_override force dry_run yes return_preview_info).
Proof.
  unfold Upload.sync_single_path, run_bucket, run_prefix.
  destruct (parse_project_path fs project_root project_path bucket_override prefix_override)
    as [[bucket prefix] local_path]. cbn [fst snd].
  set (is_file := path_is_file fs local_path project_path).
  set (filename := scope_filename fs local_path project_path).
  set (scope := scope_of is_file prefix filename).
  match goal with |- emits _ (match ?l with _ => _ end) => destruct l as [s3_objects|] end;
    [|apply emits_ret].
  apply emits_bind; [apply emits_print; exact I|].
  intros _. apply emits_bind; [|intros; apply emits_ret].
  apply upload_run_sync_emits; simpl; auto.
  intros dry _. apply upload_sync_calls_on. apply scope_extends_prefix.
Qed.
End UploadRun.

(** X1.  Every call of an upload run is an upload to or a deletion of a
    key that starts with the remote prefix of the run, in the bucket of the
    run; the run never downloads and never touches the local tree.  The
    bucket is the override or [llg-games]; the prefix ends with a slash and
    starts with the override or with [games/pull-tabs/]. *)
Theorem upload_run_changes_only_below_its_prefix {os : OsPath} {oc : Outcomes}
    (s3 : s3_client) (fs : filesystem) (project_root project_path : string)
    (bucket_override prefix_override : option string)
    (force dry_run yes return_preview_info : bool) (w : world) :
  let bucket := run_bucket fs project_root project_path bucket_override prefix_override in
  let prefix := run_prefix fs project_root project_path bucket_override prefix_override in
  Forall (upload_call_on bucket prefix)
    (emitted (Upload.sync_single_path s3 fs project_root project_path bucket_override
                prefix_override force dry_run yes return_preview_info) w)
  /\ bucket = bucket_or_default bucket_override
  /\ endswith prefix "/" = true
  /\ startswith prefix (s3_base_prefix prefix_override) = true.
Proof.
  intros bucket prefix. split; [|split; [reflexivity|apply run_prefix_shape]].
  apply emits_emitted. apply upload_run_calls_on.
Qed.

(** X2.  [sync_to_s3] deletes nothing that has a local counterpart. *)
Theorem upload_deletes_only_what_is_not_local {os : OsPath} {oc : Outcomes}
    (bucket local_dir : string) (local_files : dict file_info)
    (s3_objects : list s3_object) (prefix : string) (force dry_run : bool)
    (scope : option string) (w : world) :
  Forall (deletes_remote_only local_files s3_objects prefix)
    (emitted (Upload.sync_to_s3 bucket local_dir local_files s3_objects prefix force dry_run
                scope) w).
Proof. apply emits_emitted. apply upload_sync_deletes_remote_only. Qed.

Section UploadTally.
Context {os : OsPath} {oc : Outcomes}.

Lemma count_ok_app (kind : call -> bool) (l1 l2 : list event) :
  count_ok kind (l1 ++ l2) = (count_ok kind l1 + count_ok kind l2)%nat.
Proof. unfold count_ok. now rewrite filter_app, length_app. Qed.

Lemma upload_account_refl (r : Upload.result) : upload_account r r [].
Proof. unfold upload_account, count_failed, count_ok. simpl. repeat split; lia. Qed.

Lemma upload_account_trans (r0 r1 r2 : Upload.result) (e1 e2 : list event) :
  upload_account r0 r1 e1 -> upload_account r1 r2 e2 -> upload_account r0 r2 (e1 ++ e2).
Proof.
  unfold upload_account. rewrite count_failed_app, !count_ok_app.
  intros (A1 & A2 & A3 & A4 & A5 & A6) (B1 & B2 & B3 & B4 & B5 & B6).
  repeat split; lia.
Qed.

Lemma upload_accounts_ret (r : Upload.result) : upload_accounts r (ret r).
Proof.
  split; [apply emits_ret|]. intros w. rewrite emitted_ret. apply upload_account_refl.
Qed.

Lemma upload_accounts_bind (r : Upload.result) (m : io Upload.result)
    (k : Upload.result -> io Upload.result) :
  upload_accounts r m -> (forall r', upload_accounts r' (k r')) ->
  upload_accounts r (bind m k).
Proof.
  intros [Em Hm] Hk. split; [apply emits_bind; [assumption|intros; apply Hk]|].
  intros w.
  destruct (@emitted_bind _ _ anything m k w Em (fun a => proj1 (Hk a))) as [-> ->].
  eapply upload_account_trans; [apply Hm|apply Hk].
Qed.

Lemma upload_accounts_for_each {A} (l : list A) (body : A -> Upload.result -> io Upload.result) :
  (forall x r, upload_accounts r (body x r)) ->
  forall r, upload_accounts r (for_each l body r).
Proof.
  intros H. induction l as [|x l IH]; intros r; simpl.
  - apply upload_accounts_ret.
  - apply upload_accounts_bind; auto.
Qed.

(** A report line, a call, and the tallies that depend on its outcome. *)
Lemma emitted_print_perform {R} (m : message) (c : call) (f : bool -> R) (w : world) :
  let run := print m ;;; ok <- perform c ;; ret (f ok) in
  exists ok, emitted run w = [Printed m; Called c ok] /\ value run w = f ok.
Proof.
  simpl. eexists. unfold emitted, value, bind, print, emit, perform, ret. simpl.
  rewrite <- app_assoc, skipn_app, skipn_all, Nat.sub_diag. simpl. split; reflexivity.
Qed.

Lemma upload_accounts_step (m : message) (c : call) (f : bool -> Upload.result)
    (r : Upload.result) :
  (forall ok, upload_account r (f ok) [Printed m; Called c ok]) ->
  upload_accounts r (print m ;;; ok <- perform c ;; ret (f ok)).
Proof.
  intros H. split; [emits_auto|]. intros w.
  destruct (emitted_print_perform m c f w) as (ok & -> & ->). apply H.
Qed.

Lemma upload_accounts_process_local_file (bucket prefix : string) (s3_files : dict s3_info)
    (matched : list string) (force folder_is_new : bool) (item : string * file_info)
    (r : Upload.result) :
  upload_accounts r
    (Upload.process_local_file bucket prefix s3_files matched force false folder_is_new
       item r).
Proof.
  destruct item as [rel info]. unfold Upload.process_local_file, Upload.upload_file.
  destruct (str_in rel matched && negb force); [apply upload_accounts_ret|].
  destruct (dict_get s3_files rel) as [i|].
  - destruct (force || negb (file_hash info =? s3_hash i)).
    + apply upload_accounts_step. intros [];
        unfold upload_account, count_failed, count_ok; simpl; repeat split; try lia.
    + split; [emits_auto|]. intros w.
      assert (E : emitted (print (MsgSkippedUnchanged rel) ;;; ret r) w
                  = [Printed (MsgSkippedUnchanged rel)] /\
                  value (print (MsgSkippedUnchanged rel) ;;; ret r) w = r).
      { unfold emitted, value, bind, print, emit, ret. simpl.
        rewrite skipn_app, skipn_all, Nat.sub_diag. auto. }
      destruct E as [-> ->].
      unfold upload_account, count_failed, count_ok; simpl; repeat split; try lia.
  - apply upload_accounts_step. intros [];
      unfold upload_account, count_failed, count_ok; simpl; repeat split; try lia.
Qed.

Lemma upload_accounts_delete_orphan (bucket : string) (o : string * string * Z)
    (r : Upload.result) :
  upload_accounts r (Upload.delete_orphan bucket false o r).
Proof.
  destruct o as [[key rel] size]. unfold Upload.delete_orphan, Upload.delete_s3_object.
  apply upload_accounts_step. intros [];
    unfold upload_account, count_failed, count_ok; simpl; repeat split; try lia.
Qed.

Lemma upload_accounts_delete_folder_marker (bucket key : string) (r : Upload.result) :
  upload_accounts r (Upload.delete_folder_marker bucket false key r).
Proof.
  unfold Upload.delete_folder_marker, Upload.delete_s3_object.
  apply upload_accounts_step. intros [];
    unfold upload_account, count_failed, count_ok; simpl; repeat split; try lia.
Qed.
End UploadTally.

Section UploadTally2.
Context {os : OsPath} {oc : Outcomes}.

Lemma upload_account_summary (r0 r : Upload.result) (evs : list event) :
  upload_account r0 r evs -> upload_summary r0 r evs.
Proof. unfold upload_account, upload_summary. intros (A1 & A2 & A3 & A4 & A5 & A6). repeat split; lia. Qed.

Lemma upload_summary_after (r0 r1 r2 : Upload.result) (e1 e2 : list event) :
  upload_account r0 r1 e1 -> upload_summary r1 r2 e2 -> upload_summary r0 r2 (e1 ++ e2).
Proof.
  unfold upload_account, upload_summary. rewrite count_failed_app, !count_ok_app.
  intros (A1 & A2 & A3 & A4 & A5 & A6) (B1 & B2 & B3 & B4 & B5 & B6 & B7).
  repeat split; lia.
Qed.

Lemma upload_summarises_bind (r : Upload.result) (m : io Upload.result)
    (k : Upload.result -> io Upload.result) :
  upload_accounts r m -> (forall r', upload_summarises r' (k r')) ->
  upload_summarises r (bind m k).
Proof.
  intros [Em Hm] Hk. split; [apply emits_bind; [assumption|intros; apply Hk]|].
  intros w.
  destruct (@emitted_bind _ _ anything m k w Em (fun a => proj1 (Hk a))) as [-> ->].
  eapply upload_summary_after; [apply Hm|apply Hk].
Qed.

Lemma upload_summarises_ret (r : Upload.result) : upload_summarises r (ret r).
Proof.
  split; [apply emits_ret|]. intros w. rewrite emitted_ret.
  apply upload_account_summary, upload_account_refl.
Qed.

Lemma emitted_bind_ret {A B} (m : io A) (f : A -> B) (w : world) :
  emits anything m ->
  emitted (bind m (fun a => ret (f a))) w = emitted m w
  /\ value (bind m (fun a => ret (f a))) w = f (value m w).
Proof.
  intros Em.
  destruct (@emitted_bind _ _ anything m (fun a => ret (f a)) w Em
              (fun a => emits_ret anything _)) as [-> ->].
  rewrite emitted_ret, app_nil_r. auto.
Qed.

Lemma upload_sync_to_s3_summarises (bucket local_dir : string) (local_files : dict file_info)
    (s3_objects : list s3_object) (prefix : string) (force : bool) (scope : option string) :
  upload_summarises Upload.zero
    (Upload.sync_to_s3 bucket local_dir local_files s3_objects prefix force false scope).
Proof.
  unfold Upload.sync_to_s3.
  destruct (build_s3_files s3_objects prefix scope [] []) as [s3_files markers].
  apply upload_summarises_bind.
  { apply upload_accounts_for_each. intros. apply upload_accounts_process_local_file. }
  intros r. apply upload_summarises_bind.
  { apply upload_accounts_for_each. intros. apply upload_accounts_delete_orphan. }
  intros r'. destruct local_files; [|apply upload_summarises_ret].
  destruct (Upload.orphaned_keys _ _ _); [apply upload_summarises_ret|].
  assert (A3 : upload_accounts r'
                 (for_each markers (Upload.delete_folder_marker bucket false) r')).
  { apply upload_accounts_for_each. intros. apply upload_accounts_delete_folder_marker. }
  destruct A3 as [E3 A3].
  split; [apply emits_bind; [assumption|intros; apply emits_ret]|].
  intros w. match goal with
            | |- context [bind ?m (fun a => ret (@?f a))] =>
                destruct (@emitted_bind_ret _ _ m f w E3) as [-> ->]
            end.
  specialize (A3 w). revert A3.
  generalize (emitted (for_each markers (Upload.delete_folder_marker bucket false) r') w).
  generalize (value (for_each markers (Upload.delete_folder_marker bucket false) r') w).
  intros r3 evs A. unfold upload_account in A. unfold upload_summary.
  destruct A as (B1 & B2 & B3 & B4 & B5 & B6).
  destruct ((Upload.folders_deleted r3 =? 0)%nat && Upload.is_directory_scope scope) eqn:C;
    simpl; [|repeat split; lia].
  apply andb_true_iff in C as [C _]. apply Nat.eqb_eq in C.
  repeat split; lia.
Qed.
End UploadTally2.

(** X3.  Outside a dry run, the tallies that [sync_to_s3] returns count
    what happened: the failures are the calls that failed, the uploaded
    and the updated files together are the uploads that succeeded, the
    deleted files are at most the deletions that succeeded and these are
    at most the deleted files and folders; no rename is ever counted. *)
Theorem upload_tallies_count_the_calls {os : OsPath} {oc : Outcomes}
    (bucket local_dir : string) (local_files : dict file_info)
    (s3_objects : list s3_object) (prefix : string) (force : bool) (scope : option string)
    (w : world) :
  let run := Upload.sync_to_s3 bucket local_dir local_files s3_objects prefix force false
               scope in
  let r := value run w in
  let evs := emitted run w in
  Upload.failed r = count_failed evs
  /\ (Upload.uploaded r + Upload.updated r)%nat = count_ok is_upload evs
  /\ (Upload.deleted r <= count_ok is_delete_object evs)%nat
  /\ (count_ok is_delete_object evs <= Upload.deleted r + Upload.folders_deleted r)%nat
  /\ Upload.renamed r = 0%nat.
Proof.
  intros run r evs.
  destruct (upload_sync_to_s3_summarises bucket local_dir local_files s3_objects prefix force
              scope) as [_ H].
  specialize (H w). fold run in H. fold r evs in H. unfold upload_summary in H. simpl in H.
  destruct H as (B1 & B2 & B3 & B4 & B5 & B6 & B7). repeat split; lia.
Qed.

Section Predict.
Context {os : OsPath}.

Lemma value_bind {A B} (m : io A) (k : A -> io B) (w : world) :
  value (bind m k) w = value (k (value m w)) (snd (m w)).
Proof. unfold value, bind. destruct (m w). reflexivity. Qed.

Lemma same_value_ret {A} (a : A) : same_value (ret a) (ret a).
Proof. intros w w'. reflexivity. Qed.

Lemma same_value_bind {A B} (m m' : io A) (k k' : A -> io B) :
  same_value m m' -> (forall a, same_value (k a) (k' a)) -> same_value (bind m k) (bind m' k').
Proof. intros Hm Hk w w'. rewrite !value_bind, (Hm w w'). apply Hk. Qed.

Lemma same_value_for_each {A S} (l : list A) (body body' : A -> S -> io S) :
  (forall x s, same_value (body x s) (body' x s)) ->
  forall s, same_value (for_each l body s) (for_each l body' s).
Proof.
  intros H. induction l as [|x l IH]; intros s; simpl; [apply same_value_ret|].
  apply same_value_bind; auto.
Qed.

Lemma upload_sync_dry_run_value (oc : Outcomes) (bucket local_dir : string)
    (local_files : dict file_info) (s3_objects : list s3_object) (prefix : string)
    (force : bool) (scope : option string) :
  same_value
    (Upload.sync_to_s3 (oc := oc) bucket local_dir local_files s3_objects prefix force
       true scope)
    (Upload.sync_to_s3 (oc := Host.all_succeed) bucket local_dir local_files s3_objects
       prefix force false scope).
Proof.
  unfold Upload.sync_to_s3.
  destruct (build_s3_files s3_objects prefix scope [] []) as [s3_files markers].
  apply same_value_bind.
  { apply same_value_for_each. intros [rel info] r v v'.
    unfold Upload.process_local_file, Upload.upload_file.
    destruct (str_in rel _ && negb force); [reflexivity|].
    destruct (dict_get s3_files rel) as [i|];
      [destruct (force || negb (file_hash info =? s3_hash i))|]; reflexivity. }
  intros r. apply same_value_bind.
  { apply same_value_for_each. intros [[key rel] size] r0 u u'. reflexivity. }
  intros r'. destruct local_files; [|apply same_value_ret].
  destruct (Upload.orphaned_keys _ _ _); [apply same_value_ret|].
  apply same_value_bind; [|intros; apply same_value_ret].
  apply same_value_for_each. intros key r0 t t'. reflexivity.
Qed.
End Predict.

(** X4.  The tallies of a dry run of [sync_to_s3] are those of the real
    run in which every call succeeds. *)
Theorem upload_dry_run_predicts_the_tallies {os : OsPath} {oc : Outcomes}
    (bucket local_dir : string) (local_files : dict file_info)
    (s3_objects : list s3_object) (prefix : string) (force : bool) (scope : option string)
    (w w' : world) :
  value (Upload.sync_to_s3 (oc := oc) bucket local_dir local_files s3_objects prefix force
           true scope) w
  = value (Upload.sync_to_s3 (oc := Host.all_succeed) bucket local_dir local_files s3_objects
             prefix force false scope) w'.
Proof. apply upload_sync_dry_run_value. Qed.

Section UploadComplete.
Context {os : OsPath} {oc : Outcomes}.

Lemma matched_files_inv {V} (hash_of : V -> string) (local_files : dict file_info)
    (s3_files : dict V) (p : string) :
  str_in p (matched_files hash_of local_files s3_files) = true ->
  exists info, In (p, info) local_files /\ hash_matches hash_of s3_files p info = true.
Proof.
  unfold matched_files. intros H. apply str_in_In in H.
  assert (G : forall l acc,
             In p (fold_left (fun acc item =>
                                if hash_matches hash_of s3_files (fst item) (snd item)
                                then set_add (fst item) acc else acc) l acc) ->
             In p acc
             \/ exists info, In (p, info) l /\ hash_matches hash_of s3_files p info = true).
  { induction l as [|[q i] l IH]; simpl; intros acc Hin; [auto|].
    apply IH in Hin as [Hin|(info & Hi & Hm)]; [|right; eauto].
    destruct (hash_matches hash_of s3_files q i) eqn:M; [|auto].
    apply set_add_In in Hin as [->|Hin]; [|auto]. right. eauto. }
  apply G in H as [[]|H]. exact H.
Qed.

Lemma NoDup_keys_same {V} (d : dict V) (k : string) (v v' : V) :
  NoDup (keys d) -> In (k, v) d -> In (k, v') d -> v = v'.
Proof.
  intros Hnd H H'. apply (NoDup_keys_get _ _ _ Hnd) in H. apply (NoDup_keys_get _ _ _ Hnd) in H'.
  congruence.
Qed.

Lemma upload_sync_rest_emits (P : event -> Prop) (bucket : string)
    (local_files : dict file_info) (orphans : list (string * string * Z))
    (markers : list string) (dry_run : bool) (scope : option string) (r : Upload.result) :
  (forall m, P (Printed m)) ->
  (forall b k ok, P (Called (S3DeleteObject b k) ok)) ->
  emits P
    (r <- for_each orphans (Upload.delete_orphan bucket dry_run) r ;;
     match local_files, orphans with
     | [], _ :: _ =>
         r <- for_each markers (Upload.delete_folder_marker bucket dry_run) r ;;
         ret (if (Upload.folders_deleted r =? 0)%nat && Upload.is_directory_scope scope
              then Upload.Build_result (Upload.uploaded r) (Upload.updated r)
                     (Upload.deleted r) (Upload.renamed r) 1 (Upload.folders_added r)
                     (Upload.failed r)
              else r)
     | _, _ => ret r
     end).
Proof.
  intros Hp Hd. apply emits_bind.
  { apply emits_for_each. intros [[k rel] size] r' _.
    unfold Upload.delete_orphan, Upload.delete_s3_object. emits_auto. }
  intros r'. destruct local_files; [|apply emits_ret].
  destruct orphans; [apply emits_ret|].
  apply emits_bind; [|intros; apply emits_ret].
  apply emits_for_each. intros k r'' _.
  unfold Upload.delete_folder_marker, Upload.delete_s3_object. emits_auto.
Qed.

Lemma upload_sync_uploads_exactly (bucket local_dir : string) (local_files : dict file_info)
    (s3_objects : list s3_object) (prefix : string) (force : bool) (scope : option string)
    (rel : string) (info : file_info) (w : world) :
  NoDup (keys local_files) -> In (rel, info) local_files ->
  existsb (uploads_key (if nonempty prefix then (prefix ++ rel)%string else rel))
    (emitted (Upload.sync_to_s3 bucket local_dir local_files s3_objects prefix force false
                scope) w)
  = force || negb (hash_matches s3_hash (fst (build_s3_files s3_objects prefix scope [] []))
                     rel info).
Proof.
  intros Hnd Hin. unfold Upload.sync_to_s3.
  destruct (build_s3_files s3_objects prefix scope [] []) as [files markers] eqn:B.
  cbn [fst].
  set (key := if nonempty prefix then (prefix ++ rel)%string else rel).
  set (matched := matched_files s3_hash local_files files).
  destruct (force || negb (hash_matches s3_hash files rel info)) eqn:C.
  - set (body := Upload.process_local_file bucket prefix files matched force false _).
    assert (Hbody : forall y s, emits anything (body y s)).
    { intros [q i] r. subst body. unfold Upload.process_local_file, Upload.upload_file.
      emits_auto. }
    rewrite emitted_bind_app;
      [|apply emits_for_each; auto|intros ?; apply upload_sync_rest_emits; intros; exact I].
    rewrite existsb_app. apply orb_true_iff. left.
    destruct (@for_each_emitted_In _ _ local_files body (rel, info) Hin Hbody Upload.zero w)
      as (s0 & w0 & Hincl).
    eapply existsb_incl; [exact Hincl|].
    subst body. unfold Upload.process_local_file, Upload.upload_file.
    assert (S : str_in rel matched && negb force = false).
    { destruct force; [apply andb_false_r|]. simpl in C. apply negb_true_iff in C.
      destruct (str_in rel matched) eqn:M; [|reflexivity].
      apply matched_files_inv in M as (info' & Hin' & M).
      rewrite (NoDup_keys_same _ _ _ _ Hnd Hin Hin') in C. congruence. }
    rewrite S.
    assert (U : forall m (f : bool -> Upload.result) v,
               existsb (uploads_key key)
                 (emitted (print m ;;;
                           ok <- perform (S3UploadFile (file_path info) bucket key) ;;
                           ret (f ok)) v) = true).
    { intros m f v. destruct (emitted_print_perform m (S3UploadFile (file_path info) bucket key)
                                f v) as (ok & -> & _).
      simpl. now rewrite String.eqb_refl. }
    unfold hash_matches in C.
    destruct (dict_get files rel) as [i|]; [|apply U].
    destruct (force || negb (file_hash info =? s3_hash i)) eqn:F; [apply U|].
    congruence.
  - apply orb_false_iff in C as [-> C]. apply negb_false_iff in C.
    assert (M : str_in rel matched = true) by (eapply matched_files_In; eauto).
    apply existsb_false_Forall. eapply emits_emitted.
    apply emits_bind.
    { apply emits_for_each. intros [q i] r _. unfold Upload.process_local_file.
      destruct (q =? rel) eqn:E.
      - apply String.eqb_eq in E. subst q. rewrite M. simpl. apply emits_ret.
      - assert (K : ((if nonempty prefix then (prefix ++ q)%string else q) =? key) = false).
        { apply String.eqb_neq. intros H. subst key.
          assert (q = rel) by (destruct (nonempty prefix); [eapply append_inj; eauto|auto]).
          subst q. now rewrite String.eqb_refl in E. }
        unfold Upload.upload_file. emits_auto. }
    intros r. apply upload_sync_rest_emits; intros; reflexivity.
Qed.

Lemma orphaned_keys_complete (local_files : dict file_info) (s3_files : dict s3_info)
    (scope : option string) (rel : string) (i : s3_info) :
  In (rel, i) s3_files -> dict_mem rel local_files = false -> skipped rel = false ->
  in_scope scope (s3_key i) = true ->
  In (s3_key i, rel, s3_size i) (Upload.orphaned_keys local_files s3_files scope).
Proof.
  intros Hin Hl Hs Hsc. unfold Upload.orphaned_keys. apply in_flat_map.
  exists (rel, i). split; [assumption|]. unfold skipped in Hs. rewrite Hs, Hl, Hsc. simpl. auto.
Qed.

Lemma upload_sync_deletes_orphans (bucket local_dir : string) (local_files : dict file_info)
    (s3_objects : list s3_object) (prefix : string) (force : bool) (scope : option string)
    (rel : string) (i : s3_info) (w : world) :
  In (rel, i) (fst (build_s3_files s3_objects prefix scope [] [])) ->
  dict_mem rel local_files = false -> skipped rel = false ->
  in_scope scope (s3_key i) = true ->
  existsb (deletes_key (s3_key i))
    (emitted (Upload.sync_to_s3 bucket local_dir local_files s3_objects prefix force false
                scope) w) = true.
Proof.
  intros Hin Hl Hs Hsc. unfold Upload.sync_to_s3.
  destruct (build_s3_files s3_objects prefix scope [] []) as [files markers] eqn:B.
  cbn [fst] in Hin.
  pose proof (orphaned_keys_complete local_files files scope rel i Hin Hl Hs Hsc) as Ho.
  rewrite emitted_bind_app.
  2:{ apply emits_for_each. intros [q j] r _.
      unfold Upload.process_local_file, Upload.upload_file. emits_auto. }
  2:{ intros ?. apply upload_sync_rest_emits; intros; exact I. }
  rewrite existsb_app. apply orb_true_iff. right.
  set (body := Upload.delete_orphan bucket false).
  assert (Hbody : forall y s, emits anything (body y s)).
  { intros [[k q] size] r. subst body. unfold Upload.delete_orphan, Upload.delete_s3_object.
    emits_auto. }
  rewrite emitted_bind_app; [|apply emits_for_each; auto|].
  2:{ intros r'. destruct local_files; [|apply emits_ret].
      destruct (Upload.orphaned_keys _ _ _); [apply emits_ret|].
      apply emits_bind; [|intros; apply emits_ret].
      apply emits_for_each. intros k r'' _.
      unfold Upload.delete_folder_marker, Upload.delete_s3_object. emits_auto. }
  rewrite existsb_app. apply orb_true_iff. left.
  match goal with
  | |- existsb _ (emitted (for_each ?l body ?s) ?v) = true =>
      destruct (@for_each_emitted_In _ _ l body _ Ho Hbody s v) as (s0 & w0 & Hincl)
  end.
  eapply existsb_incl; [exact Hincl|].
  subst body. unfold Upload.delete_orphan, Upload.delete_s3_object.
  match goal with
  | |- existsb _ (emitted (print ?m ;;; ok <- perform ?c ;; ret (@?f ok)) ?v) = true =>
      destruct (emitted_print_perform m c f v) as (ok & -> & _)
  end.
  simpl. now rewrite String.eqb_refl.
Qed.
End UploadComplete.

(** X5.  Outside a dry run, [sync_to_s3] attempts the upload of a local
    file exactly when force is set or the bucket has no file of the same
    relative path and hash, and it attempts the deletion of every listed
    file that is not local, whose extension is not skipped and whose key
    is within the scope. *)
Theorem upload_attempts_every_change {os : OsPath} {oc : Outcomes}
    (bucket local_dir : string) (local_files : dict file_info)
    (s3_objects : list s3_object) (prefix : string) (force : bool) (scope : option string)
    (w : world) :
  NoDup (keys local_files) ->
  let s3_files := fst (build_s3_files s3_objects prefix scope [] []) in
  let evs :=
    emitted (Upload.sync_to_s3 bucket local_dir local_files s3_objects prefix force false
               scope) w in
  (forall rel info,
     In (rel, info) local_files ->
     existsb (uploads_key (if nonempty prefix then (prefix ++ rel)%string else rel)) evs
     = force || negb (hash_matches s3_hash s3_files rel info))
  /\ (forall rel i,
        In (rel, i) s3_files -> dict_mem rel local_files = false -> skipped rel = false ->
        in_scope scope (s3_key i) = true ->
        existsb (deletes_key (s3_key i)) evs = true).
Proof.
  intros Hnd s3_files evs. split.
  - intros rel info Hin. now apply upload_sync_uploads_exactly.
  - intros rel i Hin Hl Hs Hsc. now apply upload_sync_deletes_orphans with (rel := rel).
Qed.

Lemma upload_attempts_every_change_witness :
  let local_files :=
    [("index.html", {| file_hash := "H1"; file_size := 5; file_path := "/proj/index.html" |})] in
  let s3_objects :=
    [ {| Key := "games/pull-tabs/index.html"; ETag := "H0"; Size := 5 |};
      {| Key := "games/pull-tabs/old.html"; ETag := "H2"; Size := 7 |} ] in
  let evs :=
    emitted (Upload.sync_to_s3 (oc := Host.all_succeed) "llg-games" "/proj" local_files
               s3_objects "games/pull-tabs/" false false (Some "games/pull-tabs/"))
      (Host.quiet []) in
  existsb (uploads_key "games/pull-tabs/index.html") evs = true
  /\ existsb (deletes_key "games/pull-tabs/old.html") evs = true.
Proof.
  intros local_files s3_objects evs.
  assert (Hnd : NoDup (keys local_files))
    by (repeat constructor; simpl; intuition discriminate).
  destruct (@upload_attempts_every_change Host.normal_paths Host.all_succeed "llg-games" "/proj"
              local_files s3_objects "games/pull-tabs/" false (Some "games/pull-tabs/")
              (Host.quiet []) Hnd) as [U D].
  split.
  - apply (U "index.html" {| file_hash := "H1"; file_size := 5; file_path := "/proj/index.html" |}).
    simpl. auto.
  - apply (D "old.html" {| s3_key := "games/pull-tabs/old.html"; s3_hash := "H2"; s3_size := 7 |});
      [simpl; auto|reflexivity|reflexivity|reflexivity].
Defined.

Section RenamePairs.
Context {sm : Similarity}.
Variable local_files : dict file_info.
Variable s3_objects : list s3_object.
Variable prefix : string.
Variable threshold : Q.
Variable matched : list string.

Lemma download_local_hash_map_hash (s3_paths : list string) :
  entries_all (fun h (e : string * string) =>
                 exists info, In (fst e, info) local_files /\ file_hash info = h)
    (Download.local_hash_map local_files s3_paths matched).
Proof.
  unfold Download.local_hash_map.
  set (P := fun h (e : string * string) =>
              exists info, In (fst e, info) local_files /\ file_hash info = h).
  assert (G : forall items acc,
             (forall i, In i items -> In i local_files) -> entries_all P acc ->
             entries_all P
               (fold_left (fun acc item =>
                             if str_in (fst item) matched then acc
                             else if str_in (fst item) s3_paths then acc
                                  else dict_append acc (file_hash (snd item))
                                         (fst item, basename (fst item))) items acc)).
  { induction items as [|[p info] items IH]; simpl; intros acc Hsub Hacc; [assumption|].
    apply IH; [auto|].
    destruct (str_in p matched); [assumption|].
    destruct (str_in p s3_paths); [assumption|].
    apply entries_all_append; [assumption|]. exists info. simpl. auto. }
  apply G; [auto|apply entries_all_nil].
Qed.

Lemma download_candidate_same_content (c : Download.rename_candidate) :
  In c (Download.sorted_candidates local_files s3_objects prefix threshold matched) ->
  same_content local_files s3_objects (Download.cand_local_path c) (Download.cand_s3_key c).
Proof.
  unfold Download.sorted_candidates. rewrite sort_by_similarity_In.
  unfold Download.potential_renames. rewrite in_flat_map.
  intros ([h lentries] & Hl & H). simpl in H.
  destruct (dict_get (Download.s3_hash_map s3_objects prefix) h) as [sentries|] eqn:Gs;
    [|contradiction].
  apply dict_get_In in Gs. apply in_flat_map in H as ([lp lf] & Hle & H).
  destruct (download_local_hash_map_hash _ _ _ _ Hl Hle) as (info & Hin & Hh). simpl in Hin.
  match type of H with In _ (if ?b then _ else _) => destruct b end; [contradiction|].
  apply in_flat_map in H as ([[key rel] f] & Hse & H).
  pose proof (download_s3_hash_map_ok _ _ _ _ _ Gs Hse)
    as (_ & _ & obj & Hobj & Hm & _ & Hh' & Hk).
  destruct (Qle_bool threshold (calculate_filename_similarity lf f)); [|contradiction].
  destruct H as [<-|[]]. simpl. exists info, obj. repeat split; auto. congruence.
Qed.

Lemma download_rename_same_content (old : string) (info : Download.rename_info) :
  In (old, info) (Download.detect_renames local_files s3_objects prefix threshold matched) ->
  same_content local_files s3_objects old (Download.new_s3_key info).
Proof.
  intros H.
  destruct (download_detect_renames_facts local_files s3_objects prefix threshold matched)
    as (_ & From & _).
  destruct (From _ _ H) as (c & Hc & -> & ->). now apply download_candidate_same_content.
Qed.

Lemma upload_local_hash_map_hash :
  entries_all (fun h (e : string * string) =>
                 exists info, In (fst e, info) local_files /\ file_hash info = h)
    (Upload.local_hash_map local_files matched).
Proof.
  unfold Upload.local_hash_map.
  set (P := fun h (e : string * string) =>
              exists info, In (fst e, info) local_files /\ file_hash info = h).
  assert (G : forall items acc,
             (forall i, In i items -> In i local_files) -> entries_all P acc ->
             entries_all P
               (fold_left (fun acc item =>
                             if str_in (fst item) matched then acc
                             else dict_append acc (file_hash (snd item))
                                    (fst item, basename (fst item))) items acc)).
  { induction items as [|[p info] items IH]; simpl; intros acc Hsub Hacc; [assumption|].
    apply IH; [auto|].
    destruct (str_in p matched); [assumption|].
    apply entries_all_append; [assumption|]. exists info. simpl. auto. }
  apply G; [auto|apply entries_all_nil].
Qed.

Lemma upload_s3_hash_map_object :
  entries_all (fun h (e : string * string * string) =>
                 exists obj, In obj s3_objects /\ is_folder_marker obj = false
                             /\ Key obj = fst (fst e) /\ etag_of obj = h
                             /\ str_in (rel_path_of prefix (Key obj)) (keys local_files) = false)
    (Upload.s3_hash_map local_files s3_objects prefix matched).
Proof.
  unfold Upload.s3_hash_map.
  set (P := fun h (e : string * string * string) =>
              exists obj, In obj s3_objects /\ is_folder_marker obj = false
                          /\ Key obj = fst (fst e) /\ etag_of obj = h
                          /\ str_in (rel_path_of prefix (Key obj)) (keys local_files) = false).
  match goal with |- entries_all _ (fold_left ?f _ _) => set (step := f) end.
  assert (G : forall objs acc,
             (forall o, In o objs -> In o s3_objects) -> entries_all P acc ->
             entries_all P (fold_left step objs acc)).
  { induction objs as [|obj objs IH]; simpl; intros acc Hsub Hacc; [assumption|].
    apply IH; [auto|]. unfold step.
    destruct (is_folder_marker obj) eqn:E1; [assumption|].
    destruct (str_in (rel_path_of prefix (Key obj)) (keys local_files)) eqn:E2; [assumption|].
    destruct (nonempty (etag_of obj)); [|assumption].
    assert (Q : P (etag_of obj)
                  (Key obj, rel_path_of prefix (Key obj),
                   basename (rel_path_of prefix (Key obj)))).
    { exists obj. simpl. repeat split; auto. }
    destruct (dict_get _ (etag_of obj)) as [paths|];
      [destruct (existsb _ paths); [assumption|]|]; now apply entries_all_append. }
  apply G; [auto|apply entries_all_nil].
Qed.

Lemma upload_candidate_same_content (c : Upload.rename_candidate) :
  In c (Upload.sorted_candidates local_files s3_objects prefix threshold matched) ->
  same_content local_files s3_objects (Upload.cand_local_path c) (Upload.cand_s3_key c)
  /\ str_in (rel_path_of prefix (Upload.cand_s3_key c)) (keys local_files) = false.
Proof.
  unfold Upload.sorted_candidates. rewrite sort_by_similarity_In.
  unfold Upload.potential_renames. rewrite in_flat_map.
  intros ([h sentries] & Hs & H). simpl in H.
  destruct (dict_get (Upload.local_hash_map local_files matched) h) as [lentries|] eqn:Gl;
    [|contradiction].
  apply dict_get_In in Gl. apply in_flat_map in H as ([[key rel] f] & Hse & H).
  destruct (upload_s3_hash_map_object _ _ _ Hs Hse) as (obj & Hobj & Hm & Hk & Hh & Hn).
  simpl in Hk.
  apply in_flat_map in H as ([lp lf] & Hle & H).
  destruct (upload_local_hash_map_hash _ _ _ Gl Hle) as (info & Hin & Hh'). simpl in Hin.
  destruct (Qle_bool threshold (calculate_filename_similarity f lf)); [|contradiction].
  destruct H as [<-|[]]. simpl. split.
  - exists info, obj. repeat split; auto. congruence.
  - now rewrite <- Hk.
Qed.

Lemma upload_rename_same_content (key : string) (info : Upload.rename_info) :
  In (key, info) (Upload.detect_renames local_files s3_objects prefix threshold matched) ->
  same_content local_files s3_objects (Upload.new_local_path info) key
  /\ str_in (rel_path_of prefix key) (keys local_files) = false.
Proof.
  intros H.
  destruct (upload_detect_renames_facts local_files s3_objects prefix threshold matched)
    as (_ & From & _).
  destruct (From _ _ H) as (c & Hc & -> & ->). now apply upload_candidate_same_content.
Qed.
End RenamePairs.

Section DownloadSync.
Context {os : OsPath} {oc : Outcomes} {sm : Similarity} {lt : LiveTree}.

Lemma dict_mem_set {V} (d : dict V) (k k' : string) (v : V) :
  dict_mem k' (dict_set d k v) = (k =? k') || dict_mem k' d.
Proof.
  unfold dict_mem. rewrite dict_get_set. destruct (k =? k'); reflexivity.
Qed.

Lemma build_s3_files_has (objs : list s3_object) (prefix : string) (scope : option string)
    (rel : string) :
  forall files markers,
    dict_mem rel (fst (build_s3_files objs prefix scope files markers)) = false ->
    dict_mem rel files = false
    /\ forall obj, In obj objs -> is_folder_marker obj = false ->
                   rel_path_of prefix (Key obj) <> rel.
Proof.
  induction objs as [|obj objs IH]; simpl; intros files markers H; [auto|].
  destruct (is_folder_marker obj) eqn:M.
  - apply IH in H as [H1 H2]. split; [assumption|].
    intros o [<-|Ho] Mo; [congruence|auto].
  - apply IH in H as [H1 H2]. rewrite dict_mem_set in H1.
    apply orb_false_iff in H1 as [E H1]. split; [assumption|].
    intros o [<-|Ho] Mo; [|auto]. now apply String.eqb_neq.
Qed.

Lemma str_in_set_add (x y : string) (l : list string) :
  str_in y (set_add x l) = (x =? y) || str_in y l.
Proof.
  unfold set_add. destruct (str_in x l) eqn:E.
  - destruct (x =? y) eqn:F; [|reflexivity]. apply String.eqb_eq in F. subst. now rewrite E.
  - unfold str_in. rewrite existsb_app. simpl. rewrite orb_false_r, orb_comm.
    f_equal. apply String.eqb_sym.
Qed.

Lemma s3_paths_set_has (objs : list s3_object) (prefix : string) (rel : string) :
  str_in rel (Download.s3_paths_set objs prefix) = false ->
  forall obj, In obj objs -> is_folder_marker obj = false ->
              rel_path_of prefix (Key obj) <> rel.
Proof.
  unfold Download.s3_paths_set.
  assert (G : forall l acc,
             str_in rel (fold_left (fun acc obj =>
                                      if is_folder_marker obj then acc
                                      else set_add (rel_path_of prefix (Key obj)) acc) l acc)
             = false ->
             str_in rel acc = false
             /\ forall obj, In obj l -> is_folder_marker obj = false ->
                            rel_path_of prefix (Key obj) <> rel).
  { induction l as [|obj l IH]; simpl; intros acc H; [auto|].
    apply IH in H as [H1 H2]. destruct (is_folder_marker obj) eqn:M.
    - split; [assumption|]. intros o [<-|Ho] Mo; [congruence|auto].
    - rewrite str_in_set_add in H1. apply orb_false_iff in H1 as [E H1].
      split; [assumption|]. intros o [<-|Ho] Mo; [|auto]. now apply String.eqb_neq. }
  intros H. now apply G in H.
Qed.

Lemma download_sync_touches (fs : filesystem) (bucket project_root : string)
    (local_files : dict file_info) (s3_objects : list s3_object) (prefix base : string)
    (force dry_run : bool) (scope : option string) :
  emits (download_touches bucket local_files s3_objects prefix)
    (Download.sync_from_s3 fs bucket project_root local_files s3_objects prefix base
       force dry_run scope).
Proof.
  unfold Download.sync_from_s3.
  destruct (build_s3_files s3_objects prefix scope [] []) as [s3_files markers] eqn:B.
  destruct (build_s3_files_sources _ _ _ _ _ B) as [F _].
  set (matched := matched_files s3_hash local_files s3_files).
  set (renames := Download.detect_renames local_files s3_objects prefix
                    default_similarity_threshold matched).
  apply emits_bind.
  { unfold Download.transfer_and_rename. apply emits_bind.
    { apply emits_for_each. intros [rel info] r Hin.
      apply F in Hin as [[]|(obj & Ho & M & -> & ->)]. cbn [s3_key].
      unfold Download.process_s3_file, Download.download_file.
      emits_auto; (split; [reflexivity|exists obj; auto]). }
    intros r. apply emits_for_each. intros [old info] r' Hin.
    pose proof (download_rename_ok _ _ _ _ _ _ _ Hin) as (_ & _ & _ & _ & _ & _ & Hs3 & _).
    destruct (download_rename_same_content _ _ _ _ _ _ _ Hin)
      as (linfo & obj & _ & Hobj & Hm & Hk & _).
    unfold Download.process_rename, Download.download_file, Download.delete_local_file.
    destruct (dict_get local_files old) as [old_info|] eqn:G; [|apply emits_ret].
    apply dict_get_In in G. emits_auto; simpl;
      try (split; [reflexivity|]; exists obj; auto; fail);
      exists old, old_info; repeat split; auto; now apply s3_paths_set_has. }
  intros r'.
  eapply emits_bind_returns; [|apply confirm_deletions_returns|].
  { unfold Download.confirm_deletions. emits_auto;
      match goal with |- emits _ (match ?l with _ => _ end) => destruct l end; emits_auto. }
  intros orphans Hincl. apply emits_bind; [|intros; apply emits_ret].
  apply emits_for_each. intros [[path rel] size] r'' Hin.
  apply Hincl in Hin.
  unfold Download.orphaned_local_files in Hin. apply in_flat_map in Hin as ([rel' info] & Hl & H).
  assert (G : exists info,
             In (rel, info) local_files /\ file_path info = path
             /\ forall obj, In obj s3_objects -> is_folder_marker obj = false ->
                            rel_path_of prefix (Key obj) <> rel).
  { match type of H with In _ (if ?b then _ else _) => destruct b end; [contradiction|].
    destruct (dict_mem rel' s3_files) eqn:Hm; [contradiction|].
    assert (E : In (path, rel, size) [(file_path info, rel', file_size info)]).
    { destruct scope as [sc|]; [|auto].
      match type of H with In _ (if ?b then _ else _) => destruct b end; [|auto].
      destruct (os_path_relpath (file_path info) base); [|auto].
      match type of H with In _ (if ?b then _ else _) => destruct b end;
        [auto|contradiction]. }
    destruct E as [[= <- <- <-]|[]]. exists info. repeat split; auto.
    pose proof (build_s3_files_has s3_objects prefix scope rel' [] []) as Q.
    rewrite B in Q. apply Q. exact Hm. }
  destruct G as (oinfo & G1 & G2 & G3).
  unfold Download.delete_orphan, Download.delete_local_file.
  emits_auto; simpl; exists rel, oinfo; repeat split; auto; now rewrite G2.
Qed.
End DownloadSync.

Section DownloadRun.
Context {os : OsPath} {oc : Outcomes} {sm : Similarity} {lt : LiveTree}.

Lemma download_touches_from (bucket : string) (local_files : dict file_info)
    (s3_objects : list s3_object) (prefix : string) (e : event) :
  download_touches bucket local_files s3_objects prefix e -> download_call_from bucket e.
Proof. destruct e as [[]| |]; simpl; tauto. Qed.

Lemma download_run_calls_from (s3 : s3_client) (fs : filesystem)
    (project_root project_path : string) (bucket_override prefix_override : option string)
    (force dry_run yes return_preview_info : bool) :
  emits (download_call_from
           (run_bucket fs project_root project_path bucket_override prefix_override))
    (Download.sync_single_path s3 fs project_root project_path bucket_override
       prefix_override force dry_run yes return_preview_info).
Proof.
  unfold Download.sync_single_path, run_bucket.
  destruct (parse_project_path fs project_root project_path bucket_override prefix_override)
    as [[bucket prefix] local_path]. cbn [fst snd].
  match goal with |- emits _ (match ?l with _ => _ end) => destruct l as [s3_objects|] end;
    [|apply emits_ret].
  apply emits_bind; [apply emits_print; exact I|].
  intros _. apply emits_bind; [|intros; apply emits_ret].
  apply download_run_sync_emits; simpl; auto.
  intros dry _. eapply emits_weaken; [|apply download_sync_touches].
  apply download_touches_from.
Qed.
End DownloadRun.

(** X6.  [sync_from_s3] downloads only keys of listed files, from the
    bucket it is given, and removes only scanned files whose relative path
    no listed file has, and directories only as the emptied directory of
    such a file; it makes no call that changes the bucket. *)
Theorem download_removes_only_what_the_bucket_lacks {os : OsPath} {oc : Outcomes}
    {sm : Similarity} {lt : LiveTree}
    (fs : filesystem) (bucket project_root : string) (local_files : dict file_info)
    (s3_objects : list s3_object) (prefix base : string) (force dry_run : bool)
    (scope : option string) (w : world) :
  Forall (download_touches bucket local_files s3_objects prefix)
    (emitted (Download.sync_from_s3 fs bucket project_root local_files s3_objects prefix
                base force dry_run scope) w).
Proof. apply emits_emitted. apply download_sync_touches. Qed.

(** X7.  A download run makes no call that changes the bucket: its calls
    are downloads from the bucket of the run, directory creations,
    removals of local files and removals of emptied directories. *)
Theorem download_run_leaves_the_bucket_alone {os : OsPath} {oc : Outcomes}
    {sm : Similarity} {lt : LiveTree}
    (s3 : s3_client) (fs : filesystem) (project_root project_path : string)
    (bucket_override prefix_override : option string)
    (force dry_run yes return_preview_info : bool) (w : world) :
  Forall (download_call_from
            (run_bucket fs project_root project_path bucket_override prefix_override))
    (emitted (Download.sync_single_path s3 fs project_root project_path bucket_override
                prefix_override force dry_run yes return_preview_info) w).
Proof. apply emits_emitted. apply download_run_calls_from. Qed.

Section DownloadTally.
Context {os : OsPath} {oc : Outcomes} {sm : Similarity} {lt : LiveTree}.
Variable found : Prop.







(** The trace of the calls of the download script, one case per
    outcome. *)
Lemma emitted_step (w : world) (l : list event) :
  skipn (length (trace w)) (trace w ++ l) = l.
Proof. now rewrite skipn_app, skipn_all, Nat.sub_diag. Qed.








End DownloadTally.



(** X9.  Every rename that [detect_renames] returns pairs a scanned file
    and a listed file with the same content hash.  In the download script
    the old name is that of a local file that is not already matched and
    whose relative path no listed file has; in the upload script the old
    name is that of a listed file whose relative path no local file
    has. *)
Theorem renames_pair_files_of_equal_content {sm : Similarity}
    (local_files : dict file_info) (s3_objects : list s3_object) (prefix : string)
    (threshold : Q) (matched : list string) :
  (forall old info,
     In (old, info)
        (Download.detect_renames local_files s3_objects prefix threshold matched) ->
     same_content local_files s3_objects old (Download.new_s3_key info)
     /\ str_in old matched = false
     /\ forall obj, In obj s3_objects -> is_folder_marker obj = false ->
                    rel_path_of prefix (Key obj) <> old)
  /\ (forall key info,
        In (key, info)
           (Upload.detect_renames local_files s3_objects prefix threshold matched) ->
        same_content local_files s3_objects (Upload.new_local_path info) key
        /\ str_in (rel_path_of prefix key) (keys local_files) = false).
Proof.
  split.
  - intros old info H. split; [now apply download_rename_same_content with (1 := H)|].
    pose proof (download_rename_ok _ _ _ _ _ _ _ H) as (_ & _ & _ & _ & _ & _ & Hs3 & Hm & _).
    split; [assumption|]. now apply s3_paths_set_has.
  - intros key info H. now apply upload_rename_same_content with (1 := H).
Qed.

(** X10.  In the renames of the upload script's [detect_renames] no bucket
    key and no local path appears twice; in those of the download
    script's no local path appears twice as the old name. *)
Theorem rename_sides_unique {sm : Similarity}
    (local_files : dict file_info) (s3_objects : list s3_object) (prefix : string)
    (threshold : Q) (matched : list string) :
  (let renames := Upload.detect_renames local_files s3_objects prefix threshold matched in
   NoDup (keys renames)
   /\ NoDup (map (fun item => Upload.new_local_path (snd item)) renames))
  /\ NoDup (keys (Download.detect_renames local_files s3_objects prefix threshold matched)).
Proof.
  split.
  - destruct (upload_detect_renames_facts local_files s3_objects prefix threshold matched)
      as (_ & _ & A & B). auto.
  - now destruct (download_detect_renames_facts local_files s3_objects prefix threshold
                    matched) as (_ & _ & A).
Qed.

Ltac reads_nothing :=
  repeat match goal with
         | |- silent (ret _) => apply silent_ret
         | |- silent (bind _ _) => apply silent_bind; [|intros ?]
         | |- silent (print _) => apply silent_print
         | |- silent (perform _) => apply silent_perform
         | |- silent (if ?b then _ else _) => destruct b
         | |- silent (match ?x with Some _ => _ | None => _ end) => destruct x
         end.

Section Declined.
Context {os : OsPath} {oc : Outcomes} {sm : Similarity} {lt : LiveTree}.

Lemma silent_upload_sync (bucket local_dir : string) (local_files : dict file_info)
    (s3_objects : list s3_object) (prefix : string) (force dry_run : bool)
    (scope : option string) :
  silent (Upload.sync_to_s3 bucket local_dir local_files s3_objects prefix force dry_run scope).
Proof.
  unfold Upload.sync_to_s3.
  destruct (build_s3_files s3_objects prefix scope [] []) as [s3_files markers].
  apply silent_bind.
  { apply silent_for_each. intros [rel info] r.
    unfold Upload.process_local_file, Upload.upload_file. reads_nothing. }
  intros r. apply silent_bind.
  { apply silent_for_each. intros [[key rel] size] r'.
    unfold Upload.delete_orphan, Upload.delete_s3_object. reads_nothing. }
  intros r'. destruct local_files; [|apply silent_ret].
  destruct (Upload.orphaned_keys _ _ _); [apply silent_ret|].
  apply silent_bind; [|intros; apply silent_ret].
  apply silent_for_each. intros key r''.
  unfold Upload.delete_folder_marker, Upload.delete_s3_object. reads_nothing.
Qed.

Lemma silent_download_dry_sync (fs : filesystem) (bucket project_root : string)
    (local_files : dict file_info) (s3_objects : list s3_object) (prefix base : string)
    (force : bool) (scope : option string) :
  silent (Download.sync_from_s3 fs bucket project_root local_files s3_objects prefix base
            force true scope).
Proof.
  unfold Download.sync_from_s3.
  destruct (build_s3_files s3_objects prefix scope [] []) as [s3_files markers].
  apply silent_bind; [apply silent_transfer_and_rename|].
  intros r. apply silent_bind.
  { unfold Download.confirm_deletions.
    match goal with |- silent (match ?l with _ => _ end) => destruct l end; apply silent_ret. }
  intros orphans. apply silent_bind; [|intros; apply silent_ret].
  apply silent_for_each. intros [[path rel] size] r'.
  unfold Download.delete_orphan, Download.delete_local_file. reads_nothing.
Qed.

(** What the question of the default mode leads to when the answer is
    not a yes. *)
Lemma input_declined {R} (q : question) (yes_branch : io R) (m : message) (zero : R)
    (w : world) :
  declines (next_line w) = true ->
  let ask :=
    response <- input q ;;
    match response with
    | Some line => if is_yes line then yes_branch else print m ;;; ret zero
    | None => print m ;;; ret zero
    end in
  Forall (fun e => is_call e = false) (emitted ask w) /\ value ask w = zero.
Proof.
  intros D ask. subst ask. unfold emitted, value, bind, input, print, emit, ret, next_line in *.
  destruct (stdin w) as [|[line|] rest]; simpl in *.
  - rewrite <- app_assoc, emitted_step. split; [repeat constructor|reflexivity].
  - apply negb_true_iff in D. rewrite D. simpl.
    rewrite <- app_assoc, emitted_step. split; [repeat constructor|reflexivity].
  - rewrite <- app_assoc, emitted_step. split; [repeat constructor|reflexivity].
Qed.

Lemma next_line_silent {A} (m : io A) (w : world) :
  silent m -> next_line (snd (m w)) = next_line w.
Proof. intros H. unfold next_line. now rewrite H. Qed.

Lemma upload_run_sync_declined (project_path : string) (changes : bool)
    (sync : bool -> io Upload.result) (w : world) :
  (forall dry, emits anything (sync dry)) ->
  emits (fun e => is_call e = false) (sync true) -> silent (sync true) ->
  declines (next_line w) = true ->
  Forall (fun e => is_call e = false)
    (emitted (Upload.run_sync project_path changes false false sync) w)
  /\ value (Upload.run_sync project_path changes false false sync) w = Upload.zero.
Proof.
  intros Ha Hc Hs D. unfold Upload.run_sync. destruct changes.
  - match goal with
    | |- context [bind (sync true) ?k] =>
        assert (Ek : forall a, emits anything (k a)) by (intros a; emits_auto);
        destruct (@emitted_bind _ _ anything (sync true) k w (Ha true) Ek) as [-> ->]
    end.
    rewrite <- (@next_line_silent _ (sync true) w Hs) in D.
    destruct (input_declined (AskProceed project_path) (sync false)
                (MsgSkippedPath project_path) Upload.zero _ D) as [F V].
    split; [|exact V]. apply Forall_app. split; [|exact F].
    now destruct (emits_emitted w Hc).
  - unfold emitted, value, bind, print, emit, ret. simpl. rewrite emitted_step.
    split; [repeat constructor|reflexivity].
Qed.

Lemma download_run_sync_declined (project_path : string) (changes : bool)
    (sync : bool -> io Download.result) (w : world) :
  (forall dry, emits anything (sync dry)) ->
  emits (fun e => is_call e = false) (sync true) -> silent (sync true) ->
  declines (next_line w) = true ->
  Forall (fun e => is_call e = false)
    (emitted (Download.run_sync project_path changes false false sync) w)
  /\ value (Download.run_sync project_path changes false false sync) w = Download.zero.
Proof.
  intros Ha Hc Hs D. unfold Download.run_sync. destruct changes.
  - match goal with
    | |- context [bind (sync true) ?k] =>
        assert (Ek : forall a, emits anything (k a)) by (intros a; emits_auto);
        destruct (@emitted_bind _ _ anything (sync true) k w (Ha true) Ek) as [-> ->]
    end.
    rewrite <- (@next_line_silent _ (sync true) w Hs) in D.
    destruct (input_declined (AskProceed project_path) (sync false)
                (MsgSkippedPath project_path) Download.zero _ D) as [F V].
    split; [|exact V]. apply Forall_app. split; [|exact F].
    now destruct (emits_emitted w Hc).
  - unfold emitted, value, bind, print, emit, ret. simpl. rewrite emitted_step.
    split; [repeat constructor|reflexivity].
Qed.
End Declined.

Section DeclinedRun.
Context {os : OsPath} {oc : Outcomes} {sm : Similarity} {lt : LiveTree}.

Lemma upload_run_declined (s3 : s3_client) (fs : filesystem)
    (project_root project_path : string) (bucket_override prefix_override : option string)
    (force return_preview_info : bool) (w : world) :
  declines (next_line w) = true ->
  let run := Upload.sync_single_path s3 fs project_root project_path bucket_override
               prefix_override force false false return_preview_info in
  Forall (fun e => is_call e = false) (emitted run w)
  /\ (fst (value run w) = Upload.zero \/ fst (value run w) = Upload.one_failure).
Proof.
  intros D. unfold Upload.sync_single_path.
  destruct (parse_project_path fs project_root project_path bucket_override prefix_override)
    as [[bucket prefix] local_path].
  match goal with |- context [match ?l with Some _ => _ | None => _ end] =>
    destruct l as [s3_objects|] end.
  2:{ simpl. rewrite emitted_ret. split; [constructor|now right]. }
  cbv zeta.
  match goal with
  | |- context [Upload.run_sync _ _ _ _ ?f] => set (sync := f)
  end.
  assert (Ha : forall dry, emits anything (sync dry)).
  { intros dry. apply upload_sync_to_s3_emits; intros; exact I. }
  assert (Hc : emits (fun e => is_call e = false) (sync true)).
  { apply upload_sync_to_s3_emits; [reflexivity|discriminate]. }
  assert (Hs : silent (sync true)) by apply silent_upload_sync.
  match goal with
  | |- context [bind (Upload.show_preview ?pl) ?k] =>
      set (shown := Upload.show_preview pl); set (rest := k)
  end.
  assert (Er : forall a, emits anything (rest a)).
  { intros a. subst rest. apply emits_bind; [|intros; apply emits_ret].
    apply upload_run_sync_emits; intros; try exact I. apply Ha. }
  assert (Es : emits anything shown) by (apply emits_print; exact I).
  destruct (@emitted_bind _ _ anything shown rest w Es Er) as [-> ->].
  assert (D1 : declines (next_line (snd (shown w))) = true) by exact D.
  subst rest. cbv beta.
  match goal with
  | |- context [bind ?m (fun r => ret (r, ?x))] =>
      assert (Em : emits anything m)
        by (apply upload_run_sync_emits; intros; try exact I; apply Ha);
      destruct (@emitted_bind_ret _ _ m (fun r => (r, x)) (snd (shown w)) Em) as [-> ->];
      destruct (@upload_run_sync_declined project_path
                  (Upload.has_changes
                     (Upload.preview project_path prefix
                        (scope_of (path_is_file fs local_path project_path) prefix
                           (scope_filename fs local_path project_path))
                        (path_is_file fs local_path project_path) force
                        (if exists_ fs local_path then Upload.scan_local_files fs local_path
                         else []) s3_objects))
                  sync (snd (shown w)) Ha Hc Hs D1) as [F V]
  end.
  split.
  - apply Forall_app. split; [|exact F]. subst shown. unfold Upload.show_preview.
    rewrite emitted_print. repeat constructor.
  - left. cbn [fst]. exact V.
Qed.

Lemma download_run_declined (s3 : s3_client) (fs : filesystem)
    (project_root project_path : string) (bucket_override prefix_override : option string)
    (force return_preview_info : bool) (w : world) :
  declines (next_line w) = true ->
  let run := Download.sync_single_path s3 fs project_root project_path bucket_override
               prefix_override force false false return_preview_info in
  Forall (fun e => is_call e = false) (emitted run w)
  /\ (fst (value run w) = Download.zero \/ fst (value run w) = Download.one_failure).
Proof.
  intros D. unfold Download.sync_single_path.
  destruct (parse_project_path fs project_root project_path bucket_override prefix_override)
    as [[bucket prefix] local_path].
  match goal with |- context [match ?l with Some _ => _ | None => _ end] =>
    destruct l as [s3_objects|] end.
  2:{ simpl. rewrite emitted_ret. split; [constructor|now right]. }
  cbv zeta.
  match goal with
  | |- context [Download.run_sync _ _ _ _ ?f] => set (sync := f)
  end.
  assert (Ha : forall dry, emits anything (sync dry)).
  { intros dry. apply download_sync_from_s3_emits; intros; exact I. }
  assert (Hc : emits (fun e => is_call e = false) (sync true)).
  { apply download_sync_from_s3_emits; [reflexivity|discriminate|discriminate]. }
  assert (Hs : silent (sync true)) by apply silent_download_dry_sync.
  match goal with
  | |- context [bind (Download.show_preview ?pl) ?k] =>
      set (shown := Download.show_preview pl); set (rest := k)
  end.
  assert (Er : forall a, emits anything (rest a)).
  { intros a. subst rest. apply emits_bind; [|intros; apply emits_ret].
    apply download_run_sync_emits; intros; try exact I. apply Ha. }
  assert (Es : emits anything shown) by (apply emits_print; exact I).
  destruct (@emitted_bind _ _ anything shown rest w Es Er) as [-> ->].
  assert (D1 : declines (next_line (snd (shown w))) = true) by exact D.
  subst rest. cbv beta.
  match goal with
  | |- context [bind (Download.run_sync ?pp ?ch false false sync) (fun r => ret (r, ?x))] =>
      assert (Em : emits anything (Download.run_sync pp ch false false sync))
        by (apply download_run_sync_emits; intros; try exact I; apply Ha);
      destruct (@emitted_bind_ret _ _ (Download.run_sync pp ch false false sync)
                  (fun r => (r, x)) (snd (shown w)) Em) as [-> ->];
      destruct (@download_run_sync_declined pp ch sync (snd (shown w)) Ha Hc Hs D1) as [F V]
  end.
  split.
  - apply Forall_app. split; [|exact F]. subst shown. unfold Download.show_preview.
    rewrite emitted_print. repeat constructor.
  - left. cbn [fst]. exact V.
Qed.
End DeclinedRun.

(** X11.  Without [--dry-run] and [--yes], a run of [sync_single_path]
    whose question is not answered with a yes (another line, an
    interrupted read or the end of the input) makes no call at all, in
    either direction, and the tallies it returns are all zero, or one
    failure when the bucket could not be listed. *)
Theorem declined_run_changes_nothing {os : OsPath} {oc : Outcomes} {sm : Similarity} {lt : LiveTree}
    (s3 : s3_client) (fs : filesystem) (project_root project_path : string)
    (bucket_override prefix_override : option string)
    (force return_preview_info : bool) (w : world) :
  declines (next_line w) = true ->
  let up := Upload.sync_single_path s3 fs project_root project_path bucket_override
              prefix_override force false false return_preview_info in
  let down := Download.sync_single_path s3 fs project_root project_path bucket_override
                prefix_override force false false return_preview_info in
  (Forall (fun e => is_call e = false) (emitted up w)
   /\ (fst (value up w) = Upload.zero \/ fst (value up w) = Upload.one_failure))
  /\ (Forall (fun e => is_call e = false) (emitted down w)
      /\ (fst (value down w) = Download.zero \/ fst (value down w) = Download.one_failure)).
Proof.
  intros D up down. split; [now apply upload_run_declined|now apply download_run_declined].
Qed.

Lemma declined_run_changes_nothing_witness :
  let w := Host.quiet [Some "no"] in
  let up :=
    Upload.sync_single_path (os := Host.normal_paths) (oc := Host.all_succeed)
      Host.logo_bucket Host.logo_tree "/proj" "img" None None false false false false in
  declines (next_line w) = true
  /\ Forall (fun e => is_call e = false) (emitted up w)
  /\ In (Asked (AskProceed "img") (Some "no")) (emitted up w).
Proof.
  intros w up.
  assert (D : declines (next_line w) = true) by reflexivity.
  split; [exact D|]. split.
  - exact (proj1 (proj1 (@declined_run_changes_nothing Host.normal_paths Host.all_succeed
                           Host.difflib Host.files_stay Host.logo_bucket Host.logo_tree "/proj" "img" None None
                           false false w D))).
  - vm_compute. tauto.
Defined.

Section InSync.
Context {os : OsPath} {oc : Outcomes} {sm : Similarity} {lt : LiveTree}.

Lemma dict_map_set {V W} (f : V -> W) (d : dict V) (k : string) (v : V) :
  dict_map f (dict_set d k v) = dict_set (dict_map f d) k (f v).
Proof.
  induction d as [|[k' v'] d IH]; simpl; [reflexivity|].
  destruct (k' =? k); simpl; [reflexivity|]. now rewrite IH.
Qed.

Lemma dict_map_get {V W} (f : V -> W) (d : dict V) (k : string) :
  dict_get (dict_map f d) k = option_map f (dict_get d k).
Proof.
  induction d as [|[k' v'] d IH]; simpl; [reflexivity|].
  destruct (k' =? k); simpl; [reflexivity|]. exact IH.
Qed.

Lemma dict_map_mem {V W} (f : V -> W) (d : dict V) (k : string) :
  dict_mem k (dict_map f d) = dict_mem k d.
Proof. unfold dict_mem. rewrite dict_map_get. now destruct (dict_get d k). Qed.

Lemma dict_map_keys {V W} (f : V -> W) (d : dict V) : keys (dict_map f d) = keys d.
Proof. unfold keys, dict_map. rewrite map_map. reflexivity. Qed.

(** With every listed key within the scope, the files of the preview
    are those of the sync. *)
Lemma upload_preview_files_are_sync_files (s3_objects : list s3_object)
    (prefix scope : string) (sync_scope : option string) :
  Forall (fun obj => startswith (Key obj) scope = true) s3_objects ->
  Upload.preview_s3_files s3_objects prefix scope
  = dict_map s3_hash (fst (build_s3_files s3_objects prefix sync_scope [] [])).
Proof.
  unfold Upload.preview_s3_files. intros H.
  assert (G : forall (objs : list s3_object) (files : dict s3_info) (markers : list string),
             Forall (fun obj => startswith (Key obj) scope = true) objs ->
             fold_left (fun acc obj =>
                          if is_folder_marker obj then acc
                          else if nonempty scope && negb (startswith (Key obj) scope) then acc
                               else dict_set acc (rel_path_of prefix (Key obj)) (etag_of obj))
               objs (dict_map s3_hash files)
             = dict_map s3_hash (fst (build_s3_files objs prefix sync_scope files markers))).
  { induction objs as [|obj objs IH]; intros files markers Hs; simpl; [reflexivity|].
    inversion Hs as [|? ? Hk Hs']; subst.
    destruct (is_folder_marker obj); [apply IH; assumption|].
    rewrite Hk, andb_false_r. rewrite <- IH by assumption. f_equal.
    now rewrite dict_map_set. }
  apply (G s3_objects [] []). assumption.
Qed.

Lemma download_preview_files_are_sync_files (s3_objects : list s3_object)
    (prefix scope : string) (sync_scope : option string) :
  Forall (fun obj => startswith (Key obj) scope = true) s3_objects ->
  Download.preview_s3_files s3_objects prefix scope
  = dict_map (fun i => (s3_hash i, s3_size i))
      (fst (build_s3_files s3_objects prefix sync_scope [] [])).
Proof.
  unfold Download.preview_s3_files. intros H.
  set (f := fun i => (s3_hash i, s3_size i)).
  assert (G : forall (objs : list s3_object) (files : dict s3_info) (markers : list string),
             Forall (fun obj => startswith (Key obj) scope = true) objs ->
             fold_left (fun acc obj =>
                          if is_folder_marker obj then acc
                          else if nonempty scope && negb (startswith (Key obj) scope) then acc
                               else dict_set acc (rel_path_of prefix (Key obj))
                                      (etag_of obj, Size obj))
               objs (dict_map f files)
             = dict_map f (fst (build_s3_files objs prefix sync_scope files markers))).
  { induction objs as [|obj objs IH]; intros files markers Hs; simpl; [reflexivity|].
    inversion Hs as [|? ? Hk Hs']; subst.
    destruct (is_folder_marker obj); [apply IH; assumption|].
    rewrite Hk, andb_false_r. rewrite <- IH by assumption. f_equal.
    now rewrite dict_map_set. }
  apply (G s3_objects [] []). assumption.
Qed.

Lemma length_zero_nil {A} (l : list A) : negb (length l =? 0)%nat = false -> l = [].
Proof. destruct l; [reflexivity|discriminate]. Qed.

Lemma flat_map_nil_inv {A B} (f : A -> list B) (l : list A) :
  flat_map f l = [] -> forall x, In x l -> f x = [].
Proof.
  induction l as [|y l IH]; simpl; intros H x Hx; [contradiction|].
  apply app_eq_nil in H as [H1 H2]. destruct Hx as [<-|Hx]; auto.
Qed.

Lemma flat_map_nil {A B} (f : A -> list B) (l : list A) :
  (forall x, In x l -> f x = []) -> flat_map f l = [].
Proof.
  induction l as [|y l IH]; simpl; intros H; [reflexivity|].
  rewrite (H y) by now left. simpl. apply IH. intros; apply H; now right.
Qed.

Lemma filter_nil_inv {A} (f : A -> bool) (l : list A) :
  filter f l = [] -> forall x, In x l -> f x = false.
Proof.
  induction l as [|y l IH]; simpl; intros H x Hx; [contradiction|].
  destruct (f y) eqn:E; [discriminate|]. destruct Hx as [<-|Hx]; auto.
Qed.

Lemma does_nothing_ret {A} (a : A) : does_nothing a (ret a).
Proof. intros w. reflexivity. Qed.

Lemma does_nothing_bind {A B} (a : A) (b : B) (m : io A) (k : A -> io B) :
  does_nothing a m -> does_nothing b (k a) -> does_nothing b (bind m k).
Proof. intros Hm Hk w. unfold bind. rewrite Hm. apply Hk. Qed.

Lemma does_nothing_for_each {A S} (l : list A) (body : A -> S -> io S) (s : S) :
  (forall x, In x l -> does_nothing s (body x s)) -> does_nothing s (for_each l body s).
Proof.
  induction l as [|x l IH]; intros H; simpl; [apply does_nothing_ret|].
  eapply does_nothing_bind; [apply H; now left|]. apply IH. intros; apply H; now right.
Qed.

Lemma does_nothing_emitted {A} (a : A) (m : io A) (w : world) :
  does_nothing a m -> emitted m w = [] /\ value m w = a.
Proof.
  intros H. unfold emitted, value. rewrite H. simpl. split; [apply skipn_all|reflexivity].
Qed.

(** A plan without changes: [sync_to_s3] does nothing at all. *)
Lemma upload_sync_in_sync (bucket local_dir project_path : string)
    (local_files : dict file_info) (s3_objects : list s3_object) (prefix scope : string)
    (is_file force dry_run : bool) :
  Forall (fun obj => startswith (Key obj) scope = true) s3_objects ->
  Upload.has_changes
    (Upload.preview project_path prefix scope is_file force local_files s3_objects) = false ->
  does_nothing Upload.zero
    (Upload.sync_to_s3 bucket local_dir local_files s3_objects prefix force dry_run
       (Some scope)).
Proof.
  intros Hscope Hch. unfold Upload.has_changes in Hch.
  repeat (apply orb_false_iff in Hch as [Hch ?]).
  repeat match goal with H : negb (length _ =? 0)%nat = false |- _ =>
                           apply length_zero_nil in H end.
  unfold Upload.preview in *. cbn [Upload.plan_new Upload.plan_changed Upload.plan_orphaned] in *.
  rewrite (@upload_preview_files_are_sync_files s3_objects prefix scope (Some scope) Hscope) in *.
  unfold Upload.sync_to_s3.
  destruct (build_s3_files s3_objects prefix (Some scope) [] []) as [files markers] eqn:B.
  cbn [fst] in *.
  match goal with H : filter _ (keys local_files) = [] |- _ => rename H into Hnew end.
  match goal with H : flat_map _ local_files = [] |- _ => rename H into Hchanged end.
  match goal with H : filter _ (keys (dict_map _ _)) = [] |- _ => rename H into Horph end.
  assert (Hitem : forall rel info, In (rel, info) local_files ->
                    str_in rel (matched_files s3_hash local_files files) = true
                    /\ force = false).
  { intros rel info Hin.
    assert (Hk : In rel (keys local_files)) by (apply In_keys; eauto).
    pose proof (@filter_nil_inv _ _ _ Hnew rel Hk) as N. cbv beta in N.
    rewrite dict_map_mem in N. apply negb_false_iff in N.
    pose proof (@flat_map_nil_inv _ _ _ _ Hchanged (rel, info) Hin) as C. cbv beta in C. cbn [fst snd] in C.
    rewrite dict_map_get in C. unfold dict_mem in N.
    destruct (dict_get files rel) as [i|] eqn:G; [|discriminate]. simpl in C.
    destruct (force || negb (file_hash info =? s3_hash i)) eqn:F; [discriminate|].
    apply orb_false_iff in F as [-> F]. apply negb_false_iff in F.
    split; [|reflexivity]. eapply matched_files_In; [exact Hin|].
    unfold hash_matches. now rewrite G. }
  assert (Ho : Upload.orphaned_keys local_files files (Some scope) = []).
  { unfold Upload.orphaned_keys. apply flat_map_nil. intros [rel i] Hin.
    destruct (str_in (lower (splitext_ext rel)) Upload.SKIP_EXTENSIONS) eqn:S; [reflexivity|].
    rewrite dict_map_keys in Horph.
    assert (Hk : In rel (keys files)) by (apply In_keys; eauto).
    pose proof (@filter_nil_inv _ _ _ Horph rel Hk) as N. cbv beta in N.
    rewrite S in N. simpl in N. rewrite andb_true_r in N.
    now rewrite N. }
  rewrite Ho.
  eapply does_nothing_bind.
  { apply does_nothing_for_each. intros [rel info] Hin.
    destruct (Hitem _ _ Hin) as [M ->]. unfold Upload.process_local_file. rewrite M. simpl.
    apply does_nothing_ret. }
  eapply does_nothing_bind; [apply does_nothing_ret|].
  destruct local_files; apply does_nothing_ret.
Qed.
End InSync.

Section InSyncDownload.
Context {os : OsPath} {oc : Outcomes} {sm : Similarity} {lt : LiveTree}.

Lemma only_reports_ret {A} (a : A) : only_reports a (ret a).
Proof. split; [apply emits_ret|intros w; reflexivity]. Qed.

Lemma only_reports_bind {A B} (a : A) (b : B) (m : io A) (k : A -> io B) :
  only_reports a m -> only_reports b (k a) -> only_reports b (bind m k).
Proof.
  intros [Em Rm] [Ek Rk]. split.
  - eapply emits_bind_returns; [exact Em|exact Rm|]. intros x ->. exact Ek.
  - intros w. specialize (Rm w). unfold bind. destruct (m w) as [x w1]. simpl in Rm.
    subst x. apply Rk.
Qed.

Lemma only_reports_for_each {A S} (l : list A) (body : A -> S -> io S) (s : S) :
  (forall x, In x l -> only_reports s (body x s)) -> only_reports s (for_each l body s).
Proof.
  induction l as [|x l IH]; intros H; simpl; [apply only_reports_ret|].
  eapply only_reports_bind; [apply H; now left|]. apply IH. intros; apply H; now right.
Qed.

Lemma does_nothing_only_reports {A} (a : A) (m : io A) :
  does_nothing a m -> only_reports a m.
Proof.
  intros H. split.
  - intros w. exists []. rewrite H. simpl. now rewrite app_nil_r.
  - intros w. now rewrite H.
Qed.

Lemma only_reports_emitted {A} (a : A) (m : io A) (w : world) :
  only_reports a m ->
  Forall (fun e => is_call e = false /\ is_question e = false) (emitted m w)
  /\ value m w = a.
Proof. intros [E R]. split; [now destruct (emits_emitted w E)|apply R]. Qed.

Lemma matched_files_map {V W} (f : V -> W) (hash_of : W -> string)
    (local_files : dict file_info) (s3_files : dict V) :
  matched_files hash_of local_files (dict_map f s3_files)
  = matched_files (fun v => hash_of (f v)) local_files s3_files.
Proof.
  unfold matched_files. generalize (@nil string).
  induction local_files as [|item l IH]; intros acc; simpl; [reflexivity|].
  rewrite IH. f_equal. unfold hash_matches. rewrite dict_map_get.
  now destruct (dict_get s3_files (fst item)).
Qed.

Lemma filter_all_nil {A} (f : A -> bool) (l : list A) :
  (forall x, In x l -> f x = true) -> filter f l = [] -> l = [].
Proof.
  destruct l as [|x l]; [reflexivity|]. intros H. simpl. rewrite (H x) by now left.
  discriminate.
Qed.

(** A plan without changes: [sync_from_s3] without force only reports
    the files it skips. *)
Lemma download_sync_in_sync (fs : filesystem) (bucket project_root project_path : string)
    (local_files : dict file_info) (s3_objects : list s3_object)
    (prefix base scope : string) (is_file dry_run : bool) :
  Forall (fun obj => startswith (Key obj) scope = true) s3_objects ->
  Download.has_changes
    (Download.preview project_path prefix scope is_file local_files s3_objects) = false ->
  only_reports Download.zero
    (Download.sync_from_s3 fs bucket project_root local_files s3_objects prefix base
       false dry_run (Some scope)).
Proof.
  intros Hscope Hch. unfold Download.has_changes in Hch.
  repeat (apply orb_false_iff in Hch as [Hch ?]).
  repeat match goal with H : negb (length _ =? 0)%nat = false |- _ =>
                           apply length_zero_nil in H end.
  unfold Download.preview in *.
  cbn [Download.plan_new Download.plan_changed Download.plan_orphaned Download.plan_renames] in *.
  rewrite (@download_preview_files_are_sync_files s3_objects prefix scope (Some scope) Hscope)
    in *.
  rewrite (matched_files_map (fun i => (s3_hash i, s3_size i)) fst) in *. cbn [fst] in *.
  unfold Download.sync_from_s3.
  destruct (build_s3_files s3_objects prefix (Some scope) [] []) as [files markers] eqn:B.
  cbn [fst] in *.
  change (fun v : s3_info => s3_hash v) with s3_hash in *.
  set (matched := matched_files s3_hash local_files files) in *.
  set (renames := Download.detect_renames local_files s3_objects prefix
                    default_similarity_threshold matched) in *.
  match goal with H : filter _ (keys (dict_map _ files)) = [] |- _ => rename H into Hnew end.
  match goal with H : flat_map _ local_files = [] |- _ => rename H into Hchanged end.
  match goal with H : filter _ renames = [] |- _ => rename H into Hren end.
  match goal with H : filter _ (keys local_files) = [] |- _ => rename H into Horph end.
  assert (R : renames = []).
  { eapply filter_all_nil; [|exact Hren]. intros [old info] Hin. cbn [snd].
    destruct (nonempty scope); [|reflexivity].
    destruct (download_rename_same_content _ _ _ _ _ _ _ Hin)
      as (li & obj & _ & Hobj & _ & <- & _).
    rewrite Forall_forall in Hscope. now apply Hscope. }
  rewrite R in *. cbn [filter] in Horph. cbn [keys map].
  destruct (@build_s3_files_ok s3_objects prefix (Some scope) [] [] files markers B)
    as [_ Hnd]; [intros ? ? []|constructor|].
  rewrite dict_map_keys in Hnew.
  eapply only_reports_bind.
  { unfold Download.transfer_and_rename. eapply only_reports_bind; [|apply only_reports_ret].
    apply only_reports_for_each. intros [rel i] Hin.
    unfold Download.process_s3_file. cbn [str_in existsb].
    assert (Hk : In rel (keys files)) by (apply In_keys; eauto).
    pose proof (@filter_nil_inv _ _ _ Hnew rel Hk) as N. cbv beta in N.
    apply negb_false_iff in N. unfold dict_mem in N.
    destruct (dict_get local_files rel) as [li|] eqn:G; [|discriminate].
    apply dict_get_In in G.
    pose proof (@flat_map_nil_inv _ _ _ _ Hchanged (rel, li) G) as C. cbv beta in C.
    cbn [fst snd] in C. rewrite dict_map_get in C.
    rewrite (NoDup_keys_get _ _ _ Hnd Hin) in C. simpl in C.
    destruct (negb (file_hash li =? s3_hash i)) eqn:F; [discriminate|].
    simpl. split; [emits_auto|]. intros w. reflexivity. }
  assert (O : forall b, Download.orphaned_local_files local_files files [] prefix base b
                          (Some scope) = []).
  { intros b. unfold Download.orphaned_local_files. apply flat_map_nil. intros [rel info] Hin.
    cbn [str_in existsb].
    assert (Hk : In rel (keys local_files)) by (apply In_keys; eauto).
    pose proof (@filter_nil_inv _ _ _ Horph rel Hk) as N. cbv beta in N.
    rewrite dict_map_mem in N. unfold dict_mem at 2 in N. simpl in N.
    rewrite andb_true_r in N. apply negb_false_iff in N. now rewrite N. }
  rewrite O. cbn [Download.confirm_deletions].
  eapply only_reports_bind; [apply only_reports_ret|].
  eapply only_reports_bind; [apply only_reports_ret|].
  destruct local_files; [|destruct files]; apply only_reports_ret.
Qed.
End InSyncDownload.

Section NothingToDo.
Context {os : OsPath} {oc : Outcomes} {sm : Similarity} {lt : LiveTree}.

Lemma endswith_nonempty (s : string) : endswith s "/" = true -> nonempty s = true.
Proof. destruct s; [discriminate|reflexivity]. Qed.

(** What a run lists lies within its scope. *)
Lemma run_listing_in_scope (s3 : s3_client) (bucket prefix filename : string)
    (is_file : bool) (objs : list s3_object) :
  lists_by_prefix s3 -> endswith prefix "/" = true ->
  (if is_file then probe_single_key s3 bucket (prefix ++ filename)
   else list_all_objects s3 bucket prefix) = Some objs ->
  Forall (fun obj => startswith (Key obj) (scope_of is_file prefix filename) = true) objs.
Proof.
  intros Hs3 Hend. destruct is_file; simpl.
  - unfold probe_single_key. destruct (head_object s3 bucket (prefix ++ filename)).
    + intros [= <-]. repeat constructor. simpl. apply startswith_refl.
    + intros [= <-]. constructor.
    + discriminate.
  - unfold list_all_objects. rewrite (endswith_nonempty _ Hend). apply Hs3.
Qed.

Lemma upload_run_sync_quiet (project_path : string) (dry_run yes : bool)
    (sync : bool -> io Upload.result) :
  (forall dry, only_reports Upload.zero (sync dry)) ->
  only_reports Upload.zero (Upload.run_sync project_path false dry_run yes sync).
Proof.
  intros H. unfold Upload.run_sync. destruct dry_run; [apply H|]. destruct yes; [apply H|].
  split; [emits_auto|]. intros w. reflexivity.
Qed.

Lemma download_run_sync_quiet (project_path : string) (dry_run yes : bool)
    (sync : bool -> io Download.result) :
  (forall dry, only_reports Download.zero (sync dry)) ->
  only_reports Download.zero (Download.run_sync project_path false dry_run yes sync).
Proof.
  intros H. unfold Download.run_sync. destruct dry_run; [apply H|]. destruct yes; [apply H|].
  split; [emits_auto|]. intros w. reflexivity.
Qed.

Lemma upload_run_nothing_to_do (s3 : s3_client) (fs : filesystem)
    (project_root project_path : string) (bucket_override prefix_override : option string)
    (force dry_run yes return_preview_info : bool) (w : world) :
  lists_by_prefix s3 ->
  let run := Upload.sync_single_path s3 fs project_root project_path bucket_override
               prefix_override force dry_run yes return_preview_info in
  In (Printed (MsgPreview [] [] [] [] [] [])) (emitted run w) ->
  Forall (fun e => is_call e = false /\ is_question e = false) (emitted run w)
  /\ fst (value run w) = Upload.zero.
Proof.
  intros Hs3.
  pose proof (run_prefix_shape fs project_root project_path bucket_override prefix_override)
    as [Hend _]. unfold run_prefix in Hend.
  unfold Upload.sync_single_path.
  destruct (parse_project_path fs project_root project_path bucket_override prefix_override)
    as [[bucket prefix] local_path]. cbn [fst snd] in Hend.
  set (is_file := path_is_file fs local_path project_path).
  set (filename := scope_filename fs local_path project_path).
  set (scope := scope_of is_file prefix filename).
  set (local_files := if exists_ fs local_path then Upload.scan_local_files fs local_path
                      else []).
  destruct (if is_file then probe_single_key s3 bucket (prefix ++ filename)
            else list_all_objects s3 bucket prefix) as [s3_objects|] eqn:L.
  2:{ cbv zeta. rewrite emitted_ret. intros []. }
  pose proof (@run_listing_in_scope s3 bucket prefix filename is_file s3_objects Hs3 Hend L)
    as Hscope.
  fold scope in Hscope. cbv zeta.
  set (pl := Upload.preview project_path prefix scope is_file force local_files s3_objects).
  match goal with |- context [Upload.run_sync _ _ _ _ ?f] => set (sync := f) end.
  match goal with
  | |- context [bind (Upload.show_preview pl) ?k] => set (rest := k)
  end.
  assert (Ha : forall dry, emits (fun e => is_preview e = false) (sync dry)).
  { intros dry. apply upload_sync_to_s3_emits; intros; auto. }
  assert (Er : forall a, emits (fun e => is_preview e = false) (rest a)).
  { intros a. subst rest. apply emits_bind; [|intros; apply emits_ret].
    apply upload_run_sync_emits; intros; auto. }
  assert (Es : emits anything (Upload.show_preview pl)) by (apply emits_print; exact I).
  assert (Er' : forall a, emits anything (rest a)).
  { intros a. eapply emits_weaken; [|apply Er]. intros; exact I. }
  destruct (@emitted_bind _ _ anything (Upload.show_preview pl) rest w Es Er') as [-> ->].
  unfold Upload.show_preview at 1. rewrite emitted_print.
  intros [[= N C O D A]|Hin].
  2:{ exfalso. destruct (emits_emitted (snd (Upload.show_preview pl w)) (Er (value (Upload.show_preview pl) w)))
        as [_ F].
      rewrite Forall_forall in F. apply F in Hin. discriminate. }
  assert (Hch : Upload.has_changes pl = false).
  { unfold Upload.has_changes.
    rewrite (N : Upload.plan_new pl = []), (C : Upload.plan_changed pl = []),
      (O : Upload.plan_orphaned pl = []), (D : Upload.plan_folders_to_delete pl = []),
      (A : Upload.plan_folders_to_add pl = []). reflexivity. }
  assert (Q : forall dry, only_reports Upload.zero (sync dry)).
  { intros dry. apply does_nothing_only_reports. subst sync.
    eapply upload_sync_in_sync; [exact Hscope|exact Hch]. }
  subst rest. cbv beta. rewrite Hch.
  pose proof (@upload_run_sync_quiet project_path dry_run yes sync Q) as [E R].
  match goal with
  | |- context [bind ?m (fun r => ret (r, ?x))] =>
      assert (Em : emits anything m) by (eapply emits_weaken; [|exact E]; intros; exact I);
      destruct (@emitted_bind_ret _ _ m (fun r => (r, x)) (snd (Upload.show_preview pl w)) Em)
        as [-> ->]
  end.
  split.
  - apply Forall_app. split.
    + unfold Upload.show_preview. rewrite emitted_print. repeat constructor.
    + now destruct (emits_emitted (snd (Upload.show_preview pl w)) E).
  - cbn [fst]. apply R.
Qed.

Lemma download_run_nothing_to_do (s3 : s3_client) (fs : filesystem)
    (project_root project_path : string) (bucket_override prefix_override : option string)
    (dry_run yes return_preview_info : bool) (w : world) :
  lists_by_prefix s3 ->
  let run := Download.sync_single_path s3 fs project_root project_path bucket_override
               prefix_override false dry_run yes return_preview_info in
  In (Printed (MsgPreview [] [] [] [] [] [])) (emitted run w) ->
  Forall (fun e => is_call e = false /\ is_question e = false) (emitted run w)
  /\ fst (value run w) = Download.zero.
Proof.
  intros Hs3.
  pose proof (run_prefix_shape fs project_root project_path bucket_override prefix_override)
    as [Hend _]. unfold run_prefix in Hend.
  unfold Download.sync_single_path.
  destruct (parse_project_path fs project_root project_path bucket_override prefix_override)
    as [[bucket prefix] local_path]. cbn [fst snd] in Hend.
  set (is_file := path_is_file fs local_path project_path).
  set (filename := scope_filename fs local_path project_path).
  set (scope := scope_of is_file prefix filename).
  set (local_files := if exists_ fs local_path then Download.scan_local_files fs local_path
                      else []).
  destruct (if is_file then probe_single_key s3 bucket (prefix ++ filename)
            else list_all_objects s3 bucket prefix) as [s3_objects|] eqn:L.
  2:{ cbv zeta. rewrite emitted_ret. intros []. }
  pose proof (@run_listing_in_scope s3 bucket prefix filename is_file s3_objects Hs3 Hend L)
    as Hscope.
  fold scope in Hscope. cbv zeta.
  set (pl := Download.preview project_path prefix scope is_file local_files s3_objects).
  match goal with |- context [Download.run_sync _ _ _ _ ?f] => set (sync := f) end.
  match goal with
  | |- context [bind (Download.show_preview pl) ?k] => set (rest := k)
  end.
  assert (Ha : forall dry, emits (fun e => is_preview e = false) (sync dry)).
  { intros dry. apply download_sync_from_s3_emits; intros; auto. }
  assert (Er : forall a, emits (fun e => is_preview e = false) (rest a)).
  { intros a. subst rest. apply emits_bind; [|intros; apply emits_ret].
    apply download_run_sync_emits; intros; auto. }
  assert (Es : emits anything (Download.show_preview pl)) by (apply emits_print; exact I).
  assert (Er' : forall a, emits anything (rest a)).
  { intros a. eapply emits_weaken; [|apply Er]. intros; exact I. }
  destruct (@emitted_bind _ _ anything (Download.show_preview pl) rest w Es Er') as [-> ->].
  unfold Download.show_preview at 1. rewrite emitted_print.
  intros [[= N C Rn O D A]|Hin].
  2:{ exfalso.
      destruct (emits_emitted (snd (Download.show_preview pl w))
                  (Er (value (Download.show_preview pl) w))) as [_ F].
      rewrite Forall_forall in F. apply F in Hin. discriminate. }
  apply map_eq_nil in Rn.
  assert (Hch : Download.has_changes pl = false).
  { unfold Download.has_changes.
    rewrite (N : Download.plan_new pl = []), (C : Download.plan_changed pl = []),
      (O : Download.plan_orphaned pl = []), (Rn : Download.plan_renames pl = []),
      (D : Download.plan_folders_to_delete pl = []),
      (A : Download.plan_folders_to_add pl = []). reflexivity. }
  assert (Q : forall dry, only_reports Download.zero (sync dry)).
  { intros dry. subst sync. eapply download_sync_in_sync; [exact Hscope|exact Hch]. }
  subst rest. cbv beta. rewrite Hch.
  pose proof (@download_run_sync_quiet project_path dry_run yes sync Q) as [E R].
  match goal with
  | |- context [bind ?m (fun r => ret (r, ?x))] =>
      assert (Em : emits anything m) by (eapply emits_weaken; [|exact E]; intros; exact I);
      destruct (@emitted_bind_ret _ _ m (fun r => (r, x)) (snd (Download.show_preview pl w)) Em)
        as [-> ->]
  end.
  split.
  - apply Forall_app. split.
    + unfold Download.show_preview. rewrite emitted_print. repeat constructor.
    + now destruct (emits_emitted (snd (Download.show_preview pl w)) E).
  - cbn [fst]. apply R.
Qed.
End NothingToDo.

Lemma host_bucket_lists_by_prefix (objs : list s3_object) : lists_by_prefix (Host.bucket objs).
Proof.
  intros bucket prefix listed [= <-]. apply Forall_forall. intros obj H.
  now apply filter_In in H.
Qed.

(** X12.  When the bucket lists by prefix and the preview of an upload run
    shows no change at all, the run makes no call and asks nothing,
    whatever its mode, and all its tallies are zero. *)
Theorem upload_run_with_nothing_to_do {os : OsPath} {oc : Outcomes}
    (s3 : s3_client) (fs : filesystem) (project_root project_path : string)
    (bucket_override prefix_override : option string)
    (force dry_run yes return_preview_info : bool) (w : world) :
  lists_by_prefix s3 ->
  let run := Upload.sync_single_path s3 fs project_root project_path bucket_override
               prefix_override force dry_run yes return_preview_info in
  In (Printed (MsgPreview [] [] [] [] [] [])) (emitted run w) ->
  Forall (fun e => is_call e = false /\ is_question e = false) (emitted run w)
  /\ fst (value run w) = Upload.zero.
Proof. intros H run. now apply upload_run_nothing_to_do. Qed.

Lemma upload_run_with_nothing_to_do_witness :
  let run :=
    Upload.sync_single_path (os := Host.normal_paths) (oc := Host.all_succeed)
      Host.site_bucket Host.page_tree "/proj" "index.html" None None false false true false in
  emitted run (Host.quiet []) = [Printed (MsgPreview [] [] [] [] [] [])]
  /\ fst (value run (Host.quiet [])) = Upload.zero.
Proof.
  intros run.
  assert (P : emitted run (Host.quiet []) = [Printed (MsgPreview [] [] [] [] [] [])])
    by (vm_compute; reflexivity).
  split; [exact P|].
  apply (@upload_run_with_nothing_to_do Host.normal_paths Host.all_succeed Host.site_bucket
           Host.page_tree "/proj" "index.html" None None false false true false (Host.quiet [])
           (@host_bucket_lists_by_prefix _)).
  fold run. rewrite P. now left.
Defined.

(** X13.  When the bucket lists by prefix and the preview of a download
    run without force shows no change at all, the run makes no call and
    asks nothing, whatever its mode, and all its tallies are zero. *)
Theorem download_run_with_nothing_to_do {os : OsPath} {oc : Outcomes}
    {sm : Similarity} {lt : LiveTree}
    (s3 : s3_client) (fs : filesystem) (project_root project_path : string)
    (bucket_override prefix_override : option string)
    (dry_run yes return_preview_info : bool) (w : world) :
  lists_by_prefix s3 ->
  let run := Download.sync_single_path s3 fs project_root project_path bucket_override
               prefix_override false dry_run yes return_preview_info in
  In (Printed (MsgPreview [] [] [] [] [] [])) (emitted run w) ->
  Forall (fun e => is_call e = false /\ is_question e = false) (emitted run w)
  /\ fst (value run w) = Download.zero.
Proof. intros H run. now apply download_run_nothing_to_do. Qed.

Lemma download_run_with_nothing_to_do_witness :
  let run :=
    Download.sync_single_path (os := Host.normal_paths) (oc := Host.all_succeed)
      (sm := Host.difflib) (lt := Host.files_stay)
      Host.site_bucket Host.page_tree "/proj" "index.html" None None false false true false in
  emitted run (Host.quiet [])
  = [Printed (MsgPreview [] [] [] [] [] []); Printed (MsgSkippedUnchanged "index.html")]
  /\ fst (value run (Host.quiet [])) = Download.zero.
Proof.
  intros run.
  assert (P : emitted run (Host.quiet [])
              = [Printed (MsgPreview [] [] [] [] [] []);
                 Printed (MsgSkippedUnchanged "index.html")])
    by (vm_compute; reflexivity).
  split; [exact P|].
  apply (@download_run_with_nothing_to_do Host.normal_paths Host.all_succeed Host.difflib Host.files_stay
           Host.site_bucket Host.page_tree "/proj" "index.html" None None false true false
           (Host.quiet []) (@host_bucket_lists_by_prefix _)).
  fold run. rewrite P. now left.
Defined.

Section Scans.
Context {os : OsPath}.

(** An invariant of the scan that adding a file keeps is kept by the
    walk. *)
Lemma upload_walk_keeps (ok : string -> bool) (P : dict file_info -> Prop) :
  (forall rel name full etag size d,
     ok name = true -> str_in name Upload.skip_files = false -> P d ->
     P (Upload.add_scanned (replace (Upload.rel_join rel name) backslash slash) full etag
          size d)) ->
  forall (n : node) (root rel : string) (d : dict file_info),
    file_names ok n = true -> P d -> P (Upload.walk n root rel d).
Proof.
  intros Hadd.
  induction n as [etag size|entries IH] using node_tree_ind; intros root rel d Hn Hd;
    [exact Hd|].
  simpl in Hn. rewrite forallb_forall in Hn. simpl.
  match goal with
  | |- P (_ entries (fold_left ?f entries d)) => assert (Hfiles : P (fold_left f entries d))
  end.
  { clear IH. revert d Hd. induction entries as [|[name child] es IHes]; intros d Hd;
      [exact Hd|].
    simpl. apply IHes; [intros; apply Hn; now right|].
    pose proof (Hn (name, child) (or_introl eq_refl)) as Hc. cbn [fst snd] in *.
    destruct child as [etag size|sub]; [|exact Hd].
    match goal with |- P (if ?b then _ else _) => destruct b eqn:S end; [exact Hd|].
    match goal with |- P (if ?b then _ else _) => destruct b end; [exact Hd|].
    apply Hadd; [exact Hc|exact S|exact Hd]. }
  revert Hfiles.
  match goal with |- P ?acc0 -> P (_ entries ?acc0) => generalize acc0 end.
  induction entries as [|[name child] es IHes]; intros acc Hacc; [exact Hacc|].
  inversion IH as [|? ? Hchild Hrest]; subst.
  pose proof (Hn (name, child) (or_introl eq_refl)) as Hc. cbn [fst snd] in *.
  assert (Hn' : forall x, In x es -> match snd x with
                                     | File _ _ => ok (fst x)
                                     | Dir _ => file_names ok (snd x)
                                     end = true) by (intros; apply Hn; now right).
  simpl. destruct child as [etag size|sub].
  - now apply IHes.
  - destruct (name =? "archive"); [now apply IHes|]. apply IHes; auto.
Qed.

Lemma download_walk_keeps (ok : string -> bool) (P : dict file_info -> Prop) :
  (forall rel name full etag size d,
     ok name = true -> str_in name Download.skip_files = false -> P d ->
     P (Download.add_scanned (replace (Download.rel_join rel name) backslash slash) full etag
          size d)) ->
  forall (n : node) (root rel : string) (d : dict file_info),
    file_names ok n = true -> P d -> P (Download.walk n root rel d).
Proof.
  intros Hadd.
  induction n as [etag size|entries IH] using node_tree_ind; intros root rel d Hn Hd;
    [exact Hd|].
  simpl in Hn. rewrite forallb_forall in Hn. simpl.
  match goal with
  | |- P (_ entries (fold_left ?f entries d)) => assert (Hfiles : P (fold_left f entries d))
  end.
  { clear IH. revert d Hd. induction entries as [|[name child] es IHes]; intros d Hd;
      [exact Hd|].
    simpl. apply IHes; [intros; apply Hn; now right|].
    pose proof (Hn (name, child) (or_introl eq_refl)) as Hc. cbn [fst snd] in *.
    destruct child as [etag size|sub]; [|exact Hd].
    match goal with |- P (if ?b then _ else _) => destruct b eqn:S end; [exact Hd|].
    apply Hadd; [exact Hc|exact S|exact Hd]. }
  revert Hfiles.
  match goal with |- P ?acc0 -> P (_ entries ?acc0) => generalize acc0 end.
  induction entries as [|[name child] es IHes]; intros acc Hacc; [exact Hacc|].
  inversion IH as [|? ? Hchild Hrest]; subst.
  pose proof (Hn (name, child) (or_introl eq_refl)) as Hc. cbn [fst snd] in *.
  assert (Hn' : forall x, In x es -> match snd x with
                                     | File _ _ => ok (fst x)
                                     | Dir _ => file_names ok (snd x)
                                     end = true) by (intros; apply Hn; now right).
  simpl. destruct child as [etag size|sub].
  - now apply IHes.
  - apply IHes; auto.
Qed.

Lemma file_names_any (n : node) : file_names (fun _ => true) n = true.
Proof.
  induction n as [etag size|entries IH] using node_tree_ind; [reflexivity|].
  simpl. apply forallb_forall. intros [name child] Hin. rewrite Forall_forall in IH.
  specialize (IH _ Hin). simpl in *. now destruct child.
Qed.

Lemma well_formed_set (d : dict file_info) (k : string) (info : file_info) :
  nonempty (file_hash info) = true -> well_formed_scan d ->
  well_formed_scan (dict_set d k info).
Proof.
  intros Hh [Hnd Hall]. split; [now apply NoDup_keys_dict_set|].
  intros k' i Hin. apply dict_set_In in Hin as [[-> ->]|Hin]; eauto.
Qed.

Lemma well_formed_nil : well_formed_scan [].
Proof. split; [constructor|intros ? ? []]. Qed.

Lemma upload_scan_well_formed (fs : filesystem) (local_path : string) :
  well_formed_scan (Upload.scan_local_files fs local_path).
Proof.
  assert (A : forall key full etag size d,
             well_formed_scan d -> well_formed_scan (Upload.add_scanned key full etag size d)).
  { intros key full etag size d Hd. unfold Upload.add_scanned.
    destruct etag as [h|]; [|exact Hd]. destruct (nonempty h) eqn:N; [|exact Hd].
    now apply well_formed_set. }
  unfold Upload.scan_local_files.
  destruct (fs (os_path_normpath local_path)) as [[etag size|entries]|].
  - match goal with |- well_formed_scan (if ?b then _ else _) => destruct b end;
      [apply A|]; apply well_formed_nil.
  - apply upload_walk_keeps with (ok := fun _ => true);
      [intros; now apply A|apply file_names_any|apply well_formed_nil].
  - apply well_formed_nil.
Qed.

Lemma download_scan_well_formed (fs : filesystem) (local_path : string) :
  well_formed_scan (Download.scan_local_files fs local_path).
Proof.
  assert (A : forall key full etag size d,
             well_formed_scan d ->
             well_formed_scan (Download.add_scanned key full etag size d)).
  { intros key full etag size d Hd. unfold Download.add_scanned.
    destruct etag as [h|]; [|exact Hd]. destruct (nonempty h) eqn:N; [|exact Hd].
    now apply well_formed_set. }
  unfold Download.scan_local_files.
  destruct (fs (os_path_normpath local_path)) as [[etag size|entries]|].
  - match goal with |- well_formed_scan (if ?b then _ else _) => destruct b end;
      [apply A|]; apply well_formed_nil.
  - apply download_walk_keeps with (ok := fun _ => true);
      [intros; now apply A|apply file_names_any|apply well_formed_nil].
  - apply well_formed_nil.
Qed.
End Scans.

(** X14.  In either script, [scan_local_files] returns no relative path
    twice and no entry with an empty hash: a file whose hash cannot be
    computed is left out of the scan. *)
Theorem scans_are_well_formed {os : OsPath} (fs : filesystem) (local_path : string) :
  well_formed_scan (Upload.scan_local_files fs local_path)
  /\ well_formed_scan (Download.scan_local_files fs local_path).
Proof. split; [apply upload_scan_well_formed|apply download_scan_well_formed]. Qed.

Section SkippedNames.
Context {os : OsPath}.

Lemma after_last_clean (c : ascii) (s : string) : contains c (after_last c s) = false.
Proof.
  induction s as [|a s IH]; [reflexivity|]. simpl.
  destruct (contains c s) eqn:E; [exact IH|].
  destruct (Ascii.eqb a c) eqn:F; [exact E|]. simpl. now rewrite F, E.
Qed.

Lemma basename_basename (p : string) : basename (basename p) = basename p.
Proof. unfold basename. apply after_last_without. apply after_last_clean. Qed.

Lemma replace_absent (s : string) (a b : ascii) :
  contains a s = false -> replace s a b = s.
Proof.
  induction s as [|x s IH]; [reflexivity|]. simpl. intros H.
  apply orb_false_iff in H as [H1 H2]. rewrite H1, IH by assumption. reflexivity.
Qed.

Lemma basename_of_scanned (rel name : string) :
  plain name = true ->
  basename (replace (Upload.rel_join rel name) backslash slash) = name.
Proof.
  unfold plain. intros H. apply andb_true_iff in H as [H1 H2].
  apply negb_true_iff in H1. apply negb_true_iff in H2.
  unfold Upload.rel_join, basename. destruct (nonempty rel).
  - rewrite replace_app. simpl. rewrite (@replace_absent name backslash slash H2).
    change (String (if Ascii.eqb "/" backslash then slash else "/"%char) name)
      with (String slash name).
    rewrite after_last_app_sep. now apply after_last_without.
  - rewrite (@replace_absent name backslash slash H2). now apply after_last_without.
Qed.

Lemma no_skipped_name_add (skip : list string) (key full : string) (etag : option string)
    (size : Z) (d : dict file_info) (add : dict file_info) :
  add = match etag with
        | Some h =>
            if nonempty h
            then dict_set d key {| file_hash := h; file_size := size; file_path := full |}
            else d
        | None => d
        end ->
  str_in (basename key) skip = false -> no_skipped_name skip d -> no_skipped_name skip add.
Proof.
  intros -> Hk Hd. destruct etag as [h|]; [|assumption].
  destruct (nonempty h); [|assumption]. intros k Hin.
  apply In_keys in Hin as [v Hin]. apply dict_set_In in Hin as [[-> _]|Hin]; [assumption|].
  apply Hd, In_keys. eauto.
Qed.

Lemma upload_scan_no_skipped_name (fs : filesystem) (local_path : string) :
  (forall n, fs (os_path_normpath local_path) = Some n -> file_names plain n = true) ->
  no_skipped_name Upload.skip_files (Upload.scan_local_files fs local_path).
Proof.
  intros Hplain. unfold Upload.scan_local_files.
  destruct (fs (os_path_normpath local_path)) as [[etag size|entries]|] eqn:F.
  - destruct (negb (str_in _ Upload.skip_files) && negb (str_in _ Upload.SKIP_EXTENSIONS))
      eqn:E; [|intros k []].
    apply andb_true_iff in E as [E _]. apply negb_true_iff in E.
    eapply no_skipped_name_add; [reflexivity| |intros k []].
    now rewrite basename_basename.
  - apply upload_walk_keeps with (ok := plain); [|now apply Hplain|intros k []].
    intros rel name full etag size d Hok Hs Hd.
    eapply no_skipped_name_add; [reflexivity| |exact Hd].
    now rewrite basename_of_scanned.
  - intros k [].
Qed.

Lemma download_scan_no_skipped_name (fs : filesystem) (local_path : string) :
  (forall n, fs (os_path_normpath local_path) = Some n -> file_names plain n = true) ->
  no_skipped_name Download.skip_files (Download.scan_local_files fs local_path).
Proof.
  intros Hplain. unfold Download.scan_local_files.
  destruct (fs (os_path_normpath local_path)) as [[etag size|entries]|] eqn:F.
  - destruct (negb (str_in _ Download.skip_files)) eqn:E; [|intros k []].
    apply negb_true_iff in E.
    eapply no_skipped_name_add; [reflexivity| |intros k []].
    now rewrite basename_basename.
  - apply download_walk_keeps with (ok := plain); [|now apply Hplain|intros k []].
    intros rel name full etag size d Hok Hs Hd.
    eapply no_skipped_name_add; [reflexivity| |exact Hd].
    change (Download.rel_join rel name) with (Upload.rel_join rel name).
    now rewrite basename_of_scanned.
  - intros k [].
Qed.

(** Emptying the directories named [archive] changes nothing for the
    walk of the upload script. *)
Lemma upload_walk_without_archive :
  forall (n : node) (root rel : string) (d : dict file_info),
    Upload.walk (without_archive n) root rel d = Upload.walk n root rel d.
Proof.
  induction n as [etag size|entries IH] using node_tree_ind; intros root rel d;
    [reflexivity|].
  cbn [without_archive Upload.walk].
  match goal with
  | |- _ (map ?g entries) (fold_left ?f (map ?g entries) d) = _ =>
      set (prune := g);
      assert (Hfiles : forall acc, fold_left f (map prune entries) acc = fold_left f entries acc)
  end.
  { clear IH. induction entries as [|[name child] es IHes]; intros acc; [reflexivity|].
    simpl. rewrite IHes. f_equal. destruct child; [reflexivity|].
    now destruct (name =? "archive"). }
  rewrite Hfiles.
  match goal with |- _ (map prune entries) ?acc0 = _ => generalize acc0 end.
  clear Hfiles.
  induction entries as [|[name child] es IHes]; intros acc; [reflexivity|].
  inversion IH as [|? ? Hchild Hrest]; subst. cbn [snd] in Hchild.
  simpl. destruct child as [etag size|sub].
  - now apply IHes.
  - destruct (name =? "archive") eqn:E; [now apply IHes|].
    rewrite (Hchild _ _ _).
    now apply IHes.
Qed.
End SkippedNames.

Section Archives.
Context {os : OsPath} {oc : Outcomes}.

Lemma exists_archives_emptied (fs : filesystem) (p : string) :
  exists_ (archives_emptied fs) p = exists_ fs p.
Proof. unfold exists_, archives_emptied. now destruct (fs p). Qed.

Lemma isfile_archives_emptied (fs : filesystem) (p : string) :
  isfile (archives_emptied fs) p = isfile fs p.
Proof. unfold isfile, archives_emptied. now destruct (fs p) as [[]|]. Qed.

Lemma isdir_archives_emptied (fs : filesystem) (p : string) :
  isdir (archives_emptied fs) p = isdir fs p.
Proof. unfold isdir, archives_emptied. now destruct (fs p) as [[]|]. Qed.

Lemma upload_scan_archives_emptied (fs : filesystem) (local_path : string) :
  Upload.scan_local_files (archives_emptied fs) local_path
  = Upload.scan_local_files fs local_path.
Proof.
  unfold Upload.scan_local_files, archives_emptied.
  destruct (fs (os_path_normpath local_path)) as [[etag size|entries]|]; simpl;
    [reflexivity| |reflexivity].
  apply (upload_walk_without_archive (Dir entries)).
Qed.

Lemma parse_archives_emptied (fs : filesystem) (project_root project_path : string)
    (bucket_override prefix_override : option string) :
  parse_project_path (archives_emptied fs) project_root project_path bucket_override
    prefix_override
  = parse_project_path fs project_root project_path bucket_override prefix_override.
Proof.
  unfold parse_project_path.
  now rewrite !exists_archives_emptied, isfile_archives_emptied, isdir_archives_emptied.
Qed.

Lemma upload_run_archives_emptied (s3 : s3_client) (fs : filesystem)
    (project_root project_path : string) (bucket_override prefix_override : option string)
    (force dry_run yes return_preview_info : bool) :
  Upload.sync_single_path s3 (archives_emptied fs) project_root project_path bucket_override
    prefix_override force dry_run yes return_preview_info
  = Upload.sync_single_path s3 fs project_root project_path bucket_override
      prefix_override force dry_run yes return_preview_info.
Proof.
  unfold Upload.sync_single_path. rewrite parse_archives_emptied.
  destruct (parse_project_path fs project_root project_path bucket_override prefix_override)
    as [[bucket prefix] local_path].
  unfold path_is_file, scope_filename.
  now rewrite !exists_archives_emptied, !isfile_archives_emptied, upload_scan_archives_emptied.
Qed.
End Archives.

(** X15.  Neither script scans a file named [.s3-sync-metadata.json],
    [generate-index.js] or [README.md]: when the names of the files of
    the scanned tree hold no separator, no key of the scan ends in such a
    name. *)
Theorem skipped_names_never_scanned {os : OsPath} (fs : filesystem) (local_path : string) :
  (forall n, fs (os_path_normpath local_path) = Some n -> file_names plain n = true) ->
  no_skipped_name Upload.skip_files (Upload.scan_local_files fs local_path)
  /\ no_skipped_name Download.skip_files (Download.scan_local_files fs local_path).
Proof.
  intros H. split;
    [now apply upload_scan_no_skipped_name|now apply download_scan_no_skipped_name].
Qed.

Lemma skipped_names_never_scanned_witness :
  let fs := Host.tree [("/proj", Dir [("README.md", File (Some "H1") 1);
                                      ("docs", Dir [("README.md", File (Some "H1") 1);
                                                    ("guide.html", File (Some "H2") 2)])])] in
  keys (Upload.scan_local_files (os := Host.normal_paths) fs "/proj") = ["docs/guide.html"]
  /\ no_skipped_name Upload.skip_files
       (Upload.scan_local_files (os := Host.normal_paths) fs "/proj").
Proof.
  intros fs. split; [reflexivity|].
  apply (@skipped_names_never_scanned Host.normal_paths fs "/proj").
  intros n H. vm_compute in H. injection H as <-. reflexivity.
Defined.

(** X16.  What lies below a directory named [archive] has no influence on
    an upload run: with every such directory emptied, the scan and the
    whole run of [sync_single_path] are the same. *)
Theorem upload_ignores_archive_directories {os : OsPath} {oc : Outcomes}
    (s3 : s3_client) (fs : filesystem) (project_root project_path local_path : string)
    (bucket_override prefix_override : option string)
    (force dry_run yes return_preview_info : bool) :
  Upload.scan_local_files (archives_emptied fs) local_path
  = Upload.scan_local_files fs local_path
  /\ Upload.sync_single_path s3 (archives_emptied fs) project_root project_path
       bucket_override prefix_override force dry_run yes return_preview_info
     = Upload.sync_single_path s3 fs project_root project_path bucket_override
         prefix_override force dry_run yes return_preview_info.
Proof.
  split; [apply upload_scan_archives_emptied|apply upload_run_archives_emptied].
Qed.

Section ContentType.

Lemma lower_char_dot (a : ascii) : Ascii.eqb (lower_char a) dot = Ascii.eqb a dot.
Proof.
  destruct a as [[] [] [] [] [] [] [] []]; reflexivity.
Qed.

Lemma lower_char_slash (a : ascii) : Ascii.eqb (lower_char a) slash = Ascii.eqb a slash.
Proof.
  destruct a as [[] [] [] [] [] [] [] []]; reflexivity.
Qed.

Lemma lower_char_idem (a : ascii) : lower_char (lower_char a) = lower_char a.
Proof.
  destruct a as [[] [] [] [] [] [] [] []]; reflexivity.
Qed.

Lemma lower_idem (s : string) : lower (lower s) = lower s.
Proof. induction s as [|a s IH]; simpl; [reflexivity|]. now rewrite lower_char_idem, IH. Qed.

Lemma contains_lower_dot (s : string) : contains dot (lower s) = contains dot s.
Proof. induction s as [|a s IH]; simpl; [reflexivity|]. now rewrite lower_char_dot, IH. Qed.

Lemma contains_lower_slash (s : string) : contains slash (lower s) = contains slash s.
Proof. induction s as [|a s IH]; simpl; [reflexivity|]. now rewrite lower_char_slash, IH. Qed.

Lemma after_last_lower_slash (s : string) :
  after_last slash (lower s) = lower (after_last slash s).
Proof.
  induction s as [|a s IH]; simpl; [reflexivity|].
  rewrite contains_lower_slash, lower_char_slash.
  destruct (contains slash s); [exact IH|]. now destruct (Ascii.eqb a slash).
Qed.

Lemma ext_of_name_lower (seen : bool) (n : string) :
  ext_of_name seen (lower n) = lower (ext_of_name seen n).
Proof.
  revert seen. induction n as [|a n IH]; intros seen; simpl; [reflexivity|].
  rewrite lower_char_dot, contains_lower_dot.
  destruct (Ascii.eqb a dot); [|apply IH].
  destruct (contains dot n); [apply IH|]. now destruct seen.
Qed.

Lemma splitext_ext_lower (p : string) : splitext_ext (lower p) = lower (splitext_ext p).
Proof. unfold splitext_ext, basename. now rewrite after_last_lower_slash, ext_of_name_lower. Qed.

Lemma get_content_type_lower (p : string) : get_content_type (lower p) = get_content_type p.
Proof. unfold get_content_type. now rewrite splitext_ext_lower, lower_idem. Qed.
End ContentType.

Section ContentType2.

Lemma endswith_nil (s : string) : endswith s "" = true.
Proof. induction s as [|a s IH]; [reflexivity|]. simpl. exact IH. Qed.

Lemma endswith_tail (a : ascii) (s t : string) :
  endswith s t = true -> endswith (String a s) t = true.
Proof. intros H. simpl. rewrite H. apply orb_true_r. Qed.

Lemma endswith_after_last (c : ascii) (s : string) : endswith s (after_last c s) = true.
Proof.
  induction s as [|a s IH]; [reflexivity|].
  cbn [after_last]. destruct (contains c s).
  - now apply endswith_tail.
  - destruct (Ascii.eqb a c); [apply endswith_tail|]; apply endswith_refl.
Qed.

Lemma endswith_ext_of_name (seen : bool) (n : string) :
  endswith n (ext_of_name seen n) = true.
Proof.
  revert seen. induction n as [|a n IH]; intros seen; [reflexivity|].
  cbn [ext_of_name]. destruct (Ascii.eqb a dot).
  - destruct (contains dot n); [apply endswith_tail, IH|].
    destruct seen; [apply endswith_refl|apply endswith_nil].
  - apply endswith_tail, IH.
Qed.

Lemma endswith_trans (a b c : string) :
  endswith a b = true -> endswith b c = true -> endswith a c = true.
Proof.
  induction a as [|x a IH]; intros Hab Hbc.
  - cbn [endswith] in Hab. rewrite orb_false_r in Hab.
    apply (proj1 (String.eqb_eq "" b)) in Hab. now subst.
  - cbn [endswith] in Hab. apply orb_true_iff in Hab as [E|Hab].
    + apply String.eqb_eq in E. now subst.
    + apply endswith_tail. auto.
Qed.

Lemma endswith_lower (s t : string) :
  endswith s t = true -> endswith (lower s) (lower t) = true.
Proof.
  induction s as [|a s IH]; intros H.
  - cbn [endswith] in H. rewrite orb_false_r in H.
    apply (proj1 (String.eqb_eq "" t)) in H. now subst.
  - cbn [endswith] in H. apply orb_true_iff in H as [E|H].
    + apply String.eqb_eq in E. subst. apply endswith_refl.
    + cbn [lower]. apply endswith_tail. auto.
Qed.

Lemma endswith_splitext_ext (p : string) : endswith p (splitext_ext p) = true.
Proof.
  unfold splitext_ext, basename.
  eapply endswith_trans; [apply endswith_after_last|apply endswith_ext_of_name].
Qed.

Lemma ext_of_name_stem (seen : bool) (stem e : string) :
  contains dot e = false ->
  ext_of_name seen (stem ++ String dot e)
  = if seen || has_other_than_dot stem then String dot e else "".
Proof.
  intros He. revert seen. induction stem as [|a stem IH]; intros seen.
  - simpl. rewrite He. now destruct seen.
  - cbn [append ext_of_name has_other_than_dot].
    destruct (Ascii.eqb a dot) eqn:E.
    + rewrite contains_app. cbn [contains]. rewrite Ascii.eqb_refl. cbn [orb].
      rewrite orb_true_r. apply IH.
    + rewrite IH. cbn [negb orb]. now rewrite orb_true_r.
Qed.

(** The keys of the table: a dot, then neither dot nor separator nor
    capital letter. *)
Lemma mime_types_keys (ext mime : string) :
  In (ext, mime) mime_types ->
  exists e, ext = String dot e /\ contains dot e = false /\ contains slash e = false
            /\ lower ext = ext.
Proof.
  assert (A : forallb (fun item : string * string =>
                         match fst item with
                         | String a e =>
                             Ascii.eqb a dot && negb (contains dot e)
                             && negb (contains slash e) && (lower (fst item) =? fst item)
                         | EmptyString => false
                         end) mime_types = true) by reflexivity.
  rewrite forallb_forall in A. intros H. specialize (A _ H). cbn [fst] in A.
  destruct ext as [|a e]; [discriminate|].
  apply andb_true_iff in A as [A A4]. apply andb_true_iff in A as [A A3].
  apply andb_true_iff in A as [A1 A2].
  apply Ascii.eqb_eq in A1. subst a. exists e.
  apply negb_true_iff in A2. apply negb_true_iff in A3. apply String.eqb_eq in A4. auto.
Qed.

Lemma get_content_type_named (dir stem ext mime : string) :
  dict_get mime_types ext = Some mime ->
  has_other_than_dot stem = true -> contains slash stem = false ->
  get_content_type (dir ++ "/" ++ stem ++ ext) = mime.
Proof.
  intros G Hs Hn. pose proof (@dict_get_In _ mime_types ext mime G) as Hin.
  destruct (@mime_types_keys ext mime Hin) as (e & -> & He & Hsl & Hl).
  unfold get_content_type, splitext_ext, basename.
  change (dir ++ "/" ++ stem ++ String dot e)%string
    with (dir ++ String slash (stem ++ String dot e))%string.
  rewrite after_last_app_sep, after_last_without.
  2:{ rewrite contains_app, Hn. cbn [contains]. now rewrite Hsl. }
  rewrite ext_of_name_stem by assumption. rewrite Hs. cbn [orb]. now rewrite Hl, G.
Qed.
End ContentType2.

(** X17.  [get_content_type] goes by the extension alone, whatever its
    case: two paths that differ in case only get the same type; a file
    whose name is a stem with some character other than a dot, followed by
    an extension of the table, gets the type of that extension; and a path
    gets another type than [application/octet-stream] only when, in lower
    case, it ends with an extension that the table maps to this type. *)
Theorem content_type_follows_the_extension :
  (forall p, get_content_type (lower p) = get_content_type p)
  /\ (forall dir stem ext mime,
        dict_get mime_types ext = Some mime ->
        has_other_than_dot stem = true -> contains slash stem = false ->
        get_content_type (dir ++ "/" ++ stem ++ ext) = mime)
  /\ (forall p,
        get_content_type p <> "application/octet-stream" ->
        exists ext, In (ext, get_content_type p) mime_types
                    /\ endswith (lower p) ext = true).
Proof.
  split; [exact get_content_type_lower|]. split; [exact get_content_type_named|].
  intros p H. unfold get_content_type in *.
  destruct (dict_get mime_types (lower (splitext_ext p))) as [mime|] eqn:G;
    [|now contradiction H].
  exists (lower (splitext_ext p)). split; [now apply dict_get_In|].
  apply endswith_lower, endswith_splitext_ext.
Qed.

Lemma content_type_follows_the_extension_witness :
  dict_get mime_types ".png" = Some "image/png"
  /\ get_content_type ("assets/img" ++ "/" ++ "logo.min" ++ ".png") = "image/png".
Proof.
  split; [reflexivity|].
  apply (proj1 (proj2 content_type_follows_the_extension) "assets/img" "logo.min" ".png"
           "image/png"); reflexivity.
Defined.

Section Achieves.
Import Session.

Lemma achieves_log {A} (m : mio A) (post : list main_event -> A -> Prop) (s : session) :
  achieves m post ->
  log (snd (m s)) = log s ++ main_log m s /\ post (main_log m s) (main_value m s).
Proof.
  intros H. destruct (H s) as (evs & E & P). unfold main_log, main_value. rewrite E.
  rewrite skipn_app, skipn_all, Nat.sub_diag. simpl. auto.
Qed.

Lemma achieves_weaken {A} (m : mio A) (p q : list main_event -> A -> Prop) :
  achieves m p -> (forall evs a, p evs a -> q evs a) -> achieves m q.
Proof. intros H I s. destruct (H s) as (evs & E & P). eauto. Qed.

Lemma achieves_ret {A} (a : A) (post : list main_event -> A -> Prop) :
  post [] a -> achieves (mret a) post.
Proof. intros H s. exists []. simpl. now rewrite app_nil_r. Qed.

Lemma achieves_bind {A B} (m : mio A) (k : A -> mio B)
    (p : list main_event -> A -> Prop) (post : list main_event -> B -> Prop) :
  achieves m p ->
  (forall e1 a, p e1 a -> achieves (k a) (fun e2 b => post (e1 ++ e2) b)) ->
  achieves (mbind m k) post.
Proof.
  intros Hm Hk s. unfold mbind. destruct (Hm s) as (e1 & E1 & P1).
  destruct (m s) as [a s1]. simpl in *. destruct (Hk e1 a P1 s1) as (e2 & E2 & P2).
  exists (e1 ++ e2). rewrite E2, E1, app_assoc. eauto.
Qed.

Lemma achieves_say (x : main_message) (post : list main_event -> unit -> Prop) :
  post [Said x] tt -> achieves (say x) post.
Proof. intros H s. exists [Said x]. simpl. auto. Qed.

Lemma achieves_ask_all (n : nat) (post : list main_event -> option string -> Prop) :
  (forall answer, post [AskedAll n answer] answer) -> achieves (ask_all n) post.
Proof.
  intros H s. unfold ask_all. destruct (keyboard s) as [|a rest]; eexists [_]; simpl; auto.
Qed.

Lemma achieves_for_each {A S} (l : list A) (body : A -> S -> mio S)
    (inv : list main_event -> S -> Prop) :
  (forall x evs acc, In x l -> inv evs acc ->
                     achieves (body x acc) (fun e2 acc' => inv (evs ++ e2) acc')) ->
  forall evs acc, inv evs acc ->
                  achieves (mfor_each l body acc) (fun e2 acc' => inv (evs ++ e2) acc').
Proof.
  induction l as [|x l IH]; intros H evs acc I; simpl.
  - apply achieves_ret. now rewrite app_nil_r.
  - eapply achieves_bind.
    + apply (H x evs acc); [now left|exact I].
    + intros e1 acc' I'. cbv beta in I'.
      eapply achieves_weaken.
      * apply (IH (fun y e a Hy => H y e a (or_intror Hy)) (evs ++ e1) acc' I').
      * intros e2 b. cbv beta. now rewrite app_assoc.
Qed.

(** A run of [sync_single_path] within [main]. *)
Lemma achieves_sync_path {A} (client_at : list main_event -> s3_client)
    (tree_at : list main_event -> filesystem) (shown : bool)
    (run : s3_client -> filesystem -> io A) (post : list main_event -> A -> Prop) :
  (forall l w,
     let m := run (client_at l) (tree_at l) in
     post (map (record shown) (emitted m w)) (value m w)) ->
  achieves (sync_path client_at tree_at shown run) post.
Proof.
  intros Hp s. unfold sync_path. eexists. simpl. split; [reflexivity|]. apply Hp.
Qed.





Lemma record_prepares (shown : bool) (evs : list event) :
  Forall (fun e => is_call e = false /\ is_question e = false) evs ->
  Forall prepares (map (record shown) evs).
Proof.
  induction 1 as [|e l [Hc Hq] _ IH]; simpl; constructor; [|assumption].
  destruct e as [c ok|q a|m]; try discriminate. destruct shown; split; reflexivity.
Qed.

Lemma achieves_for_each_all {A S} (P : main_event -> Prop) (l : list A)
    (body : A -> S -> mio S) :
  (forall x acc, achieves (body x acc) (fun evs _ => Forall P evs)) ->
  forall acc, achieves (mfor_each l body acc) (fun evs _ => Forall P evs).
Proof.
  intros H acc.
  apply (@achieves_for_each A S l body (fun evs _ => Forall P evs)) with (evs := []);
    [|constructor].
  intros x evs acc' _ I. eapply achieves_weaken; [apply H|].
  intros e2 acc2 I2. apply Forall_app. auto.
Qed.

Lemma achieves_bind_all {A B} (P : main_event -> Prop) (m : mio A) (k : A -> mio B) :
  achieves m (fun evs _ => Forall P evs) ->
  (forall a, achieves (k a) (fun evs _ => Forall P evs)) ->
  achieves (mbind m k) (fun evs _ => Forall P evs).
Proof.
  intros Hm Hk. eapply achieves_bind; [exact Hm|]. intros e1 a I1.
  eapply achieves_weaken; [apply Hk|]. intros e2 b I2. apply Forall_app. auto.
Qed.

Lemma achieves_sync_path_all {A} (P : main_event -> Prop) (Q : event -> Prop)
    (client_at : list main_event -> s3_client) (tree_at : list main_event -> filesystem)
    (shown : bool) (run : s3_client -> filesystem -> io A) :
  (forall s3 fs, emits Q (run s3 fs)) -> (forall e, Q e -> P (record shown e)) ->
  achieves (sync_path client_at tree_at shown run) (fun evs _ => Forall P evs).
Proof.
  intros He HP. apply achieves_sync_path. intros l w m.
  destruct (emits_emitted w (He (client_at l) (tree_at l))) as [_ F]. apply Forall_map.
  eapply Forall_impl; [|exact F]. auto.
Qed.

Lemma achieves_say_all (P : main_event -> Prop) (x : main_message) :
  P (Said x) -> achieves (say x) (fun evs _ => Forall P evs).
Proof. intros H. apply achieves_say. auto. Qed.

Lemma achieves_ret_all {A} (P : main_event -> Prop) (a : A) :
  achieves (mret a) (fun evs _ => Forall P evs).
Proof. apply achieves_ret. constructor. Qed.

End Achieves.

Section PathFacts.
Context {os : OsPath} {oc : Outcomes} {sm : Similarity} {lt : LiveTree}.

Lemma upload_run_yes_emits (P : event -> Prop) (s3 : s3_client) (fs : filesystem)
    (project_root project_path : string) (bucket_override prefix_override : option string)
    (force return_preview_info : bool) :
  (forall m, P (Printed m)) -> (forall c ok, P (Called c ok)) ->
  emits P (Upload.sync_single_path s3 fs project_root project_path bucket_override
             prefix_override force false true return_preview_info).
Proof.
  intros Hprint Hcall. unfold Upload.sync_single_path.
  destruct (parse_project_path _ _ _ _ _) as [[bucket prefix] local_path].
  match goal with |- emits _ (match ?l with _ => _ end) => destruct l as [s3_objects|] end;
    [|apply emits_ret].
  apply emits_bind; [apply emits_print, Hprint|]. intros _.
  apply emits_bind; [|intros; apply emits_ret].
  unfold Upload.run_sync. apply upload_sync_to_s3_emits; auto.
Qed.

Lemma download_run_yes_emits (P : event -> Prop) (s3 : s3_client) (fs : filesystem)
    (project_root project_path : string) (bucket_override prefix_override : option string)
    (force return_preview_info : bool) :
  (forall m, P (Printed m)) -> (forall c ok, P (Called c ok)) ->
  (forall a, P (Asked AskDeleteLocalFiles a)) ->
  emits P (Download.sync_single_path s3 fs project_root project_path bucket_override
             prefix_override force false true return_preview_info).
Proof.
  intros Hprint Hcall Hask. unfold Download.sync_single_path.
  destruct (parse_project_path _ _ _ _ _) as [[bucket prefix] local_path].
  match goal with |- emits _ (match ?l with _ => _ end) => destruct l as [s3_objects|] end;
    [|apply emits_ret].
  apply emits_bind; [apply emits_print, Hprint|]. intros _.
  apply emits_bind; [|intros; apply emits_ret].
  unfold Download.run_sync. apply download_sync_from_s3_emits; auto.
Qed.



End PathFacts.

Section MainFacts.
Import Session.
Context {os : OsPath} {oc : Outcomes} {sm : Similarity} {lt : LiveTree}.
Variable client_at : list main_event -> s3_client.
Variable tree_at : list main_event -> filesystem.

Lemma achieves_ask_then (n : nat) (go : mio bool) (P : list main_event -> bool -> Prop) :
  achieves go P ->
  achieves (ask_then n go)
    (fun evs v =>
       exists answer rest,
         evs = AskedAll n answer :: rest
         /\ if declines answer then rest = [Said MsgCancelled] /\ v = false else P rest v).
Proof.
  intros Hgo. unfold ask_then.
  apply achieves_bind with (p := fun e1 r => e1 = [AskedAll n r]);
    [apply achieves_ask_all; reflexivity|].
  intros e1 r ->.
  assert (C : forall answer, declines answer = true ->
                achieves (mbind (say MsgCancelled) (fun _ => mret false))
                  (fun e2 b =>
                     exists answer0 rest,
                       [AskedAll n answer] ++ e2 = AskedAll n answer0 :: rest
                       /\ if declines answer0 then rest = [Said MsgCancelled] /\ b = false
                          else P rest b)).
  { intros answer D.
    apply achieves_bind with (p := fun e _ => e = [Said MsgCancelled]);
      [apply achieves_say; reflexivity|].
    intros e2 _ ->. apply achieves_ret. exists answer, [Said MsgCancelled].
    rewrite D. auto. }
  destruct r as [line|]; [|now apply C].
  destruct (is_yes line) eqn:Y; [|apply C; simpl; now rewrite Y].
  eapply achieves_weaken; [exact Hgo|]. intros e2 b H. exists (Some line), e2.
  simpl. rewrite Y. auto.
Qed.

Lemma gated_quiet (n : nat) (later : main_event -> Prop) (evs : list main_event) (v : bool) :
  Forall prepares evs -> gated n later evs v.
Proof. intros H. exists evs, []. rewrite app_nil_r. auto. Qed.

Lemma achieves_gate (n : nat) (go : mio bool) (later : main_event -> Prop)
    (before : list main_event) :
  later (Said MsgCancelled) -> Forall prepares before ->
  achieves go (fun evs _ => Forall later evs) ->
  achieves (ask_then n go) (fun evs v => gated n later (before ++ evs) v).
Proof.
  intros Hc Hb Hgo. eapply achieves_weaken; [apply achieves_ask_then, Hgo|].
  intros evs v (answer & rest & -> & H). exists before, (AskedAll n answer :: rest).
  split; [reflexivity|]. split; [assumption|]. right. exists answer, rest.
  split; [reflexivity|]. destruct (declines answer).
  - destruct H as [-> ->]. split; [repeat constructor; assumption|auto].
  - split; [assumption|discriminate].
Qed.

Lemma achieves_no_root (P : main_event -> Prop) :
  P (Said MsgNoProjectRoot) ->
  achieves (mbind (say MsgNoProjectRoot) (fun _ => mret false)) (fun evs _ => Forall P evs).
Proof.
  intros H. apply achieves_bind_all; [now apply achieves_say_all|intros; apply achieves_ret_all].
Qed.

(** *** The upload script *)

Lemma upload_preview_all_prepares (a : UploadMain.args) (root : string) (paths : list string) :
  achieves (UploadMain.preview_all client_at tree_at a root paths)
    (fun evs _ => Forall prepares evs).
Proof.
  unfold UploadMain.preview_all. apply achieves_for_each_all. intros path acc.
  apply achieves_bind_all; [|intros; apply achieves_ret_all].
  apply achieves_sync_path_all with (Q := fun e => is_call e = false /\ is_question e = false).
  - intros s3 fs. apply upload_run_emits; [auto|discriminate|discriminate].
  - intros e [Hc Hq]. destruct e; try discriminate.
    simpl. destruct (UploadMain.preview_paths a); split; reflexivity.
Qed.

Lemma upload_sync_all_dry (a : UploadMain.args) (root : string) (paths : list string)
    (yes : bool) :
  achieves (UploadMain.sync_all client_at tree_at a root paths true yes)
    (fun evs _ => Forall prepares evs).
Proof.
  unfold UploadMain.sync_all. apply achieves_for_each_all. intros path acc.
  apply achieves_bind_all; [|intros; apply achieves_ret_all].
  apply achieves_sync_path_all with (Q := fun e => is_call e = false /\ is_question e = false).
  - intros s3 fs. apply upload_run_emits; [auto|discriminate|discriminate].
  - intros e [Hc Hq]. destruct e; try discriminate. split; reflexivity.
Qed.

Lemma upload_sync_all_yes (a : UploadMain.args) (root : string) (paths : list string) :
  achieves (UploadMain.sync_all client_at tree_at a root paths false true)
    (fun evs _ => Forall asks_nothing evs).
Proof.
  unfold UploadMain.sync_all. apply achieves_for_each_all. intros path acc.
  apply achieves_bind_all; [|intros; apply achieves_ret_all].
  apply achieves_sync_path_all with (Q := fun e => is_question e = false).
  - intros s3 fs. apply upload_run_yes_emits; reflexivity.
  - intros e Hq. destruct e; try discriminate; reflexivity.
Qed.

Lemma upload_final_summary_all (P : main_event -> Prop) (a : UploadMain.args)
    (total : Upload.result) :
  (forall x, P (Said x)) ->
  achieves (UploadMain.final_summary a total) (fun evs _ => Forall P evs).
Proof.
  intros H. unfold UploadMain.final_summary.
  apply achieves_bind_all; [apply achieves_say_all, H|intros; apply achieves_ret_all].
Qed.

Lemma upload_main_gated (a : UploadMain.args) (root : option string) (connected : bool) :
  UploadMain.dry_run a = false -> UploadMain.yes a = false ->
  achieves (UploadMain.main client_at tree_at a root connected)
    (gated (length (paths_to_sync (UploadMain.paths a))) asks_nothing).
Proof.
  intros D Y. unfold UploadMain.main. rewrite D, Y. cbn [negb andb].
  assert (N : achieves (mbind (say MsgNoProjectRoot) (fun _ => mret false))
                (gated (length (paths_to_sync (UploadMain.paths a))) asks_nothing)).
  { eapply achieves_weaken; [apply (@achieves_no_root prepares); split; reflexivity|].
    intros. now apply gated_quiet. }
  destruct root as [r|]; [|exact N]. destruct (nonempty r); [|exact N]. cbn [negb].
  destruct connected; cbn [negb].
  2:{ apply achieves_ret. apply gated_quiet. constructor. }
  eapply achieves_bind; [apply upload_preview_all_prepares|]. intros e1 infos F1.
  apply achieves_bind with (p := fun e _ => Forall prepares e);
    [apply achieves_say_all; split; reflexivity|].
  intros e2 _ F2. destruct (UploadMain.has_changes infos); cbn [negb].
  - eapply achieves_weaken.
    + apply (@achieves_gate (length (paths_to_sync (UploadMain.paths a))) _ asks_nothing
               (e1 ++ e2)); [reflexivity|apply Forall_app; auto|].
      apply achieves_bind_all; [apply upload_sync_all_yes|].
      intros total. apply upload_final_summary_all. reflexivity.
    + intros e3 v G. cbv beta in G |- *. now rewrite app_assoc.
  - apply achieves_bind with (p := fun e _ => Forall prepares e);
      [apply achieves_say_all; split; reflexivity|].
    intros e3 _ F3. apply achieves_ret. apply gated_quiet.
    rewrite app_nil_r. repeat (apply Forall_app; split); assumption.
Qed.
(** *** The download script *)

Lemma download_preview_all_prepares (a : DownloadMain.args) (root : string)
    (paths : list string) :
  achieves (DownloadMain.preview_all client_at tree_at a root paths)
    (fun evs _ => Forall prepares evs).
Proof.
  unfold DownloadMain.preview_all. apply achieves_for_each_all. intros path acc.
  apply achieves_bind_all; [|intros; apply achieves_ret_all].
  apply achieves_sync_path_all with (Q := fun e => is_call e = false /\ is_question e = false).
  - intros s3 fs. apply download_run_emits; [auto|discriminate|discriminate].
  - intros e [Hc Hq]. destruct e; try discriminate. split; reflexivity.
Qed.

Lemma download_sync_all_dry (a : DownloadMain.args) (root : string) (paths : list string)
    (yes : bool) :
  achieves (DownloadMain.sync_all client_at tree_at a root paths true yes)
    (fun evs _ => Forall prepares evs).
Proof.
  unfold DownloadMain.sync_all. apply achieves_for_each_all. intros path acc.
  apply achieves_bind_all; [|intros; apply achieves_ret_all].
  apply achieves_sync_path_all with (Q := fun e => is_call e = false /\ is_question e = false).
  - intros s3 fs. apply download_run_emits; [auto|discriminate|discriminate].
  - intros e [Hc Hq]. destruct e; try discriminate. split; reflexivity.
Qed.

Lemma download_sync_all_yes (a : DownloadMain.args) (root : string) (paths : list string) :
  achieves (DownloadMain.sync_all client_at tree_at a root paths false true)
    (fun evs _ => Forall asks_about_deletions_only evs).
Proof.
  unfold DownloadMain.sync_all. apply achieves_for_each_all. intros path acc.
  apply achieves_bind_all; [|intros; apply achieves_ret_all].
  apply achieves_sync_path_all
    with (Q := fun e => match e with Asked (AskProceed _) _ => False | _ => True end).
  - intros s3 fs. apply download_run_yes_emits; intros; exact I.
  - intros e Hq. destruct e as [c ok|[p|] ans|m]; try exact I; exact Hq.
Qed.

Lemma download_final_summary_all (P : main_event -> Prop) (a : DownloadMain.args)
    (total : Download.result) :
  (forall x, P (Said x)) ->
  achieves (DownloadMain.final_summary a total) (fun evs _ => Forall P evs).
Proof.
  intros H. unfold DownloadMain.final_summary.
  apply achieves_bind_all; [apply achieves_say_all, H|intros; apply achieves_ret_all].
Qed.

Lemma download_main_gated (a : DownloadMain.args) (root : option string) (connected : bool) :
  DownloadMain.dry_run a = false -> DownloadMain.yes a = false ->
  achieves (DownloadMain.main client_at tree_at a root connected)
    (fun evs v =>
       gated (length (paths_to_sync (DownloadMain.paths a))) asks_about_deletions_only evs v
       /\ (truthy root = true -> connected = true -> existsb is_asked_all evs = true)).
Proof.
  intros D Y. unfold DownloadMain.main. rewrite D, Y. cbn [negb andb].
  set (n := length (paths_to_sync (DownloadMain.paths a))).
  assert (N : forall r,
             truthy r = false ->
             achieves (mbind (say MsgNoProjectRoot) (fun _ => mret false))
               (fun evs v =>
                  gated n asks_about_deletions_only evs v
                  /\ (truthy r = true -> connected = true
                      -> existsb is_asked_all evs = true))).
  { intros r T. eapply achieves_weaken; [apply (@achieves_no_root prepares); split; reflexivity|].
    intros evs v F. split; [now apply gated_quiet|]. congruence. }
  destruct root as [r|]; [|now apply N]. destruct (nonempty r) eqn:R; [|now apply N].
  cbn [negb]. destruct connected; cbn [negb].
  2:{ apply achieves_ret. split; [apply gated_quiet; constructor|discriminate]. }
  eapply achieves_bind; [apply download_preview_all_prepares|]. intros e1 infos F1.
  apply achieves_bind with (p := fun e _ => Forall prepares e);
    [apply achieves_say_all; split; reflexivity|].
  intros e2 _ F2.
  eapply achieves_weaken.
  - apply achieves_ask_then with (P := fun evs (_ : bool) => Forall asks_about_deletions_only evs).
    apply achieves_bind_all; [apply download_sync_all_yes|].
    intros total. apply download_final_summary_all. intros; exact I.
  - intros e3 v (answer & rest & -> & H). cbv beta. split.
    + exists (e1 ++ e2), (AskedAll n answer :: rest).
      split; [now rewrite app_assoc|]. split; [apply Forall_app; auto|]. right.
      exists answer, rest. split; [reflexivity|]. destruct (declines answer).
      * destruct H as [-> ->]. split; [repeat constructor|auto].
      * split; [assumption|discriminate].
    + intros _ _. rewrite !existsb_app. simpl. now rewrite !orb_true_r.
Qed.

(** *** Dry runs *)

Lemma upload_main_dry (a : UploadMain.args) (root : option string) (connected : bool) :
  UploadMain.dry_run a = true ->
  achieves (UploadMain.main client_at tree_at a root connected)
    (fun evs _ => Forall prepares evs).
Proof.
  intros D. unfold UploadMain.main. rewrite D. cbn [negb andb].
  destruct root as [r|]; [|apply achieves_no_root; split; reflexivity].
  destruct (nonempty r); cbn [negb]; [|apply achieves_no_root; split; reflexivity].
  destruct connected; cbn [negb]; [|apply achieves_ret_all].
  apply achieves_bind_all; [apply upload_sync_all_dry|].
  intros total. apply upload_final_summary_all. intros; split; reflexivity.
Qed.

Lemma download_main_dry (a : DownloadMain.args) (root : option string) (connected : bool) :
  DownloadMain.dry_run a = true ->
  achieves (DownloadMain.main client_at tree_at a root connected)
    (fun evs _ => Forall prepares evs).
Proof.
  intros D. unfold DownloadMain.main. rewrite D. cbn [negb andb].
  destruct root as [r|]; [|apply achieves_no_root; split; reflexivity].
  destruct (nonempty r); cbn [negb]; [|apply achieves_no_root; split; reflexivity].
  destruct connected; cbn [negb]; [|apply achieves_ret_all].
  apply achieves_bind_all; [apply download_sync_all_dry|].
  intros total. apply download_final_summary_all. intros; split; reflexivity.
Qed.
(** *** The exit status *)







End MainFacts.

Section AsksIff.
Import Session.
Context {os : OsPath} {oc : Outcomes} {sm : Similarity} {lt : LiveTree}.
Variable client_at : list main_event -> s3_client.
Variable tree_at : list main_event -> filesystem.

Lemma nonzero_add (x y : nat) :
  negb (x + y =? 0)%nat = negb (x =? 0)%nat || negb (y =? 0)%nat.
Proof. destruct x, y; reflexivity. Qed.

Lemma upload_has_changes_app (l1 l2 : list Upload.preview_info) :
  UploadMain.has_changes (l1 ++ l2) = UploadMain.has_changes l1 || UploadMain.has_changes l2.
Proof.
  unfold UploadMain.has_changes. rewrite !flat_map_app, !length_app, !nonzero_add.
  repeat match goal with |- context [negb ?b] => generalize (negb b); intro end.
  repeat match goal with b : bool |- _ => destruct b end; reflexivity.
Qed.

Lemma lists_change_record (shown : bool) (evs : list event) :
  existsb lists_change (map (record shown) evs)
  = existsb (fun e => lists_change (Sync e)) evs.
Proof.
  induction evs as [|e evs IH]; [reflexivity|]. cbn [map existsb]. rewrite IH. f_equal.
  destruct e as [c ok|q ans|m]; try reflexivity. destruct shown; [reflexivity|].
  destruct m; reflexivity.
Qed.

Lemma no_preview_lists_nothing (evs : list event) :
  Forall (fun e => is_preview e = false) evs ->
  existsb (fun e => lists_change (Sync e)) evs = false.
Proof.
  induction 1 as [|e l He _ IH]; [reflexivity|]. cbn [existsb]. rewrite IH, orb_false_r.
  destruct e as [c ok|q ans|m]; try reflexivity. destruct m; try reflexivity; discriminate.
Qed.

(** What the first pass learns about a path: the preview record lists
    a change exactly when the printed preview does. *)
Lemma upload_preview_run_lists (s3 : s3_client) (fs : filesystem)
    (project_root project_path : string) (bucket_override prefix_override : option string)
    (force : bool) (w : world) :
  let run := Upload.sync_single_path s3 fs project_root project_path bucket_override
               prefix_override force true true true in
  existsb (fun e => lists_change (Sync e)) (emitted run w)
  = match snd (value run w) with
    | Some info => UploadMain.has_changes [info]
    | None => false
    end.
Proof.
  unfold Upload.sync_single_path.
  destruct (parse_project_path _ _ _ _ _) as [[bucket prefix] local_path].
  match goal with |- context [match ?l with Some _ => _ | None => _ end] =>
    destruct l as [s3_objects|] end.
  2:{ cbv zeta. rewrite emitted_ret. reflexivity. }
  cbv zeta.
  match goal with
  | |- context [bind (Upload.show_preview ?p) _] => set (pl := p)
  end.
  match goal with
  | |- context [bind (Upload.show_preview pl) ?k] => set (rest := k)
  end.
  assert (R : forall a, emits (fun e => is_preview e = false) (rest a)).
  { intros a. subst rest. apply emits_bind; [|intros; apply emits_ret].
    apply upload_run_sync_emits; intros; auto.
    apply upload_sync_to_s3_emits; intros; auto. }
  assert (Es : emits anything (Upload.show_preview pl)) by (apply emits_print; exact I).
  assert (Er : forall a, emits anything (rest a)).
  { intros a. eapply emits_weaken; [|apply R]. intros; exact I. }
  destruct (@emitted_bind _ _ anything (Upload.show_preview pl) rest w Es Er) as [-> ->].
  rewrite existsb_app, (@no_preview_lists_nothing (emitted (rest _) _)), orb_false_r.
  2:{ eapply emits_emitted, R. }
  subst rest. cbv beta. rewrite snd_value_bind_ret.
  unfold Upload.show_preview. rewrite emitted_print.
  assert (N : Upload.plan_renames pl = []) by reflexivity.
  unfold UploadMain.has_changes, Upload.make_preview_info.
  cbn [flat_map Upload.new_files Upload.changed_files Upload.orphaned_files
       Upload.folders_to_delete Upload.folders_to_add existsb lists_change].
  rewrite N, !app_nil_r, !length_map. cbn [length Nat.eqb negb]. now rewrite !orb_false_r.
Qed.

Lemma prepares_not_asked (l : list main_event) :
  Forall prepares l -> existsb is_asked_all l = false.
Proof.
  induction 1 as [|e l [_ Hq] _ IH]; [reflexivity|]. cbn [existsb]. rewrite IH, orb_false_r.
  destruct e; try reflexivity; discriminate.
Qed.

Lemma upload_preview_all_lists (a : UploadMain.args) (root : string) (paths : list string) :
  achieves (UploadMain.preview_all client_at tree_at a root paths)
    (fun evs infos =>
       Forall prepares evs /\ existsb lists_change evs = UploadMain.has_changes infos).
Proof.
  unfold UploadMain.preview_all.
  apply (@achieves_for_each _ _ paths _
           (fun evs acc =>
              Forall prepares evs /\ existsb lists_change evs = UploadMain.has_changes acc))
    with (evs := []) (acc := @nil Upload.preview_info); [|split; [constructor|reflexivity]].
  intros path evs acc _ [F E].
  apply achieves_bind
    with (p := fun e1 r =>
                 Forall prepares e1
                 /\ existsb lists_change e1
                    = match snd r with
                      | Some info => UploadMain.has_changes [info]
                      | None => false
                      end).
  - apply achieves_sync_path. intros l w m. split.
    + apply record_prepares. eapply emits_emitted.
      apply upload_run_emits; [auto|discriminate|discriminate].
    + rewrite lists_change_record. apply upload_preview_run_lists.
  - intros e1 r [F1 E1]. apply achieves_ret. rewrite app_nil_r. split.
    + apply Forall_app. auto.
    + rewrite existsb_app, E, E1. destruct (snd r) as [info|].
      * now rewrite upload_has_changes_app.
      * apply orb_false_r.
Qed.

Lemma upload_main_asks_iff (a : UploadMain.args) (root : option string) (connected : bool) :
  UploadMain.dry_run a = false -> UploadMain.yes a = false ->
  achieves (UploadMain.main client_at tree_at a root connected)
    (fun evs v =>
       existsb is_asked_all evs = existsb lists_change evs
       /\ (truthy root = true -> connected = true -> existsb is_asked_all evs = false ->
           v = true)).
Proof.
  intros D Y. unfold UploadMain.main. rewrite D, Y. cbn [negb andb].
  assert (N : forall r,
             truthy r = false ->
             achieves (mbind (say MsgNoProjectRoot) (fun _ => mret false))
               (fun evs v =>
                  existsb is_asked_all evs = existsb lists_change evs
                  /\ (truthy r = true -> connected = true ->
                      existsb is_asked_all evs = false -> v = true))).
  { intros r T. apply achieves_bind with (p := fun e _ => e = [Said MsgNoProjectRoot]);
      [now apply achieves_say|].
    intros e1 _ ->. apply achieves_ret. split; [reflexivity|congruence]. }
  destruct root as [r|]; [|now apply N]. destruct (nonempty r) eqn:R; [|now apply N].
  cbn [negb]. destruct connected; cbn [negb].
  2:{ apply achieves_ret. split; [reflexivity|discriminate]. }
  eapply achieves_bind; [apply upload_preview_all_lists|]. intros e1 infos [F1 E1].
  match goal with
  | |- achieves (mbind (say ?x) _) _ =>
      apply achieves_bind with (p := fun e _ => e = [Said x]); [now apply achieves_say|]
  end.
  intros e2 _ ->. pose proof (prepares_not_asked F1) as A1.
  destruct (UploadMain.has_changes infos); cbn [negb].
  - eapply achieves_weaken;
      [apply achieves_ask_then with (P := fun _ _ => True); intros s; eexists;
       split; [|exact I]|].
    2:{ intros e3 v (answer & rest & -> & _). cbv beta.
        rewrite !existsb_app, E1. simpl. rewrite orb_true_r. split; [reflexivity|].
        discriminate. }
    match goal with
    | |- log (snd (?m s)) = _ =>
        assert (G : achieves m (fun evs _ => Forall (fun _ => True) evs))
    end.
    { apply achieves_bind_all; [|intros; apply upload_final_summary_all; auto].
      eapply achieves_weaken; [apply upload_sync_all_yes|].
      intros evs t F. eapply Forall_impl; [|exact F]. auto. }
    destruct (achieves_log s G) as [E _]. exact E.
  - match goal with
    | |- achieves (mbind (say ?x) _) _ =>
        apply achieves_bind with (p := fun e _ => e = [Said x]); [now apply achieves_say|]
    end.
    intros e3 _ ->. apply achieves_ret. rewrite !existsb_app, A1, E1. simpl. auto.
Qed.

(** *** A bucket that cannot be listed *)

Lemma upload_run_unreachable (s3 : s3_client) (fs : filesystem)
    (project_root project_path : string) (bucket_override prefix_override : option string)
    (force dry_run yes return_preview_info : bool) :
  unreachable s3 ->
  Upload.sync_single_path s3 fs project_root project_path bucket_override prefix_override
    force dry_run yes return_preview_info
  = ret (Upload.one_failure, None).
Proof.
  intros [L H]. unfold Upload.sync_single_path.
  destruct (parse_project_path _ _ _ _ _) as [[bucket prefix] local_path].
  unfold probe_single_key, list_all_objects. rewrite L, H.
  destruct (path_is_file fs local_path project_path); reflexivity.
Qed.

Lemma upload_preview_all_unreachable (a : UploadMain.args) (root : string)
    (paths : list string) :
  (forall l, unreachable (client_at l)) ->
  achieves (UploadMain.preview_all client_at tree_at a root paths)
    (fun evs infos => evs = [] /\ infos = []).
Proof.
  intros U. unfold UploadMain.preview_all.
  apply (@achieves_for_each _ _ paths _
           (fun evs (acc : list Upload.preview_info) => evs = [] /\ acc = []))
    with (evs := []) (acc := @nil Upload.preview_info); [|auto].
  intros path evs acc _ [-> ->].
  apply achieves_bind with (p := fun e1 r => e1 = [] /\ r = (Upload.one_failure, None)).
  - apply achieves_sync_path. intros l w m. subst m.
    rewrite (upload_run_unreachable _ _ _ _ _ _ _ _ _ (U l)), emitted_ret. auto.
  - intros e1 r [-> ->]. apply achieves_ret. auto.
Qed.

Lemma upload_sync_all_unreachable (a : UploadMain.args) (root : string)
    (paths : list string) (dry yes : bool) :
  (forall l, unreachable (client_at l)) ->
  achieves (UploadMain.sync_all client_at tree_at a root paths dry yes)
    (fun evs total => evs = [] /\ Upload.failed total = length paths).
Proof.
  intros U. unfold UploadMain.sync_all.
  assert (G : forall acc,
             achieves
               (mfor_each paths
                  (fun path total =>
                     mbind
                       (sync_path client_at tree_at true
                          (fun s3 fs =>
                             Upload.sync_single_path s3 fs root path (UploadMain.bucket a)
                               (UploadMain.prefix a) (UploadMain.force a) dry yes false))
                       (fun result => mret (UploadMain.add total (fst result)))) acc)
               (fun evs total =>
                  evs = [] /\ Upload.failed total = (Upload.failed acc + length paths)%nat)).
  { induction paths as [|path rest IH]; intros acc; simpl.
    - apply achieves_ret. split; [reflexivity|lia].
    - apply achieves_bind
        with (p := fun e1 acc' => e1 = []
                                  /\ Upload.failed acc' = (Upload.failed acc + 1)%nat).
      + apply achieves_bind
          with (p := fun e1 r => e1 = [] /\ r = (Upload.one_failure, @None Upload.preview_info)).
        * apply achieves_sync_path. intros l w m. subst m.
          rewrite (upload_run_unreachable _ _ _ _ _ _ _ _ _ (U l)), emitted_ret. auto.
        * intros e1 r [-> ->]. apply achieves_ret. auto.
      + intros e1 acc' [-> E]. eapply achieves_weaken; [apply IH|].
        intros e2 total [-> E2]. split; [reflexivity|]. cbv beta in *. lia. }
  exact (G Upload.zero).
Qed.

Lemma paths_to_sync_nonempty (paths : list string) : (0 < length (paths_to_sync paths))%nat.
Proof. destruct paths; simpl; lia. Qed.

Lemma upload_main_unreachable (a : UploadMain.args) (root : option string) :
  (forall l, unreachable (client_at l)) -> truthy root = true ->
  achieves (UploadMain.main client_at tree_at a root true)
    (fun evs v =>
       let n := length (paths_to_sync (UploadMain.paths a)) in
       if negb (UploadMain.dry_run a) && negb (UploadMain.yes a)
       then v = true
            /\ evs = [Said (MsgUploadSummary 0 0 0 0 0); Said (MsgNoChangesDetected n)]
       else v = false
            /\ evs = [Said (if UploadMain.dry_run a then MsgDryRunCompleted
                            else MsgCompletedWithFailures n)]).
Proof.
  intros U T. unfold UploadMain.main. destruct root as [r|]; [|discriminate].
  simpl in T. rewrite T. cbn [negb].
  pose proof (paths_to_sync_nonempty (UploadMain.paths a)) as P.
  destruct (negb (UploadMain.dry_run a) && negb (UploadMain.yes a)).
  - eapply achieves_bind; [now apply upload_preview_all_unreachable|].
    intros e1 infos [-> ->]. simpl.
    match goal with
    | |- achieves (mbind (say ?x) _) _ =>
        apply achieves_bind with (p := fun e _ => e = [Said x]); [now apply achieves_say|]
    end.
    intros e2 _ ->.
    match goal with
    | |- achieves (mbind (say ?x) _) _ =>
        apply achieves_bind with (p := fun e _ => e = [Said x]); [now apply achieves_say|]
    end.
    intros e3 _ ->. apply achieves_ret. auto.
  - eapply achieves_bind; [now apply upload_sync_all_unreachable|].
    intros e1 total [-> E]. unfold UploadMain.final_summary.
    fold (paths_to_sync (UploadMain.paths a)) in E.
    assert (Z : (Upload.failed total =? 0)%nat = false) by (apply Nat.eqb_neq; lia).
    rewrite Z, E.
    match goal with
    | |- achieves (mbind (say ?x) _) _ =>
        apply achieves_bind with (p := fun e _ => e = [Said x]); [now apply achieves_say|]
    end.
    intros e2 _ ->. apply achieves_ret. auto.
Qed.
End AsksIff.

(** X18.  In its default mode (neither [--dry-run] nor [--yes]) the
    [main] of the upload script makes no call and asks nothing before the
    one question about all the paths, if it comes to it at all; after an
    answer that is not a yes it only reports the cancellation and returns
    false; after a yes it asks nothing more, so that no path is confirmed
    on its own. *)
Theorem upload_main_asks_once_before_any_call {os : OsPath} {oc : Outcomes}
    (client_at : list Session.main_event -> s3_client)
    (tree_at : list Session.main_event -> filesystem)
    (a : UploadMain.args) (project_root : option string) (connected : bool)
    (s : Session.session) :
  UploadMain.dry_run a = false -> UploadMain.yes a = false ->
  let run := UploadMain.main client_at tree_at a project_root connected in
  gated (length (paths_to_sync (UploadMain.paths a))) asks_nothing
    (main_log run s) (main_value run s).
Proof.
  intros D Y run.
  exact (proj2 (achieves_log s (upload_main_gated client_at tree_at a project_root connected
                                  D Y))).
Qed.

Lemma upload_main_asks_once_before_any_call_witness :
  let run :=
    UploadMain.main (os := Host.normal_paths) (oc := Host.all_succeed)
      (fun _ => Host.logo_bucket) (fun _ => Host.logo_tree) Desk.upload_img (Some "/proj")
      true in
  gated 1 asks_nothing (main_log run (Desk.typing [Some "no"]))
    (main_value run (Desk.typing [Some "no"]))
  /\ In (Session.AskedAll 1 (Some "no")) (main_log run (Desk.typing [Some "no"])).
Proof.
  intros run. split.
  - exact (@upload_main_asks_once_before_any_call Host.normal_paths Host.all_succeed
             (fun _ => Host.logo_bucket) (fun _ => Host.logo_tree) Desk.upload_img
             (Some "/proj") true (Desk.typing [Some "no"]) eq_refl eq_refl).
  - vm_compute. tauto.
Defined.

(** X19.  In its default mode the [main] of the download script makes no
    call and asks nothing before the one question about all the paths, and
    it always comes to this question when the project root is found and
    the client is there, also when nothing is to be changed; after an
    answer that is not a yes it only reports the cancellation and returns
    false; after a yes the only questions left are those about deleting
    local files. *)
Theorem download_main_always_asks {os : OsPath} {oc : Outcomes} {sm : Similarity} {lt : LiveTree}
    (client_at : list Session.main_event -> s3_client)
    (tree_at : list Session.main_event -> filesystem)
    (a : DownloadMain.args) (project_root : option string) (connected : bool)
    (s : Session.session) :
  DownloadMain.dry_run a = false -> DownloadMain.yes a = false ->
  let run := DownloadMain.main client_at tree_at a project_root connected in
  gated (length (paths_to_sync (DownloadMain.paths a))) asks_about_deletions_only
    (main_log run s) (main_value run s)
  /\ (truthy project_root = true -> connected = true ->
      existsb is_asked_all (main_log run s) = true).
Proof.
  intros D Y run.
  exact (proj2 (achieves_log s (download_main_gated client_at tree_at a project_root
                                  connected D Y))).
Qed.

Lemma download_main_always_asks_witness :
  let run :=
    DownloadMain.main (os := Host.normal_paths) (oc := Host.all_succeed) (sm := Host.difflib) (lt := Host.files_stay)
      (fun _ => Host.site_bucket) (fun _ => Host.page_tree) Desk.download_page
      (Some "/proj") true in
  existsb is_asked_all (main_log run (Desk.typing [])) = true
  /\ main_value run (Desk.typing []) = false.
Proof.
  intros run. split.
  - exact (proj2 (@download_main_always_asks Host.normal_paths Host.all_succeed Host.difflib Host.files_stay
                    (fun _ => Host.site_bucket) (fun _ => Host.page_tree) Desk.download_page
                    (Some "/proj") true (Desk.typing []) eq_refl eq_refl)
             eq_refl eq_refl).
  - vm_compute. reflexivity.
Defined.

(** X20.  With [--dry-run] neither [main] makes a call or asks a
    question, whatever the other arguments. *)
Theorem main_dry_run_changes_nothing {os : OsPath} {oc : Outcomes} {sm : Similarity} {lt : LiveTree}
    (client_at : list Session.main_event -> s3_client)
    (tree_at : list Session.main_event -> filesystem)
    (up : UploadMain.args) (down : DownloadMain.args) (project_root : option string)
    (connected : bool) (s : Session.session) :
  UploadMain.dry_run up = true -> DownloadMain.dry_run down = true ->
  Forall prepares (main_log (UploadMain.main client_at tree_at up project_root connected) s)
  /\ Forall prepares
       (main_log (DownloadMain.main client_at tree_at down project_root connected) s).
Proof.
  intros U D. split.
  - exact (proj2 (achieves_log s (upload_main_dry client_at tree_at up project_root connected
                                    U))).
  - exact (proj2 (achieves_log s (download_main_dry client_at tree_at down project_root
                                    connected D))).
Qed.

Lemma main_dry_run_changes_nothing_witness :
  let run :=
    UploadMain.main (os := Host.normal_paths) (oc := Host.all_succeed)
      (fun _ => Host.logo_bucket) (fun _ => Host.logo_tree) Desk.upload_img_dry
      (Some "/proj") true in
  Forall prepares (main_log run (Desk.typing []))
  /\ In (Session.Said Session.MsgDryRunCompleted) (main_log run (Desk.typing [])).
Proof.
  intros run. split.
  - exact (proj1 (@main_dry_run_changes_nothing Host.normal_paths Host.all_succeed
                    Host.difflib Host.files_stay (fun _ => Host.logo_bucket) (fun _ => Host.logo_tree)
                    Desk.upload_img_dry Desk.download_img_dry (Some "/proj") true
                    (Desk.typing []) eq_refl eq_refl)).
  - vm_compute. tauto.
Defined.



(** X22.  In its default mode the [main] of the upload script asks the
    question about all the paths exactly when one of the previews, shown
    or captured, lists a change; when it does not ask although the project
    root was found and the client is there, it returns true. *)
Theorem upload_main_asks_when_a_preview_lists_a_change {os : OsPath} {oc : Outcomes}
    (client_at : list Session.main_event -> s3_client)
    (tree_at : list Session.main_event -> filesystem)
    (a : UploadMain.args) (project_root : option string) (connected : bool)
    (s : Session.session) :
  UploadMain.dry_run a = false -> UploadMain.yes a = false ->
  let run := UploadMain.main client_at tree_at a project_root connected in
  existsb is_asked_all (main_log run s) = existsb lists_change (main_log run s)
  /\ (truthy project_root = true -> connected = true ->
      existsb is_asked_all (main_log run s) = false -> main_value run s = true).
Proof.
  intros D Y run.
  exact (proj2 (achieves_log s (upload_main_asks_iff client_at tree_at a project_root
                                  connected D Y))).
Qed.

Lemma upload_main_asks_when_a_preview_lists_a_change_witness :
  let run :=
    UploadMain.main (os := Host.normal_paths) (oc := Host.all_succeed)
      (fun _ => Host.logo_bucket) (fun _ => Host.logo_tree) Desk.upload_img (Some "/proj")
      true in
  existsb is_asked_all (main_log run (Desk.typing [Some "yes"])) = true
  /\ existsb lists_change (main_log run (Desk.typing [Some "yes"])) = true.
Proof.
  intros run.
  pose proof (proj1 (@upload_main_asks_when_a_preview_lists_a_change Host.normal_paths
                       Host.all_succeed (fun _ => Host.logo_bucket) (fun _ => Host.logo_tree)
                       Desk.upload_img (Some "/proj") true (Desk.typing [Some "yes"])
                       eq_refl eq_refl)) as E.
  fold run in E. rewrite <- E. split; vm_compute; reflexivity.
Defined.

(** X23.  When the bucket cannot be listed at all, the [main] of the
    upload script in its default mode takes every path for unchanged: it
    reports that no changes were detected and returns true, without
    asking; with [--dry-run] or [--yes] it counts one failure for each
    path and returns false. *)
Theorem upload_main_when_nothing_can_be_listed {os : OsPath} {oc : Outcomes}
    (client_at : list Session.main_event -> s3_client)
    (tree_at : list Session.main_event -> filesystem)
    (a : UploadMain.args) (project_root : option string) (s : Session.session) :
  (forall l, unreachable (client_at l)) -> truthy project_root = true ->
  let run := UploadMain.main client_at tree_at a project_root true in
  let n := length (paths_to_sync (UploadMain.paths a)) in
  if negb (UploadMain.dry_run a) && negb (UploadMain.yes a)
  then main_value run s = true
       /\ main_log run s = [Session.Said (Session.MsgUploadSummary 0 0 0 0 0);
                            Session.Said (Session.MsgNoChangesDetected n)]
  else main_value run s = false
       /\ main_log run s = [Session.Said (if UploadMain.dry_run a
                                          then Session.MsgDryRunCompleted
                                          else Session.MsgCompletedWithFailures n)].
Proof.
  intros U T run n.
  exact (proj2 (achieves_log s (@upload_main_unreachable _ _ client_at tree_at a project_root
                                  U T))).
Qed.

Lemma upload_main_when_nothing_can_be_listed_witness :
  let run :=
    UploadMain.main (os := Host.normal_paths) (oc := Host.all_succeed)
      (fun _ => Desk.dead_client) (fun _ => Host.logo_tree) Desk.upload_img (Some "/proj")
      true in
  main_value run (Desk.typing []) = true
  /\ main_log run (Desk.typing [])
     = [Session.Said (Session.MsgUploadSummary 0 0 0 0 0);
        Session.Said (Session.MsgNoChangesDetected 1)].
Proof.
  intros run.
  assert (U : forall l : list Session.main_event, unreachable Desk.dead_client)
    by (intros l; split; reflexivity).
  exact (@upload_main_when_nothing_can_be_listed Host.normal_paths Host.all_succeed
           (fun _ => Desk.dead_client) (fun _ => Host.logo_tree) Desk.upload_img
           (Some "/proj") (Desk.typing []) U eq_refl).
Defined.

Section ProjectRootFacts.
Context {os : OsPath}.

Lemma ancestor_succ (f : string -> string) (k : nat) (dir : string) :
  ancestor f (S k) dir = ancestor f k (f dir).
Proof. unfold ancestor. now rewrite Nat.iter_succ_r. Qed.

Lemma ancestor_fixed (f : string -> string) (k : nat) (dir : string) :
  f dir = dir -> ancestor f k dir = dir.
Proof.
  intros H. induction k as [|k IH]; [reflexivity|]. unfold ancestor in *. simpl.
  now rewrite IH.
Qed.

Lemma climb_nearest (f : string -> string) (fs : filesystem) :
  shortens f ->
  forall fuel dir,
    (String.length dir < fuel)%nat ->
    exists result, climb f fuel fs dir = Some result /\ nearest_root f fs dir result.
Proof.
  intros Hf. induction fuel as [|fuel IH]; intros dir Hlen; [lia|].
  cbn [climb]. fold (has_index fs dir). destruct (has_index fs dir) eqn:Hi.
  - exists (Some dir). split; [reflexivity|]. exists 0%nat. repeat split; [exact Hi|].
    intros j Hj. lia.
  - destruct (f dir =? dir) eqn:E.
    + apply String.eqb_eq in E. exists None. split; [reflexivity|].
      intros k. now rewrite ancestor_fixed.
    + apply String.eqb_neq in E. pose proof (Hf dir E) as Hs.
      destruct (IH (f dir)) as (result & -> & Hn); [lia|].
      exists result. split; [reflexivity|]. destruct result as [d|]; simpl in *.
      * destruct Hn as (k & -> & Hd & Hb). exists (S k). rewrite ancestor_succ.
        repeat split; [exact Hd|]. intros [|j] Hj; [exact Hi|].
        rewrite ancestor_succ. apply Hb. lia.
      * intros [|k]; [exact Hi|]. rewrite ancestor_succ. apply Hn.
Qed.

(** [posixpath.dirname] returns a prefix of its argument. *)
Lemma chars_app (a b : string) : chars (a ++ b) = chars a ++ chars b.
Proof. induction a as [|x a IH]; simpl; [reflexivity|]. unfold chars in *. now rewrite IH. Qed.

Lemma str_app (l1 l2 : list ascii) : str (l1 ++ l2) = (str l1 ++ str l2)%string.
Proof. induction l1 as [|x l1 IH]; simpl; [reflexivity|]. unfold str in *. now rewrite IH. Qed.

Lemma reverse_app (a b : string) : reverse (a ++ b) = (reverse b ++ reverse a)%string.
Proof. unfold reverse. now rewrite chars_app, rev_app_distr, str_app. Qed.

Lemma reverse_involutive (s : string) : reverse (reverse s) = s.
Proof.
  unfold reverse, chars, str.
  now rewrite list_ascii_of_string_of_list_ascii, rev_involutive,
    string_of_list_ascii_of_string.
Qed.

Lemma lstrip_suffix (s : string) (c : ascii) : exists pre, s = (pre ++ lstrip s c)%string.
Proof.
  induction s as [|a s [pre IH]]; [now exists ""|]. simpl.
  destruct (Ascii.eqb a c); [|now exists ""].
  exists (String a pre). simpl. now rewrite <- IH.
Qed.

Lemma rstrip_prefix (s : string) (c : ascii) : startswith s (rstrip s c) = true.
Proof.
  unfold rstrip. destruct (lstrip_suffix (reverse s) c) as [pre E].
  rewrite <- (reverse_involutive s) at 1. rewrite E at 1. rewrite reverse_app.
  apply startswith_app.
Qed.

Lemma up_to_last_prefix (c : ascii) (s : string) : startswith s (up_to_last c s) = true.
Proof.
  induction s as [|a s IH]; [reflexivity|]. simpl.
  destruct (contains c s); simpl.
  - now rewrite Ascii.eqb_refl.
  - destruct (Ascii.eqb a c); simpl; [|reflexivity].
    rewrite Ascii.eqb_refl. apply startswith_nil.
Qed.

Lemma dirname_prefix (p : string) : startswith p (dirname p) = true.
Proof.
  unfold dirname. match goal with |- context [if ?b then _ else _] => destruct b end.
  - eapply startswith_trans; [apply up_to_last_prefix|apply rstrip_prefix].
  - apply up_to_last_prefix.
Qed.

Lemma prefix_shorter (s p : string) :
  startswith s p = true -> p <> s -> (String.length p < String.length s)%nat.
Proof.
  revert s. induction p as [|a p IH]; intros s H N.
  - destruct s; [congruence|simpl; lia].
  - destruct s as [|b s]; [discriminate|]. simpl in *.
    apply andb_true_iff in H as [Hab H]. apply Ascii.eqb_eq in Hab. subst b.
    assert (p <> s) by congruence. specialize (IH s H H0). lia.
Qed.

Lemma dirname_shortens : shortens dirname.
Proof. intros p N. apply prefix_shorter; [apply dirname_prefix|exact N]. Qed.
End ProjectRootFacts.

(** X24.  With a [dirname] that returns its argument or something
    shorter, the loop of [find_project_root] ends, and it returns the
    nearest directory with an [index.html] among the directory of the
    script and its ancestors, or nothing when none of them has one. *)
Theorem find_project_root_finds_the_nearest {os : OsPath}
    (os_path_dirname : string -> string) (fs : filesystem) (script_dir : string) :
  shortens os_path_dirname ->
  exists result,
    find_project_root os_path_dirname fs script_dir = Some result
    /\ nearest_root os_path_dirname fs script_dir result.
Proof.
  intros H. unfold find_project_root. apply climb_nearest; [exact H|lia].
Qed.

Lemma find_project_root_finds_the_nearest_witness :
  let fs := Host.tree [("/proj/index.html", File (Some "H0") 5);
                       ("/proj/scripts/index.js", File (Some "H1") 7)] in
  find_project_root (os := Host.normal_paths) dirname fs "/proj/scripts/aws/s3"
  = Some (Some "/proj")
  /\ exists result,
       find_project_root (os := Host.normal_paths) dirname fs "/proj/scripts/aws/s3"
       = Some result
       /\ nearest_root (os := Host.normal_paths) dirname fs "/proj/scripts/aws/s3" result.
Proof.
  intros fs. split; [reflexivity|].
  exact (@find_project_root_finds_the_nearest Host.normal_paths dirname fs
           "/proj/scripts/aws/s3" dirname_shortens).
Defined.

Section SsoFacts.
Import SsoAuth.
Context {sh : Shell}.

Lemma skipn_own {X} (t l : list X) : skipn (length t) (t ++ l) = l.
Proof. now rewrite skipn_app, skipn_all, Nat.sub_diag. Qed.

Lemma ensure_sso_authenticated_runs (t : list sso_event) :
  exists evs,
    snd (ensure_sso_authenticated t) = t ++ evs
    /\ let v := fst (ensure_sso_authenticated t) in
       let cs := commands_run evs in
       (cs = [(GetCallerIdentity, true)] /\ v = true)
       \/ (cs = [(GetCallerIdentity, false); (SsoLogin, false)] /\ v = false)
       \/ (exists ok,
             cs = [(GetCallerIdentity, false); (SsoLogin, true); (GetCallerIdentity, ok)]
             /\ v = ok).
Proof.
  unfold ensure_sso_authenticated, check_sso_session_valid, login_sso, sbind, run, tell, sret.
  destruct (subprocess_run t GetCallerIdentity) as [c1| | |] eqn:E1; cbn [fst snd];
    try destruct (c1 =? 0)%Z eqn:Z1; cbn [fst snd];
    try (eexists; split; [reflexivity|]; left; simpl; rewrite Z1; auto; fail);
    match goal with
    | |- context [subprocess_run ?t2 SsoLogin] =>
        destruct (subprocess_run t2 SsoLogin) as [c2| | |] eqn:E2
    end; cbn [fst snd];
    try destruct (c2 =? 0)%Z eqn:Z2; cbn [fst snd];
    try (eexists; split; [rewrite <- !app_assoc; reflexivity|]; right; left; simpl;
         rewrite ?Z1, ?Z2; auto; fail);
    match goal with
    | |- context [subprocess_run ?t3 GetCallerIdentity] =>
        destruct (subprocess_run t3 GetCallerIdentity) as [c3| | |] eqn:E3
    end; cbn [fst snd];
    try destruct (c3 =? 0)%Z eqn:Z3; cbn [fst snd];
    (eexists; split; [rewrite <- !app_assoc; reflexivity|]); right; right; eexists; simpl;
    rewrite ?Z1, ?Z2, ?Z3; auto.
Qed.

Lemma commands_run_app (l1 l2 : list sso_event) :
  commands_run (l1 ++ l2) = commands_run l1 ++ commands_run l2.
Proof. unfold commands_run. apply flat_map_app. Qed.

Lemma get_s3_client_runs (session_client : bool) (t : list sso_event) :
  fst (get_s3_client session_client t) = fst (ensure_sso_authenticated t) && session_client
  /\ commands_run (sso_trace (get_s3_client session_client) t)
     = commands_run (sso_trace ensure_sso_authenticated t).
Proof.
  destruct (ensure_sso_authenticated_runs t) as (evs & E & _).
  unfold sso_trace, get_s3_client, sbind. rewrite E.
  destruct (ensure_sso_authenticated t) as [v t']. cbn [fst snd] in *. subst t'.
  destruct v; cbn [negb]; [destruct session_client|]; unfold tell, sret; cbn [fst snd];
    rewrite <- ?app_assoc, !skipn_own, ?commands_run_app; simpl; now rewrite ?app_nil_r.
Qed.
End SsoFacts.

(** X25.  [ensure_sso_authenticated] runs one of three sequences of
    commands: the identity check alone, which succeeded; the check, which
    failed, and a login that failed; or the failed check, a login that
    succeeded and a second check.  It returns true in the first case,
    false in the second and the result of the second check in the third:
    never on the word of the login alone.  [get_s3_client] runs the same
    commands and returns a client only if [ensure_sso_authenticated]
    returned true. *)
Theorem sso_login_only_after_a_failed_check {sh : SsoAuth.Shell} (session_client : bool)
    (t : list SsoAuth.sso_event) :
  let v := fst (SsoAuth.ensure_sso_authenticated t) in
  let cs := commands_run (sso_trace SsoAuth.ensure_sso_authenticated t) in
  ((cs = [(SsoAuth.GetCallerIdentity, true)] /\ v = true)
   \/ (cs = [(SsoAuth.GetCallerIdentity, false); (SsoAuth.SsoLogin, false)] /\ v = false)
   \/ (exists ok,
         cs = [(SsoAuth.GetCallerIdentity, false); (SsoAuth.SsoLogin, true);
               (SsoAuth.GetCallerIdentity, ok)]
         /\ v = ok))
  /\ fst (SsoAuth.get_s3_client session_client t) = v && session_client
  /\ commands_run (sso_trace (SsoAuth.get_s3_client session_client) t) = cs.
Proof.
  intros v cs. split; [|apply get_s3_client_runs].
  destruct (ensure_sso_authenticated_runs t) as (evs & E & H).
  subst cs. unfold sso_trace. rewrite E, skipn_own. exact H.
Qed.

Section FormatSize.

Lemma below_1024_true (x : Q) : below_1024 x = true -> (x < 1024)%Q.
Proof.
  unfold below_1024. intros H. apply negb_true_iff in H.
  apply Qnot_le_lt. intros L. apply Qle_bool_iff in L. congruence.
Qed.

Lemma below_1024_false (x : Q) : below_1024 x = false -> (1024 <= x)%Q.
Proof.
  unfold below_1024. intros H. apply negb_false_iff in H. now apply Qle_bool_iff.
Qed.

Lemma scale_spec (units : list string) :
  forall x m unit,
    scale units x = (m, unit) ->
    exists k,
      nth_error (units ++ ["PB"]) k = Some unit
      /\ (m * inject_Z (1024 ^ Z.of_nat k) == x)%Q
      /\ (k = length units \/ (m < 1024)%Q)
      /\ (k = 0%nat \/ (1 <= m)%Q).
Proof.
  induction units as [|u units IH]; intros x m unit E; simpl in E.
  - injection E as <- <-. exists 0%nat. simpl. repeat split; auto. ring.
  - destruct (below_1024 x) eqn:B.
    + injection E as <- <-. exists 0%nat. simpl. repeat split; auto; [ring|].
      right. now apply below_1024_true.
    + apply below_1024_false in B. apply IH in E as (k & Hn & Hm & Hk & H1).
      exists (S k). split; [exact Hn|]. split; [|split].
      * rewrite Nat2Z.inj_succ, Z.pow_succ_r by lia. rewrite inject_Z_mult.
        setoid_replace (m * (inject_Z 1024 * inject_Z (1024 ^ Z.of_nat k)))%Q
          with ((m * inject_Z (1024 ^ Z.of_nat k)) * 1024)%Q by ring.
        rewrite Hm. field.
      * destruct Hk as [->|Hk]; [left; reflexivity|right; exact Hk].
      * right. destruct H1 as [->|H1]; [|exact H1].
        simpl in Hm. setoid_replace m with (x / 1024)%Q by (rewrite <- Hm; ring).
        apply Qle_shift_div_l; [reflexivity|]. exact B.
Qed.

Lemma round_half_even_comp (x y : Q) : (x == y)%Q -> round_half_even x = round_half_even y.
Proof.
  intros E. unfold round_half_even. rewrite (Qfloor_comp _ _ E).
  assert (C : ((x - inject_Z (Qfloor y) ?= 1 # 2) = (y - inject_Z (Qfloor y) ?= 1 # 2))%Q)
    by (apply Qcompare_comp; [now rewrite E|reflexivity]).
  now rewrite C.
Qed.

Lemma Qle_bool_comp (x y : Q) : (x == y)%Q -> Qle_bool 0 x = Qle_bool 0 y.
Proof.
  intros E. destruct (Qle_bool 0 x) eqn:A, (Qle_bool 0 y) eqn:B; try reflexivity.
  - apply Qle_bool_iff in A. rewrite E in A. apply Qle_bool_iff in A. congruence.
  - apply Qle_bool_iff in B. rewrite <- E in B. apply Qle_bool_iff in B. congruence.
Qed.

Lemma two_decimals_comp (x y : Q) : (x == y)%Q -> two_decimals x = two_decimals y.
Proof.
  intros E. unfold two_decimals, hundredths.
  rewrite (Qle_bool_comp E), (@round_half_even_comp (x * 100) (y * 100)); [reflexivity|].
  now rewrite E.
Qed.

(** Rounding moves a number by a half at most. *)
Lemma round_half_even_near (x : Q) :
  (Qabs (inject_Z (round_half_even x) - x) <= 1 # 2)%Q.
Proof.
  unfold round_half_even.
  pose proof (Qfloor_le x) as L. pose proof (Qlt_floor x) as U.
  set (b := Qfloor x) in *. rewrite inject_Z_plus in U.
  change (inject_Z 1) with 1%Q in U.
  apply Qabs_Qle_condition.
  destruct (x - inject_Z b ?= 1 # 2)%Q eqn:C.
  - apply Qeq_alt in C. destruct (Z.even b); rewrite ?inject_Z_plus;
      change (inject_Z 1) with 1%Q; lra.
  - apply Qlt_alt in C. lra.
  - apply Qgt_alt in C. rewrite inject_Z_plus. change (inject_Z 1) with 1%Q. lra.
Qed.

Lemma round_half_even_mono (x : Q) (n : Z) :
  (x <= inject_Z n)%Q -> (round_half_even x <= n)%Z.
Proof.
  intros H. unfold round_half_even.
  pose proof (Qfloor_le x) as L. set (b := Qfloor x) in *.
  assert (Hb : (b <= n)%Z).
  { rewrite Zle_Qle. lra. }
  destruct (x - inject_Z b ?= 1 # 2)%Q eqn:C; [destruct (Z.even b)| |]; try lia.
  - apply Qeq_alt in C. destruct (Z.eq_dec b n) as [->|]; [lra|lia].
  - apply Qgt_alt in C. destruct (Z.eq_dec b n) as [->|]; [lra|lia].
Qed.
End FormatSize.

(** X26.  For a size that a float holds exactly, [format_size] returns
    the size divided by the power of 1024 that goes with the unit (B, KB,
    MB, GB, TB, PB in this order), written with two decimals, a space and
    the unit.  The quotient is below 1024 unless the unit is PB, and at
    least 1 unless the unit is B, so a size below 1024, zero and negative
    sizes included, is given in bytes.  The hundredths written are within
    a half of those of the quotient, so the number written is at most
    1024.00 unless the unit is PB; it is 1024.00 for 1048575 bytes. *)
Theorem format_size_picks_the_unit (size_bytes : Z) :
  (Z.abs size_bytes < 2 ^ 53)%Z ->
  exists k unit,
    let quotient := (inject_Z size_bytes / inject_Z (1024 ^ Z.of_nat k))%Q in
    nth_error ["B"; "KB"; "MB"; "GB"; "TB"; "PB"] k = Some unit
    /\ format_size size_bytes = (two_decimals quotient ++ " " ++ unit)%string
    /\ (k = 5%nat \/ (quotient < 1024)%Q)
    /\ (k = 0%nat \/ (1 <= quotient)%Q)
    /\ (Qabs (inject_Z (hundredths quotient) - quotient * 100) <= 1 # 2)%Q
    /\ (k = 5%nat \/ (hundredths quotient <= 102400)%Z).
Proof.
  intros _. unfold format_size.
  destruct (scale ["B"; "KB"; "MB"; "GB"; "TB"] (inject_Z size_bytes)) as [m unit] eqn:E.
  apply scale_spec in E as (k & Hn & Hm & Hk & H1).
  exists k, unit. cbv zeta.
  set (quotient := (inject_Z size_bytes / inject_Z (1024 ^ Z.of_nat k))%Q).
  assert (P : (0 < 1024 ^ Z.of_nat k)%Z) by (apply Z.pow_pos_nonneg; lia).
  assert (Q0 : (m == quotient)%Q).
  { assert (NZ : ~ (inject_Z (1024 ^ Z.of_nat k) == 0)%Q).
    { intros N. apply (Qlt_not_eq 0 (inject_Z (1024 ^ Z.of_nat k))); [|now symmetry].
      change 0%Q with (inject_Z 0). now rewrite <- Zlt_Qlt. }
    subst quotient. rewrite <- Hm. now field. }
  split; [exact Hn|]. split; [now rewrite (two_decimals_comp Q0)|].
  split; [destruct Hk as [->|Hk]; [now left|right; now rewrite <- Q0]|].
  split; [destruct H1 as [->|H1]; [now left|right; now rewrite <- Q0]|].
  split; [apply round_half_even_near|].
  destruct Hk as [->|Hk]; [now left|right]. apply round_half_even_mono.
  rewrite <- Q0. change (inject_Z 102400) with (1024 * 100)%Q. lra.
Qed.

Lemma format_size_picks_the_unit_witness :
  (Z.abs 1048575 < 2 ^ 53)%Z
  /\ format_size 1048575 = "1024.00 KB"
  /\ format_size 1536 = "1.50 KB"
  /\ exists k unit,
       let quotient := (inject_Z 1048575 / inject_Z (1024 ^ Z.of_nat k))%Q in
       nth_error ["B"; "KB"; "MB"; "GB"; "TB"; "PB"] k = Some unit
       /\ format_size 1048575 = (two_decimals quotient ++ " " ++ unit)%string
       /\ (k = 5%nat \/ (quotient < 1024)%Q)
       /\ (k = 0%nat \/ (1 <= quotient)%Q)
       /\ (Qabs (inject_Z (hundredths quotient) - quotient * 100) <= 1 # 2)%Q
       /\ (k = 5%nat \/ (hundredths quotient <= 102400)%Z).
Proof.
  assert (H : (Z.abs 1048575 < 2 ^ 53)%Z) by reflexivity.
  split; [exact H|]. split; [reflexivity|]. split; [reflexivity|].
  exact (format_size_picks_the_unit 1048575 H).
Defined.

Section OneKey.
Context {os : OsPath} {oc : Outcomes} {sm : Similarity} {lt : LiveTree}.

Lemma upload_sync_calls_exactly (bucket local_dir : string) (local_files : dict file_info)
    (s3_objects : list s3_object) (prefix : string) (force dry_run : bool)
    (scope : option string) (key : string) :
  nonempty prefix = true ->
  (forall rel info, In (rel, info) local_files -> (prefix ++ rel)%string = key) ->
  (forall obj, In obj s3_objects -> Key obj = key) ->
  emits (upload_call_is bucket key)
    (Upload.sync_to_s3 bucket local_dir local_files s3_objects prefix force dry_run scope).
Proof.
  intros Hp Hl Ho. unfold Upload.sync_to_s3.
  destruct (build_s3_files s3_objects prefix scope [] []) as [s3_files markers] eqn:B.
  destruct (build_s3_files_sources _ _ _ _ _ B) as [F K].
  apply emits_bind.
  { apply emits_for_each. intros [rel info] r Hin.
    unfold Upload.process_local_file, Upload.upload_file. rewrite Hp.
    pose proof (Hl _ _ Hin) as E. emits_auto; try (split; [reflexivity|exact E]). }
  intros r. apply emits_bind.
  { apply emits_for_each. intros [[k rel] size] r' Hin.
    apply orphaned_keys_In in Hin as (info & Hin & <- & _).
    apply F in Hin as [[]|(obj & Hobj & _ & _ & ->)]. simpl.
    unfold Upload.delete_orphan, Upload.delete_s3_object.
    emits_auto; try (split; [reflexivity|now apply Ho]). }
  intros r'. destruct local_files; [|apply emits_ret].
  destruct (Upload.orphaned_keys _ _ _); [apply emits_ret|].
  apply emits_bind; [|intros; apply emits_ret].
  apply emits_for_each. intros k r'' Hin.
  apply K in Hin as [[]|(obj & Hobj & _ & <-)].
  unfold Upload.delete_folder_marker, Upload.delete_s3_object.
  emits_auto; try (split; [reflexivity|now apply Ho]).
Qed.

(** The listing of a file-scoped run holds the one key at most. *)
Lemma probe_single_key_lists (s3 : s3_client) (bucket key : string) (objs : list s3_object) :
  probe_single_key s3 bucket key = Some objs -> forall obj, In obj objs -> Key obj = key.
Proof.
  unfold probe_single_key. destruct (head_object s3 bucket key); intros [= <-] obj H;
    [destruct H as [<-|[]]; reflexivity|destruct H].
Qed.

(** The scan of a file holds the one file at most. *)
Lemma upload_scan_of_file (fs : filesystem) (local_path : string) :
  os_path_normpath local_path = local_path -> isfile fs local_path = true ->
  forall rel info,
    In (rel, info) (Upload.scan_local_files fs local_path) ->
    rel = basename local_path /\ file_path info = local_path.
Proof.
  intros N F rel info. unfold Upload.scan_local_files. rewrite N.
  unfold isfile in F. destruct (fs local_path) as [[etag size|entries]|]; try discriminate.
  match goal with |- context [if ?b then _ else _] => destruct b end; [|intros []].
  unfold Upload.add_scanned. destruct etag as [h|]; [|intros []].
  destruct (nonempty h); [|intros []]. simpl. intros [[= <- <-]|[]]. auto.
Qed.

Lemma download_scan_of_file (fs : filesystem) (local_path : string) :
  os_path_normpath local_path = local_path -> isfile fs local_path = true ->
  forall rel info,
    In (rel, info) (Download.scan_local_files fs local_path) ->
    rel = basename local_path /\ file_path info = local_path.
Proof.
  intros N F rel info. unfold Download.scan_local_files. rewrite N.
  unfold isfile in F. destruct (fs local_path) as [[etag size|entries]|]; try discriminate.
  match goal with |- context [if ?b then _ else _] => destruct b end; [|intros []].
  unfold Download.add_scanned. destruct etag as [h|]; [|intros []].
  destruct (nonempty h); [|intros []]. simpl. intros [[= <- <-]|[]]. auto.
Qed.

Lemma run_local_path_normal (fs : filesystem) (project_root project_path : string)
    (bucket_override prefix_override : option string) :
  let local_path :=
    run_local_path fs project_root project_path bucket_override prefix_override in
  os_path_normpath local_path = local_path.
Proof. unfold run_local_path, parse_project_path. cbn [snd]. apply os_path_normpath_idem. Qed.

Lemma upload_file_run_calls (s3 : s3_client) (fs : filesystem)
    (project_root project_path : string) (bucket_override prefix_override : option string)
    (force dry_run yes return_preview_info : bool) :
  path_is_file fs
    (run_local_path fs project_root project_path bucket_override prefix_override)
    project_path = true ->
  emits (upload_call_is
           (run_bucket fs project_root project_path bucket_override prefix_override)
           (run_scope fs project_root project_path bucket_override prefix_override))
    (Upload.sync_single_path s3 fs project_root project_path bucket_override
       prefix_override force dry_run yes return_preview_info).
Proof.
  pose proof (run_prefix_shape fs project_root project_path bucket_override prefix_override)
    as [Hend _].
  pose proof (run_local_path_normal fs project_root project_path bucket_override
                prefix_override) as Hn.
  unfold Upload.sync_single_path, run_bucket, run_scope, run_prefix, run_local_path in *.
  destruct (parse_project_path fs project_root project_path bucket_override prefix_override)
    as [[bucket prefix] local_path]. cbn [fst snd] in *.
  intros Hf. rewrite Hf. cbn [scope_of].
  set (filename := scope_filename fs local_path project_path).
  destruct (probe_single_key s3 bucket (prefix ++ filename)) as [s3_objects|] eqn:L;
    [|apply emits_ret].
  apply emits_bind; [apply emits_print; exact I|].
  intros _. apply emits_bind; [|intros; apply emits_ret].
  apply upload_run_sync_emits; simpl; auto.
  intros dry _. apply upload_sync_calls_exactly.
  - now apply endswith_nonempty.
  - intros rel info Hin. unfold path_is_file in Hf. subst filename. unfold scope_filename.
    destruct (exists_ fs local_path); [|destruct Hin].
    apply upload_scan_of_file in Hin as [-> _]; auto.
  - now apply probe_single_key_lists with (1 := L).
Qed.

Lemma file_run_scope (fs : filesystem) (project_root project_path : string)
    (bucket_override prefix_override : option string) :
  let local_path :=
    run_local_path fs project_root project_path bucket_override prefix_override in
  exists_ fs local_path = true -> isfile fs local_path = true ->
  run_scope fs project_root project_path bucket_override prefix_override
  = ((if truthy prefix_override
      then match prefix_override with
           | Some p => with_trailing_slash p
           | None => S3_PREFIX
           end
      else S3_PREFIX) ++ basename local_path)%string.
Proof.
  unfold run_scope, run_prefix, run_local_path, path_is_file, scope_filename,
    parse_project_path. cbn [fst snd]. intros E F. rewrite E, F. cbn [scope_of andb].
  destruct (truthy prefix_override); [reflexivity|].
  assert (D : isdir fs (os_path_normpath
                          (os_path_join project_root (strip_leading project_path))) = false).
  { unfold isfile in F. unfold isdir.
    destruct (fs _) as [[|]|]; [reflexivity|discriminate|reflexivity]. }
  now rewrite D.
Qed.
End OneKey.

(** X27.  An upload run for a path that is taken for a file makes calls
    on one key only: every upload and every deletion is on the scope key of
    the run, in the bucket of the run.  For a file that exists this key is
    the base prefix (the override, or [games/pull-tabs/]) followed by the
    base name of the file, whatever directory the file is in. *)
Theorem upload_file_run_touches_one_key {os : OsPath} {oc : Outcomes}
    (s3 : s3_client) (fs : filesystem) (project_root project_path : string)
    (bucket_override prefix_override : option string)
    (force dry_run yes return_preview_info : bool) (w : world) :
  let local_path :=
    run_local_path fs project_root project_path bucket_override prefix_override in
  let scope := run_scope fs project_root project_path bucket_override prefix_override in
  path_is_file fs local_path project_path = true ->
  Forall (upload_call_is
            (run_bucket fs project_root project_path bucket_override prefix_override) scope)
    (emitted (Upload.sync_single_path s3 fs project_root project_path bucket_override
                prefix_override force dry_run yes return_preview_info) w)
  /\ (exists_ fs local_path = true ->
      scope = ((if truthy prefix_override
                then match prefix_override with
                     | Some p => with_trailing_slash p
                     | None => S3_PREFIX
                     end
                else S3_PREFIX) ++ basename local_path)%string).
Proof.
  intros local_path scope Hf. split.
  - apply emits_emitted. now apply upload_file_run_calls.
  - intros E. apply file_run_scope; [exact E|].
    unfold path_is_file in Hf. fold local_path in Hf. now rewrite E in Hf.
Qed.

Lemma upload_file_run_touches_one_key_witness :
  let fs := Host.tree [("/proj/css/site.css", File (Some "H1") 9)] in
  let run :=
    Upload.sync_single_path (os := Host.normal_paths) (oc := Host.all_succeed)
      Host.site_bucket fs "/proj" "css/site.css" None None false false true false in
  run_scope (os := Host.normal_paths) fs "/proj" "css/site.css" None None
  = "games/pull-tabs/site.css"
  /\ Forall (upload_call_is "llg-games" "games/pull-tabs/site.css")
       (emitted run (Host.quiet []))
  /\ In (Called (S3UploadFile "/proj/css/site.css" "llg-games" "games/pull-tabs/site.css")
           true)
        (emitted run (Host.quiet [])).
Proof.
  intros fs run. split; [reflexivity|]. split.
  - exact (proj1 (@upload_file_run_touches_one_key Host.normal_paths Host.all_succeed
                    Host.site_bucket fs "/proj" "css/site.css" None None false false true
                    false (Host.quiet []) eq_refl)).
  - vm_compute. tauto.
Defined.

Section OneFile.
Context {os : OsPath} {oc : Outcomes} {sm : Similarity} {lt : LiveTree}.

Lemma emits_conj {A} (P Q : event -> Prop) (m : io A) :
  emits P m -> emits Q m -> emits (fun e => P e /\ Q e) m.
Proof.
  intros HP HQ w. destruct (emits_emitted w HP) as [E FP].
  destruct (emits_emitted w HQ) as [_ FQ]. exists (emitted m w). split; [exact E|].
  revert FP FQ. generalize (emitted m w). induction 1 as [|e l He _ IH]; intros FQ;
    [constructor|].
  inversion FQ; subst. constructor; auto.
Qed.

Lemma download_sync_lands_on (fs : filesystem) (bucket project_root : string)
    (local_files : dict file_info) (s3_objects : list s3_object) (prefix base : string)
    (force dry_run : bool) (scope : option string) :
  (if exists_ fs base then isfile fs base else negb (Download.is_directory_scope scope))
  = true ->
  emits (download_lands_on base)
    (Download.sync_from_s3 fs bucket project_root local_files s3_objects prefix base
       force dry_run scope).
Proof.
  intros Hf. unfold Download.sync_from_s3.
  destruct (build_s3_files s3_objects prefix scope [] []) as [s3_files markers].
  rewrite Hf.
  apply emits_bind.
  { unfold Download.transfer_and_rename. apply emits_bind.
    { apply emits_for_each. intros [rel info] r _.
      unfold Download.process_s3_file, Download.download_file, Download.local_target.
      emits_auto. }
    intros r. apply emits_for_each. intros [old info] r' _.
    unfold Download.process_rename, Download.download_file, Download.delete_local_file,
      Download.local_target.
    emits_auto. }
  intros r'. apply emits_bind.
  { unfold Download.confirm_deletions.
    match goal with |- emits _ (match ?l with _ => _ end) => destruct l end; emits_auto. }
  intros orphans. apply emits_bind; [|intros; apply emits_ret].
  apply emits_for_each. intros [[path rel] size] r'' _.
  unfold Download.delete_orphan, Download.delete_local_file. emits_auto.
Qed.

Lemma endswith_slash_app (a b : string) :
  contains slash b = false -> b <> "" -> endswith (a ++ b) "/" = false.
Proof.
  intros Hc Hb. destruct (endswith (a ++ b) "/") eqn:E; [exfalso|reflexivity].
  induction a as [|x a IH].
  - simpl in E. apply endswith_slash_contains in E. congruence.
  - change (String x a ++ b)%string with (String x (a ++ b)) in E.
    destruct (endswith_slash_cases _ _ E) as [N|E']; [|auto].
    destruct a; simpl in N; [auto|discriminate].
Qed.

Lemma file_run_is_file_sync (fs : filesystem) (local_path project_path prefix : string) :
  path_is_file fs local_path project_path = true ->
  (if exists_ fs local_path then isfile fs local_path
   else negb (Download.is_directory_scope
                (Some (prefix ++ scope_filename fs local_path project_path)%string)))
  = true.
Proof.
  unfold path_is_file, scope_filename. destruct (exists_ fs local_path); [auto|].
  intros H. apply andb_true_iff in H as [Hd _]. apply negb_true_iff.
  unfold Download.is_directory_scope. rewrite endswith_slash_app; [apply andb_false_r| |].
  - unfold basename. apply after_last_clean.
  - intros N. rewrite N in Hd. discriminate.
Qed.

Lemma download_file_run_calls (s3 : s3_client) (fs : filesystem)
    (project_root project_path : string) (bucket_override prefix_override : option string)
    (force dry_run yes return_preview_info : bool) :
  path_is_file fs
    (run_local_path fs project_root project_path bucket_override prefix_override)
    project_path = true ->
  emits (download_call_is
           (run_bucket fs project_root project_path bucket_override prefix_override)
           (run_scope fs project_root project_path bucket_override prefix_override)
           (run_local_path fs project_root project_path bucket_override prefix_override))
    (Download.sync_single_path s3 fs project_root project_path bucket_override
       prefix_override force dry_run yes return_preview_info).
Proof.
  pose proof (run_local_path_normal fs project_root project_path bucket_override
                prefix_override) as Hn.
  unfold Download.sync_single_path, run_bucket, run_scope, run_prefix, run_local_path in *.
  destruct (parse_project_path fs project_root project_path bucket_override prefix_override)
    as [[bucket prefix] local_path]. cbn [fst snd] in *.
  intros Hf. rewrite Hf. cbn [scope_of].
  set (filename := scope_filename fs local_path project_path).
  destruct (probe_single_key s3 bucket (prefix ++ filename)) as [s3_objects|] eqn:L;
    [|apply emits_ret].
  apply emits_bind; [apply emits_print; exact I|].
  intros _. apply emits_bind; [|intros; apply emits_ret].
  apply download_run_sync_emits; simpl; auto.
  intros dry _.
  set (local_files := if exists_ fs local_path then Download.scan_local_files fs local_path
                      else []).
  eapply emits_weaken;
    [|apply emits_conj;
      [apply (@download_sync_touches _ _ _ _ fs bucket project_root local_files s3_objects
                prefix local_path force dry (Some (prefix ++ filename)%string))
      |apply (@download_sync_lands_on fs bucket project_root local_files s3_objects prefix
                local_path force dry (Some (prefix ++ filename)%string));
       now apply file_run_is_file_sync]].
  intros e [T Ld]. destruct e as [[lp b k|b k|b k lp|lp|lp|d] ok|q a|m]; simpl in *; auto.
  - destruct T as [-> (obj & Hobj & _ & <-)]. repeat split; [|exact Ld].
    now apply probe_single_key_lists with (1 := L).
  - destruct T as (rel & info & Hin & <- & _). subst local_files.
    unfold path_is_file in Hf. destruct (exists_ fs local_path); [|destruct Hin].
    now apply download_scan_of_file in Hin as [_ ->].
  - destruct T as (rel & info & Hin & <- & _). subst local_files.
    unfold path_is_file in Hf. destruct (exists_ fs local_path); [|destruct Hin].
    now apply download_scan_of_file in Hin as [_ ->].
Qed.
End OneFile.

(** X28.  A download run for a path that is taken for a file makes
    calls on one key and one local path only: every download is of the
    scope key of the run, from the bucket of the run, to the local path
    of the run; [create_local_directory] is called for that path only, the
    only local file removed is that path, and the only directory removed
    is the one that path is in, once it is empty. *)
Theorem download_file_run_touches_one_file {os : OsPath} {oc : Outcomes}
    {sm : Similarity} {lt : LiveTree}
    (s3 : s3_client) (fs : filesystem) (project_root project_path : string)
    (bucket_override prefix_override : option string)
    (force dry_run yes return_preview_info : bool) (w : world) :
  let local_path :=
    run_local_path fs project_root project_path bucket_override prefix_override in
  path_is_file fs local_path project_path = true ->
  Forall (download_call_is
            (run_bucket fs project_root project_path bucket_override prefix_override)
            (run_scope fs project_root project_path bucket_override prefix_override)
            local_path)
    (emitted (Download.sync_single_path s3 fs project_root project_path bucket_override
                prefix_override force dry_run yes return_preview_info) w).
Proof.
  intros local_path Hf. apply emits_emitted. now apply download_file_run_calls.
Qed.

Lemma download_file_run_touches_one_file_witness :
  let fs := Host.tree [("/proj/notes/old.txt", File (Some "H9") 3)] in
  let run :=
    Download.sync_single_path (os := Host.normal_paths) (oc := Host.all_succeed)
      (sm := Host.difflib) (lt := Host.directories_empty) Host.site_bucket fs "/proj"
      "notes/old.txt" None None false false true false in
  Forall (download_call_is "llg-games" "games/pull-tabs/old.txt" "/proj/notes/old.txt")
    (emitted run (Host.quiet [Some "yes"]))
  /\ emitted run (Host.quiet [Some "yes"])
     = [Printed (MsgPreview [] [] [] ["old.txt"] [] []);
        Printed (MsgWillDeleteLocal 1);
        Asked AskDeleteLocalFiles (Some "yes");
        Printed (MsgDeleting "old.txt");
        Called (RemoveLocalFile "/proj/notes/old.txt") true;
        Called (RemoveDirectory "/proj/notes") true].
Proof.
  intros fs run. split.
  - exact (@download_file_run_touches_one_file Host.normal_paths Host.all_succeed
             Host.difflib Host.directories_empty Host.site_bucket fs "/proj" "notes/old.txt"
             None None false false true false (Host.quiet [Some "yes"]) eq_refl).
  - reflexivity.
Defined.
